(** * PriusExtract: the archive codec, string table, Patricia trie,
      repack accounting and patch pipeline, embedded from the TypeScript
      sources and checked against the written specification.

    Conventions of the embedding.
    - A Node [Buffer] is a [list byte]; offsets, lengths and every JavaScript
      number are [Z] (all the numbers the code manipulates are integers far
      below 2^53, where doubles are exact).
    - [x >>> 0] is [u32 x]; [writeUInt32LE] stores the four little-endian
      bytes of its argument, [readUInt32LE] reads them back and throws when
      the four bytes are not inside the buffer.
    - A thrown [Error] is a value of [error], one constructor per [throw]
      site of the sources; [kind_of] files each of them under the
      language-neutral error kinds of the specification. *)

From Stdlib Require Import ZArith Lia List Bool.
From Stdlib.Strings Require Import Byte.
From stdpp Require Import base option list countable gmap.
Import ListNotations.

#[local] Open Scope Z_scope.

(* ===================================================================== *)
(** * Part I: the embedding                                               *)
(* ===================================================================== *)

(** ** Errors *)

Inductive error : Set :=
  | RangeError                    (* Buffer access outside the buffer *)
  | UnexpectedMagic               (* "Unexpected magic ..." *)
  | SuspiciousChannelCount        (* "Suspicious channel_count=..." *)
  | InvalidPagesPerStripe         (* "Invalid pages-per-stripe configuration" *)
  | CouldNotInferPageSize         (* "Could not infer idx page size" *)
  | DtNodeOutOfRange              (* "DT node index out of range" *)
  | MetaIndexOutOfRange           (* "Meta index out of range" *)
  | FatBlockOutOfRange            (* "FAT block id out of range" *)
  | StringIndexLoop               (* "String index loop detected" *)
  | StringRecordOutOfRange        (* "String record index out of range" *)
  | DatPathRequired               (* "datPath is required for extraction" *)
  | InvalidStartBlock             (* "Invalid start block 0xFFFFFFFF" *)
  | ShortDatRead                  (* "Short DAT read at block ..." *)
  | UnexpectedEndOfFatChain       (* "Unexpected end of FAT chain" *)
  | UnexpectedExtractedSize       (* "Unexpected extracted size" *)
  | TruncatedWrappedFile          (* "Truncated wrapped file" *)
  | InflateFailure                (* zlib.inflateSync threw *)
  | DecodedSizeMismatch           (* "Size mismatch: decoded=... declared=..." *)
  | UnsupportedWrapperSizeMismatch(* "Unsupported wrapper type=... and size mismatch" *)
  | LengthMismatch                (* "keys/stringIndices/metaIndices length mismatch" *)
  | DuplicateKey                  (* "Duplicate key: ..." *)
  | UndefinedElement              (* property access on an array hole *)
  | DatNotAligned                 (* "DAT size is not 512-byte aligned" *)
  | DatFatMismatch                (* "DAT/FAT mismatch" *)
  | IdxFatSizeMismatch            (* "IDX FAT size mismatch" *)
  | FatCapacityExceeded           (* "FAT channel capacity exceeded" *)
  | MetaOutOfCapacity             (* "Meta index out of capacity" *)
  | DatSizeChanged                (* "DAT size changed during patch preparation" *)
  | VerificationErrors            (* "N verification error(s) after patch." *)
  | ShortIdxWrite                 (* "Short IDX write at channel=..." *)
  | NotANumber                    (* arithmetic that yields NaN in JavaScript *)
  | IoFailure.                    (* an exception of node:fs or of a worker *)

(** The error kinds of the specification (its section 7). *)
Inductive error_kind : Set :=
  | UnrecognizedLayout | CorruptWrapper | ShortRead | UnexpectedEndOfChain
  | InvalidStartBlockKind | DuplicateKeyKind | CycleInStringChain
  | InconsistentArchive | CapacityExceeded | VerificationFailed | IoError
  | OutOfRange.

Definition kind_of (e : error) : error_kind :=
  match e with
  | UnexpectedMagic | SuspiciousChannelCount | InvalidPagesPerStripe
  | CouldNotInferPageSize => UnrecognizedLayout
  | TruncatedWrappedFile | InflateFailure | DecodedSizeMismatch
  | UnsupportedWrapperSizeMismatch => CorruptWrapper
  | ShortDatRead | UnexpectedExtractedSize => ShortRead
  | UnexpectedEndOfFatChain => UnexpectedEndOfChain
  | InvalidStartBlock => InvalidStartBlockKind
  | DuplicateKey => DuplicateKeyKind
  | StringIndexLoop => CycleInStringChain
  | DatNotAligned | DatFatMismatch | IdxFatSizeMismatch | DatSizeChanged =>
      InconsistentArchive
  | FatCapacityExceeded | MetaOutOfCapacity => CapacityExceeded
  | VerificationErrors => VerificationFailed
  | IoFailure | ShortIdxWrite => IoError
  | RangeError | DtNodeOutOfRange | MetaIndexOutOfRange | FatBlockOutOfRange
  | StringRecordOutOfRange | LengthMismatch | UndefinedElement
  | DatPathRequired | NotANumber => OutOfRange
  end.

(** A computation that returns or throws. The loops of the readers and of
    the trie builder are modelled with a fuel that their visited set, or
    their strictly increasing bit index, makes sufficient; [OutOfFuel] says
    that the bound of the model was reached, and no theorem below accepts
    it as an outcome. *)
Inductive result (A : Type) : Type :=
  | Ok (a : A)
  | Throw (e : error)
  | OutOfFuel.
Arguments Ok {A} a.
Arguments Throw {A} e.
Arguments OutOfFuel {A}.

Definition rbind {A B} (m : result A) (k : A -> result B) : result B :=
  match m with
  | Ok a => k a
  | Throw e => Throw e
  | OutOfFuel => OutOfFuel
  end.

Notation "'do' x <- m ; k" := (rbind m (fun x => k))
  (at level 10, x name, m at level 100, k at level 200).
Notation "'do' ' p <- m ; k" := (rbind m (fun x => let 'p := x in k))
  (at level 10, p strict pattern, m at level 100, k at level 200).

(** ** Bytes and buffers *)

Abbreviation Buffer := (list byte).

#[global] Instance byte_eq_dec : EqDecision byte := Byte.byte_eq_dec.

Definition byte_of_N (n : N) : byte :=
  match Byte.of_N n with Some b => b | None => x00 end.

Lemma byte_of_to_N (b : byte) : byte_of_N (Byte.to_N b) = b.
Proof. unfold byte_of_N. now rewrite Byte.of_to_N. Qed.

#[global] Instance byte_countable : Countable byte :=
  inj_countable' Byte.to_N byte_of_N byte_of_to_N.

Definition byteZ (b : byte) : Z := Z.of_N (Byte.to_N b).

Definition Zbyte (z : Z) : byte :=
  match Byte.of_N (Z.to_N (z mod 256)) with
  | Some b => b
  | None => x00
  end.

(** [Buffer.alloc(n)]: [n] zero bytes. *)
Definition alloc (n : Z) : Buffer := replicate (Z.to_nat n) x00.

(** [buf.length]. *)
Definition blen (buf : Buffer) : Z := Z.of_nat (length buf).

(** [buf.subarray(a, b)] for [0 <= a]; the end is clamped to the buffer. *)
Definition subarray (buf : Buffer) (a b : Z) : Buffer :=
  take (Z.to_nat (b - a)) (drop (Z.to_nat a) buf).

(** [src.copy(dst, at)]: overwrite [dst] from offset [at] with as much of
    [src] as fits. *)
Definition copy_into (src dst : Buffer) (at_ : Z) : Buffer :=
  let room := blen dst - at_ in
  let s := take (Z.to_nat room) src in
  take (Z.to_nat at_) dst ++ s ++ drop (Z.to_nat at_ + length s) dst.

(** [x >>> 0]. *)
Definition u32 (x : Z) : Z := x mod 2 ^ 32.

(** The four bytes [writeUInt32LE] stores for a value in range. *)
Definition packU32 (value : Z) : Buffer :=
  let v := u32 value in
  [Zbyte v; Zbyte (v / 2 ^ 8); Zbyte (v / 2 ^ 16); Zbyte (v / 2 ^ 24)].

(** The eight bytes [writeBigUInt64LE] stores. *)
Definition packU64 (value : Z) : Buffer :=
  packU32 value ++ packU32 (value / 2 ^ 32).

Definition readU32 (buf : Buffer) (off : Z) : result Z :=
  if (off <? 0) || (blen buf <? off + 4) then Throw RangeError else
  match drop (Z.to_nat off) buf with
  | b0 :: b1 :: b2 :: b3 :: _ =>
      Ok (byteZ b0 + 2 ^ 8 * byteZ b1 + 2 ^ 16 * byteZ b2 + 2 ^ 24 * byteZ b3)
  | _ => Throw RangeError
  end.

(** [readInt32LE]: the same four bytes read as a two's-complement number. *)
Definition readI32 (buf : Buffer) (off : Z) : result Z :=
  do v <- readU32 buf off;
  Ok (if v <? 2 ^ 31 then v else v - 2 ^ 32).

Definition FILE_WRAPPER_HEADER_SIZE : Z := 0x20.
Definition DAT_BLOCK_SIZE : Z := 0x200.
Definition DT_NODE_SIZE : Z := 0x14.
Definition META_SIZE : Z := 0x10.

(** ** Block codec (prius_parallel_compress.ts, prius_archive.ts) *)

Definition FILETIME : Z := 0x01ca8b14a4e00000.

Module Codec.
Section Zlib.
  (** [zlib.deflateSync(raw, {level})] and [zlib.inflateSync(payload)],
      which throws on a malformed stream. *)
Variable deflate : Buffer -> Z -> Buffer.
Variable inflate : Buffer -> option Buffer.

Definition buildFileWrapper (rawData : Buffer) (compressLevel : Z) : Buffer :=
    let compressed := deflate rawData compressLevel in
    let header :=
      packU32 1 ++ packU32 (u32 (blen rawData))
      ++ packU64 FILETIME ++ packU64 FILETIME ++ packU64 FILETIME in
    header ++ compressed.

Definition decodeFilePayload (raw : Buffer) : result Buffer :=
    if blen raw <? FILE_WRAPPER_HEADER_SIZE then Throw TruncatedWrappedFile else
    do typ <- readU32 raw 0;
    do declaredSize <- readU32 raw 4;
    let payload := drop (Z.to_nat FILE_WRAPPER_HEADER_SIZE) raw in
    if typ =? 1 then
      match inflate payload with
      | None => Throw InflateFailure
      | Some out =>
          if negb (declaredSize =? 0) && negb (blen out =? declaredSize)
          then Throw DecodedSizeMismatch
          else Ok out
      end
    else if negb (declaredSize =? 0) && negb (blen payload =? declaredSize)
    then Throw UnsupportedWrapperSizeMismatch
    else Ok payload.
End Zlib.
End Codec.

(** ** Striped page layout: page-size inference (prius_archive.ts) *)

Record IdxChannel := { pagesPerStripe : Z; sizeBytes : Z }.

Module Layout.
Definition candidates : list Z :=
    [0x200; 0x400; 0x800; 0x1000; 0x2000; 0x4000; 0x8000].

  (** The inner loop over the channels: [ok] stays true while every
      [sizeBytes] is within [stripes * pagesPerStripe * pageSize]. *)
Fixpoint channels_fit (stripes pageSize : Z) (chs : list IdxChannel) : bool :=
    match chs with
    | [] => true
    | ch :: rest =>
        let cap := stripes * pagesPerStripe ch * pageSize in
        if sizeBytes ch >? cap then false
        else channels_fit stripes pageSize rest
    end.

  (** One iteration of the loop over the candidates. *)
Definition try_candidate (fileSize sumPages : Z) (chs : list IdxChannel)
      (viable : list Z) (pageSize : Z) : list Z :=
    if negb (fileSize mod pageSize =? 0) then viable else
    let totalPages := fileSize / pageSize in
    if totalPages <? 2 then viable else
    let dataPages := totalPages - 1 in
    if negb (dataPages mod sumPages =? 0) then viable else
    let stripes := dataPages / sumPages in
    if channels_fit stripes pageSize chs then viable ++ [pageSize] else viable.

  (** [Math.min(...viable)] of a non-empty array. *)
Definition min_list (l : list Z) : Z :=
    match l with
    | [] => 0
    | x :: rest => fold_left Z.min rest x
    end.

Definition inferPageSize (fileSize : Z) (chs : list IdxChannel) : result Z :=
    let pps := map pagesPerStripe chs in
    let sumPages := fold_left Z.add pps 0 in
    if sumPages <=? 0 then Throw InvalidPagesPerStripe else
    let viable := fold_left (try_candidate fileSize sumPages chs) candidates [] in
    if (length viable =? 0)%nat then Throw CouldNotInferPageSize else
    if existsb (Z.eqb 0x1000) viable then Ok 0x1000 else
    Ok (min_list viable).

  (** The specification's description of a surviving candidate. *)
Definition survives (fileSize : Z) (chs : list IdxChannel) (p : Z) : Prop :=
    let sum := fold_right Z.add 0 (map pagesPerStripe chs) in
    let total_pages := fileSize / p in
    fileSize mod p = 0 /\
    2 <= total_pages /\
    (total_pages - 1) mod sum = 0 /\
    Forall (fun c =>
      sizeBytes c <= ((total_pages - 1) / sum) * pagesPerStripe c * p) chs.
End Layout.

(** ** JavaScript 32-bit integer operators *)

(** [ToInt32]: the operand conversion of [&], [|], [^], [<<] and [>>]. *)
Definition int32 (x : Z) : Z := (x + 2 ^ 31) mod 2 ^ 32 - 2 ^ 31.

Definition js_and (a b : Z) : Z := Z.land (int32 a) (int32 b).
Definition js_or (a b : Z) : Z := Z.lor (int32 a) (int32 b).
Definition js_xor (a b : Z) : Z := Z.lxor (int32 a) (int32 b).
Definition js_shl (a n : Z) : Z := int32 (Z.shiftl (int32 a) (n mod 32)).
Definition js_sar (a n : Z) : Z := Z.shiftr (int32 a) (n mod 32).

(** [buf[i]] for an index inside the buffer. *)
Definition byteAt (buf : Buffer) (i : Z) : Z :=
  byteZ (nth (Z.to_nat i) buf x00).

(** [chunk.indexOf(0)]: the position of the first NUL byte, if any. *)
Fixpoint indexOf0 (chunk : Buffer) : option nat :=
  match chunk with
  | [] => None
  | b :: rest =>
      if Byte.eqb b x00 then Some 0%nat
      else option_map S (indexOf0 rest)
  end.

(** ** The archive reader (prius_archive.ts) *)

Record DtNode := {
  metaIndex : Z;
  bitIndex : Z;
  nameRaw : Z;
  leftRaw : Z;
  rightRaw : Z
}.

Record MetaRecord := {
  flags : Z;
  size : Z;
  startBlock : Z;
  extra : Z
}.

(** The channel buffers an open archive holds, and the data file when a
    path to it was given. *)
Record PriusArchive := {
  dt : Buffer;
  strings : Buffer;
  meta : Buffer;
  fat : Buffer;
  dat : option Buffer
}.

Module Reader.

Definition dtNodeCount (arc : PriusArchive) : Z := blen (dt arc) / DT_NODE_SIZE.
Definition metaCount (arc : PriusArchive) : Z := blen (meta arc) / META_SIZE.
Definition stringRecordCount (arc : PriusArchive) : Z := blen (strings arc) / 0x40.
Definition fatEntryCount (arc : PriusArchive) : Z := blen (fat arc) / 4.

Definition dtNode (arc : PriusArchive) (nodeIndex : Z) : result DtNode :=
  let off := nodeIndex * DT_NODE_SIZE in
  if (off <? 0) || (blen (dt arc) <? off + DT_NODE_SIZE)
  then Throw DtNodeOutOfRange else
  do m <- readU32 (dt arc) off;
  do b <- readI32 (dt arc) (off + 4);
  do n <- readU32 (dt arc) (off + 8);
  do l <- readU32 (dt arc) (off + 12);
  do r <- readU32 (dt arc) (off + 16);
  Ok {| metaIndex := m; bitIndex := b; nameRaw := n; leftRaw := l; rightRaw := r |}.

Definition unpackMetaRecord (buf : Buffer) (offset : Z) : result MetaRecord :=
  do f <- readU32 buf offset;
  do s <- readU32 buf (offset + 4);
  do b <- readU32 buf (offset + 8);
  do e <- readU32 buf (offset + 12);
  Ok {| flags := f; size := s; startBlock := b; extra := e |}.

Definition metaRecord (arc : PriusArchive) (metaIndex : Z) : result MetaRecord :=
  let off := metaIndex * META_SIZE in
  if (off <? 0) || (blen (meta arc) <? off + META_SIZE)
  then Throw MetaIndexOutOfRange else
  unpackMetaRecord (meta arc) off.

Definition fatNext (fat : Buffer) (blockId : Z) : result Z :=
  let off := blockId * 4 in
  if (off <? 0) || (blen fat <? off + 4) then Throw FatBlockOutOfRange else
  readU32 fat off.

(** The [while (idx >= 0)] loop of [stringBytes]; [chunks] is kept in
    push order. *)
Fixpoint stringBytes_loop (strs : Buffer) (fuel : nat) (seen : list Z)
    (chunks : list Buffer) (idx : Z) : result (list Buffer) :=
  match fuel with
  | O => OutOfFuel
  | S fuel' =>
      if idx <? 0 then Ok chunks else
      if existsb (Z.eqb idx) seen then Throw StringIndexLoop else
      let seen := idx :: seen in
      let off := idx * 0x40 in
      if (off <? 0) || (blen strs <? off + 0x40)
      then Throw StringRecordOutOfRange else
      do header <- readU32 strs off;
      let nxt := js_and header 0x7fffffff in
      let chunk := subarray strs (off + 4) (off + 0x40) in
      match indexOf0 chunk with
      | Some nul => Ok (chunks ++ [take nul chunk])
      | None =>
          let chunks := chunks ++ [chunk] in
          if nxt =? 0 then Ok chunks
          else stringBytes_loop strs fuel' seen chunks nxt
      end
  end.

(** [stringBytes]. The per-archive cache stores earlier results of this
    same function over the immutable buffer and is left out. Every turn of
    the loop adds a record index inside the buffer to [seen], so one turn
    more than there are records always suffices. *)
Definition stringBytes (strs : Buffer) (stringIndex : Z) : result Buffer :=
  if stringIndex <? 0 then Ok [] else
  do chunks <- stringBytes_loop strs (S (S (Z.to_nat (blen strs / 0x40))))
                 [] [] stringIndex;
  Ok (concat chunks).

Definition getBit (key : Buffer) (bitIndex : Z) : Z :=
  if bitIndex <? 0 then 2 else
  let byteIndex := js_sar bitIndex 3 in
  if byteIndex >=? blen key then 0 else
  js_and (js_sar (byteAt key byteIndex) (js_and bitIndex 7)) 1.

(** The [while] loop of [findNode]. *)
Fixpoint findNode_loop (arc : PriusArchive) (keyBytes : Buffer) (fuel : nat)
    (parent node : Z) : result Z :=
  match fuel with
  | O => OutOfFuel
  | S fuel' =>
      do p <- dtNode arc parent;
      do cur <- dtNode arc node;
      if bitIndex p <? bitIndex cur then
        let bit := getBit keyBytes (bitIndex cur) in
        findNode_loop arc keyBytes fuel' node
          (if negb (bit =? 0) then rightRaw cur else leftRaw cur)
      else Ok node
  end.

(** [findNode] after the key has been turned into bytes: the empty-key
    test, the walk and the final comparison. *)
Definition findNodeBytes (arc : PriusArchive) (keyBytes : Buffer) : result Z :=
  if blen keyBytes =? 0 then Ok (-1) else
  do root <- dtNode arc 0;
  do node <- findNode_loop arc keyBytes (S (Z.to_nat (dtNodeCount arc)))
               0 (rightRaw root);
  do leaf <- dtNode arc node;
  let nameStringIndex := js_and (nameRaw leaf) 0x7fffffff in
  do name <- stringBytes (strings arc) nameStringIndex;
  if decide (name = keyBytes) then Ok node else Ok (-1).

(** [key.replaceAll("/", "\\")] on the UTF-8 bytes of the string: the byte
    0x2f occurs in UTF-8 only as the character '/'. *)
Definition normalizeSlashes (key : Buffer) : Buffer :=
  map (fun b => if Byte.eqb b x2f then x5c else b) key.

Definition findNode (arc : PriusArchive) (key : Buffer) : result Z :=
  findNodeBytes arc (normalizeSlashes key).

(** [fs.readSync(fd, out, outOff, take, datOff)] on a regular file: the
    bytes of the file from [datOff], at most [take] of them. *)
Definition pread (file : Buffer) (pos len : Z) : Buffer :=
  take (Z.to_nat len) (drop (Z.to_nat pos) file).

(** The [for] loop of [readRawMetaBytes]. [log] records, in order, the
    block ids handed to [fatNext]. *)
Fixpoint readBlocks (datFile fat : Buffer) (iters : nat)
    (remaining block outOff : Z) (out : Buffer) (log : list Z)
    : result (Z * Buffer) * list Z :=
  match iters with
  | O => (Ok (remaining, out), log)
  | S iters' =>
      let take := if remaining >=? 0x200 then 0x200 else remaining in
      let datOff := block * 0x200 in
      let got := pread datFile datOff take in
      if negb (blen got =? take) then (Throw ShortDatRead, log) else
      let out := copy_into got out outOff in
      let outOff := outOff + take in
      let remaining := remaining - take in
      if remaining <=? 0 then (Ok (remaining, out), log) else
      let log := log ++ [block] in
      match fatNext fat block with
      | Ok nxt =>
          if nxt =? 0xffffffff then (Throw UnexpectedEndOfFatChain, log)
          else readBlocks datFile fat iters' remaining nxt outOff out log
      | Throw e => (Throw e, log)
      | OutOfFuel => (OutOfFuel, log)
      end
  end.

Definition readRawMetaBytes_logged (arc : PriusArchive) (m : MetaRecord)
    : result Buffer * list Z :=
  if size m =? 0 then (Ok [], []) else
  if startBlock m =? 0xffffffff then (Throw InvalidStartBlock, []) else
  match dat arc with
  | None => (Throw DatPathRequired, [])
  | Some datFile =>
      let blockCount := (size m + 0x1ff) / 0x200 in
      match readBlocks datFile (fat arc) (Z.to_nat blockCount)
              (size m) (startBlock m) 0 (alloc (size m)) [] with
      | (Ok (remaining, out), log) =>
          if negb (remaining =? 0) then (Throw UnexpectedExtractedSize, log)
          else (Ok out, log)
      | (Throw e, log) => (Throw e, log)
      | (OutOfFuel, log) => (OutOfFuel, log)
      end
  end.

Definition readRawMetaBytes (arc : PriusArchive) (m : MetaRecord) : result Buffer :=
  fst (readRawMetaBytes_logged arc m).

End Reader.

(** ** String-table builder (string_table.ts) *)

Definition STRING_RECORD_SIZE : Z := 0x40.
Definition STRING_PAYLOAD_SIZE : Z := 0x3c.

(** [records] in push order; [cache] is the [Map] from cache key to first
    record index. A JavaScript string is modelled by its UTF-8 bytes, so the
    cache key is a [Buffer] too. *)
Record StringTableBuilder := {
  records : list Buffer;
  cache : gmap Buffer Z
}.

Module StringTable.

(** The constructor: record 0 holds ".". *)
Definition rec0 : Buffer :=
  <[5%nat := x00]> (<[4%nat := x2e]> (copy_into (packU32 0x80000000) (alloc STRING_RECORD_SIZE) 0)).

Definition new : StringTableBuilder :=
  {| records := [rec0]; cache := ∅ |}.

(** [for (i = 0; i < text.length; i += 60) chunks.push(text.subarray(i, i + 60))]. *)
Fixpoint slice_loop (fuel : nat) (text : Buffer) (i : Z) : list Buffer :=
  match fuel with
  | O => []
  | S fuel' =>
      if i <? blen text
      then subarray text i (i + STRING_PAYLOAD_SIZE)
             :: slice_loop fuel' text (i + STRING_PAYLOAD_SIZE)
      else []
  end.

(** One record: 64 zero bytes, the header word, the chunk from offset 4. *)
Definition make_record (nextIdx : Z) (chunk : Buffer) : Buffer :=
  copy_into chunk
    (copy_into (packU32 (u32 (js_or nextIdx 0x80000000)))
               (alloc STRING_RECORD_SIZE) 0) 4.

(** [for (i = 0; i < chunks.length; i += 1) ... this.records.push(rec)]. *)
Fixpoint emit_loop (firstIdx count i : Z) (chunks : list Buffer)
    (recs : list Buffer) : list Buffer :=
  match chunks with
  | [] => recs
  | chunk :: rest =>
      let isLast := i =? count - 1 in
      let nextIdx := if isLast then 0 else firstIdx + i + 1 in
      emit_loop firstIdx count (i + 1) rest (recs ++ [make_record nextIdx chunk])
  end.

Definition add (stb : StringTableBuilder) (text cacheKey : Buffer)
    : Z * StringTableBuilder :=
  if blen text =? 0 then (0, stb) else
  match cache stb !! cacheKey with
  | Some cached => (cached, stb)
  | None =>
      let chunks := slice_loop (length text) text 0 in
      let firstIdx := Z.of_nat (length (records stb)) in
      let recs := emit_loop firstIdx (Z.of_nat (length chunks)) 0 chunks (records stb) in
      (firstIdx, {| records := recs; cache := <[cacheKey := firstIdx]> (cache stb) |})
  end.

Definition build (stb : StringTableBuilder) : Buffer := concat (records stb).

Definition recordCount (stb : StringTableBuilder) : Z :=
  Z.of_nat (length (records stb)).

End StringTable.

(** ** Patricia trie builder (patricia_trie.ts) *)

(** [TrieNode] has the fields of [DtNode]. *)
Abbreviation TrieNode := DtNode.

Record PatriciaTrieBuilder := {
  nodes : list TrieNode;
  keyData : list Buffer       (* the local [keyData] of [buildFromKeys] *)
}.

Module Trie.

(** The module's own copy of [getBit] is the reader's, line for line. *)
Definition getBit := Reader.getBit.

(** The inner [for (bit = 0; bit < 8; bit += 1)] of [firstDifferingBit]. *)
Fixpoint scan_bits (diff : Z) (count : nat) (bit : Z) : option Z :=
  match count with
  | O => None
  | S count' =>
      if negb (js_and diff (js_shl 1 bit) =? 0) then Some bit
      else scan_bits diff count' (bit + 1)
  end.

Fixpoint firstDifferingBit_loop (a b : Buffer) (maxLen : Z) (count : nat)
    (byteIndex : Z) : Z :=
  match count with
  | O => maxLen * 8
  | S count' =>
      let ba := if byteIndex <? blen a then byteAt a byteIndex else 0 in
      let bb := if byteIndex <? blen b then byteAt b byteIndex else 0 in
      let next := firstDifferingBit_loop a b maxLen count' (byteIndex + 1) in
      if negb (ba =? bb) then
        match scan_bits (js_xor ba bb) 8 0 with
        | Some bit => byteIndex * 8 + bit
        | None => next
        end
      else next
  end.

Definition firstDifferingBit (a b : Buffer) : Z :=
  let maxLen := Z.max (blen a) (blen b) in
  firstDifferingBit_loop a b maxLen (Z.to_nat maxLen) 0.

(** [this.nodes[i]], which must be there for a field to be read or set. *)
Definition node_at (ns : list TrieNode) (i : Z) : result TrieNode :=
  if i <? 0 then Throw UndefinedElement else
  match ns !! Z.to_nat i with
  | Some n => Ok n
  | None => Throw UndefinedElement
  end.

Definition set_node (ns : list TrieNode) (i : Z) (f : TrieNode -> TrieNode)
    : result (list TrieNode) :=
  do _ <- node_at ns i;
  Ok (alter f (Z.to_nat i) ns).

Definition set_bitIndex (v : Z) (n : TrieNode) : TrieNode :=
  {| metaIndex := metaIndex n; bitIndex := v; nameRaw := nameRaw n;
     leftRaw := leftRaw n; rightRaw := rightRaw n |}.
Definition set_leftRaw (v : Z) (n : TrieNode) : TrieNode :=
  {| metaIndex := metaIndex n; bitIndex := bitIndex n; nameRaw := nameRaw n;
     leftRaw := v; rightRaw := rightRaw n |}.
Definition set_rightRaw (v : Z) (n : TrieNode) : TrieNode :=
  {| metaIndex := metaIndex n; bitIndex := bitIndex n; nameRaw := nameRaw n;
     leftRaw := leftRaw n; rightRaw := v |}.

Definition sentinel : TrieNode :=
  {| metaIndex := 0; bitIndex := -1; nameRaw := 0x80000000;
     leftRaw := 0; rightRaw := 0 |}.

Definition new : PatriciaTrieBuilder :=
  {| nodes := [sentinel]; keyData := [] |}.

(** The two descents of [buildFromKeys]. With [limit = None] it is the
    first loop, [while (nodes[prev].bitIndex < nodes[curr].bitIndex)]; with
    [limit = Some diffBit] it is the second, whose condition adds
    [&& nodes[curr].bitIndex < diffBit]. Returns the final [(prev, curr)]. *)
Fixpoint descend (ns : list TrieNode) (key : Buffer) (limit : option Z)
    (fuel : nat) (prev curr : Z) : result (Z * Z) :=
  match fuel with
  | O => OutOfFuel
  | S fuel' =>
      do p <- node_at ns prev;
      do c <- node_at ns curr;
      let below := match limit with
                   | None => true
                   | Some diffBit => bitIndex c <? diffBit
                   end in
      if (bitIndex p <? bitIndex c) && below then
        descend ns key limit fuel' curr
          (if negb (getBit key (bitIndex c) =? 0) then rightRaw c else leftRaw c)
      else Ok (prev, curr)
  end.

(** The body of the loop over [keys], for one key. *)
Definition insertKey (t : PatriciaTrieBuilder) (key : Buffer) (strIdx metaIdx : Z)
    : result PatriciaTrieBuilder :=
  let nodeIdx := Z.of_nat (length (nodes t)) in
  let ns := nodes t ++
    [{| metaIndex := metaIdx; bitIndex := -1;
        nameRaw := u32 (js_or strIdx 0x80000000);
        leftRaw := 0; rightRaw := 0 |}] in
  let kd := keyData t ++ [key] in
  if nodeIdx =? 1 then
    let diffBit := firstDifferingBit key [] in
    do ns <- set_node ns nodeIdx (set_bitIndex diffBit);
    do ns <- (if negb (getBit key diffBit =? 0) then
                do ns <- set_node ns nodeIdx (set_leftRaw 0);
                set_node ns nodeIdx (set_rightRaw nodeIdx)
              else
                do ns <- set_node ns nodeIdx (set_leftRaw nodeIdx);
                set_node ns nodeIdx (set_rightRaw 0));
    do ns <- set_node ns 0 (set_rightRaw nodeIdx);
    Ok {| nodes := ns; keyData := kd |}
  else
    let fuel := S (length ns) in
    do root <- node_at ns 0;
    do '(_, curr) <- descend ns key None fuel 0 (rightRaw root);
    do closestKey <- (if curr <? 0 then Throw UndefinedElement else
                      match kd !! Z.to_nat curr with
                      | Some k => Ok k
                      | None => Throw UndefinedElement
                      end);
    let diffBit := firstDifferingBit key closestKey in
    if diffBit >=? Z.max (blen key) (blen closestKey) * 8 then Throw DuplicateKey else
    do '(prev, curr) <- descend ns key (Some diffBit) fuel 0 (rightRaw root);
    do ns <- set_node ns nodeIdx (set_bitIndex diffBit);
    do ns <- (if negb (getBit key diffBit =? 0) then
                do ns <- set_node ns nodeIdx (set_leftRaw curr);
                set_node ns nodeIdx (set_rightRaw nodeIdx)
              else
                do ns <- set_node ns nodeIdx (set_leftRaw nodeIdx);
                set_node ns nodeIdx (set_rightRaw curr));
    do p <- node_at ns prev;
    let parentBit := bitIndex p in
    let goRight := if parentBit <? 0 then true
                   else negb (getBit key parentBit =? 0) in
    do ns <- (if goRight then set_node ns prev (set_rightRaw nodeIdx)
              else set_node ns prev (set_leftRaw nodeIdx));
    Ok {| nodes := ns; keyData := kd |}.

Fixpoint insertKeys (t : PatriciaTrieBuilder) (keys : list Buffer)
    (stringIndices metaIndices : list Z) : result PatriciaTrieBuilder :=
  match keys, stringIndices, metaIndices with
  | key :: keys', strIdx :: strs', metaIdx :: metas' =>
      do t <- insertKey t key strIdx metaIdx;
      insertKeys t keys' strs' metas'
  | _, _, _ => Ok t
  end.

(** [buildFromKeys] on a builder; [keyData] starts as [[Buffer.alloc(0)]]. *)
Definition buildFromKeys (t : PatriciaTrieBuilder) (keys : list Buffer)
    (stringIndices metaIndices : list Z) : result PatriciaTrieBuilder :=
  if negb (length keys =? length stringIndices)%nat
     || negb (length keys =? length metaIndices)%nat
  then Throw LengthMismatch else
  if (length keys =? 0)%nat then Ok t else
  insertKeys {| nodes := nodes t; keyData := [[]] |} keys stringIndices metaIndices.

(** [writeInt32LE] throws outside the signed 32-bit range. *)
Definition packI32 (v : Z) : result Buffer :=
  if (v <? - 2 ^ 31) || (2 ^ 31 <=? v) then Throw RangeError
  else Ok (packU32 (u32 v)).

Definition packNode (n : TrieNode) : result Buffer :=
  do b <- packI32 (bitIndex n);
  Ok (packU32 (u32 (metaIndex n)) ++ b ++ packU32 (u32 (nameRaw n))
      ++ packU32 (u32 (leftRaw n)) ++ packU32 (u32 (rightRaw n))).

Fixpoint build_loop (ns : list TrieNode) : result Buffer :=
  match ns with
  | [] => Ok []
  | n :: rest =>
      do b <- packNode n;
      do tl <- build_loop rest;
      Ok (b ++ tl)
  end.

Definition build (t : PatriciaTrieBuilder) : result Buffer := build_loop (nodes t).

Definition nodeCount (t : PatriciaTrieBuilder) : Z := Z.of_nat (length (nodes t)).

End Trie.

(** ** Meta records *)

Definition packMetaRecord (flags size startBlock extra : Z) : Buffer :=
  packU32 (u32 flags) ++ packU32 (u32 size)
  ++ packU32 (u32 startBlock) ++ packU32 (u32 extra).

(** ** Repack pipeline (repack_engine.ts) *)

(** What a compression worker hands back; [rawSha1] is filled only for the
    patch pipeline. *)
Record CompressedFile := {
  index : Z;
  wrapped : Buffer;
  rawSize : Z;
  rawSha1 : Buffer
}.

(** A candidate of phase 1: its archive path after [normalizeArchivePath]
    and whether [statSync(localPath).isFile()] holds without throwing. *)
Record Candidate := {
  arcPath : Buffer;
  isFile : bool
}.

Record Phase1 := {
  stb : StringTableBuilder;
  keys : list Buffer;
  stringIndices : list Z;
  metaIndices : list Z;
  validPaths : list Buffer;
  seenPaths : gset Buffer;
  skipped : Z;
  deduped : Z
}.

Record Phase3 := {
  totalRawSize : Z;
  currentBlock : Z;
  fatEntries : list Z;
  startBlocks : list (option Z);     (* [new Array(n)]: [None] is a hole *)
  wrappedSizes : list (option Z);
  pendingWrites : list Buffer;
  pendingBytes : Z;
  datOut : Buffer                    (* what has reached the data file *)
}.

Module Repack.

Definition phase1_init : Phase1 :=
  {| stb := StringTable.new; keys := []; stringIndices := []; metaIndices := [];
     validPaths := []; seenPaths := ∅; skipped := 0; deduped := 0 |}.

(** The body of [for (const candidate of candidates)]. *)
Definition phase1_step (sourceIsWalkedFiles : bool) (st : Phase1) (c : Candidate)
    : Phase1 :=
  if decide (arcPath c ∈ seenPaths st) then
    {| stb := stb st; keys := keys st; stringIndices := stringIndices st;
       metaIndices := metaIndices st; validPaths := validPaths st;
       seenPaths := seenPaths st; skipped := skipped st;
       deduped := deduped st + 1 |}
  else if negb sourceIsWalkedFiles && negb (isFile c) then
    {| stb := stb st; keys := keys st; stringIndices := stringIndices st;
       metaIndices := metaIndices st; validPaths := validPaths st;
       seenPaths := seenPaths st; skipped := skipped st + 1;
       deduped := deduped st |}
  else
    let key := arcPath c in
    let '(strIdx, stb') := StringTable.add (stb st) key (arcPath c) in
    {| stb := stb'; keys := keys st ++ [key];
       stringIndices := stringIndices st ++ [strIdx];
       metaIndices := metaIndices st ++ [Z.of_nat (length (validPaths st))];
       validPaths := validPaths st ++ [arcPath c];
       seenPaths := {[arcPath c]} ∪ seenPaths st;
       skipped := skipped st; deduped := deduped st |}.

Definition phase1 (sourceIsWalkedFiles : bool) (candidates : list Candidate) : Phase1 :=
  fold_left (phase1_step sourceIsWalkedFiles) candidates phase1_init.

(** Phases 1 and 2: the string-table and trie channels of the new index. *)
Definition buildIndexChannels (sourceIsWalkedFiles : bool)
    (candidates : list Candidate) : result (Buffer * Buffer) :=
  let p1 := phase1 sourceIsWalkedFiles candidates in
  let stringData := StringTable.build (stb p1) in
  do trie <- Trie.buildFromKeys Trie.new (keys p1) (stringIndices p1) (metaIndices p1);
  do dtData <- Trie.build trie;
  Ok (dtData, stringData).

(** [arr[i] = v] on a JavaScript array: an index past the end extends the
    array with holes; a negative index leaves its elements alone. *)
Definition array_set (arr : list (option Z)) (i v : Z) : list (option Z) :=
  if i <? 0 then arr else
  if i <? Z.of_nat (length arr) then <[Z.to_nat i := Some v]> arr
  else arr ++ replicate (Z.to_nat i - length arr) None ++ [Some v].

Definition writeThreshold : Z := 8 * 1024 * 1024.

Definition enqueueWrite (st : Phase3) (buf : Buffer) : Phase3 :=
  let pw := pendingWrites st ++ [buf] in
  let pb := pendingBytes st + blen buf in
  if pb >=? writeThreshold then
    {| totalRawSize := totalRawSize st; currentBlock := currentBlock st;
       fatEntries := fatEntries st; startBlocks := startBlocks st;
       wrappedSizes := wrappedSizes st;
       pendingWrites := []; pendingBytes := 0;
       datOut := datOut st ++ concat pw |}
  else
    {| totalRawSize := totalRawSize st; currentBlock := currentBlock st;
       fatEntries := fatEntries st; startBlocks := startBlocks st;
       wrappedSizes := wrappedSizes st;
       pendingWrites := pw; pendingBytes := pb;
       datOut := datOut st |}.

Definition flushWrites (st : Phase3) : Phase3 :=
  if (0 <? length (pendingWrites st))%nat then
    {| totalRawSize := totalRawSize st; currentBlock := currentBlock st;
       fatEntries := fatEntries st; startBlocks := startBlocks st;
       wrappedSizes := wrappedSizes st;
       pendingWrites := []; pendingBytes := 0;
       datOut := datOut st ++ concat (pendingWrites st) |}
  else st.

(** [for (b = 0; b < blocksNeeded; b += 1) { fatEntries.push(...); currentBlock += 1 }]. *)
Fixpoint fat_loop (count : nat) (blocksNeeded b currentBlock : Z) (fatEntries : list Z)
    : Z * list Z :=
  match count with
  | O => (currentBlock, fatEntries)
  | S count' =>
      fat_loop count' blocksNeeded (b + 1) (currentBlock + 1)
        (fatEntries ++ [if b <? blocksNeeded - 1 then currentBlock + 1 else 0xffffffff])
  end.

(** The body of [for await (const result of compressFilesStream(...))]. *)
Definition phase3_step (scheduledToOriginal : option (list Z)) (st : Phase3)
    (r : CompressedFile) : Phase3 :=
  let originalIndex :=
    match scheduledToOriginal with
    | Some perm => if index r <? 0 then None else perm !! Z.to_nat (index r)
    | None => Some (index r)
    end in
  let set arr v := match originalIndex with
                   | Some i => array_set arr i v
                   | None => arr
                   end in
  let wrappedSizes' := set (wrappedSizes st) (blen (wrapped r)) in
  let blocksNeeded := (blen (wrapped r) + DAT_BLOCK_SIZE - 1) / DAT_BLOCK_SIZE in
  let startBlocks' := set (startBlocks st) (currentBlock st) in
  let st1 :=
    enqueueWrite
      {| totalRawSize := totalRawSize st + rawSize r; currentBlock := currentBlock st;
         fatEntries := fatEntries st; startBlocks := startBlocks';
         wrappedSizes := wrappedSizes';
         pendingWrites := pendingWrites st; pendingBytes := pendingBytes st;
         datOut := datOut st |} (wrapped r) in
  let padSize := blocksNeeded * DAT_BLOCK_SIZE - blen (wrapped r) in
  let st2 := if 0 <? padSize then enqueueWrite st1 (subarray (alloc DAT_BLOCK_SIZE) 0 padSize)
             else st1 in
  let '(cb, fe) := fat_loop (Z.to_nat blocksNeeded) blocksNeeded 0
                     (currentBlock st2) (fatEntries st2) in
  {| totalRawSize := totalRawSize st2; currentBlock := cb; fatEntries := fe;
     startBlocks := startBlocks st2; wrappedSizes := wrappedSizes st2;
     pendingWrites := pendingWrites st2; pendingBytes := pendingBytes st2;
     datOut := datOut st2 |}.

(** Phase 3 over the results in the order the stream yields them; the data
    file starts with the zero-filled block 0. *)
Definition phase3 (n : nat) (scheduledToOriginal : option (list Z))
    (results : list CompressedFile) : Phase3 :=
  flushWrites
    (fold_left (phase3_step scheduledToOriginal) results
       {| totalRawSize := 0; currentBlock := 1; fatEntries := [0];
          startBlocks := replicate n None; wrappedSizes := replicate n None;
          pendingWrites := []; pendingBytes := 0;
          datOut := alloc DAT_BLOCK_SIZE |}).

(** [undefined >>> 0] is 0. *)
Definition elem (arr : list (option Z)) (i : nat) : Z :=
  match arr !! i with
  | Some (Some v) => v
  | _ => 0
  end.

(** Phase 4: [metaData], filled record by record. *)
Fixpoint meta_loop (count : nat) (i : Z) (wrappedSizes startBlocks : list (option Z))
    (metaData : Buffer) : Buffer :=
  match count with
  | O => metaData
  | S count' =>
      let m := packMetaRecord 1 (elem wrappedSizes (Z.to_nat i))
                 (elem startBlocks (Z.to_nat i)) 0 in
      meta_loop count' (i + 1) wrappedSizes startBlocks
        (copy_into m metaData (i * META_SIZE))
  end.

Definition buildMetaData (n : nat) (st : Phase3) : Buffer :=
  meta_loop n 0 (wrappedSizes st) (startBlocks st) (alloc (Z.of_nat n * META_SIZE)).

(** Phase 4: [fatData], one little-endian word per entry. *)
Fixpoint fatData_loop (entries : list Z) (i : Z) (fatData : Buffer) : Buffer :=
  match entries with
  | [] => fatData
  | e :: rest =>
      fatData_loop rest (i + 1) (copy_into (packU32 (u32 e)) fatData (i * 4))
  end.

Definition buildFatData (st : Phase3) : Buffer :=
  fatData_loop (fatEntries st) 0 (alloc (Z.of_nat (length (fatEntries st)) * 4)).

End Repack.

(** ** The index file as striped pages (prius_archive.ts, class PriusIdx) *)

(** [arr[i]]: [undefined] outside the array. *)
Definition at_index {A} (arr : list A) (i : Z) : option A :=
  if i <? 0 then None else arr !! Z.to_nat i.

Record PriusIdx := {
  mm : Buffer;
  channels : list IdxChannel;
  pageSize : Z;
  stripes : Z;
  sumPages : Z;
  chanPrefixPages : list Z
}.

Module Idx.

(** The loop of the constructor over the channel table of the header. *)
Fixpoint readChannels (file : Buffer) (count : nat) (offset : Z)
    : result (list IdxChannel) :=
  match count with
  | O => Ok []
  | S count' =>
      do pps <- readU32 file offset;
      do sz <- readU32 file (offset + 4);
      do rest <- readChannels file count' (offset + 8);
      Ok ({| pagesPerStripe := pps; sizeBytes := sz |} :: rest)
  end.

(** [chanPrefixPages]: for each channel the pages of the channels before it
    in a stripe. *)
Fixpoint prefixPages (chs : list IdxChannel) (prefix : Z) : list Z :=
  match chs with
  | [] => []
  | ch :: rest => prefix :: prefixPages rest (prefix + pagesPerStripe ch)
  end.

Definition MAGIC : Buffer := [x41; x42; x43; x44].

(** The constructor, on the bytes of the index file. *)
Definition open (file : Buffer) : result PriusIdx :=
  if negb (bool_decide (subarray file 0 4 = MAGIC)) then Throw UnexpectedMagic else
  do channelCount <- readU32 file 4;
  if (channelCount <=? 0) || (16 <? channelCount)
  then Throw SuspiciousChannelCount else
  do chs <- readChannels file (Z.to_nat channelCount) 8;
  do pageSize <- Layout.inferPageSize (blen file) chs;
  let sumPages := fold_left (fun acc ch => acc + pagesPerStripe ch) chs 0 in
  let totalPages := blen file / pageSize in
  let dataPages := totalPages - 1 in
  Ok {| mm := file; channels := chs; pageSize := pageSize;
        stripes := dataPages / sumPages; sumPages := sumPages;
        chanPrefixPages := prefixPages chs 0 |}.

(** [physOffsetForChannelPage], for [channelPage >= 0]. A channel outside
    the table makes the property access throw; with [pagesPerStripe = 0]
    the division and the remainder are not numbers, and the model stops
    there. *)
Definition physOffsetForChannelPage (idx : PriusIdx) (channel channelPage : Z)
    : result Z :=
  match at_index (channels idx) channel, at_index (chanPrefixPages idx) channel with
  | Some ch, Some prefix =>
      let pps := pagesPerStripe ch in
      if pps =? 0 then Throw NotANumber else
      let stripe := channelPage / pps in
      let pageInStripe := channelPage mod pps in
      let physPage := stripe * sumPages idx + prefix + pageInStripe in
      Ok (pageSize idx + physPage * pageSize idx)
  | _, _ => Throw UndefinedElement
  end.

Definition channelOffsetToFileOffset (idx : PriusIdx) (channel channelOffset : Z)
    : result Z :=
  let page := channelOffset / pageSize idx in
  let inPage := channelOffset mod pageSize idx in
  do phys <- physOffsetForChannelPage idx channel page;
  Ok (phys + inPage).

(** The [for] loop of [readChannel]; [this.mm.copy(out, page * pageSize,
    off, off + pageSize)] copies the part of the source range that lies
    inside the file. *)
Fixpoint readPages (idx : PriusIdx) (channel : Z) (count : nat) (page : Z)
    (out : Buffer) : result Buffer :=
  match count with
  | O => Ok out
  | S count' =>
      do off <- physOffsetForChannelPage idx channel page;
      readPages idx channel count' (page + 1)
        (copy_into (subarray (mm idx) off (off + pageSize idx)) out
                   (page * pageSize idx))
  end.

(** [readChannel]; the cache holds earlier results of the same call. *)
Definition readChannel (idx : PriusIdx) (channel : Z) : result Buffer :=
  match at_index (channels idx) channel with
  | None => Throw UndefinedElement
  | Some ch =>
      let pageCount := (sizeBytes ch + pageSize idx - 1) / pageSize idx in
      do out <- readPages idx channel (Z.to_nat pageCount) 0
                  (alloc (pageCount * pageSize idx));
      Ok (subarray out 0 (sizeBytes ch))
  end.

(** [new PriusArchive(idxPath, datPath)]: the parsed index and the four
    channel buffers. *)
Definition openArchive (idxFile : Buffer) (datFile : option Buffer)
    : result (PriusIdx * PriusArchive) :=
  do idx <- open idxFile;
  do dt <- readChannel idx 0;
  do strings <- readChannel idx 1;
  do meta <- readChannel idx 2;
  do fat <- readChannel idx 3;
  Ok (idx, {| dt := dt; strings := strings; meta := meta; fat := fat;
              dat := datFile |}).

End Idx.

(** ** Files *)

(** The two files of an archive. *)
Record Disk := {
  idxFile : Buffer;
  datFile : Buffer
}.

(** [fs.writeSync(fd, data, 0, data.length, position)] on a regular file:
    the bytes land at [position]; a position behind the end leaves a hole
    of zero bytes, and writing nothing changes nothing. *)
Definition pwrite (file data : Buffer) (position : Z) : Buffer :=
  if (length data =? 0)%nat then file else
  take (Z.to_nat position) file
  ++ replicate (Z.to_nat position - length file) x00
  ++ data
  ++ drop (Z.to_nat position + length data) file.

(** [fs.ftruncateSync(fd, len)]: cut, or extend with zero bytes. *)
Definition ftruncate (file : Buffer) (len : Z) : Buffer :=
  take (Z.to_nat len) file ++ replicate (Z.to_nat len - length file) x00.

(** What the environment may do to a call of [fs.writeSync]: write fewer
    bytes than asked, or throw. *)
Inductive write_fault :=
  | Short (wrote : Z)
  | Throws.

(** The failures of node:fs that a run of the patch pipeline meets. The
    calls not listed here succeed. *)
Record Faults := {
  datWriteFails : option (nat * Z);
                                (* this [writevSync] on the data file writes
                                   so many bytes and throws *)
  datSyncFails : bool;          (* [fsyncSync] or [closeSync] on the data file throws *)
  idxOpenFails : bool;          (* [openSync(idxPath, "r+")] of phase 3 throws *)
  idxWriteFault : option (nat * write_fault);
                                (* this [writeSync] on the index file goes wrong *)
  idxSyncFails : bool           (* [fsyncSync] or [closeSync] on the index file throws *)
}.

Definition noFaults : Faults :=
  {| datWriteFails := None; datSyncFails := false; idxOpenFails := false;
     idxWriteFault := None; idxSyncFails := false |}.

(** An open index file: its bytes and the number of [writeSync] calls made
    on it. *)
Record IdxFd := {
  content : Buffer;
  calls : nat
}.

Definition writeSync (fault : option (nat * write_fault)) (fd : IdxFd)
    (data : Buffer) (cursor take_ position : Z) : result Z * IdxFd :=
  let written wrote :=
    {| content := pwrite (content fd) (subarray data cursor (cursor + wrote)) position;
       calls := S (calls fd) |} in
  match fault with
  | Some (n, f) =>
      if (n =? calls fd)%nat then
        match f with
        | Throws => (Throw IoFailure, {| content := content fd; calls := S (calls fd) |})
        | Short w => let w := Z.max 0 (Z.min w take_) in (Ok w, written w)
        end
      else (Ok take_, written take_)
  | None => (Ok take_, written take_)
  end.

(** The [while] loop of [writeIdxChannelBytes]. Every turn writes at least
    one byte, so one turn per byte and the last test suffice. *)
Fixpoint writeIdxChannelBytes_loop (fault : option (nat * write_fault))
    (fuel : nat) (idx : PriusIdx) (channel off cursor : Z) (data : Buffer)
    (fd : IdxFd) : result unit * IdxFd :=
  match fuel with
  | O => (OutOfFuel, fd)
  | S fuel' =>
      if negb (cursor <? blen data) then (Ok tt, fd) else
      match Idx.channelOffsetToFileOffset idx channel off with
      | Ok fileOff =>
          let room := pageSize idx - off mod pageSize idx in
          let take_ := Z.min room (blen data - cursor) in
          match writeSync fault fd data cursor take_ fileOff with
          | (Ok wrote, fd') =>
              if negb (wrote =? take_) then (Throw ShortIdxWrite, fd')
              else writeIdxChannelBytes_loop fault fuel' idx channel
                     (off + take_) (cursor + take_) data fd'
          | (Throw e, fd') => (Throw e, fd')
          | (OutOfFuel, fd') => (OutOfFuel, fd')
          end
      | Throw e => (Throw e, fd)
      | OutOfFuel => (OutOfFuel, fd)
      end
  end.

Definition writeIdxChannelBytes (fault : option (nat * write_fault))
    (idx : PriusIdx) (channel channelOffset : Z) (data : Buffer) (fd : IdxFd)
    : result unit * IdxFd :=
  writeIdxChannelBytes_loop fault (S (length data)) idx channel channelOffset 0
    data fd.

(** ** The index writer (idx_writer.ts) *)

Module IdxWriter.

Definition PAGE_SIZE : Z := 0x1000.
Definition DEFAULT_PPS : list Z := [4; 8; 1; 4].

(** [buf.writeUInt32LE(value, offset)] as the writer calls it, without
    [>>> 0]: Node throws for a value outside 32 bits and for an offset
    outside the buffer. *)
Definition writeUInt32LE (buf : Buffer) (value offset : Z) : result Buffer :=
  if (value <? 0) || (2 ^ 32 <=? value) then Throw RangeError else
  if (offset <? 0) || (blen buf <? offset + 4) then Throw RangeError else
  Ok (copy_into (packU32 value) buf offset).

(** [for (i ...) stripes = Math.max(stripes, ceil(pagesNeeded[i] / pagesPerStripe[i]))]. *)
Fixpoint stripes_loop (pagesNeeded pagesPerStripe : list Z) (stripes : Z) : Z :=
  match pagesNeeded, pagesPerStripe with
  | pn :: pns, pps :: ppss =>
      stripes_loop pns ppss (Z.max stripes ((pn + pps - 1) / pps))
  | _, _ => stripes
  end.

(** The loop that writes the channel table into the header page. *)
Fixpoint header_loop (pagesPerStripe channelSizes : list Z) (i : Z)
    (header : Buffer) : result Buffer :=
  match pagesPerStripe, channelSizes with
  | pps :: ppss, sz :: szs =>
      let off := 8 + i * 8 in
      do header <- writeUInt32LE header pps off;
      do header <- writeUInt32LE header sz (off + 4);
      header_loop ppss szs (i + 1) header
  | _, _ => Ok header
  end.

Fixpoint chanPrefix (pagesPerStripe : list Z) (prefix : Z) : list Z :=
  match pagesPerStripe with
  | [] => []
  | pps :: rest => prefix :: chanPrefix rest (prefix + pps)
  end.

(** The closure [physOffset]; arithmetic on [undefined] gives NaN. *)
Definition physOffset (pagesPerStripe chanPrefix : list Z)
    (sumPps pageSize channel channelPage : Z) : result Z :=
  match at_index pagesPerStripe channel, at_index chanPrefix channel with
  | Some pps, Some prefix =>
      let stripe := channelPage / pps in
      let pageInStripe := channelPage mod pps in
      let physPage := stripe * sumPps + prefix + pageInStripe in
      Ok (pageSize + physPage * pageSize)
  | _, _ => Throw NotANumber
  end.

(** [for (pg = 0; pg < pages; pg += 1)]: one zero-padded page of the
    channel data per turn, written at its physical offset. *)
Fixpoint pages_loop (count : nat) (pg : Z) (data : Buffer)
    (phys : Z -> result Z) (pageSize : Z) (file : Buffer) : result Buffer :=
  match count with
  | O => Ok file
  | S count' =>
      let off := pg * pageSize in
      let chunk := copy_into (subarray data off (off + pageSize)) (alloc pageSize) 0 in
      do position <- phys pg;
      pages_loop count' (pg + 1) data phys pageSize (pwrite file chunk position)
  end.

Fixpoint channels_loop (channelData : list Buffer) (ch : Z)
    (phys : Z -> Z -> result Z) (pageSize : Z) (file : Buffer) : result Buffer :=
  match channelData with
  | [] => Ok file
  | data :: rest =>
      let pages := (blen data + pageSize - 1) / pageSize in
      do file <- pages_loop (Z.to_nat pages) 0 data (phys ch) pageSize file;
      channels_loop rest (ch + 1) phys pageSize file
  end.

(** [writeIdx], returning the bytes of the file it leaves at [outPath];
    the number it returns is their length. The arithmetic of the source is
    followed for a positive page size and positive pages-per-stripe, the
    only values its callers pass; for others, where JavaScript goes on with
    NaN or infinite sizes, the model stops. The calls of node:fs succeed. *)
Definition writeIdx (dtData stringData metaData fatData : Buffer)
    (pageSize : Z) (pagesPerStripe : list Z) : result Buffer :=
  let channelData := [dtData; stringData; metaData; fatData] in
  if negb (length pagesPerStripe =? length channelData)%nat
  then Throw LengthMismatch else
  if (pageSize <=? 0) || existsb (fun pps => pps <=? 0) pagesPerStripe
  then Throw NotANumber else
  let channelSizes := map blen channelData in
  let pagesNeeded :=
    map (fun size => (size + pageSize - 1) / pageSize) channelSizes in
  let sumPps := fold_left Z.add pagesPerStripe 0 in
  let stripes := stripes_loop pagesNeeded pagesPerStripe 0 in
  let totalDataPages := stripes * sumPps in
  let totalPages := 1 + totalDataPages in
  let fileSize := totalPages * pageSize in
  let header := copy_into Idx.MAGIC (alloc pageSize) 0 in
  do header <- writeUInt32LE header (Z.of_nat (length channelData)) 4;
  do header <- header_loop pagesPerStripe channelSizes 0 header;
  let prefix := chanPrefix pagesPerStripe 0 in
  let file := ftruncate [] fileSize in
  let file := pwrite file header 0 in
  channels_loop channelData 0 (physOffset pagesPerStripe prefix sumPps pageSize)
    pageSize file.

End IdxWriter.

(** ** The rest of the reader (prius_archive.ts) *)

Module Extract.

(** [findMeta]: the node and its meta index, or [-1, -1]. *)
Definition findMeta (arc : PriusArchive) (key : Buffer) : result (Z * Z) :=
  do node <- Reader.findNode arc key;
  if node <? 0 then Ok (-1, -1) else
  do n <- Reader.dtNode arc node;
  Ok (node, metaIndex n).

Section Zlib.
Variable inflate : Buffer -> option Buffer.

Definition readFileBytes (arc : PriusArchive) (metaIndex : Z) : result Buffer :=
  do m <- Reader.metaRecord arc metaIndex;
  do raw <- Reader.readRawMetaBytes arc m;
  Codec.decodeFilePayload inflate raw.

End Zlib.
End Extract.

(** ** Compression of the local files (prius_parallel_compress.ts) *)

Module Compress.
Section Env.
Variable deflate : Buffer -> Z -> Buffer.
Variable sha1 : Buffer -> Buffer.
(** [fs.readFileSync(filePath)]: the bytes of the file, or an exception. *)
Variable readFileSync : Buffer -> result Buffer.

Definition compressSingle (filePath : Buffer) (compressLevel : Z)
    (includeSha1 : bool) : result CompressedFile :=
  do raw <- readFileSync filePath;
  Ok {| index := 0;
        wrapped := Codec.buildFileWrapper deflate raw compressLevel;
        rawSize := blen raw;
        rawSha1 := if includeSha1 then sha1 raw else [] |}.

(** The loop of [compressFilesBatch] on the calling thread. *)
Fixpoint batch_loop (filePaths : list Buffer) (i : Z) (compressLevel : Z)
    (includeSha1 : bool) (out : list CompressedFile)
    : result (list CompressedFile) :=
  match filePaths with
  | [] => Ok out
  | filePath :: rest =>
      do single <- compressSingle filePath compressLevel includeSha1;
      batch_loop rest (i + 1) compressLevel includeSha1
        (out ++ [{| index := i; wrapped := wrapped single;
                    rawSize := rawSize single; rawSha1 := rawSha1 single |}])
  end.

(** [compressFilesBatch] as it runs with one worker or without the worker
    script. With workers the same array is filled through [msg.index], and
    a failed task rejects the whole batch. *)
Definition compressFilesBatch (filePaths : list Buffer) (compressLevel : Z)
    (includeSha1 : bool) : result (list CompressedFile) :=
  if (length filePaths =? 0)%nat then Ok []
  else batch_loop filePaths 0 compressLevel includeSha1 [].

End Env.
End Compress.

(** ** The patch pipeline (patch_engine.ts) *)

Module Patch.

Record PatchInput := {
  requestedPath : Buffer;
  archivePath : Buffer;
  localPath : Buffer;
  metaIdx : Z;
  oldMeta : MetaRecord
}.

(** [PreparedPatch]: the patch, the [wrapped], [rawSize] and [rawSha1] of
    its compression result, and what phase 2 computes. Its [startBlock] is
    [newStartBlock] here, the name being taken by the meta record. *)
Record PreparedPatch := {
  patch : PatchInput;
  comp : CompressedFile;
  wrappedSize : Z;
  blocksNeeded : Z;
  newStartBlock : Z;
  oldMetaBytes : Buffer;
  newMetaBytes : Buffer
}.

Record PatchStats := {
  patched : Z;
  notFound : Z;
  deduped : Z;
  errors : Z;
  wouldPatch : option Z;
  rolledBack : option bool
}.

(** The variables of [patchFiles] that phases 1 and 2 leave to phase 3 and
    to the rollback. *)
Record Plan := {
  idxLayout : PriusIdx;
  originalDatSize : Z;
  originalFatSize : Z;
  prepared : list PreparedPatch;
  newFatEntries : Buffer;
  newFatSize : Z;
  notFoundCount : Z;
  dedupedCount : Z
}.

Definition fatChannel : Z := 3.
Definition metaChannel : Z := 2.

(** The data file while phase 3 appends to it: its bytes and the number of
    [writevSync] calls made. *)
Record DatFd := {
  datBytes : Buffer;
  writevCalls : nat
}.

(** The closure state of phase 3. *)
Record Appender := {
  writePos : Z;
  pendingWrites : list Buffer;
  pendingBytes : Z
}.

Section Env.
(** [String.prototype.toLowerCase], on the bytes of the path. *)
Variable toLowerCase : Buffer -> Buffer.
Variable deflate : Buffer -> Z -> Buffer.
Variable inflate : Buffer -> option Buffer.
Variable sha1 : Buffer -> Buffer.
Variable readFileSync : Buffer -> result Buffer.
(** [fs.statSync(path).size], or an exception. *)
Variable statSize : Buffer -> result Z.

(** The loop of [resolveMetaForPath] over its candidates. *)
Fixpoint resolve_candidates (arc : PriusArchive) (query : Buffer)
    (candidates : list Buffer) : result (Buffer * Z) :=
  match candidates with
  | [] => Ok (query, -1)
  | candidate :: rest =>
      do found <- Extract.findMeta arc candidate;
      if snd found >=? 0 then Ok (candidate, snd found)
      else resolve_candidates arc query rest
  end.

Definition resolveMetaForPath (arc : PriusArchive) (archivePath : Buffer)
    : result (Buffer * Z) :=
  let query := Reader.normalizeSlashes archivePath in
  let lower := toLowerCase query in
  let candidates :=
    if bool_decide (lower = query) then [query] else [query; lower] in
  resolve_candidates arc query candidates.

(** Phase 1: the loop over the entries of [fileMap]. *)
Fixpoint resolve_loop (arc : PriusArchive) (entries : list (Buffer * Buffer))
    (seenMeta : gset Z) (patches : list PatchInput) (notFound deduped : Z)
    : result (list PatchInput * Z * Z) :=
  match entries with
  | [] => Ok (patches, notFound, deduped)
  | (requestedPath, localPath) :: rest =>
      do resolved <- resolveMetaForPath arc requestedPath;
      let metaIdx := snd resolved in
      if metaIdx <? 0
      then resolve_loop arc rest seenMeta patches (notFound + 1) deduped else
      if bool_decide (metaIdx ∈ seenMeta)
      then resolve_loop arc rest seenMeta patches notFound (deduped + 1) else
      do oldMeta <- Reader.metaRecord arc metaIdx;
      resolve_loop arc rest ({[metaIdx]} ∪ seenMeta)
        (patches ++ [{| requestedPath := requestedPath;
                        archivePath := fst resolved;
                        localPath := localPath;
                        metaIdx := metaIdx;
                        oldMeta := oldMeta |}])
        notFound deduped
  end.

(** The loop of the dry run, for its calls of [fs.statSync]. *)
Fixpoint stat_loop (patches : list PatchInput) : result unit :=
  match patches with
  | [] => Ok tt
  | p :: rest => do localSize <- statSize (localPath p); stat_loop rest
  end.

(** Phase 2: the loop over the patches and their compression results. *)
Fixpoint prepare_loop (patches : list PatchInput)
    (compressed : list CompressedFile) (i : nat) (blockCursor : Z)
    (newFatWords : list Z) (prepared : list PreparedPatch)
    : result (Z * list Z * list PreparedPatch) :=
  match patches with
  | [] => Ok (blockCursor, newFatWords, prepared)
  | p :: rest =>
      match compressed !! i with
      | None => Throw UndefinedElement
      | Some result =>
          let wrappedSize := blen (wrapped result) in
          let blocksNeeded :=
            (wrappedSize + DAT_BLOCK_SIZE - 1) / DAT_BLOCK_SIZE in
          let start := blockCursor in
          let '(blockCursor', newFatWords') :=
            Repack.fat_loop (Z.to_nat blocksNeeded) blocksNeeded 0 blockCursor
              newFatWords in
          let oldMetaBytes :=
            packMetaRecord (flags (oldMeta p)) (size (oldMeta p))
              (startBlock (oldMeta p)) (extra (oldMeta p)) in
          let newMetaBytes :=
            packMetaRecord (js_or (flags (oldMeta p)) 1) wrappedSize
              start (extra (oldMeta p)) in
          prepare_loop rest compressed (S i) blockCursor' newFatWords'
            (prepared ++ [{| patch := p; comp := result;
                             wrappedSize := wrappedSize;
                             blocksNeeded := blocksNeeded;
                             newStartBlock := start;
                             oldMetaBytes := oldMetaBytes;
                             newMetaBytes := newMetaBytes |}])
      end
  end.

(** Phases 1 and 2. They read the two files and the local files and write
    nothing; they end with the statistics of a run that has nothing to
    write, or with the plan of phase 3. The messages printed on the console
    are left out, and so is the number of workers, which only chooses how
    [compressFilesBatch] runs. *)
Definition prepare (d : Disk) (fileMap : list (Buffer * Buffer))
    (compressLevel : Z) (dryRun : bool) : result (PatchStats + Plan) :=
  do opened <- Idx.openArchive (idxFile d) (Some (datFile d));
  let arc := snd opened in
  do resolved <- resolve_loop arc fileMap ∅ [] 0 0;
  let '(patches, notFound, deduped) := resolved in
  if (length patches =? 0)%nat then
    Ok (inl {| patched := 0; notFound := notFound; deduped := deduped;
               errors := 0; wouldPatch := None; rolledBack := None |})
  else if dryRun then
    do sizes <- stat_loop patches;
    Ok (inl {| patched := 0; notFound := notFound; deduped := deduped;
               errors := 0; wouldPatch := Some (Z.of_nat (length patches));
               rolledBack := None |})
  else
  let originalDatSize := blen (datFile d) in
  if negb (originalDatSize mod DAT_BLOCK_SIZE =? 0) then Throw DatNotAligned else
  let currentBlocks := originalDatSize / DAT_BLOCK_SIZE in
  if negb (Reader.fatEntryCount arc =? currentBlocks) then Throw DatFatMismatch else
  let idxLayout := fst opened in
  match at_index (channels idxLayout) fatChannel with
  | None => Throw UndefinedElement
  | Some fatCh0 =>
  let originalFatSize := sizeBytes fatCh0 in
  if negb (originalFatSize =? Reader.fatEntryCount arc * 4)
  then Throw IdxFatSizeMismatch else
  do compressed <- Compress.compressFilesBatch deflate sha1 readFileSync
                     (map localPath patches) compressLevel true;
  do looped <- prepare_loop patches compressed 0 currentBlocks [] [];
  let '(blockCursor, newFatWords, prepared) := looped in
  let totalNewBlocks := blockCursor - currentBlocks in
  let newFatSize := (currentBlocks + totalNewBlocks) * 4 in
  let newFatEntries :=
    Repack.fatData_loop newFatWords 0
      (alloc (Z.of_nat (length newFatWords) * 4)) in
  let stripes := stripes idxLayout in
  match at_index (channels idxLayout) fatChannel with
  | None => Throw UndefinedElement
  | Some fatCh =>
  let fatCapacity := stripes * pagesPerStripe fatCh * pageSize idxLayout in
  if newFatSize >? fatCapacity then Throw FatCapacityExceeded else
  match at_index (channels idxLayout) metaChannel with
  | None => Throw UndefinedElement
  | Some metaCh =>
  let metaCapacity := stripes * pagesPerStripe metaCh * pageSize idxLayout in
  if existsb (fun p => metaIdx (patch p) * META_SIZE + META_SIZE >? metaCapacity)
             prepared
  then Throw MetaOutOfCapacity else
  Ok (inr {| idxLayout := idxLayout; originalDatSize := originalDatSize;
             originalFatSize := originalFatSize; prepared := prepared;
             newFatEntries := newFatEntries; newFatSize := newFatSize;
             notFoundCount := notFound; dedupedCount := deduped |})
  end end end.

(** [fs.writevSync(datFd, buffers, position)]; the call the fault names
    writes the first bytes only and throws. *)
Definition writevSync (fault : option (nat * Z)) (fd : DatFd)
    (buffers : list Buffer) (position : Z) : result unit * DatFd :=
  let data := concat buffers in
  let written (bytes : Buffer) :=
    {| datBytes := pwrite (datBytes fd) bytes position;
       writevCalls := S (writevCalls fd) |} in
  match fault with
  | Some (n, k) =>
      if (n =? writevCalls fd)%nat
      then (Throw IoFailure, written (subarray data 0 k))
      else (Ok tt, written data)
  | None => (Ok tt, written data)
  end.

Definition enqueueWrite (a : Appender) (buf : Buffer) : Appender :=
  {| writePos := writePos a;
     pendingWrites := pendingWrites a ++ [buf];
     pendingBytes := pendingBytes a + blen buf |}.

Definition flushWrites (fault : option (nat * Z)) (a : Appender) (fd : DatFd)
    : result Appender * DatFd :=
  if (length (pendingWrites a) =? 0)%nat then (Ok a, fd) else
  match writevSync fault fd (pendingWrites a) (writePos a) with
  | (Ok _, fd') =>
      (Ok {| writePos := writePos a + pendingBytes a;
             pendingWrites := []; pendingBytes := 0 |}, fd')
  | (Throw e, fd') => (Throw e, fd')
  | (OutOfFuel, fd') => (OutOfFuel, fd')
  end.

Definition writeThreshold : Z := 8 * 1024 * 1024.

(** Phase 3: the loop that appends the wrapped files, block by block. *)
Fixpoint append_loop (fault : option (nat * Z)) (prepared : list PreparedPatch)
    (a : Appender) (fd : DatFd) : result Appender * DatFd :=
  match prepared with
  | [] => (Ok a, fd)
  | p :: rest =>
      let a := enqueueWrite a (wrapped (comp p)) in
      let padSize := blocksNeeded p * DAT_BLOCK_SIZE - blen (wrapped (comp p)) in
      let a := if padSize >? 0
               then enqueueWrite a (subarray (alloc DAT_BLOCK_SIZE) 0 padSize)
               else a in
      if pendingBytes a >=? writeThreshold then
        match flushWrites fault a fd with
        | (Ok a', fd') => append_loop fault rest a' fd'
        | (Throw e, fd') => (Throw e, fd')
        | (OutOfFuel, fd') => (OutOfFuel, fd')
        end
      else append_loop fault rest a fd
  end.

Definition fatSizeHeaderOffset : Z := 8 + fatChannel * 8 + 4.

(** Phase 3: the loop that writes the new meta records. *)
Fixpoint meta_writes (fault : option (nat * write_fault)) (idx : PriusIdx)
    (prepared : list PreparedPatch) (fd : IdxFd) : result unit * IdxFd :=
  match prepared with
  | [] => (Ok tt, fd)
  | p :: rest =>
      match writeIdxChannelBytes fault idx metaChannel
              (metaIdx (patch p) * META_SIZE) (newMetaBytes p) fd with
      | (Ok _, fd') => meta_writes fault idx rest fd'
      | (Throw e, fd') => (Throw e, fd')
      | (OutOfFuel, fd') => (OutOfFuel, fd')
      end
  end.

(** Phase 3: the writes to the index file. What the [writeSync] of the
    header word returns is not looked at. *)
Definition updateIdx (fault : option (nat * write_fault)) (plan : Plan)
    (fd : IdxFd) : result unit * IdxFd :=
  match writeIdxChannelBytes fault (idxLayout plan) fatChannel
          (originalFatSize plan) (newFatEntries plan) fd with
  | (Ok _, fd1) =>
      match writeSync fault fd1 (packU32 (newFatSize plan)) 0 4
              fatSizeHeaderOffset with
      | (Ok _, fd2) => meta_writes fault (idxLayout plan) (prepared plan) fd2
      | (Throw e, fd2) => (Throw e, fd2)
      | (OutOfFuel, fd2) => (OutOfFuel, fd2)
      end
  | (Throw e, fd1) => (Throw e, fd1)
  | (OutOfFuel, fd1) => (OutOfFuel, fd1)
  end.

(** Phase 4: the loop that reads every patched file back. An exception of
    [readFileBytes] counts as an error. *)
Fixpoint verify_loop (verifyArc : PriusArchive) (prepared : list PreparedPatch)
    (errors : Z) : result Z :=
  match prepared with
  | [] => Ok errors
  | p :: rest =>
      match Extract.readFileBytes inflate verifyArc (metaIdx (patch p)) with
      | Ok extracted =>
          let extractedSha1 := sha1 extracted in
          if negb (blen extracted =? rawSize (comp p))
             || negb (bool_decide (extractedSha1 = rawSha1 (comp p)))
          then verify_loop verifyArc rest (errors + 1)
          else verify_loop verifyArc rest errors
      | Throw _ => verify_loop verifyArc rest (errors + 1)
      | OutOfFuel => OutOfFuel
      end
  end.

(** Phases 3 and 4, the body of the second [try]: what it returns or
    throws, the files as it leaves them, and the variables [datAppended]
    and [idxUpdated] at that point. *)
Definition commit (faults : Faults) (plan : Plan) (d : Disk)
    : result PatchStats * Disk * (bool * bool) :=
  let curSize := blen (datFile d) in
  if negb (curSize =? originalDatSize plan)
  then (Throw DatSizeChanged, d, (false, false)) else
  let a0 := {| writePos := curSize; pendingWrites := []; pendingBytes := 0 |} in
  let fd0 := {| datBytes := datFile d; writevCalls := 0 |} in
  let appended :=
    match append_loop (datWriteFails faults) (prepared plan) a0 fd0 with
    | (Ok a, fd) => flushWrites (datWriteFails faults) a fd
    | (Throw e, fd) => (Throw e, fd)
    | (OutOfFuel, fd) => (OutOfFuel, fd)
    end in
  let d1 := {| idxFile := idxFile d; datFile := datBytes (snd appended) |} in
  match fst appended with
  | Throw e => (Throw e, d1, (false, false))
  | OutOfFuel => (OutOfFuel, d1, (false, false))
  | Ok _ =>
  if datSyncFails faults then (Throw IoFailure, d1, (false, false)) else
  if idxOpenFails faults then (Throw IoFailure, d1, (true, false)) else
  let updated :=
    updateIdx (idxWriteFault faults) plan
      {| content := idxFile d1; calls := 0 |} in
  let d2 := {| idxFile := content (snd updated); datFile := datFile d1 |} in
  match fst updated with
  | Throw e => (Throw e, d2, (true, false))
  | OutOfFuel => (OutOfFuel, d2, (true, false))
  | Ok _ =>
  if idxSyncFails faults then (Throw IoFailure, d2, (true, false)) else
  match Idx.openArchive (idxFile d2) (Some (datFile d2)) with
  | Throw e => (Throw e, d2, (true, true))
  | OutOfFuel => (OutOfFuel, d2, (true, true))
  | Ok verify =>
  match verify_loop (snd verify) (prepared plan) 0 with
  | Throw e => (Throw e, d2, (true, true))
  | OutOfFuel => (OutOfFuel, d2, (true, true))
  | Ok errors =>
      if errors >? 0 then (Throw VerificationErrors, d2, (true, true)) else
      (Ok {| patched := Z.of_nat (length (prepared plan));
             notFound := notFoundCount plan; deduped := dedupedCount plan;
             errors := 0; wouldPatch := None; rolledBack := Some false |},
       d2, (true, true))
  end end end end.

(** The loop of [rollbackPatch] over the old meta records. *)
Fixpoint restore_loop (idxLayout : PriusIdx) (metaChannel : Z)
    (metaOldRecords : list (Z * Buffer)) (fd : IdxFd) : result unit * IdxFd :=
  match metaOldRecords with
  | [] => (Ok tt, fd)
  | (metaIdx, oldMetaBytes) :: rest =>
      match writeIdxChannelBytes None idxLayout metaChannel
              (metaIdx * META_SIZE) oldMetaBytes fd with
      | (Ok _, fd') => restore_loop idxLayout metaChannel rest fd'
      | (Throw e, fd') => (Throw e, fd')
      | (OutOfFuel, fd') => (OutOfFuel, fd')
      end
  end.

(** [rollbackPatch]; its calls of node:fs do what they are asked. *)
Definition rollbackPatch (idxLayout : PriusIdx)
    (originalDatSize originalFatSize : Z) (metaOldRecords : list (Z * Buffer))
    (metaChannel fatChannel : Z) (d : Disk) : result unit * Disk :=
  let dat' := ftruncate (datFile d) originalDatSize in
  let fatSizeHeaderOffset := 8 + fatChannel * 8 + 4 in
  match restore_loop idxLayout metaChannel metaOldRecords
          {| content := idxFile d; calls := 0 |} with
  | (Ok _, fd1) =>
      match writeSync None fd1 (packU32 originalFatSize) 0 4
              fatSizeHeaderOffset with
      | (Ok _, fd2) => (Ok tt, {| idxFile := content fd2; datFile := dat' |})
      | (Throw e, fd2) => (Throw e, {| idxFile := content fd2; datFile := dat' |})
      | (OutOfFuel, fd2) => (OutOfFuel, {| idxFile := content fd2; datFile := dat' |})
      end
  | (Throw e, fd1) => (Throw e, {| idxFile := content fd1; datFile := dat' |})
  | (OutOfFuel, fd1) => (OutOfFuel, {| idxFile := content fd1; datFile := dat' |})
  end.

(** [patchFiles]: what it returns or throws, the two files as it leaves
    them, and the value of its variable [rolledBack] when it ends. *)
Definition patchFiles (faults : Faults) (d : Disk)
    (fileMap : list (Buffer * Buffer)) (compressLevel : Z) (dryRun : bool)
    : result PatchStats * Disk * bool :=
  match prepare d fileMap compressLevel dryRun with
  | Throw e => (Throw e, d, false)
  | OutOfFuel => (OutOfFuel, d, false)
  | Ok (inl stats) => (Ok stats, d, false)
  | Ok (inr plan) =>
      match commit faults plan d with
      | (Ok stats, d1, _) => (Ok stats, d1, false)
      | (OutOfFuel, d1, _) => (OutOfFuel, d1, false)
      | (Throw e, d1, (datAppended, idxUpdated)) =>
          if datAppended || idxUpdated then
            let oldRecords :=
              map (fun p => (metaIdx (patch p), oldMetaBytes p)) (prepared plan) in
            match rollbackPatch (idxLayout plan) (originalDatSize plan)
                    (originalFatSize plan) oldRecords metaChannel fatChannel d1 with
            | (Ok _, d2) => (Throw e, d2, true)
            | (Throw e', d2) => (Throw e', d2, false)
            | (OutOfFuel, d2) => (OutOfFuel, d2, false)
            end
          else (Throw e, d1, false)
      end
  end.

End Env.
End Patch.

(** ** The repack pipeline as a whole (repack_engine.ts) *)

Module Pack.

(** A candidate of [repack] with the local file it stands for. *)
Record Source := {
  cand : Candidate;
  localPath : Buffer
}.

(** What [repack] leaves when it does not return its statistics. *)
Inductive Outcome (A : Type) : Type :=
  | Repacked (stats : A)
  | NoFilesToRepack             (* "No files to repack" *)
  | Failed (e : error)
  | Unfinished.                 (* the bound of a model loop was reached *)
Arguments Repacked {A} stats.
Arguments NoFilesToRepack {A}.
Arguments Failed {A} e.
Arguments Unfinished {A}.

(** The body of the loop of phase 1 with its array [validLocalPaths],
    which grows whenever [validPaths] does. *)
Definition phase1_step (sourceIsWalkedFiles : bool)
    (acc : Phase1 * list Buffer) (s : Source) : Phase1 * list Buffer :=
  let '(st, validLocalPaths) := acc in
  let st' := Repack.phase1_step sourceIsWalkedFiles st (cand s) in
  if decide (arcPath (cand s) ∈ seenPaths st) then (st', validLocalPaths)
  else if negb sourceIsWalkedFiles && negb (isFile (cand s))
  then (st', validLocalPaths)
  else (st', validLocalPaths ++ [localPath s]).

Definition phase1 (sourceIsWalkedFiles : bool) (sources : list Source)
    : Phase1 * list Buffer :=
  fold_left (phase1_step sourceIsWalkedFiles) sources (Repack.phase1_init, []).

(** The state of phase 3 after [fs.writeSync] of the zero-filled block 0. *)
Definition phase3_init (n : nat) : Phase3 :=
  {| totalRawSize := 0; currentBlock := 1; fatEntries := [0];
     startBlocks := replicate n None; wrappedSizes := replicate n None;
     pendingWrites := []; pendingBytes := 0;
     datOut := alloc DAT_BLOCK_SIZE |}.

(** The comparator of [sized.sort] on entries (path, originalIndex, size):
    larger files first, then smaller indices. *)
Definition comesFirst (a b : Buffer * Z * Z) : bool :=
  let '(_, ia, sa) := a in
  let '(_, ib, sb) := b in
  if negb (sb =? sa) then sb - sa <? 0 else ia - ib <=? 0.

(** [Array.prototype.sort] under this comparator. The entries have
    pairwise different indices, so the comparator orders them totally and
    the sorted array does not depend on the algorithm; insertion computes
    it. *)
Fixpoint insertSized (x : Buffer * Z * Z) (l : list (Buffer * Z * Z))
    : list (Buffer * Z * Z) :=
  match l with
  | [] => [x]
  | y :: rest => if comesFirst x y then x :: y :: rest
                 else y :: insertSized x rest
  end.

Definition sortSized (l : list (Buffer * Z * Z)) : list (Buffer * Z * Z) :=
  fold_right insertSized [] l.

(** The statistics [repack] returns. *)
Module Stats.
Record RepackStats := {
  files : Z;
  skipped : Z;
  deduped : Z;
  rawSize : Z;
  datSize : Z;
  idxSize : Z;
  verified : option Z;
  verifyErrors : option Z
}.
End Stats.

Section Env.
Variable deflate : Buffer -> Z -> Buffer.
Variable inflate : Buffer -> option Buffer.
Variable sha1 : Buffer -> Buffer.
Variable readFileSync : Buffer -> result Buffer.
(** What [statFileSizes] finds for a path: the size of the file, 0 for
    what is no file or cannot be examined. *)
Variable fileSize : Buffer -> Z.
(** [fs.existsSync(p) && fs.statSync(p).isFile()] in phase 6. *)
Variable isFileNow : Buffer -> bool.

(** [scheduledPaths] and [scheduledToOriginal] of the size schedule. *)
Definition schedule (validLocalPaths : list Buffer) : list Buffer * list Z :=
  let sized :=
    imap (fun i p => (p, Z.of_nat i, fileSize p)) validLocalPaths in
  let sorted := sortSized sized in
  (map (fun x => fst (fst x)) sorted, map (fun x => snd (fst x)) sorted).

(** The results [compressFilesStream] yields and the exception that ends
    it, if any. [order] lists the tasks in the order in which their results
    arrive: 0, 1, 2, ... without workers, the order of completion with
    them. The stream ends with the first task that fails. *)
Fixpoint stream_loop (filePaths : list Buffer) (compressLevel : Z)
    (order : list nat) : list CompressedFile * option error :=
  match order with
  | [] => ([], None)
  | j :: rest =>
      match filePaths !! j with
      | None => ([], Some IoFailure)
      | Some filePath =>
          match Compress.compressSingle deflate sha1 readFileSync filePath
                  compressLevel false with
          | Ok single =>
              let '(more, failure) := stream_loop filePaths compressLevel rest in
              ({| index := Z.of_nat j; wrapped := wrapped single;
                  rawSize := rawSize single; rawSha1 := rawSha1 single |}
               :: more, failure)
          | Throw e => ([], Some e)
          | OutOfFuel => ([], Some IoFailure)
          end
      end
  end.

Definition compressFilesStream (filePaths : list Buffer) (compressLevel : Z)
    (order : list nat) : list CompressedFile * option error :=
  if (length filePaths =? 0)%nat then ([], None)
  else stream_loop filePaths compressLevel order.

(** [iterEntries]: the entries the generator yields, node index, node and
    path, and how it ends. The path is kept as the bytes that
    [toString("utf8")] decodes. *)
Fixpoint iterEntries_loop (arc : PriusArchive) (count : nat) (nodeIndex : Z)
    : list (Z * DtNode * Buffer) * result unit :=
  match count with
  | O => ([], Ok tt)
  | S count' =>
      match Reader.dtNode arc nodeIndex with
      | Ok node =>
          let nameStringIndex := js_and (nameRaw node) 0x7fffffff in
          match Reader.stringBytes (strings arc) nameStringIndex with
          | Ok pathText =>
              let '(more, ending) :=
                iterEntries_loop arc count' (nodeIndex + 1) in
              ((nodeIndex, node, pathText) :: more, ending)
          | Throw e => ([], Throw e)
          | OutOfFuel => ([], OutOfFuel)
          end
      | Throw e => ([], Throw e)
      | OutOfFuel => ([], OutOfFuel)
      end
  end.

Definition iterEntries (arc : PriusArchive) : list (Z * DtNode * Buffer) * result unit :=
  iterEntries_loop arc (Z.to_nat (Reader.dtNodeCount arc - 1)) 1.

(** Phase 6: the body of the loop over the entries, on the counters
    [verified] and [errors]. An empty local path counts as none. *)
Definition verify_step (arc : PriusArchive) (localLookup : gmap Buffer Buffer)
    (counters : Z * Z) (entry : Z * DtNode * Buffer) : Z * Z :=
  let '(verified, errors) := counters in
  let '(_, node, pathText) := entry in
  let metaIdx := metaIndex node in
  if (metaIdx <? 0) || (metaIdx >=? Reader.metaCount arc) then counters else
  match Extract.readFileBytes inflate arc metaIdx with
  | Ok data =>
      match localLookup !! pathText with
      | Some localPath =>
          if negb (blen localPath =? 0) && isFileNow localPath then
            match readFileSync localPath with
            | Ok original =>
                if bool_decide (data = original) then (verified + 1, errors)
                else (verified, errors + 1)
            | _ => (verified, errors + 1)
            end
          else (verified + 1, errors)
      | None => (verified + 1, errors)
      end
  | _ => (verified, errors + 1)
  end.

(** [localLookup]: later entries of [validPaths] replace earlier ones. *)
Definition localLookupOf (validPaths validLocalPaths : list Buffer)
    : gmap Buffer Buffer :=
  fold_left (fun m kv => <[fst kv := snd kv]> m)
            (zip validPaths validLocalPaths) ∅.

(** Phase 6: [verified] and [errors], or the exception of the constructor
    or of the generator. *)
Definition verifyArchive (idxFile datFile : Buffer)
    (validPaths validLocalPaths : list Buffer) : result (Z * Z) :=
  do opened <- Idx.openArchive idxFile (Some datFile);
  let arc := snd opened in
  let localLookup := localLookupOf validPaths validLocalPaths in
  let '(entries, ending) := iterEntries arc in
  let counters := fold_left (verify_step arc localLookup) entries (0, 0) in
  do _ <- ending;
  Ok counters.

(** [repack] from its list of candidates on, run without auto-tuning of
    the job count: what it returns or throws, and the bytes of [outDat]
    and [outIdx] as it leaves them ([None]: not created). The messages on
    the console are left out; the calls of node:fs on the two output files
    succeed. *)
Definition repack (sources : list Source) (sourceIsWalkedFiles : bool)
    (compressLevel : Z) (verify sizeSchedule : bool) (order : list nat)
    : Outcome Stats.RepackStats * option Buffer * option Buffer :=
  if (length sources =? 0)%nat then (NoFilesToRepack, None, None) else
  let '(p1, validLocalPaths) := phase1 sourceIsWalkedFiles sources in
  let stringData := StringTable.build (stb p1) in
  match Trie.buildFromKeys Trie.new (keys p1) (stringIndices p1)
          (metaIndices p1) with
  | Throw e => (Failed e, None, None)
  | OutOfFuel => (Unfinished, None, None)
  | Ok trie =>
  match Trie.build trie with
  | Throw e => (Failed e, None, None)
  | OutOfFuel => (Unfinished, None, None)
  | Ok dtData =>
  let n := length (validPaths p1) in
  let '(scheduledPaths, scheduledToOriginal) :=
    if sizeSchedule && (1 <? length validLocalPaths)%nat
    then (fst (schedule validLocalPaths), Some (snd (schedule validLocalPaths)))
    else (validLocalPaths, None) in
  let '(results, failure) :=
    compressFilesStream scheduledPaths compressLevel order in
  match failure with
  | Some e =>
      (Failed e,
       Some (datOut (fold_left (Repack.phase3_step scheduledToOriginal) results
                       (phase3_init n))),
       None)
  | None =>
  let st := Repack.phase3 n scheduledToOriginal results in
  let metaData := Repack.buildMetaData n st in
  let fatData := Repack.buildFatData st in
  match IdxWriter.writeIdx dtData stringData metaData fatData
          IdxWriter.PAGE_SIZE IdxWriter.DEFAULT_PPS with
  | Throw e => (Failed e, Some (datOut st), None)
  | OutOfFuel => (Unfinished, Some (datOut st), None)
  | Ok idxFile =>
  let stats (v e : option Z) :=
    {| Stats.files := Z.of_nat n; Stats.skipped := skipped p1;
       Stats.deduped := deduped p1; Stats.rawSize := totalRawSize st;
       Stats.datSize := blen (datOut st); Stats.idxSize := blen idxFile;
       Stats.verified := v; Stats.verifyErrors := e |} in
  if verify then
    match verifyArchive idxFile (datOut st) (validPaths p1) validLocalPaths with
    | Ok (v, e) =>
        (Repacked (stats (Some v) (Some e)), Some (datOut st), Some idxFile)
    | Throw e => (Failed e, Some (datOut st), Some idxFile)
    | OutOfFuel => (Unfinished, Some (datOut st), Some idxFile)
    end
  else (Repacked (stats None None), Some (datOut st), Some idxFile)
  end end end end.

End Env.
End Pack.

(** ** Listing an archive (extract_shared.ts, extract_listing.ts) *)

Module Listing.

(** [stringRecordHeader]. *)
Definition stringRecordHeader (arc : PriusArchive) (recordIndex : Z) : result Z :=
  let off := recordIndex * 0x40 in
  if (off <? 0) || (blen (strings arc) <? off + 4)
  then Throw StringRecordOutOfRange else
  readU32 (strings arc) off.

(** The first loop of [getOrphanStrings]: the records that a header names
    as the next one of a chain. *)
Fixpoint nextTargets_loop (arc : PriusArchive) (count : nat) (i : Z)
    (nextTargets : gset Z) : result (gset Z) :=
  match count with
  | O => Ok nextTargets
  | S count' =>
      do header <- stringRecordHeader arc i;
      let nxt := js_and header 0x7fffffff in
      nextTargets_loop arc count' (i + 1)
        (if (0 <? nxt) && (nxt <? Reader.stringRecordCount arc)
         then {[nxt]} ∪ nextTargets else nextTargets)
  end.

(** The second loop: the name indices of all trie nodes. *)
Fixpoint dtStrings_loop (arc : PriusArchive) (count : nat) (nodeIdx : Z)
    (dtStrings : gset Z) : result (gset Z) :=
  match count with
  | O => Ok dtStrings
  | S count' =>
      do node <- Reader.dtNode arc nodeIdx;
      dtStrings_loop arc count' (nodeIdx + 1)
        ({[js_and (nameRaw node) 0x7fffffff]} ∪ dtStrings)
  end.

(** The third loop. The [Map] is filled under increasing keys and is kept
    as the list of its entries in insertion order; a string is kept as the
    bytes that [toString("utf8")] decodes, which are none exactly when the
    string is empty. The [catch] skips what [stringBytes] throws. *)
Fixpoint orphans_loop (arc : PriusArchive) (count : nat) (i : Z)
    (nextTargets dtStrings : gset Z) (orphans : list (Z * Buffer))
    : result (list (Z * Buffer)) :=
  match count with
  | O => Ok orphans
  | S count' =>
      if bool_decide (i ∈ nextTargets) || bool_decide (i ∈ dtStrings)
      then orphans_loop arc count' (i + 1) nextTargets dtStrings orphans
      else
        match Reader.stringBytes (strings arc) i with
        | Ok s =>
            orphans_loop arc count' (i + 1) nextTargets dtStrings
              (if 0 <? blen s then orphans ++ [(i, s)] else orphans)
        | Throw _ =>
            orphans_loop arc count' (i + 1) nextTargets dtStrings orphans
        | OutOfFuel => OutOfFuel
        end
  end.

(** [getOrphanStrings]: the strings that start a chain of their own and
    belong to no trie node. *)
Definition getOrphanStrings (arc : PriusArchive) : result (list (Z * Buffer)) :=
  let count := Z.to_nat (Reader.stringRecordCount arc - 1) in
  do nextTargets <- nextTargets_loop arc count 1 ∅;
  do dtStrings <- dtStrings_loop arc (Z.to_nat (Reader.dtNodeCount arc)) 0 ∅;
  orphans_loop arc count 1 nextTargets dtStrings [].

(** The loop of [cmdListDt] over the entries of the generator: the lines
    printed so far and [count]. *)
Fixpoint listDt_loop (arc : PriusArchive) (onlyFiles : bool)
    (entries : list (Z * DtNode * Buffer)) (lines : list Buffer) (count : Z)
    : list Buffer * result Z :=
  match entries with
  | [] => (lines, Ok count)
  | (_, node, path) :: rest =>
      let metaIdx := metaIndex node in
      if (metaIdx <? 0) || (metaIdx >=? Reader.metaCount arc)
      then listDt_loop arc onlyFiles rest lines count else
      match Reader.metaRecord arc metaIdx with
      | Ok meta =>
          if onlyFiles && (size meta =? 0)
          then listDt_loop arc onlyFiles rest lines count
          else listDt_loop arc onlyFiles rest (lines ++ [path]) (count + 1)
      | Throw e => (lines, Throw e)
      | OutOfFuel => (lines, OutOfFuel)
      end
  end.

(** [cmdListDt]: the lines it prints on the standard output, and the total
    it reports in the end or the exception that ends it. *)
Definition cmdListDt (idxFile : Buffer) (datFile : option Buffer)
    (onlyFiles : bool) : list Buffer * result Z :=
  match Idx.openArchive idxFile datFile with
  | Ok opened =>
      let arc := snd opened in
      let '(entries, ending) := Pack.iterEntries arc in
      match listDt_loop arc onlyFiles entries [] 0 with
      | (lines, Ok count) =>
          match ending with
          | Ok _ => (lines, Ok count)
          | Throw e => (lines, Throw e)
          | OutOfFuel => (lines, OutOfFuel)
          end
      | stopped => stopped
      end
  | Throw e => ([], Throw e)
  | OutOfFuel => ([], OutOfFuel)
  end.

End Listing.

(* ===================================================================== *)
(** * Part II: properties                                                 *)
(* ===================================================================== *)

(** ** Bytes and 32-bit words *)

Lemma byteZ_range (b : byte) : 0 <= byteZ b < 256.
Proof.
  unfold byteZ. pose proof (Byte.to_N_bounded b). lia.
Qed.

Lemma byteZ_Zbyte (z : Z) : byteZ (Zbyte z) = z mod 256.
Proof.
  unfold byteZ, Zbyte.
  assert (Hr : 0 <= z mod 256 < 256) by (apply Z.mod_pos_bound; lia).
  destruct (Byte.of_N (Z.to_N (z mod 256))) as [b|] eqn:E.
  - apply Byte.to_of_N in E. rewrite E. lia.
  - apply Byte.of_N_None_iff in E. lia.
Qed.

Lemma Zbyte_byteZ (b : byte) : Zbyte (byteZ b) = b.
Proof.
  unfold Zbyte, byteZ. pose proof (Byte.to_N_bounded b) as Hb.
  rewrite Z.mod_small by lia. rewrite N2Z.id. now rewrite Byte.of_to_N.
Qed.

Lemma byteZ_inj (a b : byte) : byteZ a = byteZ b -> a = b.
Proof.
  intros H. rewrite <- (Zbyte_byteZ a), <- (Zbyte_byteZ b). now rewrite H.
Qed.

Lemma byteZ_x00 (b : byte) : byteZ b = 0 <-> b = x00.
Proof.
  split; [|now intros ->]. intros H. apply byteZ_inj. now rewrite H.
Qed.

Lemma u32_range (x : Z) : 0 <= u32 x < 2 ^ 32.
Proof. unfold u32. apply Z.mod_pos_bound. lia. Qed.

Lemma u32_small (x : Z) : 0 <= x < 2 ^ 32 -> u32 x = x.
Proof. intros. unfold u32. now apply Z.mod_small. Qed.

Lemma length_packU32 (v : Z) : length (packU32 v) = 4%nat.
Proof. reflexivity. Qed.

Lemma le_bytes_value (v : Z) :
  0 <= v < 2 ^ 32 ->
  v mod 256 + 2 ^ 8 * ((v / 2 ^ 8) mod 256) + 2 ^ 16 * ((v / 2 ^ 16) mod 256)
    + 2 ^ 24 * ((v / 2 ^ 24) mod 256) = v.
Proof.
  intros Hv.
  change (2 ^ 8) with 256. change (2 ^ 16) with 65536.
  change (2 ^ 24) with 16777216. change (2 ^ 32) with 4294967296 in Hv.
  pose proof (Z.div_mod v 256 ltac:(lia)).
  pose proof (Z.div_mod v 65536 ltac:(lia)).
  pose proof (Z.div_mod v 16777216 ltac:(lia)).
  pose proof (Z.div_mod (v / 256) 256 ltac:(lia)).
  pose proof (Z.div_mod (v / 65536) 256 ltac:(lia)).
  pose proof (Z.div_mod (v / 16777216) 256 ltac:(lia)).
  assert (v / 256 / 256 = v / 65536)
    by (rewrite Z.div_div by lia; reflexivity).
  assert (v / 65536 / 256 = v / 16777216)
    by (rewrite Z.div_div by lia; reflexivity).
  assert (v / 16777216 / 256 = 0)
    by (rewrite Z.div_div by lia; apply Z.div_small; lia).
  lia.
Qed.

(** A word written by [packU32] anywhere in a buffer is read back. *)
Lemma readU32_packU32 (pre rest : Buffer) (v : Z) :
  readU32 (pre ++ packU32 v ++ rest) (blen pre) = Ok (u32 v).
Proof.
  unfold readU32, blen.
  rewrite length_app, length_app, length_packU32.
  assert (E1 : (Z.of_nat (length pre) <? 0) = false) by (apply Z.ltb_ge; lia).
  assert (E2 : (Z.of_nat (length pre + (4 + length rest)) <?
                Z.of_nat (length pre) + 4) = false) by (apply Z.ltb_ge; lia).
  rewrite E1, E2. cbn [orb].
  rewrite Nat2Z.id, drop_app_length.
  cbn [packU32 app]. rewrite !byteZ_Zbyte.
  f_equal. apply le_bytes_value, u32_range.
Qed.

Lemma readU32_packU32_0 (rest : Buffer) (v : Z) :
  readU32 (packU32 v ++ rest) 0 = Ok (u32 v).
Proof. exact (readU32_packU32 [] rest v). Qed.

Lemma readU32_range (buf : Buffer) (off v : Z) :
  readU32 buf off = Ok v -> 0 <= v < 2 ^ 32.
Proof.
  unfold readU32. destruct (_ || _); [discriminate|].
  destruct (drop _ _) as [|b0 [|b1 [|b2 [|b3 ?]]]]; try discriminate.
  intros [= <-].
  pose proof (byteZ_range b0). pose proof (byteZ_range b1).
  pose proof (byteZ_range b2). pose proof (byteZ_range b3). lia.
Qed.

Lemma readU32_in_range (buf : Buffer) (off : Z) :
  0 <= off -> off + 4 <= blen buf -> exists v, readU32 buf off = Ok v.
Proof.
  intros H0 H4. unfold readU32.
  assert (E1 : (off <? 0) = false) by (apply Z.ltb_ge; lia).
  assert (E2 : (blen buf <? off + 4) = false) by (apply Z.ltb_ge; lia).
  rewrite E1, E2. cbn [orb].
  assert (Hl : (4 <= length (drop (Z.to_nat off) buf))%nat).
  { rewrite length_drop. unfold blen in H4. lia. }
  destruct (drop _ _) as [|b0 [|b1 [|b2 [|b3 ?]]]]; cbn in Hl; try lia.
  eauto.
Qed.

(** ** Block codec *)

Module CodecFacts.
Import Codec.

Lemma blen_app (a b : Buffer) : blen (a ++ b) = blen a + blen b.
Proof. unfold blen. rewrite length_app. lia. Qed.

Lemma wrapper_header_fields (t d : Z) (ts rest : Buffer) :
  readU32 (packU32 t ++ packU32 d ++ ts ++ rest) 0 = Ok (u32 t) /\
  readU32 (packU32 t ++ packU32 d ++ ts ++ rest) 4 = Ok (u32 d).
Proof.
  split.
  - apply readU32_packU32_0.
  - exact (readU32_packU32 (packU32 t) (ts ++ rest) d).
Qed.

(** The header the encoder emits, as a value. *)
Definition wrapper_header (declared : Z) : Buffer :=
  packU32 1 ++ packU32 declared
  ++ packU64 FILETIME ++ packU64 FILETIME ++ packU64 FILETIME.

Lemma length_wrapper_header (d : Z) : length (wrapper_header d) = 32%nat.
Proof. reflexivity. Qed.

(** C2. For every raw buffer whose length fits the 32-bit size field and
    every level 1..9, the encoder emits the 32-byte header (type 1, declared
    size [len raw], the three sentinel timestamps) followed by
    [deflate raw level], and the decoder gives [raw] back. *)
Theorem decode_buildFileWrapper
    (deflate : Buffer -> Z -> Buffer) (inflate : Buffer -> option Buffer)
    (inflate_deflate : forall raw level,
        1 <= level <= 9 -> inflate (deflate raw level) = Some raw)
    (raw : Buffer) (level : Z) :
  1 <= level <= 9 ->
  blen raw < 2 ^ 32 ->
  buildFileWrapper deflate raw level
    = wrapper_header (blen raw) ++ deflate raw level /\
  readU32 (buildFileWrapper deflate raw level) 0 = Ok 1 /\
  readU32 (buildFileWrapper deflate raw level) 4 = Ok (blen raw) /\
  decodeFilePayload inflate (buildFileWrapper deflate raw level) = Ok raw.
Proof.
  intros Hl Hsz.
  assert (Hu : u32 (blen raw) = blen raw)
    by (apply u32_small; unfold blen in *; lia).
  assert (Hw : buildFileWrapper deflate raw level
               = wrapper_header (blen raw) ++ deflate raw level).
  { unfold buildFileWrapper, wrapper_header. rewrite Hu.
    now rewrite <- !app_assoc. }
  assert (H0 : readU32 (buildFileWrapper deflate raw level) 0 = Ok 1).
  { rewrite Hw. unfold wrapper_header. rewrite <- !app_assoc.
    apply readU32_packU32_0. }
  assert (H4 : readU32 (buildFileWrapper deflate raw level) 4 = Ok (blen raw)).
  { rewrite Hw. unfold wrapper_header. rewrite <- !app_assoc.
    rewrite <- Hu at 2.
    exact (readU32_packU32 (packU32 1) _ (blen raw)). }
  repeat split; try assumption.
  unfold decodeFilePayload. rewrite H0, H4. cbn [rbind].
  assert (Hlen : (blen (buildFileWrapper deflate raw level)
                  <? FILE_WRAPPER_HEADER_SIZE) = false).
  { apply Z.ltb_ge. rewrite Hw, blen_app. unfold blen at 1.
    rewrite length_wrapper_header. unfold FILE_WRAPPER_HEADER_SIZE, blen. lia. }
  rewrite Hlen. cbn [Z.eqb Pos.eqb].
  rewrite Hw.
  change (Z.to_nat FILE_WRAPPER_HEADER_SIZE)
    with (length (wrapper_header (blen raw))).
  rewrite drop_app_length, inflate_deflate by assumption.
  rewrite Z.eqb_refl. cbn [negb andb].
  now rewrite andb_false_r.
Qed.

(** A stored codec ([deflate] keeps the bytes) makes the round trip
    concrete. *)
Lemma decode_buildFileWrapper_witness :
  decodeFilePayload Some (buildFileWrapper (fun raw _ => raw) [x41; x42; x43] 6)
    = Ok [x41; x42; x43].
Proof.
  apply (decode_buildFileWrapper (fun raw _ => raw) Some
           (fun raw level _ => eq_refl) [x41; x42; x43] 6).
  - lia.
  - vm_compute. reflexivity.
Defined.

(** A wrapper of type 0 that declares size 0 over a one-byte payload. *)
Definition stored_zero_declared : Buffer :=
  packU32 0 ++ packU32 0 ++ alloc 24 ++ [x41].

(** C6 as stated fails: the header declares a type other than 1, the
    post-header length (1) differs from the declared size (0), and yet the
    decoder returns the payload instead of failing. *)
Lemma decode_stored_zero_declared_accepts :
  readU32 stored_zero_declared 0 = Ok 0 /\
  readU32 stored_zero_declared 4 = Ok 0 /\
  blen (drop 32 stored_zero_declared) <> 0 /\
  decodeFilePayload (fun _ => None) stored_zero_declared
    = Ok (drop 32 stored_zero_declared).
Proof. vm_compute. repeat split; congruence. Qed.

(** C6, amended. With a header type other than 1 the decoder returns the
    post-header bytes unchanged when their length equals the declared size
    or the declared size is 0, and fails with a CorruptWrapper error exactly
    when the declared size is nonzero and differs from that length. *)
Theorem decode_stored_payload
    (inflate : Buffer -> option Buffer) (raw : Buffer) (typ declared : Z) :
  FILE_WRAPPER_HEADER_SIZE <= blen raw ->
  readU32 raw 0 = Ok typ ->
  typ <> 1 ->
  readU32 raw 4 = Ok declared ->
  let payload := drop (Z.to_nat FILE_WRAPPER_HEADER_SIZE) raw in
  (declared = 0 \/ blen payload = declared ->
     decodeFilePayload inflate raw = Ok payload) /\
  (declared <> 0 /\ blen payload <> declared ->
     exists e, decodeFilePayload inflate raw = Throw e /\
               kind_of e = CorruptWrapper).
Proof.
  intros Hlen H0 Ht H4 payload. unfold decodeFilePayload.
  apply Z.ltb_ge in Hlen. rewrite Hlen, H0, H4. cbn [rbind].
  apply Z.eqb_neq in Ht. rewrite Ht. fold payload.
  split.
  - intros [-> | ->].
    + reflexivity.
    + rewrite Z.eqb_refl. cbn [negb]. now rewrite andb_false_r.
  - intros [Hd Hp]. apply Z.eqb_neq in Hd, Hp. rewrite Hd, Hp. cbn.
    eexists. split; reflexivity.
Qed.

Definition stored_one_declared : Buffer :=
  packU32 0 ++ packU32 1 ++ alloc 24 ++ [x41].

Lemma decode_stored_payload_witness :
  decodeFilePayload (fun _ => None) stored_one_declared = Ok [x41].
Proof.
  refine (proj1 (decode_stored_payload (fun _ => None)
                   stored_one_declared 0 1 _ _ _ _) _).
  - vm_compute. congruence.
  - reflexivity.
  - lia.
  - reflexivity.
  - right. reflexivity.
Defined.

End CodecFacts.

(** ** Page-size inference *)

Module LayoutFacts.
Import Layout.

Lemma fold_left_add_acc (l : list Z) (a : Z) :
  fold_left Z.add l a = a + fold_right Z.add 0 l.
Proof.
  revert a. induction l as [|x l IH]; intros a; cbn; [lia|].
  rewrite IH. lia.
Qed.

Lemma sum_pages_nonneg (chs : list IdxChannel) :
  Forall (fun c => 0 <= pagesPerStripe c) chs ->
  0 <= fold_right Z.add 0 (map pagesPerStripe chs).
Proof. induction 1; cbn; lia. Qed.

Lemma channels_fit_spec (stripes pageSize : Z) (chs : list IdxChannel) :
  channels_fit stripes pageSize chs = true <->
  Forall (fun c => sizeBytes c <= stripes * pagesPerStripe c * pageSize) chs.
Proof.
  induction chs as [|c chs IH]; cbn.
  - split; [constructor|reflexivity].
  - destruct (Z.gtb_spec (sizeBytes c) (stripes * pagesPerStripe c * pageSize))
      as [Hgt|Hle].
    + split; [discriminate|]. intros H. inversion H; subst. lia.
    + rewrite IH. split.
      * intros H. constructor; [lia|assumption].
      * intros H. now inversion H.
Qed.

(** The body of the candidate loop, as a test. *)
Definition viableb (fileSize sumPages : Z) (chs : list IdxChannel) (p : Z) : bool :=
  (fileSize mod p =? 0) && negb (fileSize / p <? 2)
  && ((fileSize / p - 1) mod sumPages =? 0)
  && channels_fit ((fileSize / p - 1) / sumPages) p chs.

Lemma try_candidate_viableb fileSize sumPages chs viable p :
  try_candidate fileSize sumPages chs viable p
  = if viableb fileSize sumPages chs p then viable ++ [p] else viable.
Proof.
  unfold try_candidate, viableb.
  destruct (fileSize mod p =? 0); cbn; [|reflexivity].
  destruct (fileSize / p <? 2); cbn; [reflexivity|].
  destruct ((fileSize / p - 1) mod sumPages =? 0); cbn; [|reflexivity].
  reflexivity.
Qed.

Lemma candidate_loop fileSize sumPages chs (cands acc : list Z) :
  fold_left (try_candidate fileSize sumPages chs) cands acc
  = acc ++ List.filter (viableb fileSize sumPages chs) cands.
Proof.
  revert acc. induction cands as [|p cands IH]; intros acc; cbn.
  - now rewrite app_nil_r.
  - rewrite IH, try_candidate_viableb.
    destruct (viableb fileSize sumPages chs p); [|reflexivity].
    now rewrite <- app_assoc.
Qed.

Lemma viableb_survives fileSize chs p :
  viableb fileSize (fold_right Z.add 0 (map pagesPerStripe chs)) chs p = true
  <-> survives fileSize chs p.
Proof.
  unfold viableb, survives. cbv zeta.
  rewrite !andb_true_iff, negb_true_iff, Z.ltb_ge, !Z.eqb_eq, channels_fit_spec.
  tauto.
Qed.

Lemma min_list_fold (l : list Z) (a : Z) :
  (fold_left Z.min l a = a \/ In (fold_left Z.min l a) l) /\
  fold_left Z.min l a <= a /\
  (forall x, In x l -> fold_left Z.min l a <= x).
Proof.
  revert a. induction l as [|y l IH]; intros a; cbn.
  - split; [now left|]. split; [lia|]. intros x [].
  - destruct (IH (Z.min a y)) as (Hin & Hle & Hall). split; [|split].
    + destruct Hin as [E|Hin]; [|now right; right].
      rewrite E. destruct (Z.min_spec a y) as [[_ ->]|[_ ->]]; [now left|].
      right; left; reflexivity.
    + lia.
    + intros x [->|Hx]; [lia|now apply Hall].
Qed.

Lemma min_list_least (l : list Z) :
  l <> [] -> In (min_list l) l /\ forall x, In x l -> min_list l <= x.
Proof.
  destruct l as [|a l]; [congruence|]. intros _. cbn [min_list].
  destruct (min_list_fold l a) as (Hin & Hle & Hall). split.
  - destruct Hin as [->|Hin]; [now left|now right].
  - intros x [<-|Hx]; [assumption|now apply Hall].
Qed.

(** C7. [inferPageSize] returns a candidate that survives the four tests
    of the specification, 4096 whenever 4096 survives and the smallest
    survivor otherwise; it throws, with an UnrecognizedLayout error, exactly
    when no candidate survives. *)
Theorem inferPageSize_spec (fileSize : Z) (chs : list IdxChannel) :
  Forall (fun c => 0 <= pagesPerStripe c) chs ->
  match inferPageSize fileSize chs with
  | Ok p =>
      In p candidates /\ survives fileSize chs p /\
      (survives fileSize chs 4096 -> p = 4096) /\
      (~ survives fileSize chs 4096 ->
         forall q, In q candidates -> survives fileSize chs q -> p <= q)
  | Throw e =>
      kind_of e = UnrecognizedLayout /\
      forall q, In q candidates -> ~ survives fileSize chs q
  | OutOfFuel => False
  end.
Proof.
  intros Hpps. unfold inferPageSize.
  rewrite fold_left_add_acc, Z.add_0_l.
  pose proof (sum_pages_nonneg chs Hpps) as Hsum.
  set (sum := fold_right Z.add 0 (map pagesPerStripe chs)) in *.
  destruct (Z.leb_spec sum 0) as [Hz|Hpos].
  - split; [reflexivity|].
    intros q _ (_ & Htp & Hmod & _). fold sum in Hmod.
    assert (sum = 0) as E by lia. rewrite E, Z.mod_0_r in Hmod. lia.
  - rewrite candidate_loop, app_nil_l.
    set (viable := List.filter (viableb fileSize sum chs) candidates).
    assert (Hv : forall q, In q viable <->
                           In q candidates /\ survives fileSize chs q).
    { intros q. unfold viable. rewrite filter_In.
      now rewrite <- viableb_survives. }
    destruct viable as [|v0 vs] eqn:Ev.
    + cbn [length Nat.eqb]. split; [reflexivity|].
      intros q Hq Hs. destruct (proj2 (Hv q) (conj Hq Hs)).
    + cbn [length Nat.eqb].
      destruct (existsb (Z.eqb 4096) (v0 :: vs)) eqn:Ex.
      * apply existsb_exists in Ex as (x & Hx & Exx).
        apply Z.eqb_eq in Exx. subst x. apply Hv in Hx as [Hc Hs].
        split; [|split; [|split]]; auto. intros Hn. contradiction.
      * destruct (min_list_least (v0 :: vs)) as (Hin & Hleast); [congruence|].
        apply Hv in Hin as [Hc Hs]. split; [|split; [|split]]; auto.
        -- intros H4096. exfalso.
           assert (In 4096 (v0 :: vs)) as Hi.
           { apply Hv. split; [|assumption]. cbn. tauto. }
           assert (existsb (Z.eqb 4096) (v0 :: vs) = true) as Et.
           { apply existsb_exists. exists 4096. split; [assumption|].
             apply Z.eqb_refl. }
           congruence.
        -- intros _ q Hq Hsq. apply Hleast, Hv. now split.
Qed.

Definition default_channels : list IdxChannel :=
  [ {| pagesPerStripe := 4; sizeBytes := 40 |};
    {| pagesPerStripe := 8; sizeBytes := 128 |};
    {| pagesPerStripe := 1; sizeBytes := 16 |};
    {| pagesPerStripe := 4; sizeBytes := 8 |} ].

Lemma inferPageSize_spec_witness :
  match inferPageSize 73728 default_channels with
  | Ok p =>
      In p candidates /\ survives 73728 default_channels p /\
      (survives 73728 default_channels 4096 -> p = 4096) /\
      (~ survives 73728 default_channels 4096 ->
         forall q, In q candidates -> survives 73728 default_channels q -> p <= q)
  | Throw e =>
      kind_of e = UnrecognizedLayout /\
      forall q, In q candidates -> ~ survives 73728 default_channels q
  | OutOfFuel => False
  end.
Proof.
  apply (inferPageSize_spec 73728 default_channels).
  repeat constructor; cbn; lia.
Defined.

End LayoutFacts.

(** ** DAT/FAT reader: which FAT entries a payload read consults *)

Module ReadFacts.
Import Reader.

(** [log] lists the first blocks of the chain that starts at [b]: each
    entry but the last has a readable successor, which is the next entry. *)
Fixpoint chain_prefix (fat : Buffer) (b : Z) (log : list Z) : Prop :=
  match log with
  | [] => True
  | x :: rest =>
      x = b /\
      (rest = [] \/
       exists nxt, fatNext fat b = Ok nxt /\ nxt <> 0xffffffff /\
                   chain_prefix fat nxt rest)
  end.

Lemma readBlocks_log_app datFile fat iters remaining block outOff out log0 :
  readBlocks datFile fat iters remaining block outOff out log0
  = (fst (readBlocks datFile fat iters remaining block outOff out []),
     log0 ++ snd (readBlocks datFile fat iters remaining block outOff out [])).
Proof.
  revert remaining block outOff out log0.
  induction iters as [|k IH]; intros remaining block outOff out log0; cbn.
  - now rewrite app_nil_r.
  - destruct (negb _); [now rewrite app_nil_r|].
    destruct (_ <=? 0); [now rewrite app_nil_r|].
    destruct (fatNext fat block) as [nxt| |]; cbn; try reflexivity.
    destruct (nxt =? 0xffffffff); [reflexivity|].
    rewrite (IH _ _ _ _ (log0 ++ [block])), (IH _ _ _ _ [block]). cbn.
    now rewrite <- app_assoc.
Qed.

Lemma ceil_blocks_step (remaining : Z) :
  0x200 < remaining ->
  (remaining - 0x200 + 0x1ff) / 0x200 = (remaining + 0x1ff) / 0x200 - 1.
Proof.
  intros H.
  replace (remaining + 0x1ff) with ((remaining - 0x200 + 0x1ff) + 1 * 0x200) by lia.
  rewrite Z.div_add by lia. lia.
Qed.

Lemma ceil_blocks_one (remaining : Z) :
  0 < remaining <= 0x200 -> (remaining + 0x1ff) / 0x200 = 1.
Proof.
  intros H. symmetry. apply (Z.div_unique _ _ 1 (remaining - 1)); lia.
Qed.

Lemma readU32_throw buf off e : readU32 buf off = Throw e -> e = RangeError.
Proof.
  unfold readU32. destruct (_ || _); [congruence|].
  destruct (drop _ _) as [|b0 [|b1 [|b2 [|b3 ?]]]]; congruence.
Qed.

Lemma readU32_fuel buf off : readU32 buf off <> OutOfFuel.
Proof.
  unfold readU32. destruct (_ || _); [congruence|].
  destruct (drop _ _) as [|b0 [|b1 [|b2 [|b3 ?]]]]; congruence.
Qed.

Lemma fatNext_throw fat b e :
  fatNext fat b = Throw e -> e = FatBlockOutOfRange \/ e = RangeError.
Proof.
  unfold fatNext. destruct (_ || _); [intros [= <-]; now left|].
  intros H. right. eapply readU32_throw, H.
Qed.

Lemma ceil_blocks_many (remaining : Z) :
  0x200 < remaining -> 1 < (remaining + 0x1ff) / 0x200.
Proof.
  intros H. rewrite <- (Z.sub_add 1 ((remaining + 0x1ff) / 0x200)).
  rewrite <- ceil_blocks_step by lia.
  assert (0 < (remaining - 0x200 + 0x1ff) / 0x200); [|lia].
  apply Z.div_str_pos. lia.
Qed.

Lemma readBlocks_spec datFile fat iters remaining block outOff out :
  0 < remaining ->
  Z.of_nat iters = (remaining + 0x1ff) / 0x200 ->
  let r := fst (readBlocks datFile fat iters remaining block outOff out []) in
  let l := snd (readBlocks datFile fat iters remaining block outOff out []) in
  Z.of_nat (length l) <= Z.of_nat iters - 1 /\
  chain_prefix fat block l /\
  (forall v, r = Ok v -> fst v = 0 /\ Z.of_nat (length l) = Z.of_nat iters - 1) /\
  (r = Throw UnexpectedEndOfFatChain ->
     exists b, last l = Some b /\ fatNext fat b = Ok 0xffffffff).
Proof.
  revert remaining block outOff out.
  induction iters as [|k IH]; intros remaining block outOff out Hpos Hit.
  - exfalso. assert (0 < (remaining + 0x1ff) / 0x200); [|lia].
    apply Z.div_str_pos. lia.
  - cbn [readBlocks].
    set (tk := if remaining >=? 0x200 then 0x200 else remaining).
    assert (Htk : 0 < tk <= remaining /\ (remaining <= 0x200 -> tk = remaining)
                  /\ (0x200 < remaining -> tk = 0x200)).
    { unfold tk. destruct (Z.geb_spec remaining 0x200); lia. }
    destruct (negb (blen (pread datFile (block * 0x200) tk) =? tk)).
    { cbn. split; [lia|]. split; [exact I|]. split; discriminate. }
    destruct (Z.leb_spec (remaining - tk) 0) as [Hle|Hgt].
    { cbn. assert (remaining <= 0x200) by lia.
      rewrite ceil_blocks_one in Hit by lia.
      split; [lia|]. split; [exact I|]. split; [|discriminate].
      intros v [= <-]. cbn. lia. }
    assert (Hbig : 0x200 < remaining) by lia.
    assert (Etk : tk = 0x200) by lia. rewrite Etk in *.
    pose proof (ceil_blocks_many remaining Hbig) as Hmany.
    destruct (fatNext fat block) as [nxt|e|] eqn:Efat.
    + destruct (Z.eqb_spec nxt 0xffffffff) as [->|Hne].
      * cbn. split; [lia|]. split; [auto|]. split; [discriminate|].
        intros _. exists block. auto.
      * rewrite readBlocks_log_app. cbn [fst snd].
        assert (Hk : Z.of_nat k = (remaining - 0x200 + 0x1ff) / 0x200).
        { rewrite ceil_blocks_step by lia. lia. }
        specialize (IH (remaining - 0x200) nxt (outOff + 0x200)
                       (copy_into (pread datFile (block * 0x200) 0x200) out outOff)
                       Hgt Hk).
        cbv zeta in IH. destruct IH as (Hlen & Hchain & Hok & Hend).
        set (l := snd (readBlocks datFile fat k (remaining - 0x200) nxt
                         (outOff + 0x200) _ [])) in *.
        cbn [app length]. split; [lia|]. split; [|split].
        -- split; [reflexivity|]. right. exists nxt. auto.
        -- intros v Hv. destruct (Hok v Hv). split; [assumption|lia].
        -- intros Hthrow. destruct (Hend Hthrow) as (b & Hlast & Hb).
           exists b. split; [|assumption].
           destruct l as [|x l']; [discriminate|]. exact Hlast.
    + cbn. split; [lia|]. split; [auto|]. split; [discriminate|].
      intros [= ->]. apply fatNext_throw in Efat as [?|?]; discriminate.
    + cbn. split; [lia|]. split; [auto|]. split; discriminate.
Qed.

(** A run over another FAT that answers the logged lookups alike is the
    same run. *)
Lemma readBlocks_agree datFile fat fat' iters remaining block outOff out :
  (forall b, In b (snd (readBlocks datFile fat iters remaining block outOff out []))
             -> fatNext fat' b = fatNext fat b) ->
  readBlocks datFile fat' iters remaining block outOff out []
  = readBlocks datFile fat iters remaining block outOff out [].
Proof.
  revert remaining block outOff out.
  induction iters as [|k IH]; intros remaining block outOff out Hag;
    [reflexivity|].
  cbn [readBlocks] in *.
  destruct (negb _); [reflexivity|].
  destruct (_ <=? 0); [reflexivity|].
  cbn [app] in *.
  assert (Hb : fatNext fat' block = fatNext fat block).
  { apply Hag. destruct (fatNext fat block) as [nxt| |]; cbn; auto.
    destruct (nxt =? 0xffffffff); cbn; auto.
    rewrite readBlocks_log_app. cbn. auto. }
  rewrite Hb.
  destruct (fatNext fat block) as [nxt| |]; try reflexivity.
  destruct (nxt =? 0xffffffff); [reflexivity|].
  rewrite (readBlocks_log_app _ fat'), (readBlocks_log_app _ fat).
  rewrite IH; [reflexivity|].
  intros b Hin. apply Hag. rewrite readBlocks_log_app. cbn. auto.
Qed.


(** Two blocks, 1 -> 2, where the entry of block 2 is 0 rather than the
    end-of-chain mark. *)
Definition unterminated_archive : PriusArchive :=
  {| dt := []; strings := []; meta := [];
     fat := packU32 0 ++ packU32 2 ++ packU32 0;
     dat := Some (alloc 1536) |}.

Definition two_block_record : MetaRecord :=
  {| flags := 1; size := 600; startBlock := 1; extra := 0 |}.

Example unterminated_chain_is_read :
  readRawMetaBytes_logged unterminated_archive two_block_record
  = (Ok (alloc 600), [1]).
Proof. vm_compute. reflexivity. Qed.


End ReadFacts.

(** ** The 32-bit operators on the values the code applies them to *)

Module JsFacts.

Lemma int32_small (x : Z) : - 2 ^ 31 <= x < 2 ^ 31 -> int32 x = x.
Proof. intros H. unfold int32. rewrite Z.mod_small; lia. Qed.

Lemma int32_top : int32 0x80000000 = - 2 ^ 31.
Proof. reflexivity. Qed.

Lemma int32_mod (x : Z) : int32 x mod 2 ^ 31 = x mod 2 ^ 31.
Proof.
  unfold int32.
  pose proof (Z.div_mod (x + 2 ^ 31) (2 ^ 32) ltac:(lia)) as H.
  replace ((x + 2 ^ 31) mod 2 ^ 32 - 2 ^ 31)
    with (x + (- 2 * ((x + 2 ^ 31) / 2 ^ 32)) * 2 ^ 31) by lia.
  apply Z.mod_add. lia.
Qed.

Lemma lor_top_bit (n : Z) : 0 <= n < 2 ^ 31 -> Z.lor n (- 2 ^ 31) = n - 2 ^ 31.
Proof.
  intros Hn.
  assert (Hland : Z.land n (- 2 ^ 31) = 0).
  { change (- 2 ^ 31) with (Z.lnot (Z.ones 31)).
    rewrite <- Z.ldiff_land, Z.ldiff_ones_r by lia.
    rewrite Z.shiftr_div_pow2 by lia.
    rewrite Z.div_small by lia. apply Z.shiftl_0_l. }
  rewrite <- Z.lxor_lor by assumption.
  rewrite <- Z.add_nocarry_lxor by assumption. lia.
Qed.

(** [(n | 0x80000000) >>> 0] sets the top bit of a 31-bit index. *)
Lemma or_top_bit (n : Z) :
  0 <= n < 2 ^ 31 -> u32 (js_or n 0x80000000) = n + 2 ^ 31.
Proof.
  intros Hn. unfold js_or. rewrite int32_small, int32_top by lia.
  rewrite lor_top_bit by assumption. unfold u32.
  replace (n - 2 ^ 31) with (n + 2 ^ 31 + (-1) * 2 ^ 32) by lia.
  rewrite Z.mod_add by lia. apply Z.mod_small. lia.
Qed.

(** [h & 0x7fffffff] keeps the low 31 bits. *)
Lemma and_low31 (h : Z) : js_and h 0x7fffffff = h mod 2 ^ 31.
Proof.
  unfold js_and. rewrite (int32_small 0x7fffffff) by lia.
  change 0x7fffffff with (Z.ones 31).
  rewrite Z.land_ones by lia. apply int32_mod.
Qed.

Lemma name_index_roundtrip (n : Z) :
  0 <= n < 2 ^ 31 -> js_and (u32 (js_or n 0x80000000)) 0x7fffffff = n.
Proof.
  intros Hn. rewrite and_low31, or_top_bit by assumption.
  replace (n + 2 ^ 31) with (n + 1 * 2 ^ 31) by lia.
  rewrite Z.mod_add by lia. apply Z.mod_small. lia.
Qed.

Lemma sar3 (b : Z) : 0 <= b < 2 ^ 31 -> js_sar b 3 = b / 8.
Proof.
  intros H. unfold js_sar. rewrite int32_small by lia.
  change (3 mod 32) with 3. now rewrite Z.shiftr_div_pow2 by lia.
Qed.

Lemma and7 (b : Z) : 0 <= b < 2 ^ 31 -> js_and b 7 = b mod 8.
Proof.
  intros H. unfold js_and. rewrite !int32_small by lia.
  change 7 with (Z.ones 3). now rewrite Z.land_ones by lia.
Qed.

(** [(x >> k) & 1] is bit [k] of a byte. *)
Lemma bit_of_byte (x k : Z) :
  0 <= x < 256 -> 0 <= k < 8 ->
  js_and (js_sar x k) 1 = Z.b2z (Z.testbit x k).
Proof.
  intros Hx Hk. unfold js_and, js_sar.
  rewrite (int32_small x), (int32_small 1) by lia.
  rewrite (Z.mod_small k 32) by lia.
  assert (Hs : 0 <= Z.shiftr x k < 256).
  { rewrite Z.shiftr_div_pow2 by lia. split.
    - apply Z.div_pos; lia.
    - apply Z.div_lt_upper_bound; [lia|].
      assert (1 <= 2 ^ k) by (apply (Z.pow_le_mono_r 2 0 k); lia). nia. }
  rewrite int32_small by lia.
  change 1 with (Z.ones 1). rewrite Z.land_ones by lia.
  change (2 ^ 1) with 2. rewrite <- Z.bit0_mod, Z.shiftr_spec by lia.
  now rewrite Z.add_0_l.
Qed.

Lemma xor_bytes (x y : Z) :
  0 <= x < 256 -> 0 <= y < 256 -> js_xor x y = Z.lxor x y.
Proof. intros. unfold js_xor. now rewrite !int32_small by lia. Qed.

Lemma lxor_bytes_range (x y : Z) :
  0 <= x < 256 -> 0 <= y < 256 -> 0 <= Z.lxor x y < 256.
Proof.
  intros Hx Hy. split; [apply Z.lxor_nonneg; lia|].
  destruct (Z.eq_dec (Z.lxor x y) 0) as [->|Hne]; [lia|].
  assert (Hpos : 0 < Z.lxor x y) by (pose proof (proj2 (Z.lxor_nonneg x y)); lia).
  apply Z.log2_lt_pow2 with (b := 8) in Hpos as Hiff.
  apply Hiff.
  destruct (Z.le_gt_cases 8 (Z.log2 (Z.lxor x y))) as [Hge|]; [|assumption].
  exfalso.
  pose proof (Z.bit_log2 _ Hpos) as Hbit.
  rewrite Z.lxor_spec in Hbit.
  rewrite (Z.bits_above_log2 x), (Z.bits_above_log2 y) in Hbit;
    try discriminate; try lia.
  - destruct (Z.eq_dec y 0) as [->|]; [cbn; lia|].
    assert (Z.log2 y < 8) by (apply Z.log2_lt_pow2; lia). lia.
  - destruct (Z.eq_dec x 0) as [->|]; [cbn; lia|].
    assert (Z.log2 x < 8) by (apply Z.log2_lt_pow2; lia). lia.
Qed.

(** [diff & (1 << bit)] tests bit [bit] of a byte. *)
Lemma mask_test (diff bit : Z) :
  0 <= diff < 256 -> 0 <= bit < 8 ->
  (js_and diff (js_shl 1 bit) =? 0) = negb (Z.testbit diff bit).
Proof.
  intros Hd Hb. unfold js_and, js_shl.
  rewrite (int32_small 1), (Z.mod_small bit 32) by lia.
  rewrite Z.shiftl_1_l.
  assert (Hp : 1 <= 2 ^ bit < 256).
  { split.
    - apply (Z.pow_le_mono_r 2 0 bit); lia.
    - apply (Z.pow_lt_mono_r 2 bit 8); lia. }
  rewrite !(int32_small (2 ^ bit)), (int32_small diff) by lia.
  destruct (Z.testbit diff bit) eqn:Eb; cbn [negb].
  - apply Z.eqb_neq. intros H0.
    assert (Z.testbit (Z.land diff (2 ^ bit)) bit = true).
    { rewrite Z.land_spec, Eb, Z.pow2_bits_true by lia. reflexivity. }
    rewrite H0, Z.bits_0 in H. discriminate.
  - apply Z.eqb_eq. apply Z.bits_inj'. intros m Hm.
    rewrite Z.land_spec, Z.bits_0.
    destruct (Z.eq_dec m bit) as [->|Hne].
    + now rewrite Eb.
    + rewrite Z.pow2_bits_false by lia. apply andb_false_r.
Qed.

End JsFacts.

(** ** String table: what [add] stores and what [stringBytes] reads back *)

Module StringFacts.
Import StringTable Reader JsFacts.

(** The [i]-th 60-byte slice of [text] and the number of slices. *)
Definition slice (text : Buffer) (i : Z) : Buffer :=
  subarray text (STRING_PAYLOAD_SIZE * i) (STRING_PAYLOAD_SIZE * i + STRING_PAYLOAD_SIZE).

Definition slices (text : Buffer) : Z := (blen text + 59) / 60.

(** The chain of [text] sits in [recs] from record [idx] on: one record per
    slice, each pointing to the next and the last to 0. *)
Definition Stored (recs : list Buffer) (idx : Z) (text : Buffer) : Prop :=
  1 <= idx /\
  forall i, 0 <= i < slices text ->
    recs !! Z.to_nat (idx + i)
    = Some (make_record (if i =? slices text - 1 then 0 else idx + i + 1)
                        (slice text i)).

Lemma blen_nonneg (b : Buffer) : 0 <= blen b.
Proof. unfold blen. lia. Qed.

Lemma slices_pos (text : Buffer) : text <> [] -> 0 < slices text.
Proof.
  intros H. unfold slices. apply Z.div_str_pos.
  destruct text; [congruence|]. unfold blen. cbn [length]. lia.
Qed.

Lemma slices_bound (text : Buffer) (k : Z) :
  k < slices text <-> 60 * k < blen text.
Proof.
  unfold slices. pose proof (blen_nonneg text).
  pose proof (Z.div_mod (blen text + 59) 60 ltac:(lia)).
  pose proof (Z.mod_pos_bound (blen text + 59) 60 ltac:(lia)). lia.
Qed.

Lemma slice_loop_spec (text : Buffer) (fuel : nat) (k : Z) :
  0 <= k -> slices text - k <= Z.of_nat fuel ->
  slice_loop fuel text (STRING_PAYLOAD_SIZE * k)
  = map (slice text) (seqZ k (slices text - k)).
Proof.
  revert k. induction fuel as [|fuel IH]; intros k Hk Hf.
  - cbn. rewrite seqZ_nil by lia. reflexivity.
  - cbn [slice_loop]. unfold STRING_PAYLOAD_SIZE in *.
    destruct (Z.ltb_spec (60 * k) (blen text)) as [Hlt|Hge].
    + apply slices_bound in Hlt. rewrite seqZ_cons by lia. cbn [map].
      f_equal.
      replace (60 * k + 60) with (60 * Z.succ k) by lia.
      rewrite IH by lia. do 2 f_equal. lia.
    + rewrite seqZ_nil; [reflexivity|].
      pose proof (proj1 (slices_bound text k)). lia.
Qed.

Lemma emit_loop_spec (firstIdx count : Z) (f : Z -> Buffer) (m : nat) (i : Z)
    (recs : list Buffer) :
  emit_loop firstIdx count i (map f (seqZ i (Z.of_nat m))) recs
  = recs ++ map (fun j => make_record
                            (if j =? count - 1 then 0 else firstIdx + j + 1) (f j))
                (seqZ i (Z.of_nat m)).
Proof.
  revert i recs. induction m as [|m IH]; intros i recs.
  - cbn. now rewrite app_nil_r.
  - rewrite seqZ_cons by lia. cbn [map emit_loop].
    replace (Z.pred (Z.of_nat (S m))) with (Z.of_nat m) by lia.
    change (i + 1) with (Z.succ i) at 1.
    replace (i + 1) with (Z.succ i) by lia.
    rewrite IH, <- app_assoc. reflexivity.
Qed.

Lemma length_slice_le (text : Buffer) (i : Z) : (length (slice text i) <= 60)%nat.
Proof.
  unfold slice, subarray, STRING_PAYLOAD_SIZE. rewrite length_take. lia.
Qed.

Lemma length_slice (text : Buffer) (i : Z) :
  0 <= i < slices text - 1 -> length (slice text i) = 60%nat.
Proof.
  intros Hi. unfold slice, subarray, STRING_PAYLOAD_SIZE.
  rewrite length_take, length_drop.
  assert (60 * (i + 1) < blen text) by (apply slices_bound; lia).
  unfold blen in *. lia.
Qed.

Lemma length_slice_pos (text : Buffer) (i : Z) :
  0 <= i < slices text -> (0 < length (slice text i))%nat.
Proof.
  intros Hi. unfold slice, subarray, STRING_PAYLOAD_SIZE.
  rewrite length_take, length_drop.
  assert (60 * i < blen text) by (apply slices_bound; lia).
  unfold blen in *. lia.
Qed.

Lemma concat_slices (text : Buffer) (m : nat) (k : Z) :
  0 <= k -> Z.of_nat m = slices text - k ->
  concat (map (slice text) (seqZ k (Z.of_nat m))) = drop (Z.to_nat (60 * k)) text.
Proof.
  revert k. induction m as [|m IH]; intros k Hk Hm.
  - cbn. rewrite drop_ge; [reflexivity|].
    pose proof (proj2 (slices_bound text k)). unfold blen in *. lia.
  - rewrite seqZ_cons by lia. cbn [map concat].
    replace (Z.pred (Z.of_nat (S m))) with (Z.of_nat m) by lia.
    rewrite IH by lia.
    unfold slice, subarray, STRING_PAYLOAD_SIZE.
    replace (60 * k + 60 - 60 * k) with 60 by lia.
    replace (Z.to_nat (60 * Z.succ k)) with (Z.to_nat (60 * k) + Z.to_nat 60)%nat by lia.
    rewrite <- drop_drop. apply take_drop.
Qed.

Lemma copy_into_fits (src dst : Buffer) (pos : Z) :
  0 <= pos -> pos + blen src <= blen dst ->
  copy_into src dst pos
  = take (Z.to_nat pos) dst ++ src ++ drop (Z.to_nat pos + length src) dst.
Proof.
  intros Hp Hfit. unfold copy_into.
  rewrite (take_ge src); [reflexivity|]. unfold blen in *. lia.
Qed.

Lemma length_copy_into (src dst : Buffer) (pos : Z) :
  0 <= pos -> pos + blen src <= blen dst ->
  length (copy_into src dst pos) = length dst.
Proof.
  intros Hp Hfit. rewrite copy_into_fits by assumption.
  rewrite !length_app, length_take, length_drop. unfold blen in *. lia.
Qed.

Lemma blen_alloc (n : Z) : 0 <= n -> blen (alloc n) = n.
Proof. intros. unfold blen, alloc. rewrite length_replicate. lia. Qed.

Lemma make_record_shape (nxt : Z) (chunk : Buffer) :
  (length chunk <= 60)%nat ->
  make_record nxt chunk
  = packU32 (u32 (js_or nxt 0x80000000)) ++ chunk
    ++ replicate (60 - length chunk) x00.
Proof.
  intros Hc. unfold make_record.
  set (hdr := packU32 _).
  assert (Hh : length hdr = 4%nat) by reflexivity.
  assert (Hin : copy_into hdr (alloc STRING_RECORD_SIZE) 0
                = hdr ++ replicate 60 x00).
  { rewrite copy_into_fits;
      [|lia|rewrite blen_alloc by (unfold STRING_RECORD_SIZE; lia);
            unfold blen, STRING_RECORD_SIZE; rewrite Hh; lia].
    rewrite Hh. reflexivity. }
  rewrite Hin.
  rewrite copy_into_fits;
    [|lia|unfold blen; rewrite length_app, length_replicate, Hh; lia].
  change (Z.to_nat 4) with (length hdr).
  rewrite take_app_length, Hh.
  replace (4 + length chunk)%nat with (length hdr + length chunk)%nat by lia.
  rewrite <- drop_drop, drop_app_length, drop_replicate. reflexivity.
Qed.

(** The header of a record is [0x80000000 | nextIdx]. *)
Lemma make_record_header (nxt : Z) (chunk : Buffer) :
  (length chunk <= 60)%nat -> 0 <= nxt < 2 ^ 31 ->
  readU32 (make_record nxt chunk) 0 = Ok (0x80000000 + nxt).
Proof.
  intros Hc Hn. rewrite make_record_shape by assumption.
  rewrite readU32_packU32_0, u32_small by apply u32_range.
  rewrite or_top_bit by assumption. f_equal. lia.
Qed.

Lemma length_make_record (nxt : Z) (chunk : Buffer) :
  (length chunk <= 60)%nat -> length (make_record nxt chunk) = 64%nat.
Proof.
  intros Hc. rewrite make_record_shape by assumption.
  rewrite !length_app, length_replicate, length_packU32. lia.
Qed.

Lemma length_rec0 : length rec0 = 64%nat.
Proof. reflexivity. Qed.

Lemma length_concat_records (recs : list Buffer) :
  Forall (fun r => length r = 64%nat) recs ->
  length (concat recs) = (64 * length recs)%nat.
Proof. induction 1 as [|r recs Hr _ IH]; cbn; [reflexivity|]. rewrite length_app. lia. Qed.

Lemma indexOf0_payload (chunk : Buffer) (k : nat) :
  ~ In x00 chunk ->
  indexOf0 (chunk ++ replicate k x00)
  = if (k =? 0)%nat then None else Some (length chunk).
Proof.
  intros Hn. induction chunk as [|b chunk IH]; cbn.
  - destruct k; reflexivity.
  - destruct (Byte.eqb b x00) eqn:Eb.
    + apply Byte.byte_dec_bl in Eb. exfalso. apply Hn. now left.
    + rewrite IH by (intros Hin; apply Hn; now right).
      destruct (k =? 0)%nat; reflexivity.
Qed.

(** Reading the record at index [j] of a table of 64-byte records. *)
Lemma record_at (recs : list Buffer) (j : nat) (hdr payload : Buffer) :
  Forall (fun r => length r = 64%nat) recs ->
  recs !! j = Some (hdr ++ payload) ->
  length hdr = 4%nat ->
  exists pre post,
    concat recs = pre ++ hdr ++ payload ++ post /\
    blen pre = 0x40 * Z.of_nat j /\
    length payload = 60%nat.
Proof.
  intros Hall Hj Hh.
  exists (concat (take j recs)), (concat (drop (S j) recs)).
  split; [|split].
  - rewrite <- (take_drop_middle recs j _ Hj) at 1.
    rewrite concat_app. cbn [concat]. now rewrite <- !app_assoc.
  - unfold blen. rewrite length_concat_records by now apply Forall_take.
    rewrite length_take. apply lookup_lt_Some in Hj.
    lia.
  - assert (Hl : length (hdr ++ payload) = 64%nat).
    { eapply (proj1 (Forall_lookup _ _) Hall); eassumption. }
    rewrite length_app in Hl. lia.
Qed.

Lemma subarray_middle (pre hdr payload post : Buffer) :
  length hdr = 4%nat -> length payload = 60%nat ->
  subarray (pre ++ hdr ++ payload ++ post) (blen pre + 4) (blen pre + 0x40)
  = payload.
Proof.
  intros Hh Hp. unfold subarray, blen.
  replace (Z.to_nat (Z.of_nat (length pre) + 4)) with (length pre + 4)%nat by lia.
  rewrite <- drop_drop, drop_app_length.
  rewrite <- Hh, drop_app_length.
  replace (Z.to_nat _) with (length payload) by lia.
  apply take_app_length.
Qed.

(** One turn of the read loop on a record written by [make_record]. *)
Lemma stringBytes_loop_step (recs : list Buffer) (j nxt : Z) (chunk : Buffer)
    (fuel : nat) (seen : list Z) (chunks : list Buffer) :
  Forall (fun rc => length rc = 64%nat) recs ->
  0 <= j ->
  recs !! Z.to_nat j = Some (make_record nxt chunk) ->
  (length chunk <= 60)%nat ->
  ~ In x00 chunk ->
  0 <= nxt < 2 ^ 31 ->
  (forall s, In s seen -> s <> j) ->
  stringBytes_loop (concat recs) (S fuel) seen chunks j
  = if (length chunk <? 60)%nat || (nxt =? 0) then Ok (chunks ++ [chunk])
    else stringBytes_loop (concat recs) fuel (j :: seen) (chunks ++ [chunk]) nxt.
Proof.
  intros Hall Hj Hrec Hle Hnul Hnxt Hseen. cbn [stringBytes_loop].
  assert (Eneg : (j <? 0) = false) by (apply Z.ltb_ge; lia).
  rewrite Eneg.
  assert (Eseen : existsb (Z.eqb j) seen = false).
  { apply not_true_is_false. intros Hex.
    apply existsb_exists in Hex as (s & Hs & Es).
    apply Z.eqb_eq in Es. subst s. now apply (Hseen _ Hs). }
  rewrite Eseen.
  rewrite make_record_shape in Hrec by assumption.
  set (hdr := packU32 (u32 (js_or nxt 0x80000000))) in *.
  destruct (record_at recs _ hdr _ Hall Hrec eq_refl)
    as (pre & post & Hcat & Hpre & Hpay).
  rewrite Z2Nat.id in Hpre by assumption.
  assert (Hlt : (Z.to_nat j < length recs)%nat)
    by (eapply lookup_lt_Some; eassumption).
  assert (Hoff : (j * 0x40 <? 0) || (blen (concat recs) <? j * 0x40 + 0x40)
                 = false).
  { apply orb_false_iff. split; apply Z.ltb_ge; [lia|].
    unfold blen. rewrite length_concat_records by assumption. lia. }
  rewrite Hoff.
  replace (j * 0x40) with (blen pre) by lia.
  rewrite Hcat. unfold hdr at 1. rewrite readU32_packU32. cbn [rbind].
  rewrite u32_small by apply u32_range.
  fold hdr. rewrite subarray_middle by (assumption || reflexivity).
  rewrite name_index_roundtrip by assumption.
  rewrite indexOf0_payload by assumption.
  destruct (Nat.ltb_spec (length chunk) 60) as [Hshort|Hfull].
  - replace (60 - length chunk =? 0)%nat with false
      by (symmetry; apply Nat.eqb_neq; lia).
    cbn [orb]. now rewrite take_app_length.
  - replace (60 - length chunk =? 0)%nat with true
      by (symmetry; apply Nat.eqb_eq; lia).
    replace (60 - length chunk)%nat with 0%nat by lia.
    cbn [replicate orb]. rewrite app_nil_r. reflexivity.
Qed.

Lemma slice_nul_free (text : Buffer) (i : Z) :
  ~ In x00 text -> ~ In x00 (slice text i).
Proof.
  intros Hn Hin. apply Hn. unfold slice, subarray in Hin.
  apply list_elem_of_In in Hin. apply list_elem_of_In.
  apply elem_of_take in Hin as (k & Hk & _).
  rewrite lookup_drop in Hk. eapply list_elem_of_lookup_2, Hk.
Qed.

(** The read loop follows the chain of a stored text to its end. *)
Lemma stringBytes_loop_chain (recs : list Buffer) (idx : Z) (text : Buffer) :
  Forall (fun rc => length rc = 64%nat) recs ->
  Z.of_nat (length recs) <= 2 ^ 31 ->
  Stored recs idx text ->
  ~ In x00 text ->
  forall (r : nat) (i : Z) (fuel : nat) (seen : list Z) (chunks : list Buffer),
    0 <= i -> Z.of_nat (S r) = slices text - i ->
    (S r <= fuel)%nat ->
    (forall s, In s seen -> s < idx + i) ->
    stringBytes_loop (concat recs) fuel seen chunks (idx + i)
    = Ok (chunks ++ map (slice text) (seqZ i (Z.of_nat (S r)))).
Proof.
  intros Hall Hcount [Hidx Hst] Hnul.
  induction r as [|r IH]; intros i fuel seen chunks Hi Hr Hfuel Hseen;
    (destruct fuel as [|fuel]; [lia|]).
  - assert (Ei : i = slices text - 1) by lia.
    pose proof (Hst i ltac:(lia)) as Hrec.
    rewrite Ei, Z.eqb_refl in Hrec. rewrite <- Ei in Hrec.
    rewrite (stringBytes_loop_step recs (idx + i) 0 (slice text i));
      try assumption; try lia.
    + rewrite Z.eqb_refl, orb_true_r. reflexivity.
    + apply length_slice_le.
    + now apply slice_nul_free.
    + intros s Hs. specialize (Hseen s Hs). lia.
  - assert (Ei : i < slices text - 1) by lia.
    pose proof (Hst i ltac:(lia)) as Hrec.
    replace (i =? slices text - 1) with false in Hrec
      by (symmetry; apply Z.eqb_neq; lia).
    pose proof (Hst (i + 1) ltac:(lia)) as Hnext.
    apply lookup_lt_Some in Hnext.
    rewrite (stringBytes_loop_step recs (idx + i) (idx + i + 1) (slice text i));
      try assumption; try lia.
    + rewrite length_slice by lia. cbn [Nat.ltb Nat.leb orb].
      replace (idx + i + 1 =? 0) with false by (symmetry; apply Z.eqb_neq; lia).
      replace (idx + i + 1) with (idx + (i + 1)) by lia.
      rewrite IH; try lia.
      * rewrite (seqZ_cons i) by lia. cbn [map].
        replace (Z.pred (Z.of_nat (S (S r)))) with (Z.of_nat (S r)) by lia.
        replace (Z.succ i) with (i + 1) by lia.
        now rewrite <- app_assoc.
      * intros s [<-|Hs]; [lia|]. specialize (Hseen s Hs). lia.
    + apply length_slice_le.
    + now apply slice_nul_free.
    + intros s Hs. specialize (Hseen s Hs). lia.
Qed.

(** A stored NUL-free text is read back whole. *)
Lemma stringBytes_stored (recs : list Buffer) (idx : Z) (text : Buffer) :
  Forall (fun rc => length rc = 64%nat) recs ->
  Z.of_nat (length recs) <= 2 ^ 31 ->
  Stored recs idx text ->
  text <> [] ->
  ~ In x00 text ->
  stringBytes (concat recs) idx = Ok text.
Proof.
  intros Hall Hcount Hst Hne Hnul. unfold stringBytes.
  pose proof (slices_pos text Hne) as Hpos.
  assert (Eneg : (idx <? 0) = false) by (apply Z.ltb_ge; destruct Hst; lia).
  rewrite Eneg.
  pose proof (stringBytes_loop_chain recs idx text Hall Hcount Hst Hnul
                (Z.to_nat (slices text - 1)) 0) as Hloop.
  rewrite Z.add_0_r in Hloop.
  assert (Hlast : (Z.to_nat (idx + (slices text - 1)) < length recs)%nat).
  { destruct Hst as [_ Hst]. eapply lookup_lt_Some. apply Hst. lia. }
  rewrite Hloop.
  - cbn [rbind app]. f_equal.
    rewrite concat_slices by lia. reflexivity.
  - lia.
  - lia.
  - unfold blen. rewrite length_concat_records by assumption.
    replace (Z.of_nat (64 * length recs)) with (Z.of_nat (length recs) * 64) by lia.
    rewrite Z.div_mul by lia. destruct Hst. lia.
  - intros s [].
Qed.

Lemma lookup_map {A B} (f : A -> B) (l : list A) (i : nat) :
  map f l !! i = option_map f (l !! i).
Proof.
  revert i. induction l as [|x l IH]; intros [|i]; cbn; auto.
Qed.

Lemma Stored_app (recs ext : list Buffer) (idx : Z) (text : Buffer) :
  Stored recs idx text -> Stored (recs ++ ext) idx text.
Proof.
  intros [Hidx Hst]. split; [assumption|].
  intros i Hi. apply lookup_app_l_Some. now apply Hst.
Qed.

(** The invariant of the builder: 64-byte records, the sentinel first, and
    every cached index the head of the chain of its key. *)
Definition table_ok (stb : StringTableBuilder) : Prop :=
  Forall (fun rc => length rc = 64%nat) (records stb) /\
  (1 <= length (records stb))%nat /\
  forall k idx, cache stb !! k = Some idx -> Stored (records stb) idx k.

Lemma table_ok_new : table_ok new.
Proof.
  split; [|split].
  - repeat constructor.
  - cbn. lia.
  - intros k idx H. cbn in H. rewrite lookup_empty in H. discriminate.
Qed.

Lemma add_empty (stb : StringTableBuilder) (k : Buffer) : add stb [] k = (0, stb).
Proof. reflexivity. Qed.

Lemma add_spec (stb : StringTableBuilder) (text : Buffer) :
  table_ok stb -> text <> [] ->
  table_ok (snd (add stb text text)) /\
  Stored (records (snd (add stb text text))) (fst (add stb text text)) text /\
  exists ext, records (snd (add stb text text)) = records stb ++ ext /\
              (length ext <= length text)%nat.
Proof.
  intros (Hall & Hlen & Hcache) Hne. unfold add.
  assert (E0 : (blen text =? 0) = false).
  { apply Z.eqb_neq. destruct text; [congruence|]. unfold blen. cbn. lia. }
  rewrite E0.
  destruct (cache stb !! text) as [cached|] eqn:Ec; cbn [fst snd].
  - split; [now split|]. split; [now apply Hcache|].
    exists []. rewrite app_nil_r. split; [reflexivity|cbn; lia].
  - pose proof (slices_pos text Hne) as Hpos.
    assert (Hnle : slices text <= Z.of_nat (length text)).
    { unfold slices, blen.
      assert (0 < Z.of_nat (length text))
        by (destruct text; [congruence|cbn; lia]).
      apply Z.div_le_upper_bound; lia. }
    pose proof (slice_loop_spec text (length text) 0 ltac:(lia)) as Hsl.
    rewrite Z.mul_0_r, Z.sub_0_r in Hsl.
    rewrite Hsl.
    2:{ unfold slices, blen.
        assert (0 < Z.of_nat (length text))
          by (destruct text; [congruence|cbn; lia]).
        apply Z.div_le_upper_bound; lia. }
    set (n := slices text) in *.
    set (firstIdx := Z.of_nat (length (records stb))).
    rewrite length_map, length_seqZ, (Z2Nat.id n) by lia.
    set (ext := map (fun j => make_record
                       (if j =? n - 1 then 0 else firstIdx + j + 1)
                       (slice text j)) (seqZ 0 n)).
    assert (Hemit : emit_loop firstIdx n 0 (map (slice text) (seqZ 0 n))
                      (records stb) = records stb ++ ext).
    { unfold ext.
      pose proof (emit_loop_spec firstIdx n (slice text) (Z.to_nat n) 0
                    (records stb)) as He.
      now rewrite Z2Nat.id in He by lia. }
    rewrite Hemit.
    assert (Hext : forall i, 0 <= i < n ->
              (records stb ++ ext) !! Z.to_nat (firstIdx + i)
              = Some (make_record (if i =? n - 1 then 0 else firstIdx + i + 1)
                                  (slice text i))).
    { intros i Hi. rewrite lookup_app_r by (unfold firstIdx; lia).
      replace (Z.to_nat (firstIdx + i) - length (records stb))%nat
        with (Z.to_nat i) by (unfold firstIdx; lia).
      unfold ext. rewrite lookup_map, lookup_seqZ_lt by lia.
      cbn [option_map]. rewrite Z2Nat.id, Z.add_0_l by lia. reflexivity. }
    assert (Hst : Stored (records stb ++ ext) firstIdx text).
    { split; [unfold firstIdx; lia|]. exact Hext. }
    unfold table_ok. cbn [records cache]. split; [|split].
    + split; [|split].
      * apply Forall_app. split; [assumption|].
        unfold ext. apply List.Forall_forall. intros rc Hin.
        apply in_map_iff in Hin as (j & <- & _).
        apply length_make_record, length_slice_le.
      * rewrite length_app. lia.
      * intros k idx Hk.
        destruct (decide (k = text)) as [->|Hkne].
        -- rewrite lookup_insert_eq in Hk. injection Hk as <-. exact Hst.
        -- rewrite lookup_insert_ne in Hk by congruence.
           apply Stored_app. now apply Hcache.
    + exact Hst.
    + exists ext. split; [reflexivity|].
      unfold ext. rewrite length_map, length_seqZ. lia.
Qed.

(** Adding the texts of [l] in order, each under its own bytes as key. *)
Definition add_all (stb : StringTableBuilder) (l : list Buffer) : StringTableBuilder :=
  fold_left (fun s t => snd (add s t t)) l stb.

Lemma add_any_spec (stb : StringTableBuilder) (text : Buffer) :
  table_ok stb ->
  table_ok (snd (add stb text text)) /\
  exists ext, records (snd (add stb text text)) = records stb ++ ext.
Proof.
  intros Hok. destruct text as [|b text].
  - rewrite add_empty. cbn. split; [assumption|]. exists []. now rewrite app_nil_r.
  - destruct (add_spec stb (b :: text) Hok ltac:(congruence))
      as (H1 & _ & ext & H3 & _).
    split; [assumption|]. now exists ext.
Qed.

Lemma add_all_spec (l : list Buffer) (stb : StringTableBuilder) :
  table_ok stb ->
  table_ok (add_all stb l) /\
  exists ext, records (add_all stb l) = records stb ++ ext.
Proof.
  revert stb. induction l as [|t l IH]; intros stb Hok; cbn.
  - split; [assumption|]. exists []. now rewrite app_nil_r.
  - destruct (add_any_spec stb t Hok) as (Hok1 & ext1 & E1).
    destruct (IH _ Hok1) as (Hok2 & ext2 & E2).
    split; [assumption|]. exists (ext1 ++ ext2).
    unfold add_all in E2. rewrite E2, E1. now rewrite <- app_assoc.
Qed.



End StringFacts.

(** ** Keys as bit strings *)

Module BitFacts.
Import JsFacts.

(** Bit [b] of a key, least significant bit of each byte first; bytes past
    the end of the key are zero. *)
Definition kbit (k : Buffer) (b : Z) : bool :=
  Z.testbit (byteAt k (b / 8)) (b mod 8).

Lemma byteAt_range (k : Buffer) (i : Z) : 0 <= byteAt k i < 256.
Proof. apply byteZ_range. Qed.

Lemma byteAt_outside (k : Buffer) (i : Z) : blen k <= i -> byteAt k i = 0.
Proof.
  intros H. unfold byteAt. rewrite nth_overflow; [reflexivity|].
  unfold blen in H. lia.
Qed.

Lemma getBit_kbit (k : Buffer) (b : Z) :
  0 <= b < 2 ^ 31 -> Trie.getBit k b = Z.b2z (kbit k b).
Proof.
  intros Hb. unfold Trie.getBit, Reader.getBit, kbit.
  assert (E : (b <? 0) = false) by (apply Z.ltb_ge; lia). rewrite E.
  rewrite sar3, and7 by assumption.
  destruct (Z.geb_spec (b / 8) (blen k)) as [Hout|Hin].
  - rewrite byteAt_outside by assumption. now rewrite Z.bits_0.
  - apply bit_of_byte; [apply byteAt_range|].
    apply Z.mod_pos_bound. lia.
Qed.

Lemma getBit_test (k : Buffer) (b : Z) :
  0 <= b < 2 ^ 31 -> negb (Trie.getBit k b =? 0) = kbit k b.
Proof.
  intros Hb. rewrite getBit_kbit by assumption. now destruct (kbit k b).
Qed.

Lemma byte_high_bits (x j : Z) : 0 <= x < 256 -> 8 <= j -> Z.testbit x j = false.
Proof.
  intros Hx Hj.
  destruct (Z.eq_dec x 0) as [->|Hne]; [apply Z.bits_0|].
  apply Z.bits_above_log2; [lia|].
  assert (Z.log2 x < 8) by (apply Z.log2_lt_pow2; lia). lia.
Qed.

Lemma byte_zero_bits (x : Z) :
  0 <= x < 256 -> (forall j, 0 <= j < 8 -> Z.testbit x j = false) -> x = 0.
Proof.
  intros Hx Hbits. apply Z.bits_inj'. intros j Hj. rewrite Z.bits_0.
  destruct (Z.lt_ge_cases j 8) as [Hlt|Hge]; [apply Hbits; lia|].
  now apply byte_high_bits.
Qed.

Lemma scan_bits_spec (diff : Z) (count : nat) (bit : Z) :
  0 < diff < 256 -> 0 <= bit -> bit + Z.of_nat count = 8 ->
  (forall j, 0 <= j < bit -> Z.testbit diff j = false) ->
  exists r, Trie.scan_bits diff count bit = Some r /\ bit <= r < 8 /\
            Z.testbit diff r = true /\
            forall j, 0 <= j < r -> Z.testbit diff j = false.
Proof.
  intros Hd. revert bit. induction count as [|count IH]; intros bit Hb Hsum Hlow.
  - exfalso. assert (diff = 0); [|lia].
    apply byte_zero_bits; [lia|]. intros j Hj. apply Hlow. lia.
  - cbn [Trie.scan_bits]. rewrite mask_test by lia. rewrite negb_involutive.
    destruct (Z.testbit diff bit) eqn:Eb.
    + exists bit. repeat split; try lia; assumption.
    + destruct (IH (bit + 1)) as (r & Hr & Hrange & Hset & Hclear); try lia.
      { intros j Hj. destruct (Z.eq_dec j bit) as [->|]; [assumption|].
        apply Hlow. lia. }
      exists r. repeat split; try lia; assumption.
Qed.

Lemma kbit_byte (k : Buffer) (i r : Z) :
  0 <= r < 8 -> kbit k (i * 8 + r) = Z.testbit (byteAt k i) r.
Proof.
  intros Hr. unfold kbit.
  rewrite Z.add_comm, Z.div_add, Z.mod_add by lia.
  rewrite Z.div_small, Z.mod_small by lia. now rewrite Z.add_0_l.
Qed.

Lemma firstDifferingBit_loop_spec (a b : Buffer) (maxLen : Z) (count : nat)
    (byteIndex : Z) :
  maxLen = Z.max (blen a) (blen b) ->
  0 <= byteIndex -> byteIndex + Z.of_nat count = maxLen ->
  (forall i, 0 <= i < byteIndex -> byteAt a i = byteAt b i) ->
  let d := Trie.firstDifferingBit_loop a b maxLen count byteIndex in
  byteIndex * 8 <= d <= maxLen * 8 /\
  (forall x, 0 <= x < d -> kbit a x = kbit b x) /\
  (d < maxLen * 8 -> kbit a d <> kbit b d).
Proof.
  intros Hmax. revert byteIndex.
  induction count as [|count IH]; intros byteIndex Hbi Hsum Heq; cbn zeta.
  - cbn [Trie.firstDifferingBit_loop]. split; [lia|]. split; [|lia].
    intros x Hx. unfold kbit. rewrite Heq; [reflexivity|].
    split; [apply Z.div_pos; lia|]. apply Z.div_lt_upper_bound; lia.
  - cbn [Trie.firstDifferingBit_loop].
    assert (Ea : (if byteIndex <? blen a then byteAt a byteIndex else 0)
                 = byteAt a byteIndex).
    { destruct (Z.ltb_spec byteIndex (blen a)); [reflexivity|].
      now rewrite byteAt_outside. }
    assert (Eb : (if byteIndex <? blen b then byteAt b byteIndex else 0)
                 = byteAt b byteIndex).
    { destruct (Z.ltb_spec byteIndex (blen b)); [reflexivity|].
      now rewrite byteAt_outside. }
    rewrite Ea, Eb.
    pose proof (byteAt_range a byteIndex) as Ra.
    pose proof (byteAt_range b byteIndex) as Rb.
    destruct (Z.eqb_spec (byteAt a byteIndex) (byteAt b byteIndex)) as [Hsame|Hdiff];
      cbn [negb].
    + specialize (IH (byteIndex + 1) ltac:(lia) ltac:(lia)).
      destruct IH as (Hr & Hlow & Hat).
      { intros i Hi. destruct (Z.eq_dec i byteIndex) as [->|]; [assumption|].
        apply Heq. lia. }
      split; [lia|]. split; assumption.
    + rewrite xor_bytes by assumption.
      pose proof (lxor_bytes_range _ _ Ra Rb) as Rx.
      assert (Hnz : Z.lxor (byteAt a byteIndex) (byteAt b byteIndex) <> 0).
      { intros H0. apply Z.lxor_eq in H0. contradiction. }
      destruct (scan_bits_spec (Z.lxor (byteAt a byteIndex) (byteAt b byteIndex))
                  8 0) as (r & Hscan & Hrange & Hset & Hclear);
        try lia.
      rewrite Hscan. rewrite Z.lxor_spec in Hset.
      split; [lia|]. split.
      * intros x Hx.
        destruct (Z.lt_ge_cases (x / 8) byteIndex) as [Hlt|Hge].
        -- unfold kbit. rewrite Heq; [reflexivity|].
           split; [apply Z.div_pos; lia|assumption].
        -- assert (x / 8 = byteIndex).
           { apply Z.le_antisymm; [|assumption].
             apply Z.lt_succ_r. apply Z.div_lt_upper_bound; lia. }
           pose proof (Z.div_mod x 8 ltac:(lia)).
           pose proof (Z.mod_pos_bound x 8 ltac:(lia)).
           specialize (Hclear (x mod 8) ltac:(lia)).
           rewrite Z.lxor_spec in Hclear. unfold kbit.
           rewrite H. now apply xorb_eq.
      * intros _. rewrite !kbit_byte by lia.
        intros E. rewrite E, xorb_nilpotent in Hset. discriminate.
Qed.

Lemma firstDifferingBit_spec (a b : Buffer) :
  let d := Trie.firstDifferingBit a b in
  let maxLen := Z.max (blen a) (blen b) in
  0 <= d <= maxLen * 8 /\
  (forall x, 0 <= x < d -> kbit a x = kbit b x) /\
  (d < maxLen * 8 -> kbit a d <> kbit b d).
Proof.
  cbn zeta. unfold Trie.firstDifferingBit.
  pose proof (firstDifferingBit_loop_spec a b (Z.max (blen a) (blen b))
                (Z.to_nat (Z.max (blen a) (blen b))) 0 eq_refl ltac:(lia)) as H.
  cbn zeta in H. unfold blen in *.
  destruct H as (H1 & H2 & H3); [lia|intros; lia|].
  split; [lia|]. split; assumption.
Qed.

Lemma byteAt_nil (i : Z) : byteAt [] i = 0.
Proof. unfold byteAt. now destruct (Z.to_nat i). Qed.

Lemma byteAt_head (x : byte) (a : Buffer) : byteAt (x :: a) 0 = byteZ x.
Proof. reflexivity. Qed.

Lemma byteAt_tail (x : byte) (a : Buffer) (i : Z) :
  0 <= i -> byteAt (x :: a) (i + 1) = byteAt a i.
Proof.
  intros Hi. unfold byteAt.
  now replace (Z.to_nat (i + 1)) with (S (Z.to_nat i)) by lia.
Qed.

(** Keys without NUL byte that agree on every byte, read with zeros past
    the end, are equal. *)
Lemma bytes_eq_keys (a b : Buffer) :
  ~ In x00 a -> ~ In x00 b ->
  (forall i, 0 <= i -> byteAt a i = byteAt b i) -> a = b.
Proof.
  revert b. induction a as [|x a IH]; intros [|y b] Ha Hb Hall.
  - reflexivity.
  - exfalso. specialize (Hall 0 ltac:(lia)).
    rewrite byteAt_nil, byteAt_head in Hall. symmetry in Hall.
    apply (proj1 (byteZ_x00 y)) in Hall. apply Hb. left. now symmetry.
  - exfalso. specialize (Hall 0 ltac:(lia)).
    rewrite byteAt_nil, byteAt_head in Hall.
    apply (proj1 (byteZ_x00 x)) in Hall. apply Ha. left. now symmetry.
  - f_equal.
    + specialize (Hall 0 ltac:(lia)). rewrite !byteAt_head in Hall.
      now apply byteZ_inj.
    + apply IH.
      * intros H. apply Ha. now right.
      * intros H. apply Hb. now right.
      * intros i Hi. specialize (Hall (i + 1) ltac:(lia)).
        now rewrite !byteAt_tail in Hall by assumption.
Qed.

Lemma firstDifferingBit_distinct (a b : Buffer) :
  ~ In x00 a -> ~ In x00 b -> a <> b ->
  Trie.firstDifferingBit a b < Z.max (blen a) (blen b) * 8.
Proof.
  intros Ha Hb Hne.
  destruct (firstDifferingBit_spec a b) as (Hr & Hlow & _). cbn zeta in *.
  destruct (Z.lt_ge_cases (Trie.firstDifferingBit a b)
              (Z.max (blen a) (blen b) * 8)) as [|Hge]; [assumption|].
  exfalso. apply Hne. apply bytes_eq_keys; try assumption.
  intros i Hi.
  destruct (Z.lt_ge_cases i (Z.max (blen a) (blen b))) as [Hin|Hout].
  - apply Z.bits_inj'. intros j Hj.
    destruct (Z.lt_ge_cases j 8) as [Hj8|Hj8].
    + rewrite <- !kbit_byte by lia. apply Hlow. lia.
    + rewrite !byte_high_bits by (apply byteAt_range || lia). reflexivity.
  - rewrite !byteAt_outside by lia. reflexivity.
Qed.

End BitFacts.

(** ** The Patricia trie of the builder *)

Module TrieFacts.
Import Trie BitFacts.

(** The number of elements of a finite set ([size] is also a field of
    [MetaRecord]). *)
Local Abbreviation card := stdpp.base.size.

(** The key the builder keeps for node [j]. *)
Definition keyOf (kd : list Buffer) (j : Z) : Buffer :=
  default [] (kd !! Z.to_nat j).

(** The child of [n] a walk with [key] moves to; from the sentinel, whose
    bit index is negative, it is the right child. *)
Definition child_along (key : Buffer) (n : TrieNode) : Z :=
  if bitIndex n <? 0 then rightRaw n
  else if kbit key (bitIndex n) then rightRaw n else leftRaw n.

(** [sub ns kd pb c L I]: the pointer [c], held by a node of bit index
    [pb], is the root of a well-formed subtrie whose leaves (back edges)
    are the nodes [L] and whose branching nodes are [I]. *)
Inductive sub (ns : list TrieNode) (kd : list Buffer)
    : Z -> Z -> gset Z -> gset Z -> Prop :=
  | sub_leaf pb c n :
      0 <= c -> ns !! Z.to_nat c = Some n -> bitIndex n <= pb ->
      sub ns kd pb c {[c]} ∅
  | sub_node pb c n L1 L2 I1 I2 L I :
      0 <= c -> ns !! Z.to_nat c = Some n ->
      pb < bitIndex n -> bitIndex n < 2 ^ 31 ->
      sub ns kd (bitIndex n) (leftRaw n) L1 I1 ->
      sub ns kd (bitIndex n) (rightRaw n) L2 I2 ->
      (forall j, j ∈ L1 -> kbit (keyOf kd j) (bitIndex n) = false) ->
      (forall j, j ∈ L2 -> kbit (keyOf kd j) (bitIndex n) = true) ->
      (forall j j' x, j ∈ L -> j' ∈ L -> 0 <= x < bitIndex n ->
         kbit (keyOf kd j) x = kbit (keyOf kd j') x) ->
      c ∉ I1 ∪ I2 -> I1 ## I2 ->
      L = L1 ∪ L2 -> I = {[c]} ∪ (I1 ∪ I2) ->
      sub ns kd pb c L I.

Lemma sub_valid ns kd pb c L I :
  sub ns kd pb c L I ->
  (forall j, j ∈ L -> 0 <= j < Z.of_nat (length ns)) /\
  (forall i, i ∈ I -> 0 <= i < Z.of_nat (length ns)).
Proof.
  induction 1 as [pb c n Hc Hn Hb
                 |pb c n L1 L2 I1 I2 L I Hc Hn Hb Hb31 _ [IHl1 IHl2] _ [IHr1 IHr2]
                    _ _ _ _ _ -> ->].
  - apply lookup_lt_Some in Hn. split.
    + intros j Hj. apply elem_of_singleton in Hj. subst j. lia.
    + intros i Hi. set_solver.
  - apply lookup_lt_Some in Hn. split.
    + intros j Hj. apply elem_of_union in Hj as [Hj|Hj]; auto.
    + intros i Hi. apply elem_of_union in Hi as [Hi|Hi].
      * apply elem_of_singleton in Hi. subst i. lia.
      * apply elem_of_union in Hi as [Hi|Hi]; auto.
Qed.

(** The same subtrie in a store that kept its branching nodes, the bit
    index of every node and the keys. *)
Lemma sub_frame ns kd ns' kd' pb c L I :
  sub ns kd pb c L I ->
  (forall i, i ∈ I -> ns' !! Z.to_nat i = ns !! Z.to_nat i) ->
  (forall j n, ns !! j = Some n ->
     exists n', ns' !! j = Some n' /\ bitIndex n' = bitIndex n) ->
  (forall j, 0 <= j < Z.of_nat (length ns) -> keyOf kd' j = keyOf kd j) ->
  sub ns' kd' pb c L I.
Proof.
  intros Hsub HI Hbits Hkeys.
  induction Hsub as [pb c n Hc Hn Hb
                 |pb c n L1 L2 I1 I2 L I Hc Hn Hb Hb31 Hl IHl Hr IHr
                    H0 H1 Hag Hci Hdisj -> ->].
  - destruct (Hbits _ _ Hn) as (n' & Hn' & Eb).
    eapply sub_leaf; eauto. lia.
  - destruct (sub_valid _ _ _ _ _ _ Hl) as [Vl _].
    destruct (sub_valid _ _ _ _ _ _ Hr) as [Vr _].
    assert (Hn' : ns' !! Z.to_nat c = Some n)
      by (rewrite HI; [assumption|clear; set_solver]).
    refine (sub_node ns' kd' pb c n L1 L2 I1 I2 _ _ Hc Hn' Hb Hb31 _ _ _ _ _
              Hci Hdisj eq_refl eq_refl).
    + apply IHl. intros i Hi. apply HI. clear - Hi. set_solver.
    + apply IHr. intros i Hi. apply HI. clear - Hi. set_solver.
    + intros j Hj. rewrite Hkeys by auto. auto.
    + intros j Hj. rewrite Hkeys by auto. auto.
    + intros j j' x Hj Hj' Hx.
      rewrite !Hkeys; [now apply Hag| |].
      * apply elem_of_union in Hj' as [?|?]; auto.
      * apply elem_of_union in Hj as [?|?]; auto.
Qed.

Lemma node_at_lookup ns i n :
  node_at ns i = Ok n <-> 0 <= i /\ ns !! Z.to_nat i = Some n.
Proof.
  unfold node_at. destruct (Z.ltb_spec i 0).
  - split; [discriminate|]. intros [? _]. lia.
  - destruct (ns !! Z.to_nat i) as [m|]; split.
    + intros [= ->]. auto.
    + intros [_ [= ->]]. reflexivity.
    + discriminate.
    + intros [_ ?]. discriminate.
Qed.

(** A walk without limit through a subtrie stops on one of its leaves. *)
Lemma descend_search ns kd key pb c L I :
  sub ns kd pb c L I ->
  forall fuel prev p,
    node_at ns prev = Ok p -> bitIndex p = pb -> -1 <= pb ->
    (card I < fuel)%nat ->
    exists p' leaf, descend ns key None fuel prev c = Ok (p', leaf) /\ leaf ∈ L.
Proof.
  induction 1 as [pb c n Hc Hn Hb
                 |pb c n L1 L2 I1 I2 L I Hc Hn Hb Hb31 Hl IHl Hr IHr
                    H0 H1 Hag Hci Hdisj -> ->];
    intros fuel prev p Hp Hpb Hm1 Hfuel;
    (destruct fuel as [|fuel]; [lia|]); cbn [descend];
    rewrite Hp; cbn [rbind];
    rewrite (proj2 (node_at_lookup ns c n) (conj Hc Hn)); cbn [rbind].
  - replace (bitIndex p <? bitIndex n) with false
      by (symmetry; apply Z.ltb_ge; lia).
    cbn. exists prev, c. split; [reflexivity|set_solver].
  - replace (bitIndex p <? bitIndex n) with true
      by (symmetry; apply Z.ltb_lt; lia).
    cbn [andb]. rewrite getBit_test by lia.
    assert (Hsz : (card ({[c]} ∪ (I1 ∪ I2)) = 1 + card I1 + card I2)%nat).
    { rewrite size_union by set_solver. rewrite size_singleton.
      rewrite size_union by assumption. lia. }
    rewrite Hsz in Hfuel.
    assert (Hcn : node_at ns c = Ok n) by (apply node_at_lookup; auto).
    destruct (kbit key (bitIndex n)).
    + destruct (IHr fuel c n Hcn eq_refl ltac:(lia) ltac:(lia))
        as (p' & leaf & Hd & Hin).
      exists p', leaf. split; [assumption|set_solver].
    + destruct (IHl fuel c n Hcn eq_refl ltac:(lia) ltac:(lia))
        as (p' & leaf & Hd & Hin).
      exists p', leaf. split; [assumption|set_solver].
Qed.

(** The walk with the key of a leaf stops on that leaf. *)
Lemma descend_own ns kd pb c L I :
  sub ns kd pb c L I ->
  forall j fuel prev p,
    j ∈ L ->
    node_at ns prev = Ok p -> bitIndex p = pb -> -1 <= pb ->
    (card I < fuel)%nat ->
    exists p', descend ns (keyOf kd j) None fuel prev c = Ok (p', j).
Proof.
  induction 1 as [pb c n Hc Hn Hb
                 |pb c n L1 L2 I1 I2 L I Hc Hn Hb Hb31 Hl IHl Hr IHr
                    H0 H1 Hag Hci Hdisj -> ->];
    intros j fuel prev p Hj Hp Hpb Hm1 Hfuel;
    (destruct fuel as [|fuel]; [lia|]); cbn [descend];
    rewrite Hp; cbn [rbind];
    rewrite (proj2 (node_at_lookup ns c n) (conj Hc Hn)); cbn [rbind].
  - replace (bitIndex p <? bitIndex n) with false
      by (symmetry; apply Z.ltb_ge; lia).
    cbn. apply elem_of_singleton in Hj. subst j. now exists prev.
  - replace (bitIndex p <? bitIndex n) with true
      by (symmetry; apply Z.ltb_lt; lia).
    cbn [andb]. rewrite getBit_test by lia.
    assert (Hsz : (card ({[c]} ∪ (I1 ∪ I2)) = 1 + card I1 + card I2)%nat).
    { rewrite size_union by set_solver. rewrite size_singleton.
      rewrite size_union by assumption. lia. }
    rewrite Hsz in Hfuel.
    assert (Hcn : node_at ns c = Ok n) by (apply node_at_lookup; auto).
    apply elem_of_union in Hj as [Hj|Hj].
    + rewrite (H0 j Hj). apply (IHl j fuel c n); auto; lia.
    + rewrite (H1 j Hj). apply (IHr j fuel c n); auto; lia.
Qed.

(** *** Insertion *)

(** The node [buildFromKeys] ends up storing for the new key: bit index
    [d], one child itself and the other the displaced pointer [other]. *)
Definition new_node (key : Buffer) (d strIdx metaIdx self other : Z) : TrieNode :=
  {| metaIndex := metaIdx; bitIndex := d;
     nameRaw := u32 (js_or strIdx 0x80000000);
     leftRaw := if kbit key d then other else self;
     rightRaw := if kbit key d then self else other |}.

(** The parent's pointer on the side of the key is redirected. *)
Definition rewire (key : Buffer) (new : Z) (p : TrieNode) : TrieNode :=
  if bitIndex p <? 0 then set_rightRaw new p
  else if kbit key (bitIndex p) then set_rightRaw new p else set_leftRaw new p.

Definition store_after (ns : list TrieNode) (key : Buffer)
    (d strIdx metaIdx p cs : Z) : list TrieNode :=
  alter (rewire key (Z.of_nat (length ns))) (Z.to_nat p)
    (ns ++ [new_node key d strIdx metaIdx (Z.of_nat (length ns)) cs]).

Lemma bitIndex_rewire key new p : bitIndex (rewire key new p) = bitIndex p.
Proof. unfold rewire. now repeat destruct (_ : bool). Qed.

Lemma child_along_rewire key new p : child_along key (rewire key new p) = new.
Proof.
  unfold child_along. rewrite bitIndex_rewire. unfold rewire.
  destruct (bitIndex p <? 0); [reflexivity|].
  now destruct (kbit key (bitIndex p)).
Qed.

Lemma other_child_rewire key new p :
  0 <= bitIndex p ->
  (if kbit key (bitIndex p) then leftRaw (rewire key new p)
   else rightRaw (rewire key new p))
  = (if kbit key (bitIndex p) then leftRaw p else rightRaw p).
Proof.
  intros Hb. unfold rewire.
  replace (bitIndex p <? 0) with false by (symmetry; apply Z.ltb_ge; lia).
  now destruct (kbit key (bitIndex p)).
Qed.

Lemma neq_negb (a b : bool) : a <> b -> b = negb a.
Proof. destruct a, b; cbn; congruence. Qed.

Lemma card_node (c : Z) (I1 I2 : gset Z) :
  c ∉ I1 ∪ I2 -> I1 ## I2 ->
  card ({[c]} ∪ (I1 ∪ I2)) = (1 + card I1 + card I2)%nat.
Proof.
  intros Hc Hd. rewrite size_union by set_solver.
  rewrite size_singleton, size_union by assumption. lia.
Qed.

Section StoreAfter.
Variables (ns : list TrieNode) (kd : list Buffer) (key : Buffer).
Variables (d strIdx metaIdx p cs : Z).
Hypothesis Hkd : length kd = length ns.
Hypothesis Hp : 0 <= p < Z.of_nat (length ns).

Local Abbreviation new := (Z.of_nat (length ns)).
Local Abbreviation ns' := (store_after ns key d strIdx metaIdx p cs).
Local Abbreviation kd' := (kd ++ [key]).

Lemma store_after_other i :
  i <> p -> 0 <= i < new -> ns' !! Z.to_nat i = ns !! Z.to_nat i.
Proof.
  intros Hne Hi. unfold store_after.
  rewrite list_lookup_alter_ne by lia.
  apply lookup_app_l. lia.
Qed.

Lemma store_after_parent pn :
  ns !! Z.to_nat p = Some pn ->
  ns' !! Z.to_nat p = Some (rewire key new pn).
Proof.
  intros Hpn. unfold store_after.
  rewrite list_lookup_alter_eq, lookup_app_l by lia. now rewrite Hpn.
Qed.

Lemma store_after_new :
  ns' !! Z.to_nat new = Some (new_node key d strIdx metaIdx new cs).
Proof.
  unfold store_after.
  rewrite list_lookup_alter_ne by lia.
  rewrite Nat2Z.id, lookup_app_r by lia.
  now rewrite Nat.sub_diag.
Qed.

Lemma store_after_bits j n :
  ns !! j = Some n -> exists n', ns' !! j = Some n' /\ bitIndex n' = bitIndex n.
Proof.
  intros Hn. pose proof (lookup_lt_Some _ _ _ Hn) as Hlt.
  destruct (decide (j = Z.to_nat p)) as [->|Hne].
  - exists (rewire key new n). split; [now apply store_after_parent|].
    apply bitIndex_rewire.
  - exists n. split; [|reflexivity].
    rewrite <- Hn, <- (Nat2Z.id j). apply store_after_other; lia.
Qed.

Lemma keyOf_old j : 0 <= j < new -> keyOf kd' j = keyOf kd j.
Proof.
  intros Hj. unfold keyOf. rewrite lookup_app_l; [reflexivity|].
  lia.
Qed.

Lemma keyOf_new : keyOf kd' new = key.
Proof.
  unfold keyOf. rewrite Nat2Z.id, lookup_app_r by lia.
  now rewrite Hkd, Nat.sub_diag.
Qed.

(** The new node on top of the displaced subtrie. *)
Lemma attach pb Lc Ic :
  pb < d -> d < 2 ^ 31 ->
  sub ns' kd' d cs Lc Ic ->
  new ∉ Ic ->
  (forall j, j ∈ Lc -> kbit (keyOf kd' j) d = negb (kbit key d)) ->
  (forall j x, j ∈ Lc -> 0 <= x < d -> kbit (keyOf kd' j) x = kbit key x) ->
  sub ns' kd' pb new ({[new]} ∪ Lc) ({[new]} ∪ Ic).
Proof.
  intros Hpb Hd Hsub Hnew Hside Hlow.
  assert (Hself : sub ns' kd' d new {[new]} ∅).
  { eapply sub_leaf; [lia|apply store_after_new|]. cbn. lia. }
  assert (Hag : forall j j' x, j ∈ ({[new]} ∪ Lc : gset Z) ->
                  j' ∈ ({[new]} ∪ Lc : gset Z) -> 0 <= x < d ->
                  kbit (keyOf kd' j) x = kbit (keyOf kd' j') x).
  { assert (Hk : forall j x, j ∈ ({[new]} ∪ Lc : gset Z) -> 0 <= x < d ->
                   kbit (keyOf kd' j) x = kbit key x).
    { intros j x Hj Hx. apply elem_of_union in Hj as [Hj|Hj].
      - apply elem_of_singleton in Hj. subst j. now rewrite keyOf_new.
      - now apply Hlow. }
    intros j j' x Hj Hj' Hx. now rewrite !Hk. }
  pose proof store_after_new as Hnn.
  assert (H0n : 0 <= new) by lia.
  destruct (kbit key d) eqn:Ek.
  - refine (sub_node ns' kd' pb new _ Lc {[new]} Ic ∅ _ _ H0n Hnn _ _ _ _ _ _ _ _ _ _ _);
      cbn [bitIndex leftRaw rightRaw new_node]; rewrite ?Ek.
    + exact Hpb.
    + exact Hd.
    + exact Hsub.
    + exact Hself.
    + intros j Hj. now rewrite Hside.
    + intros j Hj. apply elem_of_singleton in Hj. subst j.
      now rewrite keyOf_new.
    + exact Hag.
    + set_solver.
    + set_solver.
    + set_solver.
    + set_solver.
  - refine (sub_node ns' kd' pb new _ {[new]} Lc ∅ Ic _ _ H0n Hnn _ _ _ _ _ _ _ _ _ _ _);
      cbn [bitIndex leftRaw rightRaw new_node]; rewrite ?Ek.
    + exact Hpb.
    + exact Hd.
    + exact Hself.
    + exact Hsub.
    + intros j Hj. apply elem_of_singleton in Hj. subst j.
      now rewrite keyOf_new.
    + intros j Hj. now rewrite Hside.
    + exact Hag.
    + set_solver.
    + set_solver.
    + set_solver.
    + set_solver.
Qed.

(** Inserting below the pointer [c] of [prev]: the search walk ended on
    [leaf], whose key first differs from [key] at bit [d]; the second walk
    ended on [(p, cs)], where the store was changed. *)
Lemma insert_sub (leaf : Z) :
  d < 2 ^ 31 ->
  (forall x, 0 <= x < d -> kbit key x = kbit (keyOf kd leaf) x) ->
  kbit key d <> kbit (keyOf kd leaf) d ->
  forall pb c L I,
    sub ns kd pb c L I ->
    forall fuel prev pn pl,
      node_at ns prev = Ok pn -> bitIndex pn = pb -> -1 <= pb -> pb < d ->
      child_along key pn = c -> prev ∉ I -> (card I < fuel)%nat ->
      descend ns key None fuel prev c = Ok (pl, leaf) ->
      descend ns key (Some d) fuel prev c = Ok (p, cs) ->
      (p = prev \/ p ∈ I) /\
      exists pn', ns' !! Z.to_nat prev = Some pn' /\ bitIndex pn' = pb /\
                  sub ns' kd' pb (child_along key pn')
                      ({[new]} ∪ L) ({[new]} ∪ I).
Proof.
  intros Hd Hlow Hat.
  induction 1 as [pb c n Hc Hn Hb
                 |pb c n L1 L2 I1 I2 L I Hc Hn Hb Hb31 Hl IHl Hr IHr
                    H0 H1 Hag Hci Hdisj EL EI];
    intros fuel prev pn pl Hpn Hpb Hm1 Hpbd Hchild Hprev Hfuel Hw1 Hw2;
    (destruct fuel as [|fuel]; [lia|]); cbn [descend] in Hw1, Hw2;
    rewrite Hpn in Hw1, Hw2; cbn [rbind] in Hw1, Hw2;
    rewrite (proj2 (node_at_lookup ns c n) (conj Hc Hn)) in Hw1, Hw2;
    cbn [rbind] in Hw1, Hw2;
    apply node_at_lookup in Hpn as [Hprev0 Hpn].
  - (* a back edge: both walks stop here *)
    replace (bitIndex pn <? bitIndex n) with false in Hw1, Hw2
      by (symmetry; apply Z.ltb_ge; lia).
    cbn in Hw1, Hw2. injection Hw1 as _ Eleaf. injection Hw2 as Ep Ecs.
    clear Hchild. subst prev c leaf.
    split; [now left|].
    exists (rewire key new pn). split; [now apply store_after_parent|].
    split; [rewrite bitIndex_rewire; assumption|].
    rewrite child_along_rewire.
    replace ({[new]} ∪ ∅ : gset Z) with ({[new]} ∪ (∅ : gset Z)) by reflexivity.
    apply attach; try assumption.
    + destruct (store_after_bits _ _ Hn) as (n' & Hn' & Eb).
      eapply sub_leaf; [exact Hc|exact Hn'|lia].
    + intros j Hj. apply elem_of_singleton in Hj. subst j.
      apply lookup_lt_Some in Hn.
      rewrite keyOf_old by lia.
      now apply neq_negb.
    + intros j x Hj Hx. apply elem_of_singleton in Hj. subst j.
      apply lookup_lt_Some in Hn.
      rewrite keyOf_old by lia. symmetry. now apply Hlow.
  - (* a branching node *)
    subst L I.
    replace (bitIndex pn <? bitIndex n) with true in Hw1, Hw2
      by (symmetry; apply Z.ltb_lt; lia).
    cbn [andb] in Hw1, Hw2. rewrite getBit_test in Hw1, Hw2 by lia.
    rewrite card_node in Hfuel by assumption.
    assert (Hcn : node_at ns c = Ok n) by (apply node_at_lookup; auto).
    destruct (sub_valid _ _ _ _ _ _ Hl) as [Vl1 Vl2].
    destruct (sub_valid _ _ _ _ _ _ Hr) as [Vr1 Vr2].
    pose proof (lookup_lt_Some _ _ _ Hn) as Hclt.
    (* the search walk ends on the side of the key *)
    assert (Hleaf : leaf ∈ (if kbit key (bitIndex n) then L2 else L1)).
    { destruct (kbit key (bitIndex n)).
      - destruct (descend_search ns kd key _ _ _ _ Hr fuel c n Hcn eq_refl
                    ltac:(lia) ltac:(lia)) as (p1 & l1 & Hd1 & Hin).
        rewrite Hd1 in Hw1. now injection Hw1 as _ <-.
      - destruct (descend_search ns kd key _ _ _ _ Hl fuel c n Hcn eq_refl
                    ltac:(lia) ltac:(lia)) as (p1 & l1 & Hd1 & Hin).
        rewrite Hd1 in Hw1. now injection Hw1 as _ <-. }
    assert (HleafL : leaf ∈ L1 ∪ L2)
      by (clear - Hleaf; destruct (kbit key (bitIndex n)); set_solver).
    assert (Hside : kbit (keyOf kd leaf) (bitIndex n) = kbit key (bitIndex n)).
    { destruct (kbit key (bitIndex n)); auto. }
    destruct (Z.ltb_spec (bitIndex n) d) as [Hlt|Hge].
    + (* both walks move on to the child on the side of the key *)
      set (side := kbit key (bitIndex n)) in *.
      assert (Hstep :
        (p = c \/ p ∈ (if side then I2 else I1)) /\
        exists n', ns' !! Z.to_nat c = Some n' /\ bitIndex n' = bitIndex n /\
          sub ns' kd' (bitIndex n) (child_along key n')
            ({[new]} ∪ (if side then L2 else L1))
            ({[new]} ∪ (if side then I2 else I1))).
      { unfold side in *. destruct (kbit key (bitIndex n)) eqn:Ek.
        - apply (IHr fuel c n pl); auto; try lia.
          + unfold child_along. rewrite Ek.
            now replace (bitIndex n <? 0) with false
              by (symmetry; apply Z.ltb_ge; lia).
          + clear - Hci. set_solver.
        - apply (IHl fuel c n pl); auto; try lia.
          + unfold child_along. rewrite Ek.
            now replace (bitIndex n <? 0) with false
              by (symmetry; apply Z.ltb_ge; lia).
          + clear - Hci. set_solver. }
      destruct Hstep as (Hwhere & n' & Hn' & Eb' & Hsub').
      assert (Hpin : p ∈ {[c]} ∪ (I1 ∪ I2)).
      { unfold side in Hwhere. clear - Hwhere. destruct Hwhere as [Ep|Hin].
        - rewrite Ep. set_solver.
        - destruct (kbit key (bitIndex n)); set_solver. }
      assert (Hpc : prev <> p) by (intros E; apply Hprev; now rewrite E).
      split; [now right|].
      exists pn. split.
      { rewrite store_after_other; [assumption|assumption|].
        apply lookup_lt_Some in Hpn. lia. }
      split; [assumption|]. rewrite Hchild.
      (* the child on the other side is untouched *)
      assert (Hother : (if side then leftRaw n' else rightRaw n')
                       = (if side then leftRaw n else rightRaw n)).
      { destruct (decide (c = p)) as [Epc|Hne].
        - pose proof Hn as Hnp. rewrite Epc in Hnp, Hn'.
          rewrite (store_after_parent _ Hnp) in Hn'. injection Hn' as <-.
          unfold side. apply other_child_rewire. lia.
        - rewrite store_after_other in Hn' by (assumption || lia).
          rewrite Hn in Hn'. now injection Hn' as <-. }
      assert (Hkey : child_along key n' = if side then rightRaw n' else leftRaw n').
      { unfold child_along. rewrite Eb'.
        replace (bitIndex n <? 0) with false by (symmetry; apply Z.ltb_ge; lia).
        reflexivity. }
      assert (Hfr : forall Lo Io other,
                sub ns kd (bitIndex n) other Lo Io ->
                p ∉ Io ->
                sub ns' kd' (bitIndex n) other Lo Io).
      { intros Lo Io other Hs Hpo.
        destruct (sub_valid _ _ _ _ _ _ Hs) as [_ Vo].
        eapply sub_frame; [exact Hs| | |].
        - intros i Hi. apply store_after_other; [|now apply Vo].
          intros ->. contradiction.
        - apply store_after_bits.
        - apply keyOf_old. }
      assert (Hagk : forall j x, j ∈ L1 ∪ L2 -> 0 <= x < bitIndex n ->
                kbit (keyOf kd' j) x = kbit key x).
      { intros j x Hj Hx. rewrite keyOf_old.
        - rewrite (Hag j leaf x Hj HleafL Hx). symmetry. apply Hlow. lia.
        - apply elem_of_union in Hj as [?|?]; auto. }
      assert (Hag' : forall j j' x, j ∈ ({[new]} ∪ (L1 ∪ L2) : gset Z) ->
                j' ∈ ({[new]} ∪ (L1 ∪ L2) : gset Z) -> 0 <= x < bitIndex n ->
                kbit (keyOf kd' j) x = kbit (keyOf kd' j') x).
      { assert (Hk : forall j x, j ∈ ({[new]} ∪ (L1 ∪ L2) : gset Z) ->
                  0 <= x < bitIndex n -> kbit (keyOf kd' j) x = kbit key x).
        { intros j x Hj Hx. apply elem_of_union in Hj as [Hj|Hj].
          - apply elem_of_singleton in Hj. subst j. now rewrite keyOf_new.
          - now apply Hagk. }
        intros j j' x Hj Hj' Hx. now rewrite !Hk. }
      assert (Hnew1 : new ∉ I1) by (intros Hin; apply Vl2 in Hin; lia).
      assert (Hnew2 : new ∉ I2) by (intros Hin; apply Vr2 in Hin; lia).
      assert (Hcnew : c <> new) by lia.
      unfold side in *. destruct (kbit key (bitIndex n)) eqn:Ek.
      * rewrite Hkey in Hsub'.
        refine (sub_node ns' kd' pb c n' L1 ({[new]} ∪ L2) I1 ({[new]} ∪ I2)
                  _ _ Hc Hn' _ _ _ _ _ _ _ _ _ _ _); rewrite ?Eb', ?Hother.
        -- assumption.
        -- assumption.
        -- apply Hfr; [assumption|].
           clear - Hwhere Hci Hdisj.
           destruct Hwhere as [Ep|Hin]; [rewrite Ep|]; set_solver.
        -- exact Hsub'.
        -- intros j Hj. rewrite keyOf_old by auto. auto.
        -- intros j Hj. apply elem_of_union in Hj as [Hj|Hj].
           ++ apply elem_of_singleton in Hj. subst j. now rewrite keyOf_new.
           ++ rewrite keyOf_old by auto. auto.
        -- exact Hag'.
        -- clear - Hci Hcnew Hnew1 Hnew2. set_solver.
        -- clear - Hdisj Hnew1 Hnew2. set_solver.
        -- clear. set_solver.
        -- clear. set_solver.
      * rewrite Hkey in Hsub'.
        refine (sub_node ns' kd' pb c n' ({[new]} ∪ L1) L2 ({[new]} ∪ I1) I2
                  _ _ Hc Hn' _ _ _ _ _ _ _ _ _ _ _); rewrite ?Eb', ?Hother.
        -- assumption.
        -- assumption.
        -- exact Hsub'.
        -- apply Hfr; [assumption|].
           clear - Hwhere Hci Hdisj.
           destruct Hwhere as [Ep|Hin]; [rewrite Ep|]; set_solver.
        -- intros j Hj. apply elem_of_union in Hj as [Hj|Hj].
           ++ apply elem_of_singleton in Hj. subst j. now rewrite keyOf_new.
           ++ rewrite keyOf_old by auto. auto.
        -- intros j Hj. rewrite keyOf_old by auto. auto.
        -- exact Hag'.
        -- clear - Hci Hcnew Hnew1 Hnew2. set_solver.
        -- clear - Hdisj Hnew1 Hnew2. set_solver.
        -- clear. set_solver.
        -- clear. set_solver.
    + (* the second walk stops above this node *)
      cbn in Hw2. injection Hw2 as Ep Ecs. clear Hchild. subst prev c.
      assert (Hgt : d < bitIndex n).
      { destruct (Z.eq_dec (bitIndex n) d) as [E|]; [|lia].
        exfalso. apply Hat. rewrite <- E. now rewrite Hside. }
      split; [now left|].
      exists (rewire key new pn). split; [now apply store_after_parent|].
      split; [rewrite bitIndex_rewire; assumption|].
      rewrite child_along_rewire.
      apply attach; try assumption.
      * eapply sub_frame with (ns := ns) (kd := kd).
        -- eapply (sub_node ns kd d cs n L1 L2 I1 I2); eauto.
        -- intros i Hi. apply store_after_other.
           ++ intros ->. contradiction.
           ++ apply elem_of_union in Hi as [Hi|Hi].
              ** apply elem_of_singleton in Hi. subst i. lia.
              ** apply elem_of_union in Hi as [?|?]; auto.
        -- apply store_after_bits.
        -- apply keyOf_old.
      * intros Hin. apply elem_of_union in Hin as [Hin|Hin].
        -- apply elem_of_singleton in Hin. lia.
        -- apply elem_of_union in Hin as [Hin|Hin];
             [apply Vl2 in Hin|apply Vr2 in Hin]; lia.
      * intros j Hj.
        rewrite keyOf_old by (apply elem_of_union in Hj as [?|?]; auto).
        rewrite (Hag j leaf d Hj HleafL ltac:(lia)).
        now apply neq_negb.
      * intros j x Hj Hx.
        rewrite keyOf_old by (apply elem_of_union in Hj as [?|?]; auto).
        rewrite (Hag j leaf x Hj HleafL ltac:(lia)). symmetry. now apply Hlow.
Qed.

End StoreAfter.

(** A walk with a limit stops too, below the pointer it started from. *)
Lemma descend_limit ns kd key d pb c L I :
  sub ns kd pb c L I ->
  forall fuel prev p,
    node_at ns prev = Ok p -> bitIndex p = pb -> -1 <= pb ->
    (card I < fuel)%nat ->
    exists p' cs, descend ns key (Some d) fuel prev c = Ok (p', cs) /\
                  (p' = prev \/ p' ∈ I) /\
                  0 <= cs < Z.of_nat (length ns).
Proof.
  induction 1 as [pb c n Hc Hn Hb
                 |pb c n L1 L2 I1 I2 L I Hc Hn Hb Hb31 Hl IHl Hr IHr
                    H0 H1 Hag Hci Hdisj -> ->];
    intros fuel prev p Hp Hpb Hm1 Hfuel;
    (destruct fuel as [|fuel]; [lia|]); cbn [descend];
    rewrite Hp; cbn [rbind];
    rewrite (proj2 (node_at_lookup ns c n) (conj Hc Hn)); cbn [rbind].
  - replace (bitIndex p <? bitIndex n) with false
      by (symmetry; apply Z.ltb_ge; lia).
    cbn. exists prev, c. split; [reflexivity|]. split; [now left|].
    apply lookup_lt_Some in Hn. lia.
  - replace (bitIndex p <? bitIndex n) with true
      by (symmetry; apply Z.ltb_lt; lia).
    cbn [andb]. rewrite getBit_test by lia.
    rewrite card_node in Hfuel by assumption.
    assert (Hcn : node_at ns c = Ok n) by (apply node_at_lookup; auto).
    destruct (bitIndex n <? d).
    + destruct (kbit key (bitIndex n)).
      * destruct (IHr fuel c n Hcn eq_refl ltac:(lia) ltac:(lia))
          as (p' & cs & Hd & Hin & Hcs).
        exists p', cs. split; [assumption|]. split; [|assumption]. right.
        destruct Hin as [->|Hin]; set_solver.
      * destruct (IHl fuel c n Hcn eq_refl ltac:(lia) ltac:(lia))
          as (p' & cs & Hd & Hin & Hcs).
        exists p', cs. split; [assumption|]. split; [|assumption]. right.
        destruct Hin as [->|Hin]; set_solver.
    + exists prev, c. split; [reflexivity|]. split; [now left|].
      apply lookup_lt_Some in Hn. lia.
Qed.

Lemma sub_internal_bits ns kd pb c L I :
  sub ns kd pb c L I ->
  forall i, i ∈ I ->
    exists n, ns !! Z.to_nat i = Some n /\ pb < bitIndex n < 2 ^ 31.
Proof.
  induction 1 as [pb c n Hc Hn Hb
                 |pb c n L1 L2 I1 I2 L I Hc Hn Hb Hb31 Hl IHl Hr IHr
                    H0 H1 Hag Hci Hdisj -> ->];
    intros i Hi.
  - set_solver.
  - apply elem_of_union in Hi as [Hi|Hi].
    + apply elem_of_singleton in Hi. subst i. exists n. split; [assumption|lia].
    + apply elem_of_union in Hi as [Hi|Hi].
      * destruct (IHl i Hi) as (m & Hm & Hbm). exists m. split; [assumption|lia].
      * destruct (IHr i Hi) as (m & Hm & Hbm). exists m. split; [assumption|lia].
Qed.

(** Nodes pushed after the ones a walk visits do not change it. *)
Lemma node_at_app ns ext i n : node_at ns i = Ok n -> node_at (ns ++ ext) i = Ok n.
Proof.
  intros H. apply node_at_lookup in H as [H0 H]. apply node_at_lookup.
  split; [assumption|]. now apply lookup_app_l_Some.
Qed.

Lemma descend_app ns ext key limit fuel prev curr r :
  descend ns key limit fuel prev curr = Ok r ->
  descend (ns ++ ext) key limit fuel prev curr = Ok r.
Proof.
  revert prev curr. induction fuel as [|fuel IH]; intros prev curr; cbn [descend];
    [discriminate|].
  destruct (node_at ns prev) as [p| |] eqn:Ep; try discriminate.
  destruct (node_at ns curr) as [c| |] eqn:Ec; try discriminate.
  rewrite (node_at_app _ ext _ _ Ep), (node_at_app _ ext _ _ Ec). cbn [rbind].
  destruct (_ && _); [apply IH|auto].
Qed.

(** *** The invariant of the builder *)

(** The store is a Patricia trie over all its nodes: node 0 is the
    sentinel, with bit index -1 and the empty key, every node is a leaf
    below the sentinel's right pointer, and every node but the sentinel
    branches once. *)
Definition trie_ok (ns : list TrieNode) (kd : list Buffer) : Prop :=
  length kd = length ns /\
  keyOf kd 0 = [] /\
  exists n0 L I,
    ns !! 0%nat = Some n0 /\ bitIndex n0 = -1 /\
    sub ns kd (-1) (rightRaw n0) L I /\
    (forall j, 0 <= j < Z.of_nat (length ns) -> j ∈ L) /\
    (card I + 1 = length ns)%nat /\
    0 ∉ I.

Lemma trie_ok_new : trie_ok [sentinel] [[]].
Proof.
  split; [reflexivity|]. split; [reflexivity|].
  exists sentinel, {[0]}, ∅. split; [reflexivity|]. split; [reflexivity|].
  split; [|split; [|split]].
  - eapply sub_leaf with (n := sentinel); [lia|reflexivity|cbn; lia].
  - intros j Hj. cbn in Hj. assert (j = 0) as -> by lia. set_solver.
  - reflexivity.
  - set_solver.
Qed.

(** The store after an insertion at the place the two walks found. *)
Lemma insert_root ns kd key d strIdx metaIdx p cs pl leaf n0 fuel :
  trie_ok ns kd ->
  ns !! 0%nat = Some n0 ->
  (length ns <= fuel)%nat ->
  descend ns key None fuel 0 (rightRaw n0) = Ok (pl, leaf) ->
  descend ns key (Some d) fuel 0 (rightRaw n0) = Ok (p, cs) ->
  0 <= d < 2 ^ 31 ->
  (forall x, 0 <= x < d -> kbit key x = kbit (keyOf kd leaf) x) ->
  kbit key d <> kbit (keyOf kd leaf) d ->
  trie_ok (store_after ns key d strIdx metaIdx p cs) (kd ++ [key]).
Proof.
  intros (Hlen & Hk0 & m0 & L & I & Hm0 & Hb0 & Hsub & Hcover & Hcard & H0I)
         Hn0 Hfuel Hw1 Hw2 Hd Hlow Hat.
  rewrite Hm0 in Hn0. injection Hn0 as ->.
  assert (Hroot : node_at ns 0 = Ok n0) by (apply node_at_lookup; auto with lia).
  destruct (sub_valid _ _ _ _ _ _ Hsub) as [VL VI].
  assert (Hpv : 0 <= p < Z.of_nat (length ns)).
  { destruct (descend_limit ns kd key d _ _ _ _ Hsub fuel 0 n0
                Hroot Hb0 ltac:(lia) ltac:(lia)) as (p' & cs' & Hd' & Hin & _).
    rewrite Hd' in Hw2. injection Hw2 as -> ->.
    destruct Hin as [->|Hin]; [|now apply VI].
    apply lookup_lt_Some in Hm0. lia. }
  destruct (insert_sub ns kd key d strIdx metaIdx p cs Hlen Hpv leaf
              ltac:(lia) Hlow Hat _ _ _ _ Hsub fuel 0 n0 pl
              Hroot Hb0 ltac:(lia) ltac:(lia))
    as (_ & n0' & Hn0' & Hb0' & Hsub'); try assumption; try lia.
  { unfold child_along. now rewrite Hb0. }
  split; [|split].
  - unfold store_after. rewrite length_alter, !length_app. cbn. lia.
  - unfold keyOf in *. rewrite lookup_app_l; [assumption|].
    apply lookup_lt_Some in Hm0. lia.
  - exists n0', ({[Z.of_nat (length ns)]} ∪ L), ({[Z.of_nat (length ns)]} ∪ I).
    split; [exact Hn0'|]. split; [assumption|]. split; [|split; [|split]].
    + unfold child_along in Hsub'. rewrite Hb0' in Hsub'. exact Hsub'.
    + intros j Hj. unfold store_after in Hj.
      rewrite length_alter, length_app in Hj. cbn in Hj.
      destruct (Z.eq_dec j (Z.of_nat (length ns))) as [->|Hne]; [set_solver|].
      apply elem_of_union_r, Hcover. lia.
    + unfold store_after. rewrite length_alter, length_app. cbn.
      rewrite size_union, size_singleton; [lia|].
      apply disjoint_singleton_l. intros Hin. apply VI in Hin. lia.
    + intros Hin. apply elem_of_union in Hin as [Hin|Hin]; [|contradiction].
      apply elem_of_singleton in Hin. apply lookup_lt_Some in Hm0. lia.
Qed.

(** Both walks of an insertion end, and where. *)
Lemma walks_end ns kd key d n0 fuel :
  trie_ok ns kd ->
  ns !! 0%nat = Some n0 ->
  (length ns <= fuel)%nat ->
  exists pl leaf p cs pn,
    descend ns key None fuel 0 (rightRaw n0) = Ok (pl, leaf) /\
    descend ns key (Some d) fuel 0 (rightRaw n0) = Ok (p, cs) /\
    0 <= leaf < Z.of_nat (length ns) /\
    0 <= cs < Z.of_nat (length ns) /\
    0 <= p < Z.of_nat (length ns) /\
    ns !! Z.to_nat p = Some pn /\ -1 <= bitIndex pn < 2 ^ 31.
Proof.
  intros (Hlen & Hk0 & m0 & L & I & Hm0 & Hb0 & Hsub & Hcover & Hcard & H0I)
         Hn0 Hfuel.
  rewrite Hm0 in Hn0. injection Hn0 as ->.
  assert (Hroot : node_at ns 0 = Ok n0) by (apply node_at_lookup; auto with lia).
  destruct (sub_valid _ _ _ _ _ _ Hsub) as [VL VI].
  destruct (descend_search ns kd key _ _ _ _ Hsub fuel 0 n0 Hroot Hb0
              ltac:(lia) ltac:(lia)) as (pl & leaf & Hw1 & Hleaf).
  destruct (descend_limit ns kd key d _ _ _ _ Hsub fuel 0 n0 Hroot Hb0
              ltac:(lia) ltac:(lia)) as (p & cs & Hw2 & Hin & Hcs).
  destruct Hin as [->|Hin].
  - pose proof (lookup_lt_Some _ _ _ Hm0).
    pose proof (VL leaf Hleaf).
    exists pl, leaf, 0, cs, n0. repeat split; auto; lia.
  - destruct (sub_internal_bits _ _ _ _ _ _ Hsub p Hin) as (pn & Hpn & Hbits).
    pose proof (VL leaf Hleaf). pose proof (VI p Hin).
    exists pl, leaf, p, cs, pn. repeat split; auto; lia.
Qed.

(** *** The code of [insertKey] *)

Lemma set_node_last ns x f :
  set_node (ns ++ [x]) (Z.of_nat (length ns)) f = Ok (ns ++ [f x]).
Proof.
  unfold set_node, node_at.
  replace (Z.of_nat (length ns) <? 0) with false by (symmetry; apply Z.ltb_ge; lia).
  rewrite Nat2Z.id, lookup_app_r, Nat.sub_diag by lia. cbn [lookup list_lookup rbind].
  f_equal. rewrite <- (Nat.add_0_r (length ns)) at 1.
  now rewrite alter_app_r.
Qed.

Lemma set_node_in ns i f n :
  0 <= i -> ns !! Z.to_nat i = Some n ->
  set_node ns i f = Ok (alter f (Z.to_nat i) ns).
Proof.
  intros Hi Hn. unfold set_node.
  now rewrite (proj2 (node_at_lookup ns i n) (conj Hi Hn)).
Qed.

Lemma alter_agree {A} (f g : A -> A) (l : list A) (i : nat) (x : A) :
  l !! i = Some x -> f x = g x -> alter f i l = alter g i l.
Proof.
  revert i. induction l as [|y l IH]; intros [|i] Hx Hfg; cbn in *; try discriminate.
  - injection Hx as ->. now rewrite Hfg.
  - f_equal. now apply IH.
Qed.

Lemma blen_nonneg_key (b : Buffer) : 0 <= blen b.
Proof. unfold blen. lia. Qed.

(** A key the builder accepts: no NUL byte, and short enough for its bit
    positions to be 31-bit numbers. *)
Definition key_ok (k : Buffer) : Prop := ~ In x00 k /\ blen k < 2 ^ 27.

(** The three assignments that fill the new node. *)
Lemma fill_new ns key d strIdx metaIdx cs :
  0 <= d < 2 ^ 31 ->
  let nodeIdx := Z.of_nat (length ns) in
  let blank := {| metaIndex := metaIdx; bitIndex := -1;
                  nameRaw := u32 (js_or strIdx 0x80000000);
                  leftRaw := 0; rightRaw := 0 |} in
  (if negb (getBit key d =? 0) then
     do ns' <- set_node (ns ++ [set_bitIndex d blank]) nodeIdx (set_leftRaw cs);
     set_node ns' nodeIdx (set_rightRaw nodeIdx)
   else
     do ns' <- set_node (ns ++ [set_bitIndex d blank]) nodeIdx (set_leftRaw nodeIdx);
     set_node ns' nodeIdx (set_rightRaw cs))
  = Ok (ns ++ [new_node key d strIdx metaIdx nodeIdx cs]).
Proof.
  intros Hd nodeIdx blank. rewrite getBit_test by assumption.
  unfold new_node, nodeIdx, blank. destruct (kbit key d);
    rewrite set_node_last; cbn [rbind]; rewrite set_node_last; reflexivity.
Qed.

(** The assignment that redirects the parent. *)
Lemma rewire_parent ns key nn p pn :
  0 <= p < Z.of_nat (length ns) ->
  ns !! Z.to_nat p = Some pn -> -1 <= bitIndex pn < 2 ^ 31 ->
  let nodeIdx := Z.of_nat (length ns) in
  node_at (ns ++ [nn]) p = Ok pn /\
  (if (if bitIndex pn <? 0 then true
       else negb (getBit key (bitIndex pn) =? 0))
   then set_node (ns ++ [nn]) p (set_rightRaw nodeIdx)
   else set_node (ns ++ [nn]) p (set_leftRaw nodeIdx))
  = Ok (alter (rewire key nodeIdx) (Z.to_nat p) (ns ++ [nn])).
Proof.
  intros Hp Hpn Hbits nodeIdx.
  assert (Hq' : (ns ++ [nn]) !! Z.to_nat p = Some pn)
    by now apply lookup_app_l_Some.
  split; [apply node_at_lookup; split; [lia|assumption]|].
  destruct (Z.ltb_spec (bitIndex pn) 0) as [Hneg|Hpos].
  - rewrite (set_node_in _ p _ pn (proj1 Hp) Hq'). f_equal.
    apply (alter_agree _ _ _ _ pn Hq'). unfold rewire.
    now replace (bitIndex pn <? 0) with true by (symmetry; apply Z.ltb_lt; lia).
  - rewrite getBit_test by lia.
    destruct (kbit key (bitIndex pn)) eqn:Ek;
      rewrite (set_node_in _ p _ pn (proj1 Hp) Hq'); f_equal;
      apply (alter_agree _ _ _ _ pn Hq'); unfold rewire;
      replace (bitIndex pn <? 0) with false by (symmetry; apply Z.ltb_ge; lia);
      now rewrite Ek.
Qed.

Lemma keyOf_lookup kd j :
  0 <= j < Z.of_nat (length kd) -> kd !! Z.to_nat j = Some (keyOf kd j).
Proof.
  intros Hj. unfold keyOf.
  destruct (kd !! Z.to_nat j) eqn:E; [reflexivity|].
  apply lookup_ge_None in E. lia.
Qed.

(** One key more: [insertKey] returns, and its store is again a trie. *)
Lemma insertKey_ok t key strIdx metaIdx :
  trie_ok (nodes t) (keyData t) ->
  Forall key_ok (keyData t) ->
  key_ok key ->
  ~ In key (keyData t) ->
  exists d p cs,
    insertKey t key strIdx metaIdx
    = Ok {| nodes := store_after (nodes t) key d strIdx metaIdx p cs;
            keyData := keyData t ++ [key] |} /\
    trie_ok (store_after (nodes t) key d strIdx metaIdx p cs)
            (keyData t ++ [key]) /\
    0 <= d < 2 ^ 31 /\
    0 <= p < Z.of_nat (length (nodes t)) /\
    0 <= cs < Z.of_nat (length (nodes t)).
Proof.
  intros Hok Hkeys [Hnul Hlen] Hfresh.
  destruct t as [ns kd]. cbn [nodes keyData] in *.
  pose proof Hok as (Hkdlen & Hk0 & n0 & L & I & Hn0 & Hb0 & Hsub & Hcover & Hcard & H0I).
  set (blank := {| metaIndex := metaIdx; bitIndex := -1;
                   nameRaw := u32 (js_or strIdx 0x80000000);
                   leftRaw := 0; rightRaw := 0 |}).
  set (fuel := S (length (ns ++ [blank]))).
  assert (Hfuel : (length ns <= fuel)%nat)
    by (unfold fuel; rewrite length_app; cbn; lia).
  (* the search walk *)
  destruct (walks_end ns kd key 0 n0 fuel Hok Hn0 Hfuel)
    as (pl & leaf & _ & _ & _ & Hw1 & _ & Hleaf & _).
  set (closest := keyOf kd leaf).
  assert (Hclosest : kd !! Z.to_nat leaf = Some closest)
    by (apply keyOf_lookup; lia).
  assert (Hcok : key_ok closest).
  { eapply (proj1 (Forall_lookup _ _) Hkeys); eassumption. }
  assert (Hneq : key <> closest).
  { intros ->. apply Hfresh. apply list_elem_of_In.
    eapply list_elem_of_lookup_2; eassumption. }
  set (d := firstDifferingBit key closest).
  destruct (firstDifferingBit_spec key closest) as (Hdr & Hlow & Hat).
  cbv zeta in Hdr, Hlow, Hat. fold d in Hdr, Hlow, Hat.
  pose proof (firstDifferingBit_distinct key closest Hnul (proj1 Hcok) Hneq) as Hdist.
  fold d in Hdist. specialize (Hat Hdist).
  assert (Hd31 : 0 <= d < 2 ^ 31).
  { destruct Hcok as [_ Hcl]. pose proof (blen_nonneg_key key).
    pose proof (blen_nonneg_key closest). lia. }
  (* the second walk *)
  destruct (walks_end ns kd key d n0 fuel Hok Hn0 Hfuel)
    as (pl' & leaf' & p & cs & pn & Hw1' & Hw2 & _ & Hcs & Hp & Hpn & Hpbits).
  rewrite Hw1 in Hw1'. injection Hw1' as <- <-.
  exists d, p, cs. split.
  2:{ split; [|auto].
      exact (insert_root ns kd key d strIdx metaIdx p cs pl leaf n0 fuel
               Hok Hn0 Hfuel Hw1 Hw2 Hd31 Hlow Hat). }
  unfold insertKey. cbn [nodes keyData]. fold blank.
  assert (Hroot1 : node_at (ns ++ [blank]) 0 = Ok n0).
  { apply node_at_lookup. split; [lia|]. now apply lookup_app_l_Some. }
  destruct (Z.eqb_spec (Z.of_nat (length ns)) 1) as [Hone|Hmany].
  - (* the first key *)
    assert (leaf = 0) as Eleaf by lia.
    assert (cs = 0) as Ecs by lia.
    assert (p = 0) as Ep by lia.
    assert (closest = []) as Ecl by (unfold closest; now rewrite Eleaf).
    subst cs p.
    replace (firstDifferingBit key []) with d by (unfold d; now rewrite Ecl).
    rewrite set_node_last. cbn [rbind]. unfold blank.
    rewrite (fill_new ns key d strIdx metaIdx 0 Hd31). cbn [rbind].
    change (Z.to_nat 0) with 0%nat in Hpn. rewrite Hn0 in Hpn. injection Hpn as <-.
    destruct (rewire_parent ns key
                (new_node key d strIdx metaIdx (Z.of_nat (length ns)) 0)
                0 n0 Hp Hn0 Hpbits) as [_ Hre].
    replace (bitIndex n0 <? 0) with true in Hre by (rewrite Hb0; reflexivity).
    rewrite Hre. reflexivity.
  - rewrite Hroot1. cbn [rbind]. fold fuel.
    rewrite (descend_app _ [blank] _ _ _ _ _ _ Hw1). cbn [rbind].
    replace (leaf <? 0) with false by (symmetry; apply Z.ltb_ge; lia).
    rewrite (lookup_app_l_Some _ _ _ _ Hclosest). cbn [rbind]. fold d.
    replace (d >=? Z.max (blen key) (blen closest) * 8) with false
      by (symmetry; rewrite Z.geb_leb; apply Z.leb_gt; lia).
    rewrite (descend_app _ [blank] _ _ _ _ _ _ Hw2). cbn [rbind].
    rewrite set_node_last. cbn [rbind]. unfold blank.
    rewrite (fill_new ns key d strIdx metaIdx cs Hd31). cbn [rbind].
    destruct (rewire_parent ns key
                (new_node key d strIdx metaIdx (Z.of_nat (length ns)) cs)
                p pn Hp Hpn Hpbits) as [Hq Hre].
    rewrite Hq. cbn [rbind]. rewrite Hre. reflexivity.
Qed.

(** *** The whole list of keys *)

(** Every field of a node fits the word [build] writes it to. *)
Definition node_fits (count : Z) (n : TrieNode) : Prop :=
  0 <= metaIndex n < 2 ^ 32 /\ -1 <= bitIndex n < 2 ^ 31 /\
  0 <= nameRaw n < 2 ^ 32 /\
  0 <= leftRaw n < count /\ 0 <= rightRaw n < count.

Lemma node_fits_mono count count' n :
  count <= count' -> node_fits count n -> node_fits count' n.
Proof. unfold node_fits. intros. lia. Qed.

Lemma map_alter_same {A B} (g : A -> B) (f : A -> A) (l : list A) (i : nat) :
  (forall x, g (f x) = g x) -> map g (alter f i l) = map g l.
Proof.
  intros H. revert i. induction l as [|y l IH]; intros [|i]; cbn; auto.
  - now rewrite H.
  - now rewrite IH.
Qed.

Lemma nameRaw_rewire key new n : nameRaw (rewire key new n) = nameRaw n.
Proof. unfold rewire. now repeat destruct (_ : bool). Qed.

Lemma metaIndex_rewire key new n : metaIndex (rewire key new n) = metaIndex n.
Proof. unfold rewire. now repeat destruct (_ : bool). Qed.

Lemma store_after_names ns key d strIdx metaIdx p cs :
  map nameRaw (store_after ns key d strIdx metaIdx p cs)
  = map nameRaw ns ++ [u32 (js_or strIdx 0x80000000)].
Proof.
  unfold store_after. rewrite map_alter_same by apply nameRaw_rewire.
  now rewrite map_app.
Qed.

Lemma store_after_metas ns key d strIdx metaIdx p cs :
  map metaIndex (store_after ns key d strIdx metaIdx p cs)
  = map metaIndex ns ++ [metaIdx].
Proof.
  unfold store_after. rewrite map_alter_same by apply metaIndex_rewire.
  now rewrite map_app.
Qed.

Lemma store_after_fits ns key d strIdx metaIdx p cs :
  Forall (node_fits (Z.of_nat (length ns))) ns ->
  0 <= d < 2 ^ 31 -> 0 <= cs < Z.of_nat (length ns) ->
  0 <= metaIdx < 2 ^ 32 ->
  Forall (node_fits (Z.of_nat (length ns) + 1))
         (store_after ns key d strIdx metaIdx p cs).
Proof.
  intros Hall Hd Hcs Hm. unfold store_after.
  apply Forall_alter.
  - apply Forall_app. split.
    + eapply Forall_impl; [exact Hall|].
      intros n. apply node_fits_mono. lia.
    + constructor; [|constructor].
      unfold node_fits, new_node. cbn.
      pose proof (u32_range (js_or strIdx 0x80000000)).
      destruct (kbit key d); lia.
  - intros n Hn. unfold node_fits in *. rewrite bitIndex_rewire, nameRaw_rewire, metaIndex_rewire.
    unfold rewire. repeat destruct (_ : bool); cbn; lia.
Qed.

Lemma insertKeys_ok keys : forall strs metas t,
  length strs = length keys -> length metas = length keys ->
  trie_ok (nodes t) (keyData t) ->
  Forall key_ok (keyData t) -> Forall key_ok keys ->
  NoDup (keyData t ++ keys) ->
  Forall (node_fits (Z.of_nat (length (nodes t)))) (nodes t) ->
  Forall (fun m => 0 <= m < 2 ^ 32) metas ->
  exists t',
    insertKeys t keys strs metas = Ok t' /\
    trie_ok (nodes t') (keyData t') /\
    keyData t' = keyData t ++ keys /\
    map nameRaw (nodes t')
      = map nameRaw (nodes t) ++ map (fun s => u32 (js_or s 0x80000000)) strs /\
    map metaIndex (nodes t') = map metaIndex (nodes t) ++ metas /\
    Forall (node_fits (Z.of_nat (length (nodes t')))) (nodes t').
Proof.
  induction keys as [|key keys IH]; intros strs metas t Hls Hlm Hok Hkd Hks Hnd Hfit Hms.
  - destruct strs; [|discriminate]. destruct metas; [|discriminate].
    cbn. exists t. rewrite !app_nil_r.
    split; [reflexivity|]. split; [assumption|]. auto.
  - destruct strs as [|strIdx strs]; [discriminate|].
    destruct metas as [|metaIdx metas]; [discriminate|].
    cbn [insertKeys].
    inversion Hks as [|? ? Hk Hks']; subst.
    inversion Hms as [|? ? Hm Hms']; subst.
    assert (Hfresh : ~ In key (keyData t)).
    { apply NoDup_app in Hnd as (_ & Hdisj & _).
      intros Hin. apply list_elem_of_In in Hin.
      apply (Hdisj key Hin). now left. }
    destruct (insertKey_ok t key strIdx metaIdx Hok Hkd Hk Hfresh)
      as (d & p & cs & Hins & Hok' & Hd & Hp & Hcs).
    rewrite Hins. cbn [rbind].
    set (t1 := {| nodes := store_after (nodes t) key d strIdx metaIdx p cs;
                  keyData := keyData t ++ [key] |}).
    assert (Hlen1 : length (nodes t1) = S (length (nodes t))).
    { cbn. unfold store_after. rewrite length_alter, length_app. cbn. lia. }
    destruct (IH strs metas t1) as (t' & Hrun & Hok2 & Hkd2 & Hnm & Hmt & Hfit2).
    + cbn in Hls. lia.
    + cbn in Hlm. lia.
    + exact Hok'.
    + unfold t1. cbn [keyData]. apply Forall_app. split; [assumption|].
      now constructor.
    + assumption.
    + unfold t1. cbn [keyData]. rewrite <- app_assoc. exact Hnd.
    + rewrite Hlen1. replace (Z.of_nat (S (length (nodes t))))
        with (Z.of_nat (length (nodes t)) + 1) by lia.
      now apply store_after_fits.
    + assumption.
    + exists t'. split; [assumption|]. split; [assumption|].
      cbn [nodes keyData t1] in *.
      rewrite store_after_names in Hnm. rewrite store_after_metas in Hmt.
      rewrite <- !app_assoc in *. cbn [map app].
      auto.
Qed.

End TrieFacts.

(** ** The index channels: serialization, lookup, phases 1 and 2 *)

Module IndexFacts.
Import Reader Trie StringTable JsFacts StringFacts BitFacts TrieFacts.

(** The twenty bytes of one node in the [.dt] channel. *)
Definition node_bytes (n : TrieNode) : Buffer :=
  packU32 (u32 (metaIndex n)) ++ packU32 (u32 (bitIndex n))
  ++ packU32 (u32 (nameRaw n)) ++ packU32 (u32 (leftRaw n))
  ++ packU32 (u32 (rightRaw n)).

Lemma length_node_bytes n : length (node_bytes n) = 20%nat.
Proof.
  unfold node_bytes. rewrite !length_app, !length_packU32. reflexivity.
Qed.

Lemma packNode_fits count n :
  node_fits count n -> packNode n = Ok (node_bytes n).
Proof.
  intros (_ & Hb & _). unfold packNode, packI32.
  assert (E : (bitIndex n <? - 2 ^ 31) || (2 ^ 31 <=? bitIndex n) = false).
  { apply orb_false_iff. split; [apply Z.ltb_ge|apply Z.leb_gt]; lia. }
  rewrite E. reflexivity.
Qed.

Lemma build_loop_fits count ns :
  Forall (node_fits count) ns ->
  build_loop ns = Ok (concat (map node_bytes ns)).
Proof.
  induction 1 as [|n ns Hn _ IH]; [reflexivity|].
  cbn [build_loop map concat]. rewrite (packNode_fits _ _ Hn), IH. reflexivity.
Qed.

Lemma chunk_at {A} (sz : nat) (chunks : list (list A)) :
  Forall (fun r => length r = sz) chunks ->
  forall j c, chunks !! j = Some c ->
  exists pre post, concat chunks = pre ++ c ++ post /\ length pre = (sz * j)%nat.
Proof.
  induction 1 as [|r chunks Hr _ IH]; intros [|j] c Hc; try discriminate.
  - injection Hc as ->. exists [], (concat chunks). split; [reflexivity|cbn; lia].
  - destruct (IH j c Hc) as (pre & post & E & Hl).
    exists (r ++ pre), post. cbn [concat]. rewrite E, <- app_assoc.
    split; [reflexivity|]. rewrite length_app. lia.
Qed.

Lemma length_concat_fixed {A} (sz : nat) (chunks : list (list A)) :
  Forall (fun r => length r = sz) chunks ->
  length (concat chunks) = (sz * length chunks)%nat.
Proof.
  induction 1 as [|r chunks Hr _ IH]; [cbn; lia|].
  cbn [concat length]. rewrite length_app. lia.
Qed.

(** Five consecutive words are read back at their offsets. *)
Lemma read_words (pre post : Buffer) (a b c d e off : Z) :
  off = blen pre ->
  let buf := pre ++ (packU32 a ++ packU32 b ++ packU32 c ++ packU32 d
                     ++ packU32 e) ++ post in
  readU32 buf off = Ok (u32 a) /\ readU32 buf (off + 4) = Ok (u32 b) /\
  readU32 buf (off + 8) = Ok (u32 c) /\ readU32 buf (off + 12) = Ok (u32 d) /\
  readU32 buf (off + 16) = Ok (u32 e).
Proof.
  intros -> buf. subst buf.
  split; [|split; [|split; [|split]]].
  - repeat rewrite <- app_assoc. apply readU32_packU32.
  - replace (blen pre + 4) with (blen (pre ++ packU32 a))
      by (unfold blen; rewrite length_app, length_packU32; lia).
    replace (pre ++ (packU32 a ++ packU32 b ++ packU32 c ++ packU32 d
                     ++ packU32 e) ++ post)
      with ((pre ++ packU32 a) ++ packU32 b
            ++ (packU32 c ++ packU32 d ++ packU32 e ++ post))
      by (repeat rewrite <- app_assoc; reflexivity).
    apply readU32_packU32.
  - replace (blen pre + 8) with (blen (pre ++ packU32 a ++ packU32 b))
      by (unfold blen; rewrite !length_app, !length_packU32; lia).
    replace (pre ++ (packU32 a ++ packU32 b ++ packU32 c ++ packU32 d
                     ++ packU32 e) ++ post)
      with ((pre ++ packU32 a ++ packU32 b) ++ packU32 c
            ++ (packU32 d ++ packU32 e ++ post))
      by (repeat rewrite <- app_assoc; reflexivity).
    apply readU32_packU32.
  - replace (blen pre + 12)
      with (blen (pre ++ packU32 a ++ packU32 b ++ packU32 c))
      by (unfold blen; rewrite !length_app, !length_packU32; lia).
    replace (pre ++ (packU32 a ++ packU32 b ++ packU32 c ++ packU32 d
                     ++ packU32 e) ++ post)
      with ((pre ++ packU32 a ++ packU32 b ++ packU32 c) ++ packU32 d
            ++ (packU32 e ++ post))
      by (repeat rewrite <- app_assoc; reflexivity).
    apply readU32_packU32.
  - replace (blen pre + 16)
      with (blen (pre ++ packU32 a ++ packU32 b ++ packU32 c ++ packU32 d))
      by (unfold blen; rewrite !length_app, !length_packU32; lia).
    replace (pre ++ (packU32 a ++ packU32 b ++ packU32 c ++ packU32 d
                     ++ packU32 e) ++ post)
      with ((pre ++ packU32 a ++ packU32 b ++ packU32 c ++ packU32 d)
            ++ packU32 e ++ post)
      by (repeat rewrite <- app_assoc; reflexivity).
    apply readU32_packU32.
Qed.

Lemma blen_node_table ns :
  blen (concat (map node_bytes ns)) = 20 * Z.of_nat (length ns).
Proof.
  unfold blen. rewrite (length_concat_fixed 20).
  - rewrite length_map. lia.
  - apply List.Forall_forall. intros r Hr. apply in_map_iff in Hr as (n & <- & _).
    apply length_node_bytes.
Qed.

(** [dtNode] on the serialized table gives back the builder's node. *)
Lemma dtNode_built arc ns i n :
  dt arc = concat (map node_bytes ns) ->
  Forall (node_fits (2 ^ 32)) ns ->
  ns !! i = Some n ->
  dtNode arc (Z.of_nat i) = Ok n.
Proof.
  intros Hdt Hfits Hn.
  assert (Hfit : node_fits (2 ^ 32) n).
  { eapply List.Forall_forall; [exact Hfits|].
    apply list_elem_of_In. eapply list_elem_of_lookup_2; eassumption. }
  destruct Hfit as (Hm & Hb & Hnm & Hl & Hr).
  pose proof (lookup_lt_Some _ _ _ Hn) as Hi.
  destruct (chunk_at 20 (map node_bytes ns)) with (j := i) (c := node_bytes n)
    as (pre & post & E & Hpre).
  { apply List.Forall_forall. intros r Hr'.
    apply in_map_iff in Hr' as (m & <- & _). apply length_node_bytes. }
  { rewrite list_lookup_fmap, Hn. reflexivity. }
  unfold dtNode, DT_NODE_SIZE. rewrite Hdt, blen_node_table.
  assert (E1 : (Z.of_nat i * 20 <? 0)
               || (20 * Z.of_nat (length ns) <? Z.of_nat i * 20 + 20) = false).
  { apply orb_false_iff. split; apply Z.ltb_ge; lia. }
  rewrite E1, E.
  destruct (read_words pre post (u32 (metaIndex n)) (u32 (bitIndex n))
              (u32 (nameRaw n)) (u32 (leftRaw n)) (u32 (rightRaw n))
              (Z.of_nat i * 20)) as (R0 & R1 & R2 & R3 & R4).
  { unfold blen. lia. }
  fold (node_bytes n) in R0, R1, R2, R3, R4.
  unfold readI32. rewrite R0, R1, R2, R3, R4. cbn [rbind].
  rewrite !(u32_small (metaIndex n)), !(u32_small (nameRaw n)),
    !(u32_small (leftRaw n)), !(u32_small (rightRaw n)) by lia.
  assert (Eb : (if u32 (u32 (bitIndex n)) <? 2 ^ 31 then u32 (u32 (bitIndex n))
                else u32 (u32 (bitIndex n)) - 2 ^ 32) = bitIndex n).
  { destruct (Z.eq_dec (bitIndex n) (-1)) as [->|Hne].
    - reflexivity.
    - rewrite !(u32_small (bitIndex n)) by lia.
      destruct (Z.ltb_spec (bitIndex n) (2 ^ 31)); lia. }
  rewrite Eb. destruct n; reflexivity.
Qed.


Lemma node_at_dtNode arc ns :
  dt arc = concat (map node_bytes ns) ->
  Forall (node_fits (2 ^ 32)) ns ->
  forall i n, node_at ns i = Ok n -> dtNode arc i = Ok n.
Proof.
  intros Hdt Hfits i n H. unfold node_at in H.
  destruct (Z.ltb_spec i 0); [discriminate|].
  destruct (ns !! Z.to_nat i) as [m|] eqn:E; [|discriminate].
  injection H as ->.
  rewrite <- (Z2Nat.id i) by assumption.
  eapply dtNode_built; eassumption.
Qed.

(** The reader's walk over the serialized table is the builder's first walk
    over its nodes. *)
Lemma findNode_loop_descend arc ns key :
  (forall i n, node_at ns i = Ok n -> dtNode arc i = Ok n) ->
  forall fuel prev curr p' leaf,
    descend ns key None fuel prev curr = Ok (p', leaf) ->
    findNode_loop arc key fuel prev curr = Ok leaf.
Proof.
  intros Hrd. induction fuel as [|fuel IH]; intros prev curr p' leaf H;
    [discriminate|].
  cbn [descend] in H. cbn [findNode_loop].
  destruct (node_at ns prev) as [p| |] eqn:Ep; try discriminate.
  destruct (node_at ns curr) as [c| |] eqn:Ec; try discriminate.
  cbn [rbind] in H.
  rewrite (Hrd _ _ Ep), (Hrd _ _ Ec). cbn [rbind].
  rewrite andb_true_r in H.
  destruct (bitIndex p <? bitIndex c).
  - eapply IH; eassumption.
  - now injection H as _ <-.
Qed.

Lemma rec0_record : rec0 = make_record 0 [x2e].
Proof. vm_compute. reflexivity. Qed.

(** Record 0 of every table reads as ".". *)
Lemma stringBytes_rec0 (recs : list Buffer) :
  Forall (fun rc => length rc = 64%nat) recs ->
  recs !! 0%nat = Some rec0 ->
  stringBytes (concat recs) 0 = Ok [x2e].
Proof.
  intros Hall H0. unfold stringBytes.
  change (0 <? 0) with false. cbv iota.
  assert (Hrec : recs !! Z.to_nat 0 = Some (make_record 0 [x2e]))
    by (rewrite <- rec0_record; exact H0).
  assert (Hnul : ~ In x00 [x2e]) by (intros [H|[]]; discriminate).
  rewrite (stringBytes_loop_step recs 0 0 [x2e] _ [] [] Hall (Z.le_refl 0) Hrec
             ltac:(cbn; lia) Hnul ltac:(lia) ltac:(intros s [])).
  reflexivity.
Qed.

(** What a serialized index holds for a list of keys: the node table of a
    well-formed trie whose node [i + 1] carries key [i], and a string table
    in which the name index of that node leads to the key's bytes. *)
Record index_of (arc : PriusArchive) (ns : list TrieNode) (keys : list Buffer)
    : Prop := {
  io_dt : dt arc = concat (map node_bytes ns);
  io_trie : trie_ok ns ([] :: keys);
  io_fits : Forall (node_fits (2 ^ 32)) ns;
  io_keys : Forall (fun k => k <> [] /\ ~ In x00 k) keys;
  io_metas : map metaIndex ns = 0 :: map Z.of_nat (seq 0 (length keys));
  io_names : exists strs recs,
    strings arc = concat recs /\
    map nameRaw ns
      = 0x80000000 :: map (fun s => u32 (js_or s 0x80000000)) strs /\
    Forall (fun rc => length rc = 64%nat) recs /\
    Z.of_nat (length recs) <= 2 ^ 31 /\
    recs !! 0%nat = Some rec0 /\
    length strs = length keys /\
    forall i s k, strs !! i = Some s -> keys !! i = Some k -> Stored recs s k
}.

(** The name the reader finds at a node. *)
Definition stored_name (keys : list Buffer) (leaf : Z) : Buffer :=
  if leaf =? 0 then [x2e] else keyOf ([] :: keys) leaf.

Lemma Stored_index_lt recs s k : k <> [] -> Stored recs s k ->
  1 <= s < Z.of_nat (length recs).
Proof.
  intros Hne [H1 H]. split; [assumption|].
  pose proof (slices_pos k Hne) as Hpos.
  specialize (H 0 ltac:(lia)). rewrite Z.add_0_r in H.
  apply lookup_lt_Some in H. lia.
Qed.

Lemma findNodeBytes_index arc ns keys q n0 p' leaf :
  index_of arc ns keys ->
  q <> [] ->
  ns !! 0%nat = Some n0 ->
  descend ns q None (S (length ns)) 0 (rightRaw n0) = Ok (p', leaf) ->
  0 <= leaf < Z.of_nat (length ns) ->
  findNodeBytes arc q
  = Ok (if decide (stored_name keys leaf = q) then leaf else -1).
Proof.
  intros [Hdt Hok Hfits Hkeys _
            (strs & recs & Hstr & Hnames & Hrecs & Hcount & Hrec0 & Hlen & Hstored)]
         Hq Hn0 Hwalk Hleaf.
  pose proof (node_at_dtNode arc ns Hdt Hfits) as Hrd.
  unfold findNodeBytes.
  assert (Eq : (blen q =? 0) = false).
  { apply Z.eqb_neq. unfold blen. destruct q; [congruence|cbn; lia]. }
  rewrite Eq.
  rewrite (dtNode_built arc ns 0 n0 Hdt Hfits Hn0 : dtNode arc 0 = Ok n0).
  cbn [rbind].
  assert (Ecount : dtNodeCount arc = Z.of_nat (length ns)).
  { unfold dtNodeCount, DT_NODE_SIZE. rewrite Hdt, blen_node_table.
    rewrite Z.mul_comm. apply Z.div_mul. lia. }
  rewrite Ecount, Nat2Z.id.
  rewrite (findNode_loop_descend arc ns q Hrd _ _ _ _ _ Hwalk). cbn [rbind].
  destruct (ns !! Z.to_nat leaf) as [nl|] eqn:Enl;
    [|apply lookup_ge_None in Enl; lia].
  assert (Hnl : dtNode arc leaf = Ok nl).
  { apply Hrd. unfold node_at.
    destruct (Z.ltb_spec leaf 0); [lia|]. now rewrite Enl. }
  rewrite Hnl. cbn [rbind].
  assert (Hname : (map nameRaw ns) !! Z.to_nat leaf = Some (nameRaw nl))
    by (rewrite list_lookup_fmap, Enl; reflexivity).
  rewrite Hnames in Hname. rewrite Hstr.
  unfold stored_name.
  destruct (Z.eqb_spec leaf 0) as [->|Hne].
  - cbn in Hname. injection Hname as <-.
    change (js_and 2147483648 2147483647) with 0.
    rewrite stringBytes_rec0 by assumption. cbn [rbind].
    now destruct (decide ([x2e] = q)).
  - destruct (Z.to_nat leaf) as [|j] eqn:Ej; [lia|].
    change (map (fun s => u32 (js_or s 0x80000000)) strs !! j
            = Some (nameRaw nl)) in Hname.
    rewrite list_lookup_fmap in Hname.
    destruct (strs !! j) as [s|] eqn:Es; [|discriminate].
    injection Hname as Hname.
    destruct (keys !! j) as [k|] eqn:Ek.
    2:{ apply lookup_ge_None in Ek. apply lookup_lt_Some in Es. lia. }
    assert (Hk : k <> [] /\ ~ In x00 k).
    { apply (proj1 (List.Forall_forall _ keys) Hkeys k).
      apply list_elem_of_In. eapply list_elem_of_lookup_2; eassumption. }
    pose proof (Hstored _ _ _ Es Ek) as Hst.
    pose proof (Stored_index_lt _ _ _ (proj1 Hk) Hst) as Hs.
    rewrite <- Hname, name_index_roundtrip by lia.
    rewrite (stringBytes_stored recs s k Hrecs Hcount Hst (proj1 Hk) (proj2 Hk)).
    cbn [rbind]. unfold keyOf. rewrite Ej.
    change (([] :: keys) !! S j) with (keys !! j).
    rewrite Ek. change (default [] (Some k)) with k.
    now destruct (decide (k = q)).
Qed.


(** ** Phase 1 on candidates with pairwise distinct paths *)

Import Repack.

Record phase1_ok (st : Phase1) : Prop := {
  p1_seen : forall k, k ∈ seenPaths st <-> In k (keys st);
  p1_table : table_ok (stb st);
  p1_rec0 : records (stb st) !! 0%nat = Some rec0;
  p1_count : (length (records (stb st)) <= 1 + length (concat (keys st)))%nat;
  p1_len : length (stringIndices st) = length (keys st);
  p1_stored : forall i s k,
    stringIndices st !! i = Some s -> keys st !! i = Some k ->
    Stored (records (stb st)) s k;
  p1_metas : metaIndices st = map Z.of_nat (seq 0 (length (keys st)));
  p1_valid : validPaths st = keys st
}.

Lemma phase1_init_ok : phase1_ok phase1_init.
Proof.
  split.
  - intros k. cbn. split; [set_solver|tauto].
  - apply table_ok_new.
  - reflexivity.
  - cbn. lia.
  - reflexivity.
  - intros i s k H. cbn in H. rewrite lookup_nil in H. discriminate.
  - reflexivity.
  - reflexivity.
Qed.

Lemma phase1_step_ok st c :
  phase1_ok st -> ~ In (arcPath c) (keys st) -> arcPath c <> [] ->
  phase1_ok (phase1_step true st c) /\
  keys (phase1_step true st c) = keys st ++ [arcPath c].
Proof.
  intros [Hseen Htab Hrec0 Hcount Hlen Hstored Hmetas Hvalid] Hfresh Hne.
  unfold phase1_step.
  destruct (decide (arcPath c ∈ seenPaths st)) as [Hin|_];
    [now apply Hseen in Hin|].
  cbn [negb andb].
  destruct (add_spec (stb st) (arcPath c) Htab Hne)
    as (Htab' & Hst & ext & Hext & Hextlen).
  destruct (add (stb st) (arcPath c) (arcPath c)) as [strIdx stb'] eqn:Eadd.
  cbn [fst snd] in Htab', Hst, Hext.
  split; [|reflexivity].
  split; cbn [stb keys stringIndices metaIndices validPaths seenPaths].
  - intros k. rewrite in_app_iff, elem_of_union, elem_of_singleton, Hseen.
    cbn. intuition congruence.
  - exact Htab'.
  - rewrite Hext. now apply lookup_app_l_Some.
  - rewrite Hext, concat_app, !length_app. cbn [concat]. rewrite app_nil_r. lia.
  - rewrite !length_app, Hlen. reflexivity.
  - intros i s k Hs Hk.
    destruct (Nat.lt_ge_cases i (length (keys st))) as [Hi|Hi].
    + rewrite lookup_app_l in Hs by lia. rewrite lookup_app_l in Hk by lia.
      rewrite Hext. apply Stored_app. eapply Hstored; eassumption.
    + pose proof (lookup_lt_Some _ _ _ Hk) as Hi'.
      rewrite length_app in Hi'. cbn in Hi'.
      assert (i = length (keys st)) as -> by lia.
      rewrite list_lookup_middle in Hk by reflexivity.
      rewrite list_lookup_middle in Hs by (symmetry; exact Hlen).
      injection Hk as <-. injection Hs as <-. exact Hst.
  - rewrite length_app, Hvalid, Hmetas. cbn [length].
    rewrite Nat.add_1_r, seq_S, map_app. reflexivity.
  - now rewrite Hvalid.
Qed.

Lemma phase1_fold_ok cands : forall st,
  phase1_ok st ->
  NoDup (keys st ++ map arcPath cands) ->
  Forall (fun k => k <> []) (map arcPath cands) ->
  phase1_ok (fold_left (phase1_step true) cands st) /\
  keys (fold_left (phase1_step true) cands st) = keys st ++ map arcPath cands.
Proof.
  induction cands as [|c cands IH]; intros st Hok Hnd Hne.
  - cbn. now rewrite app_nil_r.
  - cbn [fold_left map] in *.
    apply Forall_cons in Hne as [Hc Hne].
    destruct (phase1_step_ok st c Hok) as [Hok' Hkeys']; [|exact Hc|].
    { apply NoDup_app in Hnd as (_ & Hdisj & _).
      intros Hin. apply (Hdisj (arcPath c)).
      - now apply list_elem_of_In.
      - left. }
    destruct (IH (phase1_step true st c) Hok') as [Hfin Hk].
    + rewrite Hkeys', <- app_assoc. exact Hnd.
    + exact Hne.
    + split; [exact Hfin|]. rewrite Hk, Hkeys', <- app_assoc. reflexivity.
Qed.

Lemma phase1_ok_distinct cands :
  NoDup (map arcPath cands) ->
  Forall (fun k => k <> []) (map arcPath cands) ->
  phase1_ok (phase1 true cands) /\
  keys (phase1 true cands) = map arcPath cands.
Proof.
  intros Hnd Hne. apply (phase1_fold_ok cands phase1_init phase1_init_ok);
    assumption.
Qed.


Lemma length_le_concat (keys : list Buffer) (k : Buffer) :
  In k keys -> (length k <= length (concat keys))%nat.
Proof.
  induction keys as [|k' keys IH]; [intros []|].
  intros [->|Hin]; cbn [concat]; rewrite length_app; [lia|].
  specialize (IH Hin). lia.
Qed.

Lemma count_le_concat (keys : list Buffer) :
  Forall (fun k => k <> []) keys -> (length keys <= length (concat keys))%nat.
Proof.
  induction 1 as [|k keys Hk _ IH]; [cbn; lia|].
  cbn [concat length]. rewrite length_app.
  destruct k; [congruence|cbn; lia].
Qed.

(** Phase 2 on distinct keys: the node table of a well-formed trie with
    the labels in insertion order. *)
Lemma buildFromKeys_distinct (keys : list Buffer) (strs : list Z) :
  NoDup keys ->
  Forall (fun k => k <> [] /\ ~ In x00 k) keys ->
  blen (concat keys) < 2 ^ 27 ->
  length strs = length keys ->
  exists t,
    buildFromKeys Trie.new keys strs (map Z.of_nat (seq 0 (length keys))) = Ok t /\
    trie_ok (nodes t) ([] :: keys) /\
    map nameRaw (nodes t)
      = 0x80000000 :: map (fun s => u32 (js_or s 0x80000000)) strs /\
    map metaIndex (nodes t) = 0 :: map Z.of_nat (seq 0 (length keys)) /\
    Forall (node_fits (2 ^ 32)) (nodes t).
Proof.
  intros Hnd Hkeys Hsize Hlen. unfold buildFromKeys.
  rewrite length_map, length_seq, Hlen, !Nat.eqb_refl. cbn [negb orb].
  destruct (Nat.eqb_spec (length keys) 0) as [E0|E0].
  - destruct keys; [|discriminate]. destruct strs; [|discriminate].
    exists Trie.new. split; [reflexivity|]. split; [exact trie_ok_new|].
    split; [reflexivity|]. split; [reflexivity|].
    repeat constructor; cbn; lia.
  - assert (Hne : Forall (fun k : Buffer => k <> []) keys).
    { eapply Forall_impl; [exact Hkeys|]. now intros k [H _]. }
    pose proof (count_le_concat keys Hne) as Hcnt. unfold blen in Hsize.
    destruct (insertKeys_ok keys strs (map Z.of_nat (seq 0 (length keys)))
                {| nodes := [sentinel]; keyData := [[]] |}) as
      (t & Hins & Hok & Hkd & Hnames & Hmetas & Hfits).
    + exact Hlen.
    + now rewrite length_map, length_seq.
    + exact trie_ok_new.
    + constructor; [split; [intros []|unfold blen; cbn [length]; lia]|constructor].
    + apply List.Forall_forall. intros k Hk.
      pose proof (proj1 (List.Forall_forall _ keys) Hkeys k Hk) as [_ Hnul].
      pose proof (length_le_concat keys k Hk).
      split; [exact Hnul|unfold blen; lia].
    + cbn [keyData app]. apply NoDup_cons. split; [|exact Hnd].
      intros Hin. apply list_elem_of_In in Hin.
      now apply (proj1 (List.Forall_forall _ keys) Hne [] Hin).
    + cbn [nodes length]. repeat constructor; cbn; lia.
    + apply List.Forall_forall. intros m Hm.
      apply in_map_iff in Hm as (i & <- & Hi). apply in_seq in Hi. lia.
    + exists t. split; [exact Hins|].
      cbn [nodes keyData app map] in Hkd, Hnames, Hmetas.
      rewrite Hkd in Hok. split; [exact Hok|].
      split; [exact Hnames|]. split; [exact Hmetas|].
      eapply Forall_impl; [exact Hfits|].
      intros n. apply node_fits_mono.
      destruct Hok as (Hl & _). rewrite <- Hl. cbn [length]. lia.
Qed.

(** Phases 1 and 2 on candidates with distinct, non-empty, NUL-free paths
    produce an index for these paths. *)
Lemma buildIndexChannels_index (cands : list Candidate) :
  NoDup (map arcPath cands) ->
  Forall (fun k => k <> [] /\ ~ In x00 k) (map arcPath cands) ->
  blen (concat (map arcPath cands)) < 2 ^ 27 ->
  exists dtData stringData ns,
    buildIndexChannels true cands = Ok (dtData, stringData) /\
    forall metaData fatData datFile,
      index_of {| dt := dtData; strings := stringData; meta := metaData;
                  fat := fatData; dat := datFile |} ns (map arcPath cands).
Proof.
  intros Hnd Hkeys Hsize.
  assert (Hne : Forall (fun k : Buffer => k <> []) (map arcPath cands)).
  { eapply Forall_impl; [exact Hkeys|]. now intros k [H _]. }
  destruct (phase1_ok_distinct cands Hnd Hne)
    as [[Hseen Htab Hrec0 Hcount Hlen Hstored Hmetas Hvalid] Hk].
  rewrite Hk in *.
  destruct (buildFromKeys_distinct (map arcPath cands)
              (stringIndices (phase1 true cands)) Hnd Hkeys Hsize Hlen)
    as (t & Hbuild & Hok & Hnames & Hms & Hfits).
  exists (concat (map node_bytes (nodes t))),
         (concat (records (stb (phase1 true cands)))), (nodes t).
  split.
  - unfold buildIndexChannels. rewrite Hk, Hmetas, Hbuild. cbn [rbind].
    unfold Trie.build.
    rewrite (build_loop_fits _ _ Hfits). reflexivity.
  - intros metaData fatData datFile. split; cbn [dt strings]; try assumption.
    + reflexivity.
    + exists (stringIndices (phase1 true cands)),
             (records (stb (phase1 true cands))).
      split; [reflexivity|]. split; [exact Hnames|].
      split; [exact (proj1 Htab)|]. split; [|split; [exact Hrec0|]].
      * unfold blen in Hsize. lia.
      * split; [exact Hlen|exact Hstored].
Qed.

(** The two outcomes of a lookup in an index. *)
Lemma findNodeBytes_inserted arc ns keys i k :
  index_of arc ns keys ->
  keys !! i = Some k ->
  findNodeBytes arc k = Ok (Z.of_nat i + 1) /\
  exists n, dtNode arc (Z.of_nat i + 1) = Ok n /\ metaIndex n = Z.of_nat i.
Proof.
  intros Hio Hk.
  pose proof Hio as [Hdt Hok Hfits Hkeys Hms _].
  pose proof Hok as (Hlen & _ & n0 & L & I & Hn0 & Hb0 & Hsub & Hcover & Hcard & _).
  pose proof (lookup_lt_Some _ _ _ Hk) as Hi.
  cbn [length] in Hlen.
  assert (Hj : 0 <= Z.of_nat i + 1 < Z.of_nat (length ns)) by lia.
  assert (Hkne : k <> []).
  { apply (proj1 (List.Forall_forall _ keys) Hkeys k).
    apply list_elem_of_In. eapply list_elem_of_lookup_2; eassumption. }
  assert (Hkey : keyOf ([] :: keys) (Z.of_nat i + 1) = k).
  { unfold keyOf. replace (Z.to_nat (Z.of_nat i + 1)) with (S i) by lia.
    change (([] :: keys) !! S i) with (keys !! i). now rewrite Hk. }
  destruct (descend_own ns ([] :: keys) (-1) (rightRaw n0) L I Hsub
              (Z.of_nat i + 1) (S (length ns)) 0 n0) as (p' & Hwalk).
  - now apply Hcover.
  - unfold node_at. change (0 <? 0) with false.
    change (Z.to_nat 0) with 0%nat. now rewrite Hn0.
  - exact Hb0.
  - lia.
  - lia.
  - rewrite Hkey in Hwalk. split.
    + rewrite (findNodeBytes_index arc ns keys k n0 p' _ Hio Hkne Hn0 Hwalk Hj).
      unfold stored_name.
      destruct (Z.eqb_spec (Z.of_nat i + 1) 0); [lia|].
      rewrite Hkey. now destruct (decide (k = k)).
    + destruct (ns !! S i) as [n|] eqn:En; [|apply lookup_ge_None in En; lia].
      exists n. split.
      * replace (Z.of_nat i + 1) with (Z.of_nat (S i)) by lia.
        eapply dtNode_built; eassumption.
      * assert (H : map metaIndex ns !! S i = Some (metaIndex n))
          by (rewrite list_lookup_fmap, En; reflexivity).
        rewrite Hms in H.
        change (map Z.of_nat (seq 0 (length keys)) !! i = Some (metaIndex n)) in H.
        rewrite list_lookup_fmap, lookup_seq_lt in H by lia.
        now injection H as <-.
Qed.

Lemma findNodeBytes_absent arc ns keys q :
  index_of arc ns keys ->
  ~ In q keys -> q <> [x2e] ->
  findNodeBytes arc q = Ok (-1).
Proof.
  intros Hio Hq Hdot.
  destruct q as [|b q']; [reflexivity|].
  set (q := b :: q') in *.
  pose proof Hio as [Hdt Hok Hfits Hkeys Hms _].
  pose proof Hok as (Hlen & _ & n0 & L & I & Hn0 & Hb0 & Hsub & Hcover & Hcard & _).
  destruct (descend_search ns ([] :: keys) q (-1) (rightRaw n0) L I Hsub
              (S (length ns)) 0 n0) as (p' & leaf & Hwalk & Hleaf).
  - unfold node_at. change (0 <? 0) with false.
    change (Z.to_nat 0) with 0%nat. now rewrite Hn0.
  - exact Hb0.
  - lia.
  - lia.
  - apply (proj1 (sub_valid _ _ _ _ _ _ Hsub)) in Hleaf.
    rewrite (findNodeBytes_index arc ns keys q n0 p' leaf Hio ltac:(discriminate)
               Hn0 Hwalk Hleaf).
    destruct (decide (stored_name keys leaf = q)) as [E|_]; [|reflexivity].
    exfalso. unfold stored_name in E.
    destruct (Z.eqb_spec leaf 0) as [->|Hne]; [now apply Hdot|].
    unfold keyOf in E. cbn [length] in Hlen.
    destruct (Z.to_nat leaf) as [|j] eqn:Ej; [lia|].
    change (([] :: keys) !! S j) with (keys !! j) in E.
    destruct (keys !! j) as [k|] eqn:Ek; [|discriminate].
    change (default [] (Some k)) with k in E. subst k.
    apply Hq. apply list_elem_of_In. eapply list_elem_of_lookup_2; eassumption.
Qed.


Lemma normalizeSlashes_id (k : Buffer) :
  ~ In x2f k -> normalizeSlashes k = k.
Proof.
  unfold normalizeSlashes. induction k as [|b k IH]; [reflexivity|].
  intros Hk. cbn [map]. rewrite IH by (intros H; apply Hk; now right).
  destruct (Byte.eqb b x2f) eqn:E; [|reflexivity].
  apply Byte.byte_dec_bl in E. subst b. exfalso. apply Hk. now left.
Qed.

(** A path without '/' is looked up as it is. *)
Lemma findNode_slash_free arc (k : Buffer) :
  ~ In x2f k -> findNode arc k = findNodeBytes arc k.
Proof. intros Hk. unfold findNode. now rewrite normalizeSlashes_id. Qed.


Definition two_paths : list Candidate :=
  [ {| arcPath := [x61]; isFile := true |};
    {| arcPath := [x62; x5c; x63]; isFile := true |} ].



End IndexFacts.

(** ** Phases 3 and 4 of repack: FAT chains and meta records *)

Module RepackFacts.
Import Reader Repack IndexFacts StringFacts.

(** The index of a result in the original order of the files. *)
Definition originalIndex (scheduledToOriginal : option (list Z))
    (r : CompressedFile) : option Z :=
  match scheduledToOriginal with
  | Some perm => if index r <? 0 then None else perm !! Z.to_nat (index r)
  | None => Some (index r)
  end.

Definition set_at (o : option Z) (arr : list (option Z)) (v : Z) : list (option Z) :=
  match o with
  | Some i => array_set arr i v
  | None => arr
  end.

(** The number of data blocks of a result. *)
Definition blocksOf (r : CompressedFile) : Z :=
  (blen (wrapped r) + DAT_BLOCK_SIZE - 1) / DAT_BLOCK_SIZE.

Definition blocks_total (rs : list CompressedFile) : Z :=
  fold_right (fun r acc => blocksOf r + acc) 0 rs.

(** The FAT entries one file adds when its first block is [cb]. *)
Definition chain (cb bn : Z) : list Z :=
  map (fun j : nat => if Z.of_nat j <? bn - 1 then cb + Z.of_nat j + 1 else 0xffffffff)
      (seq 0 (Z.to_nat bn)).

Lemma blocksOf_nonneg r : 0 <= blocksOf r.
Proof.
  unfold blocksOf, DAT_BLOCK_SIZE. apply Z.div_pos; [|lia].
  pose proof (blen_nonneg (wrapped r)). lia.
Qed.

Lemma fat_loop_spec count : forall bn b cb fe,
  fat_loop count bn b cb fe
  = (cb + Z.of_nat count,
     fe ++ map (fun j : nat => if b + Z.of_nat j <? bn - 1
                               then cb + Z.of_nat j + 1 else 0xffffffff)
               (seq 0 count)).
Proof.
  induction count as [|count IH]; intros bn b cb fe.
  - cbn. rewrite app_nil_r. f_equal. lia.
  - cbn [fat_loop]. rewrite IH. f_equal; [lia|].
    rewrite <- app_assoc. f_equal. cbn [seq map app].
    rewrite Z.add_0_r. f_equal; [now rewrite Z.add_0_r|].
    rewrite <- seq_shift, map_map. apply map_ext. intros j.
    replace (b + 1 + Z.of_nat j) with (b + Z.of_nat (S j)) by lia.
    replace (cb + 1 + Z.of_nat j + 1) with (cb + Z.of_nat (S j) + 1) by lia.
    reflexivity.
Qed.

Lemma enqueueWrite_fields st buf :
  currentBlock (enqueueWrite st buf) = currentBlock st /\
  fatEntries (enqueueWrite st buf) = fatEntries st /\
  startBlocks (enqueueWrite st buf) = startBlocks st /\
  wrappedSizes (enqueueWrite st buf) = wrappedSizes st.
Proof. unfold enqueueWrite. now destruct (_ >=? _). Qed.

Lemma flushWrites_fields st :
  currentBlock (flushWrites st) = currentBlock st /\
  fatEntries (flushWrites st) = fatEntries st /\
  startBlocks (flushWrites st) = startBlocks st /\
  wrappedSizes (flushWrites st) = wrappedSizes st.
Proof. unfold flushWrites. now destruct (_ <? _)%nat. Qed.

(** What one turn of the phase-3 loop does to the accounting. *)
Lemma phase3_step_fields sched st r :
  currentBlock (phase3_step sched st r) = currentBlock st + blocksOf r /\
  fatEntries (phase3_step sched st r)
    = fatEntries st ++ chain (currentBlock st) (blocksOf r) /\
  startBlocks (phase3_step sched st r)
    = set_at (originalIndex sched r) (startBlocks st) (currentBlock st) /\
  wrappedSizes (phase3_step sched st r)
    = set_at (originalIndex sched r) (wrappedSizes st) (blen (wrapped r)).
Proof.
  unfold phase3_step. fold (blocksOf r). fold (originalIndex sched r).
  set (st0 := {| totalRawSize := totalRawSize st + rawSize r |}).
  set (st1 := enqueueWrite st0 (wrapped r)).
  set (st2 := if 0 <? _ then _ else st1).
  assert (H2 : currentBlock st2 = currentBlock st /\
               fatEntries st2 = fatEntries st /\
               startBlocks st2
                 = set_at (originalIndex sched r) (startBlocks st) (currentBlock st) /\
               wrappedSizes st2
                 = set_at (originalIndex sched r) (wrappedSizes st) (blen (wrapped r))).
  { destruct (enqueueWrite_fields st0 (wrapped r)) as (A & B & C & D).
    fold st1 in A, B, C, D.
    assert (H1 : currentBlock st1 = currentBlock st /\
                 fatEntries st1 = fatEntries st /\
                 startBlocks st1
                   = set_at (originalIndex sched r) (startBlocks st) (currentBlock st) /\
                 wrappedSizes st1
                   = set_at (originalIndex sched r) (wrappedSizes st) (blen (wrapped r))).
    { rewrite A, B, C, D. unfold st0, set_at. cbn.
      destruct (originalIndex sched r); auto. }
    subst st2. destruct (0 <? _); [|exact H1].
    destruct (enqueueWrite_fields st1
                (subarray (alloc DAT_BLOCK_SIZE) 0
                   (blocksOf r * DAT_BLOCK_SIZE - blen (wrapped r))))
      as (A' & B' & C' & D').
    rewrite A', B', C', D'. exact H1. }
  destruct H2 as (A & B & C & D).
  rewrite fat_loop_spec. cbn [currentBlock fatEntries startBlocks wrappedSizes].
  pose proof (blocksOf_nonneg r).
  rewrite A, B, C, D, Z2Nat.id by assumption.
  repeat split.
Qed.


(** The FAT entries of a file's blocks: each points to the next, the last
    holds the end mark. *)
Definition chain_at (fe : list Z) (s bn : Z) : Prop :=
  forall b, 0 <= b < bn ->
    fe !! Z.to_nat (s + b) = Some (if b =? bn - 1 then 0xffffffff else s + b + 1).

Lemma chain_lookup cb bn (j : nat) :
  Z.of_nat j < bn ->
  chain cb bn !! j
  = Some (if Z.of_nat j <? bn - 1 then cb + Z.of_nat j + 1 else 0xffffffff).
Proof.
  intros Hj. unfold chain. rewrite list_lookup_fmap, lookup_seq_lt by lia.
  reflexivity.
Qed.

Lemma length_chain cb bn : length (chain cb bn) = Z.to_nat bn.
Proof. unfold chain. now rewrite length_map, length_seq. Qed.

Lemma chain_at_new fe bn :
  chain_at (fe ++ chain (Z.of_nat (length fe)) bn) (Z.of_nat (length fe)) bn.
Proof.
  intros b Hb.
  replace (Z.to_nat (Z.of_nat (length fe) + b)) with (length fe + Z.to_nat b)%nat
    by lia.
  rewrite lookup_app_r by lia.
  replace (length fe + Z.to_nat b - length fe)%nat with (Z.to_nat b) by lia.
  rewrite chain_lookup by lia. rewrite Z2Nat.id by lia.
  destruct (Z.ltb_spec b (bn - 1)), (Z.eqb_spec b (bn - 1)); try lia; reflexivity.
Qed.

Lemma chain_at_app fe ext s bn :
  chain_at fe s bn -> chain_at (fe ++ ext) s bn.
Proof. intros H b Hb. apply lookup_app_l_Some. now apply H. Qed.

Lemma blocks_total_app done r :
  blocks_total (done ++ [r]) = blocks_total done + blocksOf r.
Proof.
  unfold blocks_total. induction done as [|x done IH]; cbn in *; lia.
Qed.

Record phase3_ok (n : nat) (sched : option (list Z))
    (done : list CompressedFile) (st : Phase3) : Prop := {
  p3_block : currentBlock st = Z.of_nat (length (fatEntries st));
  p3_count : Z.of_nat (length (fatEntries st)) = 1 + blocks_total done;
  p3_fat0 : fatEntries st !! 0%nat = Some 0;
  p3_starts : length (startBlocks st) = n;
  p3_sizes : length (wrappedSizes st) = n;
  p3_files : forall r i, In r done -> originalIndex sched r = Some i -> 0 <= i ->
    exists s,
      startBlocks st !! Z.to_nat i = Some (Some s) /\
      wrappedSizes st !! Z.to_nat i = Some (Some (blen (wrapped r))) /\
      1 <= s /\ s + blocksOf r <= Z.of_nat (length (fatEntries st)) /\
      chain_at (fatEntries st) s (blocksOf r)
}.

Lemma array_set_in arr i v :
  0 <= i < Z.of_nat (length arr) ->
  array_set arr i v = <[Z.to_nat i := Some v]> arr.
Proof.
  intros Hi. unfold array_set.
  destruct (Z.ltb_spec i 0); [lia|].
  destruct (Z.ltb_spec i (Z.of_nat (length arr))); [reflexivity|lia].
Qed.

Lemma phase3_step_ok n sched done st r i :
  phase3_ok n sched done st ->
  originalIndex sched r = Some i -> 0 <= i < Z.of_nat n ->
  (forall r', In r' done -> originalIndex sched r' <> Some i) ->
  phase3_ok n sched (done ++ [r]) (phase3_step sched st r).
Proof.
  intros [Hblock Hcount Hfat0 Hstarts Hsizes Hfiles] Hi Hrange Hfresh.
  destruct (phase3_step_fields sched st r) as (A & B & C & D).
  pose proof (blocksOf_nonneg r) as Hbn.
  rewrite Hi in C, D. cbn [set_at] in C, D.
  rewrite array_set_in in C, D by lia.
  split.
  - rewrite A, B, length_app, length_chain, Hblock. lia.
  - rewrite B, length_app, length_chain, blocks_total_app. lia.
  - rewrite B. now apply lookup_app_l_Some.
  - now rewrite C, length_insert.
  - now rewrite D, length_insert.
  - intros r' i' Hin Hi' Hi''. rewrite B, C, D, length_app, length_chain.
    apply in_app_iff in Hin as [Hin|[<-|[]]].
    + destruct (Hfiles r' i' Hin Hi' Hi'') as (s & Hs & Hw & H1 & Hle & Hch).
      assert (Hne : i' <> i) by (intros ->; now apply (Hfresh r' Hin)).
      exists s. rewrite !list_lookup_insert_ne by lia.
      split; [exact Hs|]. split; [exact Hw|]. split; [exact H1|].
      split; [lia|]. now apply chain_at_app.
    + rewrite Hi in Hi'. injection Hi' as <-.
      exists (currentBlock st).
      rewrite !list_lookup_insert_eq by lia.
      split; [reflexivity|]. split; [reflexivity|].
      rewrite Hblock.
      assert (1 <= Z.of_nat (length (fatEntries st)))
        by (apply lookup_lt_Some in Hfat0; lia).
      split; [assumption|]. split; [lia|]. apply chain_at_new.
Qed.

Lemma phase3_fold_ok n sched rest : forall done st,
  phase3_ok n sched done st ->
  (forall r, In r rest ->
     exists i, originalIndex sched r = Some i /\ 0 <= i < Z.of_nat n) ->
  NoDup (map (originalIndex sched) (done ++ rest)) ->
  phase3_ok n sched (done ++ rest) (fold_left (phase3_step sched) rest st).
Proof.
  induction rest as [|r rest IH]; intros done st Hok Hidx Hnd.
  - cbn. now rewrite app_nil_r.
  - cbn [fold_left].
    replace (done ++ r :: rest) with ((done ++ [r]) ++ rest) in *
      by (rewrite <- app_assoc; reflexivity).
    destruct (Hidx r (or_introl eq_refl)) as (i & Hi & Hrange).
    apply IH; [|intros r' Hr'; apply Hidx; now right|exact Hnd].
    eapply phase3_step_ok; [exact Hok|exact Hi|exact Hrange|].
    intros r' Hin E.
    rewrite !map_app in Hnd. apply NoDup_app in Hnd as (Hnd & _ & _).
    apply NoDup_app in Hnd as (_ & Hdisj & _).
    apply (Hdisj (Some i)).
    + apply list_elem_of_In. rewrite <- E. now apply in_map.
    + cbn. rewrite Hi. left.
Qed.

Lemma phase3_ok_results n sched results :
  (forall r, In r results ->
     exists i, originalIndex sched r = Some i /\ 0 <= i < Z.of_nat n) ->
  NoDup (map (originalIndex sched) results) ->
  phase3_ok n sched results (phase3 n sched results).
Proof.
  intros Hidx Hnd. unfold phase3.
  set (init := {| totalRawSize := 0 |}).
  assert (Hinit : phase3_ok n sched [] init).
  { split; try reflexivity.
    - cbn. apply length_replicate.
    - cbn. apply length_replicate.
    - intros r i []. }
  pose proof (phase3_fold_ok n sched results [] init Hinit Hidx Hnd) as Hok.
  cbn [app] in Hok.
  destruct (flushWrites_fields (fold_left (phase3_step sched) results init))
    as (A & B & C & D).
  destruct Hok as [H1 H2 H3 H4 H5 H6].
  split; rewrite ?A, ?B, ?C, ?D; assumption.
Qed.


(** ** Phase 4: the meta and FAT channels *)

Lemma copy_into_at (m pre old post : Buffer) :
  length old = length m ->
  copy_into m (pre ++ old ++ post) (blen pre) = pre ++ m ++ post.
Proof.
  intros Hlen. rewrite copy_into_fits.
  - unfold blen. rewrite Nat2Z.id, take_app_length. f_equal. f_equal.
    rewrite drop_app_add', <- Hlen by reflexivity. apply drop_app_length.
  - apply blen_nonneg.
  - unfold blen. rewrite !length_app. lia.
Qed.

Lemma length_packMetaRecord f s b e : length (packMetaRecord f s b e) = 16%nat.
Proof.
  unfold packMetaRecord. rewrite !length_app, !length_packU32. reflexivity.
Qed.

(** The record phase 4 writes for file [j]. *)
Definition meta_bytes (ws sb : list (option Z)) (j : nat) : Buffer :=
  packMetaRecord 1 (elem ws j) (elem sb j) 0.

Lemma meta_loop_spec ws sb count : forall (k : nat) (done : Buffer),
  length done = (16 * k)%nat ->
  meta_loop count (Z.of_nat k) ws sb (done ++ replicate (16 * count) x00)
  = done ++ concat (map (meta_bytes ws sb) (seq k count)).
Proof.
  induction count as [|count IH]; intros k done Hdone.
  - reflexivity.
  - cbn [meta_loop seq map concat]. rewrite Nat2Z.id.
    fold (meta_bytes ws sb k).
    replace (16 * S count)%nat with (16 + 16 * count)%nat by lia.
    rewrite replicate_add.
    replace (Z.of_nat k * META_SIZE) with (blen done)
      by (unfold blen, META_SIZE; lia).
    rewrite copy_into_at
      by (rewrite length_replicate; symmetry; apply length_packMetaRecord).
    replace (Z.of_nat k + 1) with (Z.of_nat (S k)) by lia.
    rewrite (app_assoc done), IH, <- app_assoc; [reflexivity|].
    rewrite length_app. unfold meta_bytes. rewrite length_packMetaRecord. lia.
Qed.

Lemma buildMetaData_spec n st :
  buildMetaData n st
  = concat (map (meta_bytes (wrappedSizes st) (startBlocks st)) (seq 0 n)).
Proof.
  unfold buildMetaData, alloc, META_SIZE.
  replace (Z.to_nat (Z.of_nat n * 16)) with (16 * n)%nat by lia.
  exact (meta_loop_spec _ _ n 0%nat [] eq_refl).
Qed.

Lemma fatData_loop_spec entries : forall (k : nat) (done : Buffer),
  length done = (4 * k)%nat ->
  fatData_loop entries (Z.of_nat k) (done ++ replicate (4 * length entries) x00)
  = done ++ concat (map (fun e => packU32 (u32 e)) entries).
Proof.
  induction entries as [|e entries IH]; intros k done Hdone.
  - reflexivity.
  - cbn [fatData_loop length map concat].
    replace (4 * S (length entries))%nat with (4 + 4 * length entries)%nat by lia.
    rewrite replicate_add.
    replace (Z.of_nat k * 4) with (blen done) by (unfold blen; lia).
    rewrite copy_into_at by (rewrite length_replicate, length_packU32; reflexivity).
    replace (Z.of_nat k + 1) with (Z.of_nat (S k)) by lia.
    rewrite (app_assoc done), IH, <- app_assoc; [reflexivity|].
    rewrite length_app, length_packU32. lia.
Qed.

Lemma buildFatData_spec st :
  buildFatData st = concat (map (fun e => packU32 (u32 e)) (fatEntries st)).
Proof.
  unfold buildFatData, alloc.
  replace (Z.to_nat (Z.of_nat (length (fatEntries st)) * 4))
    with (4 * length (fatEntries st))%nat by lia.
  exact (fatData_loop_spec _ 0%nat [] eq_refl).
Qed.

(** Reading the FAT channel back. *)
Lemma fatNext_built (entries : list Z) (j : nat) (e : Z) :
  entries !! j = Some e -> 0 <= e < 2 ^ 32 ->
  fatNext (concat (map (fun e => packU32 (u32 e)) entries)) (Z.of_nat j) = Ok e.
Proof.
  intros He Hr.
  pose proof (lookup_lt_Some _ _ _ He) as Hj.
  assert (Hall : Forall (fun c : Buffer => length c = 4%nat)
                   (map (fun e => packU32 (u32 e)) entries)).
  { apply List.Forall_forall. intros c Hc. apply in_map_iff in Hc as (x & <- & _).
    apply length_packU32. }
  destruct (chunk_at 4 _ Hall j (packU32 (u32 e))) as (pre & post & E & Hpre).
  { rewrite list_lookup_fmap, He. reflexivity. }
  unfold fatNext. rewrite E.
  assert (Hb : blen (pre ++ packU32 (u32 e) ++ post) = 4 * Z.of_nat (length entries)).
  { rewrite <- E. unfold blen. rewrite (length_concat_fixed 4 _ Hall), length_map.
    lia. }
  rewrite Hb.
  assert (E1 : (Z.of_nat j * 4 <? 0)
               || (4 * Z.of_nat (length entries) <? Z.of_nat j * 4 + 4) = false).
  { apply orb_false_iff. split; apply Z.ltb_ge; lia. }
  rewrite E1. replace (Z.of_nat j * 4) with (blen pre) by (unfold blen; lia).
  rewrite readU32_packU32, !u32_small by (rewrite ?u32_small; lia). reflexivity.
Qed.

(** Reading a meta record back. *)
Lemma unpack_packMetaRecord (pre post : Buffer) (f s b e off : Z) :
  off = blen pre ->
  0 <= f < 2 ^ 32 -> 0 <= s < 2 ^ 32 -> 0 <= b < 2 ^ 32 -> 0 <= e < 2 ^ 32 ->
  unpackMetaRecord (pre ++ packMetaRecord f s b e ++ post) off
  = Ok {| flags := f; size := s; startBlock := b; extra := e |}.
Proof.
  intros -> Hf Hs Hb He. unfold unpackMetaRecord, packMetaRecord.
  set (wf := packU32 (u32 f)). set (w_s := packU32 (u32 s)).
  set (wb := packU32 (u32 b)). set (we := packU32 (u32 e)).
  assert (R0 : readU32 (pre ++ (wf ++ w_s ++ wb ++ we) ++ post) (blen pre)
               = Ok f).
  { repeat rewrite <- app_assoc. unfold wf.
    rewrite readU32_packU32, !u32_small by (rewrite ?u32_small; lia).
    reflexivity. }
  assert (R1 : readU32 (pre ++ (wf ++ w_s ++ wb ++ we) ++ post) (blen pre + 4)
               = Ok s).
  { replace (blen pre + 4) with (blen (pre ++ wf))
      by (unfold blen, wf; rewrite length_app, length_packU32; lia).
    replace (pre ++ (wf ++ w_s ++ wb ++ we) ++ post)
      with ((pre ++ wf) ++ w_s ++ (wb ++ we ++ post))
      by (repeat rewrite <- app_assoc; reflexivity).
    unfold w_s.
    rewrite readU32_packU32, !u32_small by (rewrite ?u32_small; lia).
    reflexivity. }
  assert (R2 : readU32 (pre ++ (wf ++ w_s ++ wb ++ we) ++ post) (blen pre + 8)
               = Ok b).
  { replace (blen pre + 8) with (blen (pre ++ wf ++ w_s))
      by (unfold blen, wf, w_s; rewrite !length_app, !length_packU32; lia).
    replace (pre ++ (wf ++ w_s ++ wb ++ we) ++ post)
      with ((pre ++ wf ++ w_s) ++ wb ++ (we ++ post))
      by (repeat rewrite <- app_assoc; reflexivity).
    unfold wb.
    rewrite readU32_packU32, !u32_small by (rewrite ?u32_small; lia).
    reflexivity. }
  assert (R3 : readU32 (pre ++ (wf ++ w_s ++ wb ++ we) ++ post) (blen pre + 12)
               = Ok e).
  { replace (blen pre + 12) with (blen (pre ++ wf ++ w_s ++ wb))
      by (unfold blen, wf, w_s, wb; rewrite !length_app, !length_packU32; lia).
    replace (pre ++ (wf ++ w_s ++ wb ++ we) ++ post)
      with ((pre ++ wf ++ w_s ++ wb) ++ we ++ post)
      by (repeat rewrite <- app_assoc; reflexivity).
    unfold we.
    rewrite readU32_packU32, !u32_small by (rewrite ?u32_small; lia).
    reflexivity. }
  rewrite R0, R1, R2, R3. reflexivity.
Qed.

Lemma metaRecord_built arc (ws sb : list (option Z)) (n j : nat) :
  meta arc = concat (map (meta_bytes ws sb) (seq 0 n)) ->
  (j < n)%nat ->
  0 <= elem ws j < 2 ^ 32 -> 0 <= elem sb j < 2 ^ 32 ->
  metaRecord arc (Z.of_nat j)
  = Ok {| flags := 1; size := elem ws j; startBlock := elem sb j; extra := 0 |}.
Proof.
  intros Hmeta Hj Hw Hs.
  assert (Hall : Forall (fun c : Buffer => length c = 16%nat)
                   (map (meta_bytes ws sb) (seq 0 n))).
  { apply List.Forall_forall. intros c Hc. apply in_map_iff in Hc as (x & <- & _).
    apply length_packMetaRecord. }
  destruct (chunk_at 16 _ Hall j (meta_bytes ws sb j)) as (pre & post & E & Hpre).
  { rewrite list_lookup_fmap, lookup_seq_lt by lia. reflexivity. }
  unfold metaRecord, META_SIZE. rewrite Hmeta.
  assert (Hb : blen (concat (map (meta_bytes ws sb) (seq 0 n))) = 16 * Z.of_nat n).
  { unfold blen. rewrite (length_concat_fixed 16 _ Hall), length_map, length_seq.
    lia. }
  rewrite Hb.
  assert (E1 : (Z.of_nat j * 16 <? 0)
               || (16 * Z.of_nat n <? Z.of_nat j * 16 + 16) = false).
  { apply orb_false_iff. split; apply Z.ltb_ge; lia. }
  rewrite E1, E. unfold meta_bytes.
  apply unpack_packMetaRecord; try lia. unfold blen. lia.
Qed.


(** ** Every file is placed once *)

Lemma in_indices (n : nat) (x : Z) :
  In x (map Z.of_nat (seq 0 n)) <-> 0 <= x < Z.of_nat n.
Proof.
  rewrite in_map_iff. split.
  - intros (k & <- & Hk). apply in_seq in Hk. lia.
  - intros Hx. exists (Z.to_nat x). split; [lia|]. apply in_seq. lia.
Qed.

Lemma NoDup_indices (n : nat) : NoDup (map Z.of_nat (seq 0 n)).
Proof.
  apply NoDup_fmap_2_strong; [|apply NoDup_seq].
  intros x y _ _. apply Nat2Z.inj.
Qed.

Lemma originalIndex_facts (n : nat) (sched : option (list Z))
    (results : list CompressedFile) :
  Permutation (map index results) (map Z.of_nat (seq 0 n)) ->
  (forall perm, sched = Some perm -> Permutation perm (map Z.of_nat (seq 0 n))) ->
  (forall r, In r results ->
     exists i, originalIndex sched r = Some i /\ 0 <= i < Z.of_nat n) /\
  NoDup (map (originalIndex sched) results) /\
  (forall i, 0 <= i < Z.of_nat n ->
     exists r, In r results /\ originalIndex sched r = Some i).
Proof.
  intros Hidx Hsched.
  assert (Hin : forall r, In r results -> 0 <= index r < Z.of_nat n).
  { intros r Hr. apply in_indices.
    eapply Permutation_in; [exact Hidx|]. now apply in_map. }
  assert (Hnd : NoDup (map index results)).
  { rewrite Hidx. apply NoDup_indices. }
  assert (Hall : forall k, 0 <= k < Z.of_nat n ->
                   exists r, In r results /\ index r = k).
  { intros k Hk. apply in_indices in Hk.
    apply (Permutation_in _ (Permutation_sym Hidx)) in Hk.
    apply in_map_iff in Hk as (r & E & Hr). now exists r. }
  destruct sched as [perm|]; unfold originalIndex.
  - specialize (Hsched perm eq_refl).
    assert (Hlen : length perm = n).
    { rewrite (Permutation_length Hsched), length_map, length_seq. reflexivity. }
    assert (Hndp : NoDup perm).
    { rewrite Hsched. apply NoDup_indices. }
    split; [|split].
    + intros r Hr. specialize (Hin r Hr).
      destruct (Z.ltb_spec (index r) 0); [lia|].
      destruct (perm !! Z.to_nat (index r)) as [v|] eqn:Ev;
        [|apply lookup_ge_None in Ev; lia].
      exists v. split; [reflexivity|]. apply in_indices.
      eapply Permutation_in; [exact Hsched|].
      apply list_elem_of_In. eapply list_elem_of_lookup_2; exact Ev.
    + rewrite <- (map_map index
                   (fun z => if z <? 0 then None else perm !! Z.to_nat z)).
      apply NoDup_fmap_2_strong; [|exact Hnd].
      intros x y Hx Hy E.
      apply list_elem_of_In, in_map_iff in Hx as (rx & <- & Hrx).
      apply list_elem_of_In, in_map_iff in Hy as (ry & <- & Hry).
      pose proof (Hin rx Hrx). pose proof (Hin ry Hry).
      destruct (Z.ltb_spec (index rx) 0); [lia|].
      destruct (Z.ltb_spec (index ry) 0); [lia|].
      destruct (perm !! Z.to_nat (index rx)) as [v|] eqn:Ev;
        [|apply lookup_ge_None in Ev; lia].
      symmetry in E.
      pose proof (NoDup_lookup _ _ _ _ Hndp Ev E). lia.
    + intros i Hi. apply in_indices in Hi.
      apply (Permutation_in _ (Permutation_sym Hsched)) in Hi.
      apply list_elem_of_In, list_elem_of_lookup_1 in Hi as (k & Hk).
      pose proof (lookup_lt_Some _ _ _ Hk) as Hkn.
      destruct (Hall (Z.of_nat k) ltac:(lia)) as (r & Hr & Er).
      exists r. split; [exact Hr|]. rewrite Er.
      destruct (Z.ltb_spec (Z.of_nat k) 0); [lia|]. now rewrite Nat2Z.id.
  - split; [|split].
    + intros r Hr. exists (index r). split; [reflexivity|]. now apply Hin.
    + rewrite <- (map_map index Some).
      apply NoDup_fmap_2_strong; [|exact Hnd]. now intros x y _ _ [= ->].
    + intros i Hi. destruct (Hall i Hi) as (r & Hr & <-). now exists r.
Qed.

(** C3. After phases 3 and 4 over [n] files, whatever the order in which
    the compressed results arrive: FAT entry 0 is 0, and for each file [i]
    meta record [i] is (1, wrapped size, start block, 0), where the FAT
    chain from the start block runs through ceil(size / 512) consecutive
    blocks, each entry pointing to the next block and the last holding
    0xFFFFFFFF. *)
Theorem repack_fat_and_meta (n : nat) (scheduledToOriginal : option (list Z))
    (results : list CompressedFile) (dtData stringData : Buffer)
    (datFile : option Buffer) :
  Permutation (map index results) (map Z.of_nat (seq 0 n)) ->
  (forall perm, scheduledToOriginal = Some perm ->
     Permutation perm (map Z.of_nat (seq 0 n))) ->
  Forall (fun r => blen (wrapped r) < 2 ^ 32) results ->
  1 + blocks_total results < 2 ^ 32 ->
  let st := phase3 n scheduledToOriginal results in
  let arc := {| dt := dtData; strings := stringData;
                meta := buildMetaData n st; fat := buildFatData st;
                dat := datFile |} in
  fatNext (fat arc) 0 = Ok 0 /\
  forall i, 0 <= i < Z.of_nat n ->
    exists r start,
      In r results /\ originalIndex scheduledToOriginal r = Some i /\
      metaRecord arc i
      = Ok {| flags := 1; size := blen (wrapped r); startBlock := start;
              extra := 0 |} /\
      1 <= start /\
      forall b, 0 <= b < blocksOf r ->
        fatNext (fat arc) (start + b)
        = Ok (if b =? blocksOf r - 1 then 0xffffffff else start + b + 1).
Proof.
  intros Hidx Hsched Hsizes Htotal st arc.
  destruct (originalIndex_facts n scheduledToOriginal results Hidx Hsched)
    as (Hplace & Hnd & Hall).
  pose proof (phase3_ok_results n scheduledToOriginal results Hplace Hnd)
    as [Hblock Hcount Hfat0 Hstarts Hszs Hfiles].
  fold st in Hblock, Hcount, Hfat0, Hstarts, Hszs, Hfiles.
  assert (Hfat : fat arc = concat (map (fun e => packU32 (u32 e)) (fatEntries st)))
    by apply buildFatData_spec.
  rewrite Hfat. split.
  - apply (fatNext_built (fatEntries st) 0 0 Hfat0). lia.
  - intros i Hi. destruct (Hall i Hi) as (r & Hr & Hor).
    destruct (Hfiles r i Hr Hor (proj1 Hi)) as (s & Hs & Hw & H1 & Hle & Hch).
    exists r, s. split; [exact Hr|]. split; [exact Hor|].
    pose proof (blen_nonneg (wrapped r)) as Hw0.
    pose proof (proj1 (List.Forall_forall _ results) Hsizes r Hr) as Hw1.
    cbv beta in Hw1. pose proof (blocksOf_nonneg r) as Hbn.
    assert (Ew : elem (wrappedSizes st) (Z.to_nat i) = blen (wrapped r))
      by (unfold elem; now rewrite Hw).
    assert (Es : elem (startBlocks st) (Z.to_nat i) = s)
      by (unfold elem; now rewrite Hs).
    split; [|split; [exact H1|]].
    + rewrite <- (Z2Nat.id i) at 1 by lia.
      rewrite (metaRecord_built arc (wrappedSizes st) (startBlocks st) n
                 (Z.to_nat i)).
      * now rewrite Ew, Es.
      * apply buildMetaData_spec.
      * lia.
      * rewrite Ew. lia.
      * rewrite Es. lia.
    + intros b Hb. specialize (Hch b Hb).
      rewrite <- (Z2Nat.id (s + b)) at 1 by lia.
      apply fatNext_built; [exact Hch|].
      destruct (Z.eqb_spec b (blocksOf r - 1)); lia.
Qed.

Definition two_results : list CompressedFile :=
  [ {| index := 1; wrapped := replicate 600 x01; rawSize := 900; rawSha1 := [] |};
    {| index := 0; wrapped := replicate 40 x02; rawSize := 8; rawSha1 := [] |} ].

Lemma repack_fat_and_meta_witness :
  let st := phase3 2 (Some [1; 0]) two_results in
  let arc := {| dt := []; strings := [];
                meta := buildMetaData 2 st; fat := buildFatData st;
                dat := None |} in
  fatNext (fat arc) 0 = Ok 0 /\
  forall i, 0 <= i < Z.of_nat 2 ->
    exists r start,
      In r two_results /\ originalIndex (Some [1; 0]) r = Some i /\
      metaRecord arc i
      = Ok {| flags := 1; size := blen (wrapped r); startBlock := start;
              extra := 0 |} /\
      1 <= start /\
      forall b, 0 <= b < blocksOf r ->
        fatNext (fat arc) (start + b)
        = Ok (if b =? blocksOf r - 1 then 0xffffffff else start + b + 1).
Proof.
  apply (repack_fat_and_meta 2 (Some [1; 0]) two_results [] [] None).
  - cbn. apply perm_swap.
  - intros perm [= <-]. cbn. apply perm_swap.
  - repeat constructor; vm_compute; reflexivity.
  - vm_compute. reflexivity.
Defined.

End RepackFacts.

(* ===================================================================== *)
(** * Part III: further properties of the code                            *)
(* ===================================================================== *)

(** ** The index accessors *)

Module AccessFacts.
Import Reader.

Lemma count_bound (len sz i : Z) :
  0 < sz -> (i * sz + sz <= len <-> i < len / sz).
Proof.
  intros Hsz. pose proof (Z.div_mod len sz ltac:(lia)) as Hd.
  pose proof (Z.mod_pos_bound len sz Hsz) as Hm.
  split; intros H; nia.
Qed.

Lemma readU32_inside (buf : Buffer) (off : Z) :
  0 <= off -> off + 4 <= blen buf ->
  exists v, readU32 buf off = Ok v /\ 0 <= v < 2 ^ 32.
Proof.
  intros H0 H4. destruct (readU32_in_range buf off H0 H4) as (v & Hv).
  exists v. split; [exact Hv|]. eapply readU32_range, Hv.
Qed.

(** X1. The three index accessors of the reader succeed exactly on the indices
    below their count, with fields in the range of their width, and throw
    their own out-of-range error on every other index. *)
Theorem accessors_in_range (arc : PriusArchive) (i : Z) :
  match dtNode arc i with
  | Ok n =>
      0 <= i < dtNodeCount arc /\
      0 <= metaIndex n < 2 ^ 32 /\ - 2 ^ 31 <= bitIndex n < 2 ^ 31 /\
      0 <= nameRaw n < 2 ^ 32 /\ 0 <= leftRaw n < 2 ^ 32 /\
      0 <= rightRaw n < 2 ^ 32
  | Throw e => e = DtNodeOutOfRange /\ (i < 0 \/ dtNodeCount arc <= i)
  | OutOfFuel => False
  end /\
  match metaRecord arc i with
  | Ok m =>
      0 <= i < metaCount arc /\
      0 <= flags m < 2 ^ 32 /\ 0 <= size m < 2 ^ 32 /\
      0 <= startBlock m < 2 ^ 32 /\ 0 <= extra m < 2 ^ 32
  | Throw e => e = MetaIndexOutOfRange /\ (i < 0 \/ metaCount arc <= i)
  | OutOfFuel => False
  end /\
  match fatNext (fat arc) i with
  | Ok nxt => 0 <= i < fatEntryCount arc /\ 0 <= nxt < 2 ^ 32
  | Throw e => e = FatBlockOutOfRange /\ (i < 0 \/ fatEntryCount arc <= i)
  | OutOfFuel => False
  end.
Proof.
  split; [|split].
  - unfold dtNode, dtNodeCount, DT_NODE_SIZE.
    pose proof (count_bound (blen (dt arc)) 20 i ltac:(lia)) as Hc.
    destruct (Z.ltb_spec (i * 20) 0) as [Hneg|Hpos]; cbn [orb].
    { split; [reflexivity|]. left. lia. }
    destruct (Z.ltb_spec (blen (dt arc)) (i * 20 + 20)) as [Hout|Hin].
    { split; [reflexivity|]. right. lia. }
    destruct (readU32_inside (dt arc) (i * 20)) as (m & -> & Hm); [lia|lia|].
    destruct (readU32_inside (dt arc) (i * 20 + 4)) as (b & Eb & Hb); [lia|lia|].
    destruct (readU32_inside (dt arc) (i * 20 + 8)) as (n & -> & Hn); [lia|lia|].
    destruct (readU32_inside (dt arc) (i * 20 + 12)) as (l & -> & Hl); [lia|lia|].
    destruct (readU32_inside (dt arc) (i * 20 + 16)) as (r & -> & Hr); [lia|lia|].
    unfold readI32. rewrite Eb. cbn [rbind metaIndex bitIndex nameRaw leftRaw rightRaw].
    destruct (Z.ltb_spec b (2 ^ 31)); lia.
  - unfold metaRecord, metaCount, unpackMetaRecord, META_SIZE.
    pose proof (count_bound (blen (meta arc)) 16 i ltac:(lia)) as Hc.
    destruct (Z.ltb_spec (i * 16) 0) as [Hneg|Hpos]; cbn [orb].
    { split; [reflexivity|]. left. lia. }
    destruct (Z.ltb_spec (blen (meta arc)) (i * 16 + 16)) as [Hout|Hin].
    { split; [reflexivity|]. right. lia. }
    destruct (readU32_inside (meta arc) (i * 16)) as (f & -> & Hf); [lia|lia|].
    destruct (readU32_inside (meta arc) (i * 16 + 4)) as (s & -> & Hs); [lia|lia|].
    destruct (readU32_inside (meta arc) (i * 16 + 8)) as (b & -> & Hb); [lia|lia|].
    destruct (readU32_inside (meta arc) (i * 16 + 12)) as (e & -> & He); [lia|lia|].
    cbn [rbind flags size startBlock extra]. lia.
  - unfold fatNext, fatEntryCount.
    pose proof (count_bound (blen (fat arc)) 4 i ltac:(lia)) as Hc.
    destruct (Z.ltb_spec (i * 4) 0) as [Hneg|Hpos]; cbn [orb].
    { split; [reflexivity|]. left. lia. }
    destruct (Z.ltb_spec (blen (fat arc)) (i * 4 + 4)) as [Hout|Hin].
    { split; [reflexivity|]. right. lia. }
    destruct (readU32_inside (fat arc) (i * 4)) as (v & -> & Hv); [lia|lia|].
    lia.
Qed.

End AccessFacts.

(** ** Meta records as bytes *)

Module MetaFacts.
Import Reader RepackFacts.

Lemma u32_idem (x : Z) : u32 (u32 x) = u32 x.
Proof. unfold u32. apply Z.mod_mod. lia. Qed.

Lemma packMetaRecord_u32 f s b e :
  packMetaRecord (u32 f) (u32 s) (u32 b) (u32 e) = packMetaRecord f s b e.
Proof. unfold packMetaRecord. now rewrite !u32_idem. Qed.

(** X2. A record written by [packMetaRecord] is read back by [unpackMetaRecord]
    with every field reduced to 32 bits, wherever it sits in a buffer. *)
Theorem unpack_pack_meta (pre post : Buffer) (f s b e : Z) :
  unpackMetaRecord (pre ++ packMetaRecord f s b e ++ post) (blen pre)
  = Ok {| flags := u32 f; size := u32 s; startBlock := u32 b; extra := u32 e |}.
Proof.
  rewrite <- packMetaRecord_u32.
  apply unpack_packMetaRecord; try reflexivity; apply u32_range.
Qed.

Lemma Zbyte_of_mod (z : Z) (b : byte) : z mod 256 = byteZ b -> Zbyte z = b.
Proof.
  intros H. rewrite <- (Zbyte_byteZ b), <- H. unfold Zbyte.
  now rewrite Z.mod_mod by lia.
Qed.

(** The four bytes [readUInt32LE] read are the ones [writeUInt32LE] stores
    for the value. *)
Lemma packU32_readU32 (buf : Buffer) (off v : Z) :
  readU32 buf off = Ok v -> packU32 v = subarray buf off (off + 4).
Proof.
  unfold readU32, subarray. destruct (_ || _); [discriminate|].
  replace (Z.to_nat (off + 4 - off)) with 4%nat by lia.
  destruct (drop (Z.to_nat off) buf) as [|b0 [|b1 [|b2 [|b3 rest]]]];
    try discriminate.
  intros [= <-]. cbn [take].
  pose proof (byteZ_range b0) as H0. pose proof (byteZ_range b1) as H1.
  pose proof (byteZ_range b2) as H2. pose proof (byteZ_range b3) as H3.
  set (v := byteZ b0 + 2 ^ 8 * byteZ b1 + 2 ^ 16 * byteZ b2 + 2 ^ 24 * byteZ b3).
  assert (Hv : 0 <= v < 2 ^ 32) by (unfold v; lia).
  unfold packU32. rewrite u32_small by exact Hv.
  assert (D1 : v / 2 ^ 8 = byteZ b1 + 2 ^ 8 * byteZ b2 + 2 ^ 16 * byteZ b3).
  { symmetry. apply (Z.div_unique v (2 ^ 8) _ (byteZ b0)); [lia|unfold v; lia]. }
  assert (D2 : v / 2 ^ 16 = byteZ b2 + 2 ^ 8 * byteZ b3).
  { symmetry.
    apply (Z.div_unique v (2 ^ 16) _ (byteZ b0 + 2 ^ 8 * byteZ b1));
      [lia|unfold v; lia]. }
  assert (D3 : v / 2 ^ 24 = byteZ b3).
  { symmetry.
    apply (Z.div_unique v (2 ^ 24) _
             (byteZ b0 + 2 ^ 8 * byteZ b1 + 2 ^ 16 * byteZ b2));
      [lia|unfold v; lia]. }
  assert (M0 : v mod 256 = byteZ b0).
  { symmetry.
    apply (Z.mod_unique v 256 (byteZ b1 + 2 ^ 8 * byteZ b2 + 2 ^ 16 * byteZ b3));
      [lia|unfold v; lia]. }
  assert (M1 : (v / 2 ^ 8) mod 256 = byteZ b1).
  { rewrite D1. symmetry.
    apply (Z.mod_unique _ 256 (byteZ b2 + 2 ^ 8 * byteZ b3)); lia. }
  assert (M2 : (v / 2 ^ 16) mod 256 = byteZ b2).
  { rewrite D2. symmetry. apply (Z.mod_unique _ 256 (byteZ b3)); lia. }
  assert (M3 : (v / 2 ^ 24) mod 256 = byteZ b3).
  { rewrite D3. apply Z.mod_small. lia. }
  now rewrite (Zbyte_of_mod _ _ M0), (Zbyte_of_mod _ _ M1),
    (Zbyte_of_mod _ _ M2), (Zbyte_of_mod _ _ M3).
Qed.

Lemma subarray_split (buf : Buffer) (a b c : Z) :
  0 <= a <= b -> b <= c ->
  subarray buf a c = subarray buf a b ++ subarray buf b c.
Proof.
  intros Hab Hbc. unfold subarray.
  replace (Z.to_nat (c - a)) with (Z.to_nat (b - a) + Z.to_nat (c - b))%nat by lia.
  rewrite <- take_take_drop. f_equal. rewrite drop_drop. f_equal. f_equal. lia.
Qed.

(** X3. Packing again the record that [unpackMetaRecord] read gives the sixteen
    bytes it was read from. *)
Theorem pack_unpack_meta (buf : Buffer) (off : Z) (m : MetaRecord) :
  0 <= off ->
  unpackMetaRecord buf off = Ok m ->
  packMetaRecord (flags m) (size m) (startBlock m) (extra m)
  = subarray buf off (off + 16).
Proof.
  intros Hoff. unfold unpackMetaRecord.
  destruct (readU32 buf off) as [f| |] eqn:Ef; try discriminate.
  destruct (readU32 buf (off + 4)) as [s| |] eqn:Es; try discriminate.
  destruct (readU32 buf (off + 8)) as [b| |] eqn:Eb; try discriminate.
  destruct (readU32 buf (off + 12)) as [e| |] eqn:Ee; try discriminate.
  cbn [rbind]. intros [= <-]. cbn [flags size startBlock extra].
  unfold packMetaRecord.
  rewrite !u32_small by (eapply readU32_range; eassumption).
  rewrite (packU32_readU32 _ _ _ Ef), (packU32_readU32 _ _ _ Es),
    (packU32_readU32 _ _ _ Eb), (packU32_readU32 _ _ _ Ee).
  rewrite (subarray_split buf off (off + 4) (off + 16)) by lia.
  rewrite (subarray_split buf (off + 4) (off + 8) (off + 16)) by lia.
  rewrite (subarray_split buf (off + 8) (off + 12) (off + 16)) by lia.
  replace (off + 4 + 4) with (off + 8) by lia.
  replace (off + 8 + 4) with (off + 12) by lia.
  replace (off + 12 + 4) with (off + 16) by lia.
  reflexivity.
Qed.

Lemma pack_unpack_meta_witness :
  packMetaRecord 1 600 1 0
  = subarray (packMetaRecord 1 600 1 0 ++ [x07]) 0 (0 + 16).
Proof.
  apply (pack_unpack_meta (packMetaRecord 1 600 1 0 ++ [x07]) 0
           {| flags := 1; size := 600; startBlock := 1; extra := 0 |}).
  - lia.
  - vm_compute. reflexivity.
Defined.

End MetaFacts.

(** ** Reading strings from any table *)

Module StringReadFacts.
Import Reader AccessFacts.

Lemma indexOf0_Some (chunk : Buffer) (n : nat) :
  indexOf0 chunk = Some n -> ~ In x00 (take n chunk).
Proof.
  revert n. induction chunk as [|b chunk IH]; intros n; [discriminate|].
  cbn [indexOf0]. destruct (Byte.eqb b x00) eqn:E.
  - intros [= <-]. cbn. tauto.
  - destruct (indexOf0 chunk) as [k|]; [|discriminate].
    intros [= <-]. cbn [take]. intros [H|H].
    + subst b. rewrite (Byte.byte_dec_lb eq_refl) in E. discriminate.
    + now apply (IH k).
Qed.

Lemma indexOf0_None (chunk : Buffer) :
  indexOf0 chunk = None -> ~ In x00 chunk.
Proof.
  induction chunk as [|b chunk IH]; [intros _ []|].
  cbn [indexOf0]. destruct (Byte.eqb b x00) eqn:E; [discriminate|].
  destruct (indexOf0 chunk); [discriminate|].
  intros _ [H|H].
  - subst b. rewrite (Byte.byte_dec_lb eq_refl) in E. discriminate.
  - now apply IH.
Qed.

Lemma distinct_below (seen : list Z) (n : nat) :
  NoDup seen -> (forall s, In s seen -> 0 <= s < Z.of_nat n) ->
  (length seen <= n)%nat.
Proof.
  intros Hnd Hin.
  assert (H : seen ⊆+ seqZ 0 (Z.of_nat n)).
  { apply NoDup_submseteq; [exact Hnd|].
    intros s Hs. apply elem_of_seqZ. apply list_elem_of_In in Hs.
    specialize (Hin s Hs). lia. }
  apply submseteq_length in H. rewrite length_seqZ in H. lia.
Qed.

Lemma nul_free_concat (chunks : list Buffer) :
  Forall (fun c => ~ In x00 c) chunks -> ~ In x00 (concat chunks).
Proof.
  induction 1 as [|c chunks Hc _ IH]; [intros []|].
  cbn [concat]. rewrite in_app_iff. tauto.
Qed.

Lemma stringBytes_loop_total (strs : Buffer) (fuel : nat) :
  forall (seen : list Z) (chunks : list Buffer) (idx : Z),
    NoDup seen ->
    (forall s, In s seen -> 0 <= s < Z.of_nat (Z.to_nat (blen strs / 0x40))) ->
    (Z.to_nat (blen strs / 0x40) + 2 <= length seen + fuel)%nat ->
    Forall (fun c => ~ In x00 c) chunks ->
    match stringBytes_loop strs fuel seen chunks idx with
    | Ok cs => Forall (fun c => ~ In x00 c) cs
    | Throw e => e = StringIndexLoop \/ e = StringRecordOutOfRange
    | OutOfFuel => False
    end.
Proof.
  induction fuel as [|fuel IH]; intros seen chunks idx Hnd Hin Hfuel Hfree.
  - pose proof (distinct_below seen _ Hnd Hin). lia.
  - cbn [stringBytes_loop].
    destruct (Z.ltb_spec idx 0) as [Hneg|Hpos]; [exact Hfree|].
    destruct (existsb (Z.eqb idx) seen) eqn:Eseen; [now left|].
    pose proof (count_bound (blen strs) 0x40 idx ltac:(lia)) as Hc.
    destruct (Z.ltb_spec (idx * 0x40) 0) as [H0|H0]; cbn [orb]; [now right|].
    destruct (Z.ltb_spec (blen strs) (idx * 0x40 + 0x40)) as [Hout|Hinr];
      [now right|].
    destruct (readU32_inside strs (idx * 0x40)) as (h & -> & _); [lia|lia|].
    cbn [rbind].
    destruct (indexOf0 (subarray strs (idx * 0x40 + 4) (idx * 0x40 + 0x40)))
      as [nul|] eqn:Enul.
    + apply Forall_app. split; [exact Hfree|].
      constructor; [|constructor]. eapply indexOf0_Some, Enul.
    + assert (Hfree' : Forall (fun c : Buffer => ~ In x00 c)
                 (chunks ++ [subarray strs (idx * 0x40 + 4) (idx * 0x40 + 0x40)])).
      { apply Forall_app. split; [exact Hfree|].
        constructor; [|constructor]. eapply indexOf0_None, Enul. }
      destruct (js_and h 2147483647 =? 0); [exact Hfree'|].
      apply IH.
      * apply NoDup_cons. split; [|exact Hnd].
        intros Hs. apply list_elem_of_In in Hs.
        assert (existsb (Z.eqb idx) seen = true); [|congruence].
        apply existsb_exists. exists idx. split; [exact Hs|apply Z.eqb_refl].
      * intros s [<-|Hs]; [|now apply Hin].
        rewrite Z2Nat.id by (apply Z.div_pos; [unfold blen; lia|lia]).
        lia.
      * cbn [length]. lia.
      * exact Hfree'.
Qed.

(** X4. [stringBytes] comes to an end on every buffer and every index, however
    the next pointers are linked: it returns a text without NUL bytes, or
    throws for a loop in the chain or a record outside the table. *)
Theorem stringBytes_total (strs : Buffer) (idx : Z) :
  match stringBytes strs idx with
  | Ok text => ~ In x00 text
  | Throw e => e = StringIndexLoop \/ e = StringRecordOutOfRange
  | OutOfFuel => False
  end.
Proof.
  unfold stringBytes. destruct (idx <? 0); [intros []|].
  pose proof (stringBytes_loop_total strs (S (S (Z.to_nat (blen strs / 0x40))))
                [] [] idx NoDup_nil_2) as H.
  destruct (stringBytes_loop _ _ _ _ _) as [cs|e|].
  - cbn [rbind]. apply nul_free_concat. apply H; [intros s []|cbn; lia|constructor].
  - apply H; [intros s []|cbn; lia|constructor].
  - apply H; [intros s []|cbn; lia|constructor].
Qed.

End StringReadFacts.

(** ** Lookups in any trie *)

Module LookupFacts.
Import Reader AccessFacts StringReadFacts.

Lemma dtNode_cases (arc : PriusArchive) (i : Z) :
  match dtNode arc i with
  | Ok n => True
  | Throw e => e = DtNodeOutOfRange
  | OutOfFuel => False
  end.
Proof.
  unfold dtNode, DT_NODE_SIZE.
  destruct (Z.ltb_spec (i * 20) 0) as [Hneg|Hpos]; cbn [orb]; [reflexivity|].
  destruct (Z.ltb_spec (blen (dt arc)) (i * 20 + 20)) as [Hout|Hin];
    [reflexivity|].
  destruct (readU32_inside (dt arc) (i * 20)) as (m & -> & Hm); [lia|lia|].
  destruct (readU32_inside (dt arc) (i * 20 + 4)) as (b & Eb & Hb); [lia|lia|].
  destruct (readU32_inside (dt arc) (i * 20 + 8)) as (n & -> & Hn); [lia|lia|].
  destruct (readU32_inside (dt arc) (i * 20 + 12)) as (l & -> & Hl); [lia|lia|].
  destruct (readU32_inside (dt arc) (i * 20 + 16)) as (r & -> & Hr); [lia|lia|].
  unfold readI32. rewrite Eb. exact I.
Qed.

Lemma dtNode_valid (arc : PriusArchive) (i : Z) (n : DtNode) :
  dtNode arc i = Ok n -> 0 <= i < dtNodeCount arc.
Proof.
  unfold dtNode, dtNodeCount, DT_NODE_SIZE.
  pose proof (count_bound (blen (dt arc)) 20 i ltac:(lia)) as Hc.
  destruct (Z.ltb_spec (i * 20) 0) as [Hneg|Hpos]; cbn [orb]; [discriminate|].
  destruct (Z.ltb_spec (blen (dt arc)) (i * 20 + 20)) as [Hout|Hin];
    [discriminate|].
  intros _. lia.
Qed.

(** The bit index stored at a node index; 0 where there is no node. *)
Definition bit_at (arc : PriusArchive) (j : Z) : Z :=
  match dtNode arc j with
  | Ok n => bitIndex n
  | _ => 0
  end.

(** The nodes whose bit index lies above [b]. *)
Definition above (arc : PriusArchive) (b : Z) : list Z :=
  List.filter (fun j => b <? bit_at arc j) (seqZ 0 (dtNodeCount arc)).

Lemma filter_shrink (f g : Z -> bool) (l : list Z) (x : Z) :
  (forall y, g y = true -> f y = true) ->
  In x l -> f x = true -> g x = false ->
  (length (List.filter g l) < length (List.filter f l))%nat.
Proof.
  intros Hgf. induction l as [|y l IH]; [intros []|].
  assert (Hle : forall k, (length (List.filter g k) <= length (List.filter f k))%nat).
  { induction k as [|z k IHk]; cbn; [lia|].
    destruct (g z) eqn:Eg.
    - rewrite (Hgf z Eg). cbn. lia.
    - destruct (f z); cbn; lia. }
  intros [->|Hin] Hf Hg; cbn [List.filter].
  - rewrite Hf, Hg. cbn [length]. specialize (Hle l). lia.
  - specialize (IH Hin Hf Hg). destruct (g y) eqn:Eg.
    + rewrite (Hgf y Eg). cbn. lia.
    + destruct (f y); cbn; lia.
Qed.

Lemma above_step (arc : PriusArchive) (parent node : Z) (p cur : DtNode) :
  dtNode arc parent = Ok p -> dtNode arc node = Ok cur ->
  bitIndex p < bitIndex cur ->
  (length (above arc (bitIndex cur)) < length (above arc (bitIndex p)))%nat.
Proof.
  intros Hp Hc Hlt. unfold above. apply (filter_shrink _ _ _ node).
  - intros y Hy. apply Z.ltb_lt in Hy. apply Z.ltb_lt. lia.
  - apply list_elem_of_In, elem_of_seqZ.
    pose proof (dtNode_valid _ _ _ Hc). lia.
  - apply Z.ltb_lt. unfold bit_at. rewrite Hc. exact Hlt.
  - apply Z.ltb_ge. unfold bit_at. rewrite Hc. lia.
Qed.

Lemma findNode_loop_total (arc : PriusArchive) (key : Buffer) (fuel : nat) :
  forall (parent node : Z) (p : DtNode),
    dtNode arc parent = Ok p ->
    (length (above arc (bitIndex p)) < fuel)%nat ->
    match findNode_loop arc key fuel parent node with
    | Ok leaf => exists n, dtNode arc leaf = Ok n
    | Throw e => e = DtNodeOutOfRange
    | OutOfFuel => False
    end.
Proof.
  induction fuel as [|fuel IH]; intros parent node p Hp Hfuel; [lia|].
  cbn [findNode_loop]. rewrite Hp. cbn [rbind].
  pose proof (dtNode_cases arc node) as Hn.
  destruct (dtNode arc node) as [cur|e|] eqn:Ecur; cbn [rbind];
    [|exact Hn|exact Hn].
  destruct (Z.ltb_spec (bitIndex p) (bitIndex cur)) as [Hlt|Hge].
  - apply (IH node _ cur Ecur).
    pose proof (above_step arc parent node p cur Hp Ecur Hlt). lia.
  - now exists cur.
Qed.

(** X5. [findNode] comes to an end on every archive, whatever its trie bytes
    are: the bit indices grow along the walk. A node it returns carries the
    looked-up name, with '/' replaced, as its string; a key that is empty
    or leads to another name gives -1; and it throws only for a node or a
    string record outside the tables or for a loop in a string chain. *)
Theorem findNode_total (arc : PriusArchive) (key : Buffer) :
  match findNode arc key with
  | Ok node =>
      node = -1 \/
      exists n, dtNode arc node = Ok n /\
                stringBytes (strings arc) (js_and (nameRaw n) 0x7fffffff)
                = Ok (normalizeSlashes key)
  | Throw e =>
      e = DtNodeOutOfRange \/ e = StringIndexLoop \/ e = StringRecordOutOfRange
  | OutOfFuel => False
  end.
Proof.
  unfold findNode, findNodeBytes.
  destruct (blen (normalizeSlashes key) =? 0); [now left|].
  pose proof (dtNode_cases arc 0) as H0.
  destruct (dtNode arc 0) as [root|e|] eqn:Eroot; cbn [rbind];
    [|now left|exact H0].
  pose proof (findNode_loop_total arc (normalizeSlashes key)
                (S (Z.to_nat (dtNodeCount arc))) 0 (rightRaw root) root Eroot)
    as Hloop.
  assert (Hfuel : (length (above arc (bitIndex root))
                   < S (Z.to_nat (dtNodeCount arc)))%nat).
  { unfold above. pose proof (List.filter_length_le
      (fun j => bitIndex root <? bit_at arc j) (seqZ 0 (dtNodeCount arc))) as Hle.
    rewrite length_seqZ in Hle. lia. }
  specialize (Hloop Hfuel).
  destruct (findNode_loop _ _ _ _ _) as [node|e|]; cbn [rbind];
    [|now left|exact Hloop].
  destruct Hloop as (leaf & Eleaf). rewrite Eleaf. cbn [rbind].
  pose proof (stringBytes_loop_total (strings arc)
                (S (S (Z.to_nat (blen (strings arc) / 0x40)))) [] []
                (js_and (nameRaw leaf) 0x7fffffff) NoDup_nil_2
                ltac:(intros s []) ltac:(cbn; lia) ltac:(constructor)) as Hstr.
  destruct (stringBytes (strings arc) (js_and (nameRaw leaf) 0x7fffffff))
    as [name|e|] eqn:Ename; cbn [rbind].
  - destruct (decide (name = normalizeSlashes key)) as [->|_]; [|now left].
    right. exists leaf. split; [exact Eleaf|exact Ename].
  - right. unfold stringBytes in Ename.
    destruct (_ <? 0); [discriminate|].
    destruct (stringBytes_loop _ _ _ _ _); try discriminate.
    injection Ename as <-. exact Hstr.
  - unfold stringBytes in Ename.
    destruct (_ <? 0); [discriminate|].
    destruct (stringBytes_loop _ _ _ _ _); try discriminate. exact Hstr.
Qed.

End LookupFacts.

(** ** Reading payloads *)

Module DatReadFacts.
Import Reader StringFacts.

Lemma length_copy_into_any (src dst : Buffer) (pos : Z) :
  0 <= pos <= blen dst -> length (copy_into src dst pos) = length dst.
Proof.
  intros Hp. unfold copy_into, blen in *.
  rewrite !length_app, length_take, length_drop, length_take. lia.
Qed.

Lemma readBlocks_length datFile fat iters :
  forall remaining block outOff out log v,
    0 <= outOff -> 0 <= remaining -> outOff + remaining = blen out ->
    fst (readBlocks datFile fat iters remaining block outOff out log) = Ok v ->
    blen (snd v) = blen out.
Proof.
  induction iters as [|iters IH]; intros remaining block outOff out log v
    Hoff Hrem Hsum.
  - cbn. now intros [= <-].
  - cbn [readBlocks].
    set (tk := if remaining >=? 0x200 then 0x200 else remaining).
    assert (Htk : 0 <= tk <= remaining)
      by (unfold tk; destruct (Z.geb_spec remaining 0x200); lia).
    destruct (negb (blen (pread datFile (block * 0x200) tk) =? tk));
      [discriminate|].
    assert (Hlen : blen (copy_into (pread datFile (block * 0x200) tk) out outOff)
                   = blen out).
    { unfold blen. rewrite length_copy_into_any; [reflexivity|]. lia. }
    destruct (remaining - tk <=? 0).
    { cbn. intros [= <-]. exact Hlen. }
    destruct (fatNext fat block) as [nxt| |]; try discriminate.
    destruct (nxt =? 0xffffffff); [discriminate|].
    intros H. rewrite <- Hlen. eapply IH; [| | |exact H]; lia.
Qed.

(** X6. When [readRawMetaBytes] returns, the buffer has exactly the [size] of
    the meta record. *)
Theorem readRawMetaBytes_length (arc : PriusArchive) (m : MetaRecord)
    (out : Buffer) :
  readRawMetaBytes arc m = Ok out -> blen out = size m.
Proof.
  unfold readRawMetaBytes, readRawMetaBytes_logged.
  destruct (Z.eqb_spec (size m) 0) as [E0|Hne]; [now intros [= <-]|].
  destruct (startBlock m =? 0xffffffff); [discriminate|].
  destruct (dat arc) as [datFile|]; [|discriminate].
  destruct (Z.lt_ge_cases (size m) 0) as [Hneg|Hpos].
  - assert (E : Z.to_nat ((size m + 0x1ff) / 0x200) = 0%nat).
    { assert ((size m + 0x1ff) / 0x200 <= 0); [|lia].
      apply Z.lt_succ_r. apply Z.div_lt_upper_bound; lia. }
    rewrite E. cbn [readBlocks].
    destruct (Z.eqb_spec (size m) 0); [lia|]. discriminate.
  - pose proof (readBlocks_length datFile (fat arc)
                  (Z.to_nat ((size m + 0x1ff) / 0x200)) (size m) (startBlock m)
                  0 (alloc (size m)) []) as H.
    destruct (readBlocks _ _ _ _ _ _ _ _) as [[[remaining out']| |] log];
      try discriminate.
    destruct (negb (remaining =? 0)); [discriminate|].
    cbn [fst]. intros [= <-].
    specialize (H (remaining, out') ltac:(lia) Hpos).
    rewrite blen_alloc in H by lia. cbn [fst snd] in H.
    now apply H.
Qed.

Definition one_file_archive : PriusArchive :=
  {| dt := []; strings := []; meta := [];
     fat := packU32 0 ++ packU32 2 ++ packU32 0xffffffff;
     dat := Some (alloc 512 ++ replicate 1024 x07) |}.

Lemma readRawMetaBytes_length_witness :
  blen (replicate 600 x07)
  = size {| flags := 1; size := 600; startBlock := 1; extra := 0 |}.
Proof.
  apply (readRawMetaBytes_length one_file_archive
           {| flags := 1; size := 600; startBlock := 1; extra := 0 |}).
  vm_compute. reflexivity.
Defined.

End DatReadFacts.

(** ** The string-table builder *)

Module TableFacts.
Import Reader StringTable StringFacts IndexFacts.

(** What one [add] appends. *)
Lemma add_records (stb : StringTableBuilder) (text key : Buffer) :
  exists ext,
    records (snd (add stb text key)) = records stb ++ ext /\
    Forall (fun rc => length rc = 64%nat) ext /\
    (text <> [] -> cache stb !! key = None ->
       fst (add stb text key) = recordCount stb /\
       Z.of_nat (length ext) = slices text /\
       cache (snd (add stb text key)) = <[key := recordCount stb]> (cache stb)) /\
    (text = [] \/ cache stb !! key <> None -> ext = []).
Proof.
  unfold add.
  destruct (Z.eqb_spec (blen text) 0) as [E0|Hne].
  { exists []. cbn [fst snd]. rewrite app_nil_r.
    split; [reflexivity|]. split; [constructor|]. split; [|reflexivity].
    intros Ht. destruct text; [congruence|]. unfold blen in E0. cbn in E0. lia. }
  assert (Htext : text <> []) by (intros ->; now apply Hne).
  destruct (cache stb !! key) as [cached|] eqn:Ec; cbn [fst snd].
  { exists []. rewrite app_nil_r. split; [reflexivity|].
    split; [constructor|]. split; [discriminate|reflexivity]. }
  pose proof (slices_pos text Htext) as Hpos.
  assert (Hnle : slices text - 0 <= Z.of_nat (length text)).
  { unfold slices, blen.
    assert (0 < Z.of_nat (length text))
      by (destruct text; [congruence|cbn; lia]).
    rewrite Z.sub_0_r. apply Z.div_le_upper_bound; lia. }
  pose proof (slice_loop_spec text (length text) 0 ltac:(lia) Hnle) as Hsl.
  rewrite Z.mul_0_r, Z.sub_0_r in Hsl. rewrite Hsl.
  set (n := slices text) in *.
  rewrite length_map, length_seqZ, (Z2Nat.id n) by lia.
  pose proof (emit_loop_spec (Z.of_nat (length (records stb))) n (slice text)
                (Z.to_nat n) 0 (records stb)) as He.
  rewrite Z2Nat.id in He by lia. rewrite He. cbn [records cache].
  eexists. split; [reflexivity|]. split; [|split].
  - apply List.Forall_forall. intros rc Hin.
    apply in_map_iff in Hin as (j & <- & _).
    apply length_make_record, length_slice_le.
  - intros _ _. split; [reflexivity|]. split; [|reflexivity].
    rewrite length_map, length_seqZ. lia.
  - intros [H|H]; congruence.
Qed.

(** X7. The cache of [add] is keyed by the cache key alone: a second [add]
    under a key already used returns the index of the first and appends
    nothing, whatever text comes with it. *)
Theorem add_same_key (stb : StringTableBuilder) (text text' key : Buffer) :
  text <> [] -> text' <> [] ->
  add (snd (add stb text key)) text' key
  = (fst (add stb text key), snd (add stb text key)).
Proof.
  intros Ht Ht'.
  assert (Hc : cache (snd (add stb text key)) !! key = Some (fst (add stb text key))).
  { unfold add.
    destruct (Z.eqb_spec (blen text) 0) as [E0|_].
    { destruct text; [congruence|]. unfold blen in E0. cbn in E0. lia. }
    destruct (cache stb !! key) as [cached|] eqn:Ec; cbn [fst snd]; [exact Ec|].
    cbn [cache]. apply lookup_insert_eq. }
  unfold add at 1.
  destruct (Z.eqb_spec (blen text') 0) as [E0|_].
  { destruct text'; [congruence|]. unfold blen in E0. cbn in E0. lia. }
  now rewrite Hc.
Qed.

Lemma add_same_key_witness :
  add (snd (add new [x61] [x6b])) [x62; x63] [x6b]
  = (fst (add new [x61] [x6b]), snd (add new [x61] [x6b])).
Proof.
  apply (add_same_key new [x61] [x62; x63] [x6b]); discriminate.
Defined.

(** A run of [add] calls, each with its text and its cache key. *)
Definition adds (stb : StringTableBuilder) (ops : list (Buffer * Buffer))
    : StringTableBuilder :=
  fold_left (fun s op => snd (add s (fst op) (snd op))) ops stb.

Lemma adds_records (ops : list (Buffer * Buffer)) : forall stb,
  Forall (fun rc => length rc = 64%nat) (records stb) ->
  exists ext,
    records (adds stb ops) = records stb ++ ext /\
    Forall (fun rc => length rc = 64%nat) (records (adds stb ops)).
Proof.
  induction ops as [|[t k] ops IH]; intros stb Hall.
  - exists []. cbn. now rewrite app_nil_r.
  - cbn [adds fold_left fst snd].
    destruct (add_records stb t k) as (ext & E & Hext & _).
    destruct (IH (snd (add stb t k))) as (ext' & E' & Hall').
    { rewrite E. apply Forall_app. now split. }
    exists (ext ++ ext'). split; [|exact Hall'].
    unfold adds in E'. rewrite E', E, <- app_assoc. reflexivity.
Qed.

(** X8. A first [add] of a non-empty text under a fresh key returns the record
    count as it was, and appends one record per 60 bytes of text. *)
Theorem add_fresh (ops : list (Buffer * Buffer)) (text key : Buffer) :
  text <> [] -> cache (adds new ops) !! key = None ->
  fst (add (adds new ops) text key) = recordCount (adds new ops) /\
  recordCount (snd (add (adds new ops) text key))
  = recordCount (adds new ops) + (blen text + 59) / 60.
Proof.
  intros Ht Hk.
  destruct (add_records (adds new ops) text key) as (e & Er & _ & H & _).
  destruct (H Ht Hk) as (Hi & Hn & _). split; [exact Hi|].
  unfold recordCount. rewrite Er, length_app. unfold slices in Hn. lia.
Qed.

Lemma add_fresh_witness :
  fst (add (adds new [([x61], [x61])]) (replicate 61 x62) [x62])
  = recordCount (adds new [([x61], [x61])]) /\
  recordCount (snd (add (adds new [([x61], [x61])]) (replicate 61 x62) [x62]))
  = recordCount (adds new [([x61], [x61])]) + (blen (replicate 61 x62) + 59) / 60.
Proof.
  apply (add_fresh [([x61], [x61])] (replicate 61 x62) [x62]).
  - discriminate.
  - vm_compute. reflexivity.
Defined.

(** X9. Whatever is added to a new table, the built table has 64 bytes per
    record, and its record 0 reads ".". *)
Theorem build_shape (ops : list (Buffer * Buffer)) :
  blen (build (adds new ops)) = 0x40 * recordCount (adds new ops) /\
  stringBytes (build (adds new ops)) 0 = Ok [x2e].
Proof.
  destruct (adds_records ops new) as (ext & E & Hall).
  { repeat constructor. }
  split.
  - unfold build, recordCount, blen. rewrite length_concat_records by exact Hall.
    lia.
  - unfold build. apply stringBytes_rec0; [exact Hall|].
    rewrite E. reflexivity.
Qed.

End TableFacts.

(** ** Errors of the trie builder *)

Module TrieErrorFacts.
Import Reader Trie BitFacts TrieFacts IndexFacts.

Lemma firstDifferingBit_same (k : Buffer) :
  firstDifferingBit k k = Z.max (blen k) (blen k) * 8.
Proof.
  destruct (firstDifferingBit_spec k k) as (Hr & _ & Hat). cbv zeta in Hr, Hat.
  destruct (Z.lt_ge_cases (firstDifferingBit k k) (Z.max (blen k) (blen k) * 8))
    as [Hlt|Hge]; [|lia].
  now destruct (Hat Hlt).
Qed.

(** Inserting a key the builder already holds throws at the comparison
    with the closest key, once the trie has a key besides the sentinel. *)
Lemma insertKey_duplicate (t : PatriciaTrieBuilder) (key : Buffer) (s m : Z) :
  trie_ok (nodes t) (keyData t) ->
  In key (keyData t) ->
  length (nodes t) <> 1%nat ->
  insertKey t key s m = Throw DuplicateKey.
Proof.
  intros Hok Hin Hmany. destruct t as [ns kd]. cbn [nodes keyData] in *.
  pose proof Hok as (Hkdlen & Hk0 & n0 & L & I & Hn0 & Hb0 & Hsub & Hcover
                     & Hcard & H0I).
  apply list_elem_of_In, list_elem_of_lookup_1 in Hin as (j & Hj).
  pose proof (lookup_lt_Some _ _ _ Hj) as Hjlt.
  assert (Hkey : keyOf kd (Z.of_nat j) = key).
  { unfold keyOf. now rewrite Nat2Z.id, Hj. }
  unfold insertKey. cbn [nodes keyData].
  set (blank := {| metaIndex := m; bitIndex := -1;
                   nameRaw := u32 (js_or s 0x80000000);
                   leftRaw := 0; rightRaw := 0 |}).
  destruct (Z.eqb_spec (Z.of_nat (length ns)) 1) as [Hone|_]; [lia|].
  assert (Hroot : node_at ns 0 = Ok n0).
  { apply node_at_lookup. split; [lia|exact Hn0]. }
  rewrite (node_at_app _ [blank] _ _ Hroot). cbn [rbind].
  destruct (descend_own ns kd (-1) (rightRaw n0) L I Hsub (Z.of_nat j)
              (S (length (ns ++ [blank]))) 0 n0) as (p' & Hwalk).
  - apply Hcover. lia.
  - exact Hroot.
  - exact Hb0.
  - lia.
  - rewrite length_app. cbn [length]. lia.
  - rewrite Hkey in Hwalk.
    rewrite (descend_app _ [blank] _ _ _ _ _ _ Hwalk). cbn [rbind].
    destruct (Z.ltb_spec (Z.of_nat j) 0); [lia|].
    rewrite Nat2Z.id, (lookup_app_l_Some _ _ _ _ Hj). cbn [rbind].
    rewrite firstDifferingBit_same.
    now rewrite Z.geb_leb, Z.leb_refl.
Qed.

Lemma insertKeys_app (l1 l2 : list Buffer) : forall t (s1 s2 m1 m2 : list Z),
  length s1 = length l1 -> length m1 = length l1 ->
  insertKeys t (l1 ++ l2) (s1 ++ s2) (m1 ++ m2)
  = do t' <- insertKeys t l1 s1 m1; insertKeys t' l2 s2 m2.
Proof.
  induction l1 as [|k l1 IH]; intros t [|s s1] s2 [|m m1] m2 Hs Hm;
    try discriminate.
  - cbn [app insertKeys rbind]. reflexivity.
  - cbn [app insertKeys]. destruct (insertKey t k s m) as [t'| |]; cbn [rbind];
      [|reflexivity|reflexivity].
    apply IH; cbn in Hs, Hm; lia.
Qed.

(** X10. [buildFromKeys] throws "Duplicate key" when it comes to a key that
    occurred before in the list. *)
Theorem buildFromKeys_duplicate (keys : list Buffer) (k : Buffer)
    (rest : list Buffer) (strs metas : list Z) :
  NoDup keys ->
  Forall (fun k => k <> [] /\ ~ In x00 k) keys ->
  blen (concat keys) < 2 ^ 27 ->
  In k keys ->
  length strs = length (keys ++ k :: rest) ->
  length metas = length (keys ++ k :: rest) ->
  Forall (fun m => 0 <= m < 2 ^ 32) metas ->
  buildFromKeys Trie.new (keys ++ k :: rest) strs metas = Throw DuplicateKey.
Proof.
  intros Hnd Hkeys Hsize Hin Hs Hm Hmr. unfold buildFromKeys.
  rewrite Hs, Hm, !Nat.eqb_refl. cbn [negb orb].
  rewrite length_app in *. cbn [length] in *.
  destruct (Nat.eqb_spec (length keys + S (length rest)) 0) as [E0|_]; [lia|].
  set (n := length keys) in *.
  rewrite <- (take_drop n strs), <- (take_drop n metas).
  rewrite insertKeys_app by (rewrite length_take; lia).
  assert (Hne : Forall (fun k : Buffer => k <> []) keys).
  { eapply Forall_impl; [exact Hkeys|]. now intros x [H _]. }
  destruct (insertKeys_ok keys (take n strs) (take n metas)
              {| nodes := [sentinel]; keyData := [[]] |})
    as (t & Hins & Hok & Hkd & _).
  - rewrite length_take. lia.
  - rewrite length_take. lia.
  - exact trie_ok_new.
  - constructor; [split; [intros []|unfold blen; cbn [length]; lia]|constructor].
  - apply List.Forall_forall. intros x Hx.
    pose proof (proj1 (List.Forall_forall _ keys) Hkeys x Hx) as [_ Hnul].
    pose proof (length_le_concat keys x Hx). unfold blen in Hsize.
    split; [exact Hnul|unfold blen; lia].
  - cbn [keyData app]. apply NoDup_cons. split; [|exact Hnd].
    intros H0. apply list_elem_of_In in H0.
    now apply (proj1 (List.Forall_forall _ keys) Hne [] H0).
  - cbn [nodes length]. repeat constructor; cbn; lia.
  - apply Forall_take. exact Hmr.
  - change (nodes Trie.new) with [sentinel]. rewrite Hins. cbn [rbind].
    destruct (drop n strs) as [|s strs'] eqn:Es.
    { apply (f_equal length) in Es. rewrite length_drop in Es. cbn in Es. lia. }
    destruct (drop n metas) as [|m metas'] eqn:Em.
    { apply (f_equal length) in Em. rewrite length_drop in Em. cbn in Em. lia. }
    cbn [insertKeys].
    rewrite (insertKey_duplicate t k s m); [reflexivity|exact Hok| |].
    + rewrite Hkd. cbn [keyData app]. now right.
    + destruct Hok as (Hl & _). rewrite <- Hl, Hkd. cbn [keyData app length].
      destruct keys; [destruct Hin|cbn; lia].
Qed.

Lemma buildFromKeys_duplicate_witness :
  buildFromKeys Trie.new ([[x61]; [x62]] ++ [x61] :: [[x63]]) [1; 2; 3; 4]
    [0; 1; 2; 3]
  = Throw DuplicateKey.
Proof.
  apply (buildFromKeys_duplicate [[x61]; [x62]] [x61] [[x63]]).
  - repeat constructor; cbn; intros H;
      repeat (apply elem_of_cons in H as [H|H]; [discriminate|]);
      now apply elem_of_nil in H.
  - repeat constructor; try discriminate; cbn; intuition discriminate.
  - vm_compute. reflexivity.
  - cbn. tauto.
  - reflexivity.
  - reflexivity.
  - repeat constructor; lia.
Defined.

End TrieErrorFacts.

(** ** Serialized tries and phase 1 *)

Module BuildFacts.
Import Reader Trie Repack TrieFacts IndexFacts.

(** X11. The serialized trie is read back node by node: when every field of
    every node fits its word, [build] returns 20 bytes per node and
    [dtNode] on them gives each node of the builder. *)
Theorem build_then_dtNode (t : PatriciaTrieBuilder) :
  Forall (node_fits (2 ^ 32)) (nodes t) ->
  exists dtData,
    Trie.build t = Ok dtData /\
    blen dtData = DT_NODE_SIZE * nodeCount t /\
    forall arc i n,
      dt arc = dtData -> nodes t !! i = Some n ->
      dtNode arc (Z.of_nat i) = Ok n.
Proof.
  intros Hfits. exists (concat (map node_bytes (nodes t))).
  split; [|split].
  - unfold Trie.build. eapply build_loop_fits, Hfits.
  - rewrite blen_node_table. reflexivity.
  - intros arc i n Hdt Hn. eapply dtNode_built; eassumption.
Qed.

Lemma build_then_dtNode_witness :
  exists dtData,
    Trie.build Trie.new = Ok dtData /\
    blen dtData = DT_NODE_SIZE * nodeCount Trie.new /\
    forall arc i n,
      dt arc = dtData -> nodes Trie.new !! i = Some n ->
      dtNode arc (Z.of_nat i) = Ok n.
Proof.
  apply (build_then_dtNode Trie.new).
  repeat constructor; cbn; lia.
Defined.

(** What the loop of phase 1 keeps true. *)
Record phase1_inv (done : list Candidate) (st : Phase1) : Prop := {
  pi_seen : forall k, k ∈ seenPaths st <-> In k (keys st);
  pi_nodup : NoDup (keys st);
  pi_count : Z.of_nat (length (keys st)) + deduped st + skipped st
             = Z.of_nat (length done);
  pi_strs : length (stringIndices st) = length (keys st);
  pi_metas : metaIndices st = map Z.of_nat (seq 0 (length (keys st)));
  pi_valid : validPaths st = keys st;
  pi_from : forall k, In k (keys st) -> In k (map arcPath done);
  pi_dedup : 0 <= deduped st;
  pi_skip : 0 <= skipped st
}.

Lemma phase1_step_inv b done st c :
  phase1_inv done st -> phase1_inv (done ++ [c]) (phase1_step b st c).
Proof.
  intros [Hseen Hnd Hcount Hstrs Hmetas Hvalid Hfrom Hd Hs].
  assert (Hlen : Z.of_nat (length (done ++ [c])) = Z.of_nat (length done) + 1)
    by (rewrite length_app; cbn; lia).
  assert (Hfrom' : forall k, In k (keys st) -> In k (map arcPath (done ++ [c]))).
  { intros k Hk. rewrite map_app, in_app_iff. left. now apply Hfrom. }
  unfold phase1_step.
  destruct (decide (arcPath c ∈ seenPaths st)) as [Hin|Hout].
  { split; cbn [keys deduped skipped stringIndices metaIndices validPaths seenPaths];
      try assumption; lia. }
  destruct (negb b && negb (isFile c)).
  { split; cbn [keys deduped skipped stringIndices metaIndices validPaths seenPaths];
      try assumption; lia. }
  destruct (StringTable.add (stb st) (arcPath c) (arcPath c)) as [strIdx stb'].
  split; cbn [keys deduped skipped stringIndices metaIndices validPaths seenPaths].
  - intros k. rewrite in_app_iff, elem_of_union, elem_of_singleton, Hseen.
    cbn. intuition congruence.
  - apply NoDup_app. split; [exact Hnd|]. split; [|apply NoDup_singleton].
    intros x Hx Hx'. apply list_elem_of_singleton in Hx'. subst x.
    apply Hout, Hseen. now apply list_elem_of_In.
  - rewrite length_app. cbn [length]. lia.
  - rewrite !length_app, Hstrs. reflexivity.
  - rewrite length_app, Hvalid, Hmetas. cbn [length].
    rewrite Nat.add_1_r, seq_S, map_app. reflexivity.
  - now rewrite Hvalid.
  - intros k Hk. rewrite map_app, in_app_iff. apply in_app_iff in Hk as [Hk|[<-|[]]].
    + left. now apply Hfrom.
    + right. now left.
  - exact Hd.
  - exact Hs.
Qed.

Lemma phase1_fold_inv b rest : forall done st,
  phase1_inv done st ->
  phase1_inv (done ++ rest) (fold_left (phase1_step b) rest st).
Proof.
  induction rest as [|c rest IH]; intros done st Hinv.
  - cbn. now rewrite app_nil_r.
  - cbn [fold_left].
    replace (done ++ c :: rest) with ((done ++ [c]) ++ rest)
      by (rewrite <- app_assoc; reflexivity).
    apply IH. now apply phase1_step_inv.
Qed.

(** X12. Phase 1 of repack on any list of candidates: the paths kept are
    pairwise distinct and come from the candidates, every candidate is
    kept, counted as a duplicate or counted as skipped, and the kept paths
    get the meta indices 0, 1, 2, ... in order, one string index each. *)
Theorem phase1_accounting (sourceIsWalkedFiles : bool)
    (candidates : list Candidate) :
  let p1 := phase1 sourceIsWalkedFiles candidates in
  NoDup (keys p1) /\
  Z.of_nat (length (keys p1)) + deduped p1 + skipped p1
    = Z.of_nat (length candidates) /\
  0 <= deduped p1 /\ 0 <= skipped p1 /\
  (forall k, In k (keys p1) -> In k (map arcPath candidates)) /\
  validPaths p1 = keys p1 /\
  metaIndices p1 = map Z.of_nat (seq 0 (length (keys p1))) /\
  length (stringIndices p1) = length (keys p1).
Proof.
  intros p1.
  assert (Hinit : phase1_inv [] phase1_init).
  { split.
    - intros k. cbn. split; [set_solver|tauto].
    - constructor.
    - reflexivity.
    - reflexivity.
    - reflexivity.
    - reflexivity.
    - cbn. tauto.
    - cbn. lia.
    - cbn. lia. }
  pose proof (phase1_fold_inv sourceIsWalkedFiles candidates [] phase1_init Hinit)
    as [Hseen Hnd Hcount Hstrs Hmetas Hvalid Hfrom Hd Hs].
  cbn [app] in *. subst p1. unfold phase1.
  repeat split; assumption.
Qed.

End BuildFacts.

(** ** The data file of repack, read back *)

Module DatFacts.
Import Reader Repack StringFacts RepackFacts MetaFacts DatReadFacts.

(** The blocks one result occupies in the data file: its wrapped bytes and
    the zero padding up to the next block border. *)
Definition blockBytes (r : CompressedFile) : Buffer :=
  wrapped r
  ++ replicate (Z.to_nat (blocksOf r * DAT_BLOCK_SIZE - blen (wrapped r))) x00.

(** The data file after the results [done]: block 0, then their blocks. *)
Definition image (done : list CompressedFile) : Buffer :=
  alloc DAT_BLOCK_SIZE ++ concat (map blockBytes done).

Lemma blocksOf_covers (r : CompressedFile) :
  blen (wrapped r) <= blocksOf r * DAT_BLOCK_SIZE < blen (wrapped r) + DAT_BLOCK_SIZE.
Proof.
  unfold blocksOf, DAT_BLOCK_SIZE.
  pose proof (Z.div_mod (blen (wrapped r) + 512 - 1) 512 ltac:(lia)).
  pose proof (Z.mod_pos_bound (blen (wrapped r) + 512 - 1) 512 ltac:(lia)). lia.
Qed.

Lemma blen_blockBytes (r : CompressedFile) :
  blen (blockBytes r) = DAT_BLOCK_SIZE * blocksOf r.
Proof.
  pose proof (blocksOf_covers r). unfold blockBytes, blen in *.
  rewrite length_app, length_replicate. lia.
Qed.

Lemma blen_image (done : list CompressedFile) :
  blen (image done) = DAT_BLOCK_SIZE * (1 + blocks_total done).
Proof.
  unfold image. rewrite CodecFacts.blen_app.
  induction done as [|r done IH].
  - cbn. reflexivity.
  - cbn [map concat blocks_total fold_right]. rewrite CodecFacts.blen_app, blen_blockBytes.
    fold (blocks_total done).
    change (blen (alloc DAT_BLOCK_SIZE)) with 512 in *. unfold DAT_BLOCK_SIZE in *.
    lia.
Qed.

Lemma image_app (done : list CompressedFile) (r : CompressedFile) :
  image (done ++ [r]) = image done ++ blockBytes r.
Proof.
  unfold image. rewrite map_app, concat_app. cbn [map concat].
  now rewrite app_nil_r, app_assoc.
Qed.

Lemma enqueueWrite_dat (st : Phase3) (buf : Buffer) :
  datOut (enqueueWrite st buf) ++ concat (pendingWrites (enqueueWrite st buf))
  = (datOut st ++ concat (pendingWrites st)) ++ buf.
Proof.
  unfold enqueueWrite. destruct (_ >=? _); cbn [datOut pendingWrites].
  - cbn [concat]. rewrite app_nil_r, concat_app. cbn [concat].
    now rewrite app_nil_r, app_assoc.
  - rewrite concat_app. cbn [concat]. now rewrite app_nil_r, app_assoc.
Qed.

Lemma flushWrites_dat (st : Phase3) :
  datOut (flushWrites st) = datOut st ++ concat (pendingWrites st) /\
  pendingWrites (flushWrites st) = [].
Proof.
  unfold flushWrites. destruct (pendingWrites st) as [|b l] eqn:E; cbn.
  - rewrite E. cbn. now rewrite app_nil_r.
  - split; reflexivity.
Qed.

Lemma phase3_step_dat sched st r :
  datOut (phase3_step sched st r) ++ concat (pendingWrites (phase3_step sched st r))
  = (datOut st ++ concat (pendingWrites st)) ++ blockBytes r.
Proof.
  unfold phase3_step. fold (blocksOf r).
  set (st0 := {| totalRawSize := totalRawSize st + rawSize r |}).
  set (st1 := enqueueWrite st0 (wrapped r)).
  set (pad := blocksOf r * DAT_BLOCK_SIZE - blen (wrapped r)).
  set (st2 := if 0 <? pad then _ else st1).
  assert (H1 : datOut st1 ++ concat (pendingWrites st1)
               = (datOut st ++ concat (pendingWrites st)) ++ wrapped r).
  { unfold st1. rewrite enqueueWrite_dat. reflexivity. }
  assert (H2 : datOut st2 ++ concat (pendingWrites st2)
               = (datOut st ++ concat (pendingWrites st)) ++ blockBytes r).
  { pose proof (blocksOf_covers r) as Hc. unfold blockBytes. fold pad.
    subst st2. destruct (Z.ltb_spec 0 pad) as [Hpos|Hzero].
    - rewrite enqueueWrite_dat, H1, <- app_assoc. f_equal. f_equal.
      unfold subarray, alloc, DAT_BLOCK_SIZE in *.
      rewrite drop_0, take_replicate. f_equal. lia.
    - replace (Z.to_nat pad) with 0%nat by lia. cbn [replicate].
      now rewrite app_nil_r. }
  destruct (fat_loop _ _ _ _ _) as [cb fe]. cbn [datOut pendingWrites].
  exact H2.
Qed.

Record phase3_dat (n : nat) (sched : option (list Z))
    (done : list CompressedFile) (st : Phase3) : Prop := {
  d_img : datOut st ++ concat (pendingWrites st) = image done;
  d_block : currentBlock st = 1 + blocks_total done;
  d_starts : length (startBlocks st) = n;
  d_files : forall r i, In r done -> originalIndex sched r = Some i -> 0 <= i ->
    exists s pre post,
      startBlocks st !! Z.to_nat i = Some (Some s) /\
      image done = pre ++ blockBytes r ++ post /\
      blen pre = DAT_BLOCK_SIZE * s
}.

Lemma phase3_step_dat_ok n sched done st r i :
  phase3_dat n sched done st ->
  originalIndex sched r = Some i -> 0 <= i < Z.of_nat n ->
  (forall r', In r' done -> originalIndex sched r' <> Some i) ->
  phase3_dat n sched (done ++ [r]) (phase3_step sched st r).
Proof.
  intros [Himg Hblock Hstarts Hfiles] Hi Hrange Hfresh.
  destruct (phase3_step_fields sched st r) as (A & _ & C & _).
  rewrite Hi in C. cbn [set_at] in C. rewrite array_set_in in C by lia.
  split.
  - rewrite phase3_step_dat, Himg, image_app. reflexivity.
  - rewrite A, blocks_total_app. lia.
  - now rewrite C, length_insert.
  - intros r' i' Hin Hi' Hi''. rewrite C, image_app.
    apply in_app_iff in Hin as [Hin|[<-|[]]].
    + destruct (Hfiles r' i' Hin Hi' Hi'') as (s & pre & post & Hs & Him & Hpre).
      assert (Hne : i' <> i) by (intros ->; now apply (Hfresh r' Hin)).
      exists s, pre, (post ++ blockBytes r).
      rewrite list_lookup_insert_ne by lia.
      split; [exact Hs|]. split; [|exact Hpre].
      rewrite Him, <- !app_assoc. reflexivity.
    + rewrite Hi in Hi'. injection Hi' as <-.
      exists (currentBlock st), (image done), [].
      rewrite list_lookup_insert_eq by lia.
      split; [reflexivity|]. split; [now rewrite app_nil_r|].
      rewrite blen_image, Hblock. reflexivity.
Qed.

Lemma phase3_fold_dat n sched rest : forall done st,
  phase3_dat n sched done st ->
  (forall r, In r rest ->
     exists i, originalIndex sched r = Some i /\ 0 <= i < Z.of_nat n) ->
  NoDup (map (originalIndex sched) (done ++ rest)) ->
  phase3_dat n sched (done ++ rest) (fold_left (phase3_step sched) rest st).
Proof.
  induction rest as [|r rest IH]; intros done st Hok Hidx Hnd.
  - cbn. now rewrite app_nil_r.
  - cbn [fold_left].
    replace (done ++ r :: rest) with ((done ++ [r]) ++ rest) in *
      by (rewrite <- app_assoc; reflexivity).
    destruct (Hidx r (or_introl eq_refl)) as (i & Hi & Hrange).
    apply IH; [|intros r' Hr'; apply Hidx; now right|exact Hnd].
    eapply phase3_step_dat_ok; [exact Hok|exact Hi|exact Hrange|].
    intros r' Hin E.
    rewrite !map_app in Hnd. apply NoDup_app in Hnd as (Hnd & _ & _).
    apply NoDup_app in Hnd as (_ & Hdisj & _).
    apply (Hdisj (Some i)).
    + apply list_elem_of_In. rewrite <- E. now apply in_map.
    + cbn. rewrite Hi. left.
Qed.

(** The data file phase 3 leaves. *)
Lemma phase3_dat_results n sched results :
  (forall r, In r results ->
     exists i, originalIndex sched r = Some i /\ 0 <= i < Z.of_nat n) ->
  NoDup (map (originalIndex sched) results) ->
  datOut (phase3 n sched results) = image results /\
  forall r i, In r results -> originalIndex sched r = Some i -> 0 <= i ->
    exists s pre post,
      startBlocks (phase3 n sched results) !! Z.to_nat i = Some (Some s) /\
      image results = pre ++ blockBytes r ++ post /\
      blen pre = DAT_BLOCK_SIZE * s.
Proof.
  intros Hidx Hnd. unfold phase3.
  set (init := {| totalRawSize := 0 |}).
  assert (Hinit : phase3_dat n sched [] init).
  { split.
    - reflexivity.
    - reflexivity.
    - cbn. apply length_replicate.
    - intros r i []. }
  pose proof (phase3_fold_dat n sched results [] init Hinit Hidx Hnd) as Hok.
  cbn [app] in Hok. destruct Hok as [Himg _ _ Hfiles].
  destruct (flushWrites_dat (fold_left (phase3_step sched) results init))
    as (Ed & _).
  destruct (flushWrites_fields (fold_left (phase3_step sched) results init))
    as (_ & _ & C & _).
  rewrite Ed, C, Himg. split; [reflexivity|exact Hfiles].
Qed.


(** ** Reading a run of consecutive blocks *)

Lemma pread_inside (file : Buffer) (pos len : Z) :
  0 <= pos -> 0 <= len -> pos + len <= blen file ->
  pread file pos len = subarray file pos (pos + len) /\
  blen (pread file pos len) = len.
Proof.
  intros Hp Hl Hin. unfold pread, subarray, blen in *.
  replace (Z.to_nat (pos + len - pos)) with (Z.to_nat len) by lia.
  split; [reflexivity|]. rewrite length_take, length_drop. lia.
Qed.

Lemma readBlocks_run (datFile fat : Buffer) (iters : nat) :
  forall (remaining block : Z) (done : Buffer) (log : list Z),
    0 < remaining ->
    Z.of_nat iters = (remaining + 0x1ff) / 0x200 ->
    0 <= block ->
    (forall b, 0 <= b < Z.of_nat iters - 1 ->
       fatNext fat (block + b) = Ok (block + b + 1) /\
       block + b + 1 <> 0xffffffff) ->
    block * 0x200 + remaining <= blen datFile ->
    fst (readBlocks datFile fat iters remaining block (blen done)
           (done ++ alloc remaining) log)
    = Ok (0, done ++ subarray datFile (block * 0x200) (block * 0x200 + remaining)).
Proof.
  induction iters as [|iters IH]; intros remaining block done log Hpos Hit Hb
    Hchain Hdat.
  - exfalso. assert (0 < (remaining + 0x1ff) / 0x200); [|lia].
    apply Z.div_str_pos. lia.
  - cbn [readBlocks].
    set (tk := if remaining >=? 0x200 then 0x200 else remaining).
    assert (Htk : 0 < tk <= remaining /\ (remaining <= 0x200 -> tk = remaining)
                  /\ (0x200 < remaining -> tk = 0x200)).
    { unfold tk. destruct (Z.geb_spec remaining 0x200); lia. }
    clearbody tk.
    destruct (pread_inside datFile (block * 0x200) tk) as (Eread & Elen);
      [lia|lia|lia|].
    rewrite Elen, Z.eqb_refl. cbn [negb].
    assert (Ecopy : copy_into (pread datFile (block * 0x200) tk)
                      (done ++ alloc remaining) (blen done)
                    = done ++ pread datFile (block * 0x200) tk
                      ++ alloc (remaining - tk)).
    { replace (alloc remaining) with (alloc tk ++ alloc (remaining - tk)).
      - apply copy_into_at. unfold alloc.
        rewrite length_replicate. apply Nat2Z.inj. fold (blen (pread datFile (block * 0x200) tk)).
        rewrite Elen. lia.
      - unfold alloc. rewrite <- replicate_add. f_equal. lia. }
    rewrite Ecopy.
    destruct (Z.leb_spec (remaining - tk) 0) as [Hle|Hgt].
    + cbn [fst]. assert (tk = remaining) as Etk by lia.
      replace (remaining - tk) with 0 by lia.
      rewrite Eread, Etk. unfold alloc. cbn [Z.to_nat replicate].
      now rewrite app_nil_r.
    + assert (Hbig : 0x200 < remaining) by lia.
      assert (Etk : tk = 0x200) by lia.
      pose proof (ReadFacts.ceil_blocks_many remaining Hbig) as Hmany.
      destruct (Hchain 0 ltac:(lia)) as (Hnext & Hend).
      rewrite Z.add_0_r in Hnext, Hend. rewrite Hnext.
      destruct (Z.eqb_spec (block + 1) 0xffffffff) as [E|_]; [lia|].
      rewrite Etk in *.
      replace (blen done + 0x200)
        with (blen (done ++ pread datFile (block * 0x200) 0x200))
        by (rewrite CodecFacts.blen_app, Elen; reflexivity).
      rewrite (app_assoc done).
      rewrite IH.
      * rewrite <- app_assoc, Eread. f_equal. f_equal.
        rewrite (subarray_split datFile (block * 0x200) (block * 0x200 + 0x200)
                   (block * 0x200 + remaining)) by lia.
        replace ((block + 1) * 0x200) with (block * 0x200 + 0x200) by lia.
        replace (block * 0x200 + 0x200 + (remaining - 0x200))
          with (block * 0x200 + remaining) by lia.
        reflexivity.
      * lia.
      * rewrite ReadFacts.ceil_blocks_step by lia. lia.
      * lia.
      * intros b Hbr. specialize (Hchain (b + 1) ltac:(lia)).
        replace (block + (b + 1)) with (block + 1 + b) in Hchain by lia.
        exact Hchain.
      * lia.
Qed.


Lemma subarray_at (pre w rest : Buffer) :
  subarray (pre ++ w ++ rest) (blen pre) (blen pre + blen w) = w.
Proof.
  unfold subarray, blen.
  replace (Z.to_nat (Z.of_nat (length pre) + Z.of_nat (length w) - Z.of_nat (length pre)))
    with (length w) by lia.
  rewrite Nat2Z.id, drop_app_length. apply take_app_length.
Qed.

Lemma blen_fat_built (entries : list Z) :
  blen (concat (map (fun e => packU32 (u32 e)) entries))
  = 4 * Z.of_nat (length entries).
Proof.
  unfold blen. rewrite (IndexFacts.length_concat_fixed 4).
  - rewrite length_map. lia.
  - apply List.Forall_forall. intros c Hc. apply in_map_iff in Hc as (x & <- & _).
    apply length_packU32.
Qed.

(** X13. After phases 3 and 4 of repack the data file has one 512-byte block
    per FAT entry, and the reader gets every file back: meta record [i]
    leads, through the FAT chain, to exactly the wrapped bytes of the file
    with original index [i]. *)
Theorem repack_read_back (n : nat) (scheduledToOriginal : option (list Z))
    (results : list CompressedFile) (dtData stringData : Buffer) :
  Permutation (map index results) (map Z.of_nat (seq 0 n)) ->
  (forall perm, scheduledToOriginal = Some perm ->
     Permutation perm (map Z.of_nat (seq 0 n))) ->
  Forall (fun r => blen (wrapped r) < 2 ^ 32) results ->
  1 + blocks_total results < 2 ^ 32 ->
  let st := phase3 n scheduledToOriginal results in
  let arc := {| dt := dtData; strings := stringData;
                meta := buildMetaData n st; fat := buildFatData st;
                dat := Some (datOut st) |} in
  blen (datOut st) = DAT_BLOCK_SIZE * fatEntryCount arc /\
  forall i, 0 <= i < Z.of_nat n ->
    exists r m,
      In r results /\ originalIndex scheduledToOriginal r = Some i /\
      metaRecord arc i = Ok m /\
      readRawMetaBytes arc m = Ok (wrapped r).
Proof.
  intros Hidx Hsched Hsizes Htotal st arc.
  destruct (originalIndex_facts n scheduledToOriginal results Hidx Hsched)
    as (Hplace & Hnd & Hall).
  pose proof (phase3_ok_results n scheduledToOriginal results Hplace Hnd)
    as [Hblock Hcount Hfat0 Hstarts Hszs Hfiles].
  destruct (phase3_dat_results n scheduledToOriginal results Hplace Hnd)
    as (Himg & Hpos).
  fold st in Hblock, Hcount, Hfat0, Hstarts, Hszs, Hfiles, Himg, Hpos.
  assert (Hfat : fat arc = concat (map (fun e => packU32 (u32 e)) (fatEntries st)))
    by apply buildFatData_spec.
  split.
  - unfold fatEntryCount. rewrite Hfat, blen_fat_built, Himg, blen_image.
    rewrite (Z.mul_comm 4), Z.div_mul by lia. rewrite Hcount. reflexivity.
  - intros i Hi. destruct (Hall i Hi) as (r & Hr & Hor).
    destruct (Hfiles r i Hr Hor (proj1 Hi)) as (s & Hs & Hw & H1 & Hle & Hch).
    destruct (Hpos r i Hr Hor (proj1 Hi)) as (s' & pre & post & Hs' & Him & Hpre).
    rewrite Hs in Hs'. injection Hs' as <-.
    pose proof (blen_nonneg (wrapped r)) as Hw0.
    pose proof (proj1 (List.Forall_forall _ results) Hsizes r Hr) as Hw1.
    cbv beta in Hw1. pose proof (blocksOf_nonneg r) as Hbn.
    pose proof (blocksOf_covers r) as Hcov.
    assert (Ew : elem (wrappedSizes st) (Z.to_nat i) = blen (wrapped r))
      by (unfold elem; now rewrite Hw).
    assert (Es : elem (startBlocks st) (Z.to_nat i) = s)
      by (unfold elem; now rewrite Hs).
    exists r, {| flags := 1; size := blen (wrapped r); startBlock := s; extra := 0 |}.
    split; [exact Hr|]. split; [exact Hor|]. split.
    + rewrite <- (Z2Nat.id i) at 1 by lia.
      rewrite (metaRecord_built arc (wrappedSizes st) (startBlocks st) n
                 (Z.to_nat i)).
      * now rewrite Ew, Es.
      * apply buildMetaData_spec.
      * lia.
      * rewrite Ew. lia.
      * rewrite Es. lia.
    + unfold readRawMetaBytes, readRawMetaBytes_logged. cbn [size startBlock].
      destruct (Z.eqb_spec (blen (wrapped r)) 0) as [E0|Hne].
      { cbn [fst]. destruct (wrapped r); [reflexivity|].
        unfold blen in E0. cbn in E0. lia. }
      assert (Hbn1 : 1 <= blocksOf r) by (unfold DAT_BLOCK_SIZE in Hcov; lia).
      destruct (Z.eqb_spec s 0xffffffff) as [E|_]; [lia|].
      cbn [dat arc]. rewrite Hfat.
      pose proof (readBlocks_run (datOut st)
                    (concat (map (fun e => packU32 (u32 e)) (fatEntries st)))
                    (Z.to_nat ((blen (wrapped r) + 0x1ff) / 0x200))
                    (blen (wrapped r)) s [] []) as Hrun.
      change (blen []) with 0 in Hrun. cbn [app] in Hrun.
      assert (Eb : (blen (wrapped r) + 0x1ff) / 0x200 = blocksOf r)
        by (unfold blocksOf, DAT_BLOCK_SIZE; f_equal; lia).
      rewrite Eb in *.
      destruct (readBlocks _ _ _ _ _ _ _ _) as [res log].
      cbn [fst] in Hrun. rewrite Hrun.
      * change (negb (0 =? 0)) with false. cbv iota. cbn [fst].
        rewrite Himg, Him.
        replace (s * 0x200) with (blen pre) by (rewrite Hpre; unfold DAT_BLOCK_SIZE; lia).
        unfold blockBytes. rewrite <- app_assoc.
        now rewrite subarray_at.
      * lia.
      * lia.
      * lia.
      * intros b Hb. rewrite Z2Nat.id in Hb by lia.
        specialize (Hch b ltac:(lia)).
        destruct (Z.eqb_spec b (blocksOf r - 1)) as [Eq|_]; [lia|].
        split; [|lia].
        rewrite <- (Z2Nat.id (s + b)) at 1 by lia.
        apply fatNext_built; [exact Hch|lia].
      * rewrite Himg, Him, !CodecFacts.blen_app, Hpre. unfold blockBytes.
        rewrite CodecFacts.blen_app. unfold DAT_BLOCK_SIZE, blen. lia.
Qed.

Definition two_files : list CompressedFile :=
  [ {| index := 1; wrapped := replicate 600 x01; rawSize := 900; rawSha1 := [] |};
    {| index := 0; wrapped := replicate 40 x02; rawSize := 8; rawSha1 := [] |} ].

Lemma repack_read_back_witness :
  let st := phase3 2 (Some [1; 0]) two_files in
  let arc := {| dt := []; strings := [];
                meta := buildMetaData 2 st; fat := buildFatData st;
                dat := Some (datOut st) |} in
  blen (datOut st) = DAT_BLOCK_SIZE * fatEntryCount arc /\
  forall i, 0 <= i < Z.of_nat 2 ->
    exists r m,
      In r two_files /\ originalIndex (Some [1; 0]) r = Some i /\
      metaRecord arc i = Ok m /\
      readRawMetaBytes arc m = Ok (wrapped r).
Proof.
  apply (repack_read_back 2 (Some [1; 0]) two_files [] []).
  - cbn. apply perm_swap.
  - intros perm [= <-]. cbn. apply perm_swap.
  - repeat constructor; vm_compute; reflexivity.
  - vm_compute. reflexivity.
Defined.

End DatFacts.

(** ** The index file as pages: the stripe geometry *)

Module PageFacts.
Import IndexFacts StringFacts.

(** ** Stripes: where the pages of a channel lie *)

Definition sum_pps (pps : list Z) : Z := fold_right Z.add 0 pps.

(** The data page, counted from the page after the header, that holds page
    [pg] of channel [c]. *)
Definition page_of (pps : list Z) (c : nat) (pg : Z) : Z :=
  (pg / nth c pps 0) * sum_pps pps + sum_pps (take c pps) + pg mod nth c pps 0.

Lemma sum_pps_nonneg (pps : list Z) :
  Forall (fun v => 0 <= v) pps -> 0 <= sum_pps pps.
Proof. unfold sum_pps. induction 1; cbn; lia. Qed.

Lemma sum_pps_app (l k : list Z) : sum_pps (l ++ k) = sum_pps l + sum_pps k.
Proof. unfold sum_pps. induction l as [|x l IH]; cbn; lia. Qed.

Lemma prefix_le (pps : list Z) (c : nat) (v : Z) :
  Forall (fun v => 0 <= v) pps -> pps !! c = Some v ->
  0 <= sum_pps (take c pps) /\ sum_pps (take c pps) + v <= sum_pps pps.
Proof.
  intros Hall Hc.
  rewrite <- (take_drop_middle pps c v Hc) at 3.
  rewrite sum_pps_app. cbn [sum_pps fold_right]. fold (sum_pps (drop (S c) pps)).
  pose proof (sum_pps_nonneg (take c pps) (Forall_take _ _ _ Hall)).
  pose proof (sum_pps_nonneg (drop (S c) pps) (Forall_drop _ _ _ Hall)). lia.
Qed.

Lemma prefix_mono (pps : list Z) (c c' : nat) (v v' : Z) :
  Forall (fun v => 0 <= v) pps ->
  pps !! c = Some v -> pps !! c' = Some v' -> (c < c')%nat ->
  sum_pps (take c pps) + v <= sum_pps (take c' pps).
Proof.
  intros Hall Hc Hc' Hlt.
  assert (Hc2 : take c' pps !! c = Some v) by (rewrite lookup_take_lt; assumption).
  destruct (prefix_le (take c' pps) c v (Forall_take _ _ _ Hall) Hc2) as [_ H].
  rewrite take_take in H. replace (c `min` c')%nat with c in H by lia. exact H.
Qed.

Lemma page_of_range (pps : list Z) (c : nat) (v pg stripes : Z) :
  Forall (fun v => 0 <= v) pps -> pps !! c = Some v -> 0 < v ->
  0 <= pg < stripes * v ->
  0 <= page_of pps c pg < stripes * sum_pps pps.
Proof.
  intros Hall Hc Hv Hpg. unfold page_of. rewrite (nth_lookup_Some _ _ _ _ Hc).
  destruct (prefix_le pps c v Hall Hc) as [H0 Hle].
  pose proof (Z.mod_pos_bound pg v Hv) as Hm.
  pose proof (Z.div_mod pg v ltac:(lia)) as Hd.
  assert (Hq : 0 <= pg / v < stripes).
  { split; [apply Z.div_pos; lia|]. apply Z.div_lt_upper_bound; lia. }
  nia.
Qed.

Lemma page_of_inj (pps : list Z) (c c' : nat) (v v' pg pg' : Z) :
  Forall (fun v => 0 <= v) pps ->
  pps !! c = Some v -> pps !! c' = Some v' -> 0 < v -> 0 < v' ->
  0 <= pg -> 0 <= pg' ->
  page_of pps c pg = page_of pps c' pg' -> c = c' /\ pg = pg'.
Proof.
  intros Hall Hc Hc' Hv Hv' Hpg Hpg'. unfold page_of.
  rewrite (nth_lookup_Some _ _ _ _ Hc), (nth_lookup_Some _ _ _ _ Hc').
  destruct (prefix_le pps c v Hall Hc) as [H0 Hle].
  destruct (prefix_le pps c' v' Hall Hc') as [H0' Hle'].
  pose proof (Z.mod_pos_bound pg v Hv) as Hm.
  pose proof (Z.mod_pos_bound pg' v' Hv') as Hm'.
  set (S := sum_pps pps) in *.
  set (a := sum_pps (take c pps) + pg mod v).
  set (a' := sum_pps (take c' pps) + pg' mod v').
  intros E.
  assert (Ha : 0 <= a < S) by (unfold a; lia).
  assert (Ha' : 0 <= a' < S) by (unfold a'; lia).
  assert (E' : pg / v * S + a = pg' / v' * S + a') by (unfold a, a'; lia).
  assert (Hq : pg / v = pg' / v' /\ a = a').
  { assert (pg / v = pg' / v'); [|lia].
    destruct (Z.lt_trichotomy (pg / v) (pg' / v')) as [Hlt|[Heq|Hgt]];
      [|exact Heq|]; nia. }
  destruct Hq as [Eq Ea].
  assert (Ecc : c = c').
  { destruct (Nat.lt_trichotomy c c') as [Hlt|[Heq|Hgt]]; [|exact Heq|].
    - pose proof (prefix_mono pps c c' v v' Hall Hc Hc' Hlt). unfold a, a' in Ea. lia.
    - pose proof (prefix_mono pps c' c v' v Hall Hc' Hc Hgt). unfold a, a' in Ea. lia. }
  subst c'. rewrite Hc in Hc'. injection Hc' as <-.
  split; [reflexivity|].
  pose proof (Z.div_mod pg v ltac:(lia)). pose proof (Z.div_mod pg' v ltac:(lia)).
  unfold a, a' in Ea. assert (pg mod v = pg' mod v) by lia. nia.
Qed.

(** ** A file as a list of pages *)

Lemma concat_take_length {A} (sz : nat) (pages : list (list A)) (q : nat) :
  Forall (fun p => length p = sz) pages -> (q <= length pages)%nat ->
  length (concat (take q pages)) = (sz * q)%nat.
Proof.
  intros Hall Hq. rewrite (length_concat_fixed sz).
  - rewrite length_take. f_equal. lia.
  - now apply Forall_take.
Qed.

Lemma concat_split {A} (pages : list (list A)) (q : nat) (p : list A) :
  pages !! q = Some p ->
  concat pages = concat (take q pages) ++ p ++ concat (drop (S q) pages).
Proof.
  intros Hq. rewrite <- (take_drop_middle pages q p Hq) at 1.
  rewrite concat_app. reflexivity.
Qed.

Lemma concat_insert {A} (pages : list (list A)) (q : nat) (p c : list A) :
  pages !! q = Some p ->
  concat (<[q := c]> pages) = concat (take q pages) ++ c ++ concat (drop (S q) pages).
Proof.
  intros Hq. pose proof (lookup_lt_Some _ _ _ Hq).
  rewrite insert_take_drop by assumption. rewrite concat_app. reflexivity.
Qed.

Lemma pwrite_at (pre old post data : Buffer) :
  length old = length data ->
  pwrite (pre ++ old ++ post) data (blen pre) = pre ++ data ++ post.
Proof.
  intros Hlen. unfold pwrite, blen.
  destruct (Nat.eqb_spec (length data) 0) as [E0|Hne].
  - destruct data; [|discriminate]. destruct old; [|discriminate]. reflexivity.
  - rewrite Nat2Z.id, take_app_length.
    replace (length pre - length (pre ++ old ++ post))%nat with 0%nat
      by (rewrite length_app; lia).
    cbn [replicate app]. f_equal. f_equal.
    rewrite drop_app_add', <- Hlen by reflexivity. apply drop_app_length.
Qed.

(** Writing a whole page replaces that page. *)
Lemma pwrite_page (sz : nat) (pages : list Buffer) (q : nat) (chunk : Buffer) :
  Forall (fun p => length p = sz) pages ->
  (q < length pages)%nat -> length chunk = sz ->
  pwrite (concat pages) chunk (Z.of_nat sz * Z.of_nat q)
  = concat (<[q := chunk]> pages).
Proof.
  intros Hall Hq Hc.
  destruct (lookup_lt_is_Some_2 pages q Hq) as (old & Hold).
  rewrite (concat_insert pages q old chunk Hold), (concat_split pages q old Hold).
  assert (Hlo : length old = sz).
  { eapply (proj1 (Forall_lookup _ _) Hall); eassumption. }
  replace (Z.of_nat sz * Z.of_nat q) with (blen (concat (take q pages))).
  - apply pwrite_at. lia.
  - unfold blen. rewrite (concat_take_length sz) by (assumption || lia). lia.
Qed.

(** Reading a whole page. *)
Lemma subarray_page (sz : nat) (pages : list Buffer) (q : nat) (p : Buffer) :
  Forall (fun p => length p = sz) pages -> pages !! q = Some p ->
  subarray (concat pages) (Z.of_nat sz * Z.of_nat q)
           (Z.of_nat sz * Z.of_nat q + Z.of_nat sz)
  = p.
Proof.
  intros Hall Hq. pose proof (lookup_lt_Some _ _ _ Hq) as Hlt.
  assert (Hlp : length p = sz).
  { eapply (proj1 (Forall_lookup _ _) Hall); eassumption. }
  rewrite (concat_split pages q p Hq).
  replace (Z.of_nat sz * Z.of_nat q) with (blen (concat (take q pages)))
    by (unfold blen; rewrite (concat_take_length sz) by (assumption || lia); lia).
  replace (Z.of_nat sz) with (blen p) by (unfold blen; lia).
  apply DatFacts.subarray_at.
Qed.

(** A run of page writes, and what a page holds after it. *)
Definition apply_writes (pages : list Buffer) (ws : list (nat * Buffer))
    : list Buffer :=
  fold_left (fun ps w => <[fst w := snd w]> ps) ws pages.

Lemma apply_writes_app pages ws1 ws2 :
  apply_writes pages (ws1 ++ ws2) = apply_writes (apply_writes pages ws1) ws2.
Proof. apply fold_left_app. Qed.

Lemma apply_writes_length pages ws :
  length (apply_writes pages ws) = length pages.
Proof.
  revert pages. induction ws as [|w ws IH]; intros pages; [reflexivity|].
  cbn [apply_writes fold_left]. fold (apply_writes (<[fst w := snd w]> pages) ws).
  now rewrite IH, length_insert.
Qed.

Lemma apply_writes_sizes (sz : nat) pages ws :
  Forall (fun p => length p = sz) pages ->
  Forall (fun w => length (snd w) = sz) ws ->
  Forall (fun p => length p = sz) (apply_writes pages ws).
Proof.
  revert pages. induction ws as [|w ws IH]; intros pages Hp Hw; [exact Hp|].
  apply Forall_cons in Hw as [Hw Hws].
  cbn [apply_writes fold_left]. apply IH; [|exact Hws].
  apply Forall_insert; assumption.
Qed.

Lemma apply_writes_other pages ws q :
  ~ In q (map fst ws) -> apply_writes pages ws !! q = pages !! q.
Proof.
  revert pages. induction ws as [|w ws IH]; intros pages Hq; [reflexivity|].
  cbn [apply_writes fold_left]. fold (apply_writes (<[fst w := snd w]> pages) ws).
  rewrite IH by (intros H; apply Hq; now right).
  apply list_lookup_insert_ne. intros E. apply Hq. now left.
Qed.

Lemma apply_writes_at pages ws q c :
  NoDup (map fst ws) -> In (q, c) ws -> (q < length pages)%nat ->
  apply_writes pages ws !! q = Some c.
Proof.
  revert pages. induction ws as [|w ws IH]; intros pages Hnd Hin Hq; [destruct Hin|].
  cbn [map] in Hnd. apply NoDup_cons in Hnd as [Hfresh Hnd].
  cbn [apply_writes fold_left]. fold (apply_writes (<[fst w := snd w]> pages) ws).
  destruct Hin as [->|Hin].
  - cbn [fst snd]. rewrite apply_writes_other.
    + now apply list_lookup_insert_eq.
    + intros H. apply Hfresh. now apply list_elem_of_In.
  - apply IH; [exact Hnd|exact Hin|]. now rewrite length_insert.
Qed.

End PageFacts.

(** ** The page writes of [writeIdx] *)

Module WriterFacts.
Import IndexFacts StringFacts PageFacts IdxWriter DatReadFacts.

(** The page the writer makes of page [pg] of a channel's data. *)
Definition pageChunk (pageSize : Z) (data : Buffer) (pg : Z) : Buffer :=
  copy_into (subarray data (pg * pageSize) (pg * pageSize + pageSize))
            (alloc pageSize) 0.

(** The same page, by list operations: a slice and its zero padding. *)
Definition chunk_nat (sz : nat) (data : Buffer) (j : nat) : Buffer :=
  take sz (drop (j * sz) data) ++ replicate (sz - length (drop (j * sz) data)) x00.

Lemma pageChunk_nat (sz : nat) (data : Buffer) (j : nat) :
  pageChunk (Z.of_nat sz) data (Z.of_nat j) = chunk_nat sz data j.
Proof.
  unfold pageChunk, chunk_nat, subarray, copy_into, alloc, blen.
  replace (Z.to_nat (Z.of_nat j * Z.of_nat sz + Z.of_nat sz - Z.of_nat j * Z.of_nat sz))
    with sz by lia.
  replace (Z.to_nat (Z.of_nat j * Z.of_nat sz)) with (j * sz)%nat by lia.
  rewrite length_replicate, Nat2Z.id.
  change (Z.to_nat 0) with 0%nat. cbn [take app Nat.add].
  rewrite ?Z.sub_0_r, ?Nat2Z.id.
  rewrite (take_ge (take sz (drop (j * sz) data))) by (rewrite length_take; lia).
  rewrite take_0. cbn [app].
  f_equal. rewrite drop_replicate, length_take, length_drop. f_equal. lia.
Qed.

Lemma length_chunk_nat (sz : nat) (data : Buffer) (j : nat) :
  length (chunk_nat sz data j) = sz.
Proof.
  unfold chunk_nat. rewrite length_app, length_take, length_replicate. lia.
Qed.

Lemma chunk_nat_S (sz : nat) (data : Buffer) (j : nat) :
  chunk_nat sz data (S j) = chunk_nat sz (drop sz data) j.
Proof.
  unfold chunk_nat. rewrite drop_drop.
  replace (sz + j * sz)%nat with (S j * sz)%nat by lia. reflexivity.
Qed.

(** The pages of a channel, glued and cut at the length of the data, are
    the data. *)
Lemma chunks_take (sz : nat) (count : nat) : forall (data : Buffer),
  (length data <= count * sz)%nat ->
  take (length data) (concat (map (chunk_nat sz data) (seq 0 count))) = data.
Proof.
  induction count as [|count IH]; intros data Hlen.
  - destruct data; [reflexivity|cbn in Hlen; lia].
  - cbn [seq map concat]. rewrite <- seq_shift, map_map.
    rewrite (map_ext _ (chunk_nat sz (drop sz data)))
      by (intros j; apply chunk_nat_S).
    unfold chunk_nat at 1. change (0 * sz)%nat with 0%nat.
    rewrite !drop_0, <- app_assoc.
    destruct (Nat.le_gt_cases (length data) sz) as [Hle|Hgt].
    + rewrite (take_ge data sz) by exact Hle. apply take_app_length.
    + assert (Hl : length (take sz data) = sz) by (rewrite length_take; lia).
      replace (sz - length data)%nat with 0%nat by lia. cbn [replicate app].
      replace (length data) with (length (take sz data) + (length data - sz))%nat
        by lia.
      rewrite take_app_add.
      replace (length data - sz)%nat with (length (drop sz data))
        by (rewrite length_drop; lia).
      rewrite IH by (rewrite length_drop; cbn in Hlen; lia).
      apply take_drop.
Qed.

Lemma chanPrefix_lookup (pps : list Z) (c : nat) (v : Z) : forall p,
  pps !! c = Some v ->
  chanPrefix pps p !! c = Some (p + sum_pps (take c pps)).
Proof.
  revert c. induction pps as [|x pps IH]; intros [|c] p Hc; try discriminate.
  - cbn. f_equal. lia.
  - cbn [chanPrefix]. change ((x :: pps) !! S c) with (pps !! c) in Hc.
    change ((p :: chanPrefix pps (p + x)) !! S c) with (chanPrefix pps (p + x) !! c).
    rewrite (IH c (p + x) Hc). cbn [take sum_pps fold_right].
    fold (sum_pps (take c pps)). f_equal. lia.
Qed.

Lemma physOffset_page (pps : list Z) (pageSize : Z) (c : nat) (v pg : Z) :
  pps !! c = Some v ->
  physOffset pps (chanPrefix pps 0) (sum_pps pps) pageSize (Z.of_nat c) pg
  = Ok (pageSize * (1 + page_of pps c pg)).
Proof.
  intros Hc. unfold physOffset, at_index.
  destruct (Z.ltb_spec (Z.of_nat c) 0); [lia|].
  rewrite Nat2Z.id, Hc, (chanPrefix_lookup pps c v 0 Hc).
  unfold page_of. rewrite (nth_lookup_Some _ _ _ _ Hc). f_equal. lia.
Qed.

(** The index, in the list of pages of the file, of page [j] of channel [c]. *)
Definition slot (pps : list Z) (c j : nat) : nat :=
  S (Z.to_nat (page_of pps c (Z.of_nat j))).

(** The page writes of one channel, from page [k] on. *)
Definition channel_writes (pps : list Z) (sz : nat) (c : nat)
    (data : Buffer) (k count : nat) : list (nat * Buffer) :=
  map (fun j => (slot pps c j, chunk_nat sz data j)) (seq k count).

Lemma pages_loop_writes (pps : list Z) (sz : nat) (c : nat) (v : Z)
    (data : Buffer) (stripes : Z) (count : nat) :
  forall (k : nat) (pages : list Buffer),
    Forall (fun v => 0 <= v) pps -> pps !! c = Some v -> 0 < v ->
    Forall (fun p => length p = sz) pages ->
    Z.of_nat (length pages) = 1 + stripes * sum_pps pps ->
    Z.of_nat k + Z.of_nat count <= stripes * v ->
    pages_loop count (Z.of_nat k) data
      (physOffset pps (chanPrefix pps 0) (sum_pps pps) (Z.of_nat sz) (Z.of_nat c))
      (Z.of_nat sz) (concat pages)
    = Ok (concat (apply_writes pages (channel_writes pps sz c data k count))).
Proof.
  induction count as [|count IH]; intros k pages Hall Hc Hv Hsz Hlen Hend.
  - reflexivity.
  - cbn [pages_loop]. rewrite (physOffset_page pps _ c v _ Hc). cbn [rbind].
    pose proof (page_of_range pps c v (Z.of_nat k) stripes Hall Hc Hv ltac:(lia))
      as Hr.
    fold (pageChunk (Z.of_nat sz) data (Z.of_nat k)). rewrite pageChunk_nat.
    replace (1 + page_of pps c (Z.of_nat k)) with (Z.of_nat (slot pps c k))
      by (unfold slot; lia).
    rewrite (pwrite_page sz).
    + replace (Z.of_nat k + 1) with (Z.of_nat (S k)) by lia.
      rewrite IH; try assumption.
      * reflexivity.
      * apply Forall_insert; [exact Hsz|]. apply length_chunk_nat.
      * now rewrite length_insert.
      * lia.
    + exact Hsz.
    + unfold slot. lia.
    + apply length_chunk_nat.
Qed.

Lemma channel_writes_sizes pps (sz : nat) c data k count :
  Forall (fun w : nat * Buffer => length (snd w) = sz)
         (channel_writes pps sz c data k count).
Proof.
  apply List.Forall_forall. intros w Hw.
  apply in_map_iff in Hw as (j & <- & _). apply length_chunk_nat.
Qed.

End WriterFacts.

(** ** The header page of [writeIdx] *)

Module HeaderFacts.
Import IndexFacts StringFacts PageFacts IdxWriter DatReadFacts WriterFacts RepackFacts.

(** ** The header page *)

Lemma alloc_add (a b : Z) : 0 <= a -> 0 <= b -> alloc (a + b) = alloc a ++ alloc b.
Proof.
  intros Ha Hb. unfold alloc. rewrite <- replicate_add. f_equal. lia.
Qed.

Lemma write_word (pre : Buffer) (n v : Z) :
  0 <= n -> 0 <= v < 2 ^ 32 ->
  writeUInt32LE (pre ++ alloc (4 + n)) v (blen pre)
  = Ok ((pre ++ packU32 v) ++ alloc n).
Proof.
  intros Hn Hv. unfold writeUInt32LE.
  destruct (Z.ltb_spec v 0); [lia|].
  destruct (Z.leb_spec (2 ^ 32) v); [lia|]. cbn [orb].
  pose proof (blen_nonneg pre).
  destruct (Z.ltb_spec (blen pre) 0); [lia|].
  rewrite CodecFacts.blen_app, blen_alloc by lia.
  destruct (Z.ltb_spec (blen pre + (4 + n)) (blen pre + 4)); [lia|]. cbn [orb].
  rewrite alloc_add by lia. rewrite copy_into_at.
  - now rewrite <- app_assoc.
  - rewrite length_packU32. reflexivity.
Qed.

(** The ten words at the start of the header page. *)
Definition header_words (v0 v1 v2 v3 s0 s1 s2 s3 : Z) : list Z :=
  [0x44434241; 4; v0; s0; v1; s1; v2; s2; v3; s3].

Definition header_page (pageSize v0 v1 v2 v3 s0 s1 s2 s3 : Z) : Buffer :=
  concat (map packU32 (header_words v0 v1 v2 v3 s0 s1 s2 s3))
  ++ alloc (pageSize - 40).

Ltac put_word v rest :=
  match goal with
  | |- context [writeUInt32LE (?pre ++ alloc ?n) v ?off] =>
      replace n with (4 + rest) by lia;
      replace off with (blen pre)
        by (unfold blen; rewrite ?length_app, ?length_packU32; reflexivity);
      rewrite (write_word pre rest v) by lia; cbn [rbind]
  end.

Lemma header_built (pageSize v0 v1 v2 v3 s0 s1 s2 s3 : Z) :
  40 <= pageSize ->
  0 <= v0 < 2 ^ 32 -> 0 <= v1 < 2 ^ 32 -> 0 <= v2 < 2 ^ 32 -> 0 <= v3 < 2 ^ 32 ->
  0 <= s0 < 2 ^ 32 -> 0 <= s1 < 2 ^ 32 -> 0 <= s2 < 2 ^ 32 -> 0 <= s3 < 2 ^ 32 ->
  (do header <- writeUInt32LE (copy_into Idx.MAGIC (alloc pageSize) 0) 4 4;
   header_loop [v0; v1; v2; v3] [s0; s1; s2; s3] 0 header)
  = Ok (header_page pageSize v0 v1 v2 v3 s0 s1 s2 s3).
Proof.
  intros HP Hv0 Hv1 Hv2 Hv3 Hs0 Hs1 Hs2 Hs3.
  assert (E0 : copy_into Idx.MAGIC (alloc pageSize) 0
               = ([] ++ Idx.MAGIC) ++ alloc (4 + (pageSize - 8))).
  { replace pageSize with (4 + (4 + (pageSize - 8))) at 1 by lia.
    rewrite (alloc_add 4) by lia.
    exact (copy_into_at Idx.MAGIC [] (alloc 4) (alloc (4 + (pageSize - 8)))
             eq_refl). }
  rewrite E0. cbn [app].
  pose proof (write_word Idx.MAGIC (pageSize - 8) 4 ltac:(lia) ltac:(lia)) as Hw.
  change (blen Idx.MAGIC) with 4 in Hw. rewrite Hw. clear Hw.
  cbn [rbind header_loop].
  put_word v0 (pageSize - 12). put_word s0 (pageSize - 16).
  put_word v1 (pageSize - 20). put_word s1 (pageSize - 24).
  put_word v2 (pageSize - 28). put_word s2 (pageSize - 32).
  put_word v3 (pageSize - 36). put_word s3 (pageSize - 40).
  unfold header_page, header_words. cbn [map concat].
  repeat rewrite <- app_assoc. reflexivity.
Qed.

Lemma length_header_page (pageSize v0 v1 v2 v3 s0 s1 s2 s3 : Z) :
  40 <= pageSize ->
  length (header_page pageSize v0 v1 v2 v3 s0 s1 s2 s3) = Z.to_nat pageSize.
Proof.
  intros HP. unfold header_page, header_words, alloc. cbn [map concat].
  rewrite !length_app, !length_packU32, length_replicate. cbn [length]. lia.
Qed.

(** ** The number of stripes *)

Definition ceil_div (a b : Z) : Z := (a + b - 1) / b.

Lemma ceil_div_spec (a b : Z) :
  0 < b -> 0 <= a -> 0 <= ceil_div a b /\ a <= ceil_div a b * b < a + b.
Proof.
  intros Hb Ha. unfold ceil_div.
  pose proof (Z.div_mod (a + b - 1) b ltac:(lia)).
  pose proof (Z.mod_pos_bound (a + b - 1) b Hb).
  split; [apply Z.div_pos; lia|lia].
Qed.

Lemma zero_pages (sz total : nat) :
  ftruncate [] (Z.of_nat total * Z.of_nat sz)
  = concat (replicate total (replicate sz x00)).
Proof.
  unfold ftruncate. rewrite take_nil. cbn [app length].
  replace (Z.to_nat (Z.of_nat total * Z.of_nat sz) - 0)%nat with (total * sz)%nat
    by lia.
  induction total as [|total IH]; [reflexivity|].
  cbn [Nat.mul replicate concat]. now rewrite replicate_add, IH.
Qed.

End HeaderFacts.
(** ** Reading the channels back from a paged file *)

Module IdxReadFacts.
Import IndexFacts StringFacts PageFacts IdxWriter WriterFacts HeaderFacts
  RepackFacts LayoutFacts Layout.

Lemma prefixPages_chanPrefix (chs : list IdxChannel) (p : Z) :
  Idx.prefixPages chs p = chanPrefix (map pagesPerStripe chs) p.
Proof.
  revert p. induction chs as [|ch chs IH]; intros p; [reflexivity|].
  cbn [Idx.prefixPages map chanPrefix]. now rewrite IH.
Qed.

Lemma sumPages_fold (chs : list IdxChannel) (a : Z) :
  fold_left (fun acc ch => acc + pagesPerStripe ch) chs a
  = a + sum_pps (map pagesPerStripe chs).
Proof.
  revert a. induction chs as [|ch chs IH]; intros a; cbn [fold_left map].
  - unfold sum_pps. cbn. lia.
  - rewrite IH. unfold sum_pps. cbn [fold_right]. lia.
Qed.

Lemma at_index_nat {A} (l : list A) (c : nat) : at_index l (Z.of_nat c) = l !! c.
Proof.
  unfold at_index. destruct (Z.ltb_spec (Z.of_nat c) 0); [lia|].
  now rewrite Nat2Z.id.
Qed.

(** An opened index whose file is a list of pages of the size it uses. *)
Record paged (idx : PriusIdx) (sz : nat) (pages : list Buffer) : Prop := {
  paged_mm : mm idx = concat pages;
  paged_size : pageSize idx = Z.of_nat sz;
  paged_sizes : Forall (fun p => length p = sz) pages;
  paged_sum : sumPages idx = sum_pps (map pagesPerStripe (channels idx));
  paged_prefix : chanPrefixPages idx = Idx.prefixPages (channels idx) 0
}.

Lemma physOffsetForChannelPage_page idx sz pages (c : nat) (ch : IdxChannel)
    (pg : Z) :
  paged idx sz pages -> channels idx !! c = Some ch -> pagesPerStripe ch <> 0 ->
  Idx.physOffsetForChannelPage idx (Z.of_nat c) pg
  = Ok (Z.of_nat sz
        * (1 + page_of (map pagesPerStripe (channels idx)) c pg)).
Proof.
  intros Hp Hc Hv. unfold Idx.physOffsetForChannelPage.
  rewrite !at_index_nat, Hc, (paged_prefix _ _ _ Hp), prefixPages_chanPrefix.
  assert (Hl : map pagesPerStripe (channels idx) !! c = Some (pagesPerStripe ch)).
  { change (map pagesPerStripe (channels idx)) with (pagesPerStripe <$> channels idx).
    now rewrite list_lookup_fmap, Hc. }
  rewrite (chanPrefix_lookup _ c _ 0 Hl).
  destruct (Z.eqb_spec (pagesPerStripe ch) 0) as [|_]; [contradiction|].
  rewrite (paged_sum _ _ _ Hp), (paged_size _ _ _ Hp).
  unfold page_of. rewrite (nth_lookup_Some _ _ 0 _ Hl). f_equal. lia.
Qed.

Lemma alloc_pages (n sz : nat) :
  alloc (Z.of_nat n * Z.of_nat sz) = concat (replicate n (replicate sz x00)).
Proof.
  unfold alloc.
  replace (Z.to_nat (Z.of_nat n * Z.of_nat sz)) with (n * sz)%nat by lia.
  induction n as [|n IH]; [reflexivity|].
  cbn [Nat.mul replicate concat]. now rewrite replicate_add, IH.
Qed.

Lemma page_of_nonneg (pps : list Z) (c : nat) (v : Z) (k : nat) :
  Forall (fun v => 0 <= v) pps -> pps !! c = Some v -> 0 < v ->
  0 <= page_of pps c (Z.of_nat k).
Proof.
  intros Hall Hc Hv.
  apply (page_of_range pps c v (Z.of_nat k) (Z.of_nat k + 1) Hall Hc Hv). nia.
Qed.

(** The loop of [readChannel] fills the output page by page. *)
Lemma readPages_chunks idx sz pages (c : nat) (ch : IdxChannel)
    (f : nat -> Buffer) (count : nat) : forall k : nat,
  paged idx sz pages ->
  Forall (fun v => 0 <= v) (map pagesPerStripe (channels idx)) ->
  channels idx !! c = Some ch -> 0 < pagesPerStripe ch ->
  (forall j, (j < k + count)%nat ->
     pages !! slot (map pagesPerStripe (channels idx)) c j = Some (f j)) ->
  Idx.readPages idx (Z.of_nat c) count (Z.of_nat k)
    (concat (map f (seq 0 k) ++ replicate count (replicate sz x00)))
  = Ok (concat (map f (seq 0 (k + count)))).
Proof.
  induction count as [|count IH]; intros k Hp Hall Hc Hv Hf.
  - cbn [Idx.readPages replicate]. now rewrite app_nil_r, Nat.add_0_r.
  - cbn [Idx.readPages].
    rewrite (physOffsetForChannelPage_page idx sz pages c ch _ Hp Hc)
      by lia.
    cbn [rbind].
    pose proof (Hf k ltac:(lia)) as Hk.
    assert (Hlen : forall j, (j < k + S count)%nat -> length (f j) = sz).
    { intros j Hj. eapply (proj1 (Forall_lookup _ _) (paged_sizes _ _ _ Hp)).
      apply (Hf j Hj). }
    assert (Hl : map pagesPerStripe (channels idx) !! c = Some (pagesPerStripe ch)).
    { change (map pagesPerStripe (channels idx))
        with (pagesPerStripe <$> channels idx).
      now rewrite list_lookup_fmap, Hc. }
    pose proof (page_of_nonneg _ c _ k Hall Hl Hv) as Hnn.
    rewrite (paged_mm _ _ _ Hp), (paged_size _ _ _ Hp).
    replace (1 + page_of (map pagesPerStripe (channels idx)) c (Z.of_nat k))
      with (Z.of_nat (slot (map pagesPerStripe (channels idx)) c k))
      by (unfold slot; lia).
    rewrite (subarray_page sz pages _ (f k) (paged_sizes _ _ _ Hp) Hk).
    assert (Hpre : blen (concat (map f (seq 0 k))) = Z.of_nat k * Z.of_nat sz).
    { unfold blen. rewrite (length_concat_fixed sz).
      - rewrite length_map, length_seq. lia.
      - apply List.Forall_forall. intros p Hin.
        apply in_map_iff in Hin as (j & <- & Hj). apply in_seq in Hj.
        apply Hlen. lia. }
    cbn [replicate]. rewrite concat_app. cbn [concat].
    rewrite <- Hpre, copy_into_at
      by (rewrite length_replicate; symmetry; apply Hlen; lia).
    replace (Z.of_nat k + 1) with (Z.of_nat (S k)) by lia.
    replace (concat (map f (seq 0 k)) ++ f k ++ concat (replicate count (replicate sz x00)))
      with (concat (map f (seq 0 (S k)) ++ replicate count (replicate sz x00))).
    + rewrite IH; try assumption.
      * replace (k + S count)%nat with (S k + count)%nat by lia. reflexivity.
      * intros j Hj. apply Hf. lia.
    + rewrite seq_S, map_app, !concat_app. cbn [map concat Nat.add].
      rewrite app_nil_r, <- app_assoc. reflexivity.
Qed.

(** [readChannel] gives back data that sits, page by page, in the slots
    of its channel. *)
Lemma readChannel_chunks idx sz pages (c : nat) (ch : IdxChannel) (d : Buffer) :
  paged idx sz pages -> (0 < sz)%nat ->
  Forall (fun v => 0 <= v) (map pagesPerStripe (channels idx)) ->
  channels idx !! c = Some ch -> 0 < pagesPerStripe ch ->
  sizeBytes ch = blen d ->
  (forall j, (j < Z.to_nat (ceil_div (blen d) (Z.of_nat sz)))%nat ->
     pages !! slot (map pagesPerStripe (channels idx)) c j
     = Some (chunk_nat sz d j)) ->
  Idx.readChannel idx (Z.of_nat c) = Ok d.
Proof.
  intros Hp Hsz Hall Hc Hv Hsize Hf. unfold Idx.readChannel.
  rewrite at_index_nat, Hc, Hsize, (paged_size _ _ _ Hp).
  fold (ceil_div (blen d) (Z.of_nat sz)).
  destruct (ceil_div_spec (blen d) (Z.of_nat sz)) as (Hn & Hlo & Hhi);
    [lia|apply blen_nonneg|].
  set (n := Z.to_nat (ceil_div (blen d) (Z.of_nat sz))) in *.
  replace (ceil_div (blen d) (Z.of_nat sz)) with (Z.of_nat n) in * by lia.
  rewrite alloc_pages.
  pose proof (readPages_chunks idx sz pages c ch (chunk_nat sz d) n 0 Hp Hall Hc
                Hv) as Hr.
  cbn [seq map app Nat.add] in Hr. change (Z.of_nat 0) with 0 in Hr.
  rewrite Hr by exact Hf. cbn [rbind]. f_equal.
  unfold subarray. change (Z.to_nat 0) with 0%nat. rewrite drop_0, Z.sub_0_r.
  unfold blen. rewrite Nat2Z.id. apply chunks_take. unfold blen in Hlo. lia.
Qed.

(** A 32-bit word of a table of words. *)
Lemma read_word (ws : list Z) (rest : Buffer) (i : nat) (w off : Z) :
  ws !! i = Some w -> off = 4 * Z.of_nat i ->
  readU32 (concat (map packU32 ws) ++ rest) off = Ok (u32 w).
Proof.
  intros Hi ->. rewrite <- (take_drop_middle ws i w Hi).
  rewrite map_app, concat_app. cbn [map concat]. rewrite <- !app_assoc.
  replace (4 * Z.of_nat i) with (blen (concat (map packU32 (take i ws)))).
  - apply readU32_packU32.
  - unfold blen. rewrite (length_concat_fixed 4).
    + rewrite length_map, length_take. apply lookup_lt_Some in Hi. lia.
    + apply List.Forall_forall. intros p Hin.
      apply in_map_iff in Hin as (x & <- & _). apply length_packU32.
Qed.

(** The reader settles on 4096 as soon as 4096 passes its tests. *)
Lemma inferPageSize_4096 (fileSize : Z) (chs : list IdxChannel) :
  0 < sum_pps (map pagesPerStripe chs) ->
  viableb fileSize (sum_pps (map pagesPerStripe chs)) chs 0x1000 = true ->
  inferPageSize fileSize chs = Ok 0x1000.
Proof.
  intros Hsum Hv. unfold inferPageSize.
  rewrite fold_left_add_acc, Z.add_0_l.
  fold (sum_pps (map pagesPerStripe chs)).
  destruct (Z.leb_spec (sum_pps (map pagesPerStripe chs)) 0) as [|_]; [lia|].
  rewrite candidate_loop, app_nil_l.
  assert (Hin : In 0x1000
            (List.filter (viableb fileSize (sum_pps (map pagesPerStripe chs)) chs)
                         candidates)).
  { apply filter_In. split; [|exact Hv]. unfold candidates. cbn. tauto. }
  destruct (List.filter _ candidates) as [|x xs] eqn:E; [destruct Hin|].
  cbn [length Nat.eqb].
  assert (Ex : existsb (Z.eqb 0x1000) (x :: xs) = true).
  { apply existsb_exists. exists 0x1000. split; [exact Hin|apply Z.eqb_refl]. }
  now rewrite Ex.
Qed.

Lemma viableb_false (fileSize sum : Z) (chs : list IdxChannel) (p : Z) :
  fileSize mod p <> 0 \/ fileSize / p < 2 \/ (fileSize / p - 1) mod sum <> 0 ->
  viableb fileSize sum chs p = false.
Proof.
  intros H. unfold viableb.
  destruct (Z.eqb_spec (fileSize mod p) 0); [|reflexivity].
  destruct (Z.ltb_spec (fileSize / p) 2); [reflexivity|].
  destruct (Z.eqb_spec ((fileSize / p - 1) mod sum) 0); [|reflexivity].
  exfalso. destruct H as [H|[H|H]]; [contradiction|lia|contradiction].
Qed.

Lemma filter_none {A} (f : A -> bool) (l : list A) :
  (forall x, In x l -> f x = false) -> List.filter f l = [].
Proof.
  induction l as [|x l IH]; intros H; [reflexivity|]. cbn [List.filter].
  rewrite (H x (or_introl eq_refl)). apply IH. intros y Hy. apply H. now right.
Qed.

(** A file of one page of 4096 bytes passes for no candidate, unless the
    pages of a stripe are seven. *)
Lemma inferPageSize_one_page (chs : list IdxChannel) :
  4 <= sum_pps (map pagesPerStripe chs) ->
  sum_pps (map pagesPerStripe chs) <> 7 ->
  inferPageSize 0x1000 chs = Throw CouldNotInferPageSize.
Proof.
  intros Hsum H7. unfold inferPageSize.
  rewrite fold_left_add_acc, Z.add_0_l.
  fold (sum_pps (map pagesPerStripe chs)).
  set (sum := sum_pps (map pagesPerStripe chs)) in *.
  destruct (Z.leb_spec sum 0) as [|_]; [lia|].
  rewrite candidate_loop, app_nil_l, filter_none; [reflexivity|].
  intros p Hp. apply viableb_false. unfold candidates in Hp.
  repeat (destruct Hp as [ <- | Hp ]); try destruct Hp.
  - right; right. change (0x1000 / 0x200 - 1) with 7.
    destruct (Z.le_gt_cases 8 sum).
    + rewrite Z.mod_small; lia.
    + assert (Hs : sum = 4 \/ sum = 5 \/ sum = 6) by lia.
      clearbody sum.
      destruct Hs as [Hs | [Hs | Hs]]; rewrite Hs; intros E; vm_compute in E;
        discriminate.
  - right; right. change (0x1000 / 0x400 - 1) with 3. rewrite Z.mod_small; lia.
  - right; right. change (0x1000 / 0x800 - 1) with 1. rewrite Z.mod_small; lia.
  - right; left. change (0x1000 / 0x1000) with 1. lia.
  - left. intros E; vm_compute in E; discriminate.
  - left. intros E; vm_compute in E; discriminate.
  - left. intros E; vm_compute in E; discriminate.
Qed.

End IdxReadFacts.

(** ** Writing an index and opening it *)

Module IdxRoundTrip.
Import IndexFacts StringFacts PageFacts IdxWriter DatReadFacts WriterFacts
  HeaderFacts RepackFacts IdxReadFacts LayoutFacts Layout.

Section Written.
Variables (d0 d1 d2 d3 : Buffer) (v0 v1 v2 v3 : Z) (sz : nat).

Local Abbreviation P := (Z.of_nat sz).
Local Abbreviation pps := [v0; v1; v2; v3].

(** The pages of a channel's data. *)
Definition pagesOf (d : Buffer) : nat := Z.to_nat (ceil_div (blen d) P).

Definition stripesOf : Z :=
  stripes_loop (map (fun size => (size + P - 1) / P) (map blen [d0; d1; d2; d3]))
    pps 0.

Definition totalPages : nat := Z.to_nat (1 + stripesOf * sum_pps pps).

Definition all_writes : list (nat * Buffer) :=
  (0%nat, header_page P v0 v1 v2 v3 (blen d0) (blen d1) (blen d2) (blen d3))
  :: channel_writes pps sz 0 d0 0 (pagesOf d0)
  ++ channel_writes pps sz 1 d1 0 (pagesOf d1)
  ++ channel_writes pps sz 2 d2 0 (pagesOf d2)
  ++ channel_writes pps sz 3 d3 0 (pagesOf d3).

(** The pages of the file [writeIdx] leaves. *)
Definition written : list Buffer :=
  apply_writes (replicate totalPages (replicate sz x00)) all_writes.

Hypothesis HP : 40 <= P.
Hypothesis Hv0 : 0 < v0 < 2 ^ 32.
Hypothesis Hv1 : 0 < v1 < 2 ^ 32.
Hypothesis Hv2 : 0 < v2 < 2 ^ 32.
Hypothesis Hv3 : 0 < v3 < 2 ^ 32.
Hypothesis Hs0 : blen d0 < 2 ^ 32.
Hypothesis Hs1 : blen d1 < 2 ^ 32.
Hypothesis Hs2 : blen d2 < 2 ^ 32.
Hypothesis Hs3 : blen d3 < 2 ^ 32.

Lemma pps_nonneg : Forall (fun v => 0 <= v) pps.
Proof. repeat constructor; lia. Qed.

Lemma sum_pps_pos : 0 < sum_pps pps.
Proof. cbn. lia. Qed.

Lemma stripes_cover :
  0 <= stripesOf /\
  Z.of_nat (pagesOf d0) <= stripesOf * v0 /\
  Z.of_nat (pagesOf d1) <= stripesOf * v1 /\
  Z.of_nat (pagesOf d2) <= stripesOf * v2 /\
  Z.of_nat (pagesOf d3) <= stripesOf * v3.
Proof.
  unfold stripesOf, pagesOf. cbn [map stripes_loop].
  fold (ceil_div (blen d0) P) (ceil_div (blen d1) P) (ceil_div (blen d2) P)
       (ceil_div (blen d3) P).
  pose proof (blen_nonneg d0). pose proof (blen_nonneg d1).
  pose proof (blen_nonneg d2). pose proof (blen_nonneg d3).
  destruct (ceil_div_spec (blen d0) P) as [A0 _]; [lia|lia|].
  destruct (ceil_div_spec (blen d1) P) as [A1 _]; [lia|lia|].
  destruct (ceil_div_spec (blen d2) P) as [A2 _]; [lia|lia|].
  destruct (ceil_div_spec (blen d3) P) as [A3 _]; [lia|lia|].
  set (n0 := ceil_div (blen d0) P) in *. set (n1 := ceil_div (blen d1) P) in *.
  set (n2 := ceil_div (blen d2) P) in *. set (n3 := ceil_div (blen d3) P) in *.
  fold (ceil_div n0 v0) (ceil_div n1 v1) (ceil_div n2 v2) (ceil_div n3 v3).
  destruct (ceil_div_spec n0 v0) as [B0 C0]; [lia|lia|].
  destruct (ceil_div_spec n1 v1) as [B1 C1]; [lia|lia|].
  destruct (ceil_div_spec n2 v2) as [B2 C2]; [lia|lia|].
  destruct (ceil_div_spec n3 v3) as [B3 C3]; [lia|lia|].
  set (c0 := ceil_div n0 v0) in *. set (c1 := ceil_div n1 v1) in *.
  set (c2 := ceil_div n2 v2) in *. set (c3 := ceil_div n3 v3) in *.
  rewrite !Z2Nat.id by lia.
  assert (M0 : c0 <= Z.max (Z.max (Z.max (Z.max 0 c0) c1) c2) c3) by lia.
  assert (M1 : c1 <= Z.max (Z.max (Z.max (Z.max 0 c0) c1) c2) c3) by lia.
  assert (M2 : c2 <= Z.max (Z.max (Z.max (Z.max 0 c0) c1) c2) c3) by lia.
  assert (M3 : c3 <= Z.max (Z.max (Z.max (Z.max 0 c0) c1) c2) c3) by lia.
  set (s := Z.max (Z.max (Z.max (Z.max 0 c0) c1) c2) c3) in *.
  split; [lia|]. repeat split; nia.
Qed.

Lemma totalPages_spec : Z.of_nat totalPages = 1 + stripesOf * sum_pps pps.
Proof.
  unfold totalPages. pose proof stripes_cover as (H0 & _).
  pose proof sum_pps_pos. rewrite Z2Nat.id; [reflexivity|nia].
Qed.

Lemma zero_file_sizes :
  Forall (fun p : Buffer => length p = sz) (replicate totalPages (replicate sz x00)).
Proof.
  apply Forall_replicate. apply length_replicate.
Qed.

Lemma all_writes_sizes :
  Forall (fun w : nat * Buffer => length (snd w) = sz) all_writes.
Proof.
  unfold all_writes. constructor.
  - cbn [snd]. rewrite length_header_page by exact HP. lia.
  - repeat (apply Forall_app; split); apply channel_writes_sizes.
Qed.

Lemma written_sizes : Forall (fun p : Buffer => length p = sz) written.
Proof.
  unfold written. apply apply_writes_sizes;
    [apply zero_file_sizes|apply all_writes_sizes].
Qed.

Lemma written_length : length written = totalPages.
Proof. unfold written. now rewrite apply_writes_length, length_replicate. Qed.

(** [writeIdx] writes exactly these pages. *)
Lemma writeIdx_written :
  writeIdx d0 d1 d2 d3 P pps = Ok (concat written).
Proof.
  unfold writeIdx. cbn [length Nat.eqb negb].
  destruct (Z.leb_spec P 0) as [|_]; [lia|]. cbn [orb existsb].
  destruct (Z.leb_spec v0 0) as [|_]; [lia|].
  destruct (Z.leb_spec v1 0) as [|_]; [lia|].
  destruct (Z.leb_spec v2 0) as [|_]; [lia|].
  destruct (Z.leb_spec v3 0) as [|_]; [lia|]. cbn [orb].
  change (Z.of_nat 4) with 4.
  pose proof (blen_nonneg d0). pose proof (blen_nonneg d1).
  pose proof (blen_nonneg d2). pose proof (blen_nonneg d3).
  pose proof (header_built P v0 v1 v2 v3 (blen d0) (blen d1) (blen d2) (blen d3)
                HP ltac:(lia) ltac:(lia) ltac:(lia) ltac:(lia)
                ltac:(lia) ltac:(lia) ltac:(lia) ltac:(lia)) as Hh.
  cbn [map].
  destruct (writeUInt32LE (copy_into Idx.MAGIC (alloc P) 0) 4 4) as [h| |];
    cbn [rbind] in Hh |- *; try discriminate.
  rewrite Hh. cbn [rbind]. clear Hh h.
  rewrite LayoutFacts.fold_left_add_acc, Z.add_0_l. fold (sum_pps pps).
  change (stripes_loop [(blen d0 + P - 1) / P; (blen d1 + P - 1) / P;
                        (blen d2 + P - 1) / P; (blen d3 + P - 1) / P] pps 0)
    with stripesOf.
  pose proof stripes_cover as (Hst & C0 & C1 & C2 & C3).
  pose proof totalPages_spec as Htot.
  rewrite <- Htot, zero_pages.
  pose proof pps_nonneg as Hpps.
  set (hdr := header_page P v0 v1 v2 v3 (blen d0) (blen d1) (blen d2) (blen d3)).
  assert (Hhl : length hdr = sz)
    by (unfold hdr; rewrite length_header_page by exact HP; lia).
  assert (Htp : (0 < totalPages)%nat).
  { pose proof sum_pps_pos. apply Nat2Z.inj_lt. rewrite Htot. nia. }
  pose proof (pwrite_page sz (replicate totalPages (replicate sz x00)) 0 hdr
                zero_file_sizes ltac:(rewrite length_replicate; exact Htp) Hhl)
    as Hpw.
  change (Z.of_nat 0) with 0 in Hpw. rewrite Z.mul_0_r in Hpw.
  rewrite Hpw. clear Hpw.
  set (W0 := <[0%nat := hdr]> (replicate totalPages (replicate sz x00))).
  assert (HW0 : Forall (fun p : Buffer => length p = sz) W0)
    by (apply Forall_insert; [apply zero_file_sizes|exact Hhl]).
  assert (HL0 : Z.of_nat (length W0) = 1 + stripesOf * sum_pps pps)
    by (unfold W0; rewrite length_insert, length_replicate; exact Htot).
  cbn [channels_loop].
  fold (ceil_div (blen d0) P) (ceil_div (blen d1) P) (ceil_div (blen d2) P)
       (ceil_div (blen d3) P).
  fold (pagesOf d0) (pagesOf d1) (pagesOf d2) (pagesOf d3).
  pose proof (pages_loop_writes pps sz 0 v0 d0 stripesOf (pagesOf d0) 0 W0
                Hpps eq_refl ltac:(lia) HW0 HL0 ltac:(lia)) as Hl0.
  change (Z.of_nat 0) with 0 in Hl0. rewrite Hl0. clear Hl0.
  cbn [rbind].
  set (W1 := apply_writes W0 (channel_writes pps sz 0 d0 0 (pagesOf d0))).
  assert (HW1 : Forall (fun p : Buffer => length p = sz) W1)
    by (apply apply_writes_sizes; [exact HW0|apply channel_writes_sizes]).
  assert (HL1 : Z.of_nat (length W1) = 1 + stripesOf * sum_pps pps)
    by (unfold W1; rewrite apply_writes_length; exact HL0).
  pose proof (pages_loop_writes pps sz 1 v1 d1 stripesOf (pagesOf d1) 0 W1
                Hpps eq_refl ltac:(lia) HW1 HL1 ltac:(lia)) as Hl1.
  change (Z.of_nat 0) with 0 in Hl1. change (Z.of_nat 1) with (0 + 1) in Hl1.
  rewrite Hl1. clear Hl1.
  cbn [rbind].
  set (W2 := apply_writes W1 (channel_writes pps sz 1 d1 0 (pagesOf d1))).
  assert (HW2 : Forall (fun p : Buffer => length p = sz) W2)
    by (apply apply_writes_sizes; [exact HW1|apply channel_writes_sizes]).
  assert (HL2 : Z.of_nat (length W2) = 1 + stripesOf * sum_pps pps)
    by (unfold W2; rewrite apply_writes_length; exact HL1).
  pose proof (pages_loop_writes pps sz 2 v2 d2 stripesOf (pagesOf d2) 0 W2
                Hpps eq_refl ltac:(lia) HW2 HL2 ltac:(lia)) as Hl2.
  change (Z.of_nat 0) with 0 in Hl2. change (Z.of_nat 2) with (0 + 1 + 1) in Hl2.
  rewrite Hl2. clear Hl2.
  cbn [rbind].
  set (W3 := apply_writes W2 (channel_writes pps sz 2 d2 0 (pagesOf d2))).
  assert (HW3 : Forall (fun p : Buffer => length p = sz) W3)
    by (apply apply_writes_sizes; [exact HW2|apply channel_writes_sizes]).
  assert (HL3 : Z.of_nat (length W3) = 1 + stripesOf * sum_pps pps)
    by (unfold W3; rewrite apply_writes_length; exact HL2).
  pose proof (pages_loop_writes pps sz 3 v3 d3 stripesOf (pagesOf d3) 0 W3
                Hpps eq_refl ltac:(lia) HW3 HL3 ltac:(lia)) as Hl3.
  change (Z.of_nat 0) with 0 in Hl3.
  change (Z.of_nat 3) with (0 + 1 + 1 + 1) in Hl3.
  rewrite Hl3. clear Hl3.
  cbn [rbind]. f_equal. f_equal.
  unfold written, all_writes, W3, W2, W1, W0.
  cbn [apply_writes fold_left fst snd]. fold hdr.
  rewrite !fold_left_app. reflexivity.
Qed.


(** The pages written, by channel and page. *)
Definition all_pairs : list (nat * nat) :=
  map (pair 0%nat) (seq 0 (pagesOf d0)) ++ map (pair 1%nat) (seq 0 (pagesOf d1))
  ++ map (pair 2%nat) (seq 0 (pagesOf d2)) ++ map (pair 3%nat) (seq 0 (pagesOf d3)).

Lemma all_pairs_NoDup : NoDup all_pairs.
Proof.
  assert (Hone : forall (c n : nat), NoDup (map (pair c) (seq 0 n))).
  { intros c n. apply NoDup_fmap_2_strong; [|apply NoDup_seq].
    now intros x y _ _ [= ->]. }
  assert (Hin : forall (c n : nat) (x : nat * nat), x ∈ map (pair c) (seq 0 n) -> fst x = c).
  { intros c n x Hx. apply list_elem_of_In, in_map_iff in Hx as (j & <- & _).
    reflexivity. }
  unfold all_pairs.
  repeat (apply NoDup_app; split; [apply Hone|split; [|]]); try apply Hone;
    intros x Hx Hx'; apply Hin in Hx;
    repeat (apply elem_of_app in Hx' as [Hx'|Hx']);
    apply Hin in Hx'; congruence.
Qed.

Lemma all_pairs_valid c j :
  In (c, j) all_pairs -> exists v, pps !! c = Some v /\ 0 < v.
Proof.
  unfold all_pairs. rewrite !in_app_iff, !in_map_iff.
  intros [H|[H|[H|H]]]; destruct H as (j' & [= <- <-] & _); eexists;
    (split; [reflexivity|lia]).
Qed.

Lemma map_fst_writes :
  map fst all_writes
  = 0%nat :: map (fun cj => slot pps (fst cj) (snd cj)) all_pairs.
Proof.
  unfold all_writes, all_pairs, channel_writes. cbn [map fst].
  rewrite !map_app, !map_map. reflexivity.
Qed.

Lemma all_writes_NoDup : NoDup (map fst all_writes).
Proof.
  rewrite map_fst_writes. apply NoDup_cons. split.
  - intros H. apply list_elem_of_In, in_map_iff in H as (cj & E & _).
    unfold slot in E. lia.
  - apply NoDup_fmap_2_strong; [|apply all_pairs_NoDup].
    intros [c j] [c' j'] Hx Hy E. cbn [fst snd] in E.
    apply list_elem_of_In in Hx, Hy.
    destruct (all_pairs_valid c j Hx) as (v & Hc & Hv).
    destruct (all_pairs_valid c' j' Hy) as (v' & Hc' & Hv').
    pose proof (page_of_range pps c v (Z.of_nat j) (Z.of_nat j + 1) pps_nonneg
                  Hc Hv ltac:(nia)) as Hr.
    pose proof (page_of_range pps c' v' (Z.of_nat j') (Z.of_nat j' + 1)
                  pps_nonneg Hc' Hv' ltac:(nia)) as Hr'.
    destruct (page_of_inj pps c c' v v' (Z.of_nat j) (Z.of_nat j') pps_nonneg
                Hc Hc' Hv Hv' ltac:(lia) ltac:(lia)) as [-> Hj].
    + unfold slot in E. lia.
    + f_equal. lia.
Qed.

Lemma written_header :
  written !! 0%nat
  = Some (header_page P v0 v1 v2 v3 (blen d0) (blen d1) (blen d2) (blen d3)).
Proof.
  unfold written. apply apply_writes_at.
  - apply all_writes_NoDup.
  - unfold all_writes. now left.
  - rewrite length_replicate. pose proof totalPages_spec.
    pose proof stripes_cover as (H0 & _). pose proof sum_pps_pos. nia.
Qed.

Lemma written_page (c : nat) (v : Z) (d : Buffer) (j : nat) :
  [d0; d1; d2; d3] !! c = Some d -> pps !! c = Some v ->
  (j < pagesOf d)%nat ->
  written !! slot pps c j = Some (chunk_nat sz d j).
Proof.
  intros Hd Hc Hj. unfold written.
  pose proof stripes_cover as (Hst & C0 & C1 & C2 & C3).
  assert (Hv : 0 < v /\ Z.of_nat (pagesOf d) <= stripesOf * v).
  { destruct c as [|[|[|[|c]]]]; try discriminate;
      injection Hd as <-; injection Hc as <-; split; (lia || assumption). }
  apply apply_writes_at.
  - apply all_writes_NoDup.
  - unfold all_writes, channel_writes. right.
    assert (Hin : In (slot pps c j, chunk_nat sz d j)
                     (map (fun j => (slot pps c j, chunk_nat sz d j))
                          (seq 0 (pagesOf d)))).
    { apply in_map_iff. exists j. split; [reflexivity|]. apply in_seq. lia. }
    rewrite !in_app_iff.
    destruct c as [|[|[|[|c]]]]; try discriminate; injection Hd as <-; tauto.
  - rewrite length_replicate.
    pose proof (page_of_range pps c v (Z.of_nat j) stripesOf pps_nonneg Hc
                  (proj1 Hv) ltac:(lia)) as Hr.
    pose proof totalPages_spec. unfold slot. lia.
Qed.

(** The channel table of the header. *)
Definition table : list IdxChannel :=
  [ {| pagesPerStripe := v0; sizeBytes := blen d0 |};
    {| pagesPerStripe := v1; sizeBytes := blen d1 |};
    {| pagesPerStripe := v2; sizeBytes := blen d2 |};
    {| pagesPerStripe := v3; sizeBytes := blen d3 |} ].

Lemma written_split :
  concat written
  = concat (map packU32 (header_words v0 v1 v2 v3 (blen d0) (blen d1)
                                       (blen d2) (blen d3)))
    ++ alloc (P - 40) ++ concat (drop 1 written).
Proof.
  rewrite (concat_split written 0 _ written_header). cbn [take concat app].
  unfold header_page. now rewrite <- app_assoc.
Qed.


Lemma written_blen : blen (concat written) = Z.of_nat totalPages * P.
Proof.
  unfold blen. rewrite (length_concat_fixed sz) by apply written_sizes.
  rewrite written_length. lia.
Qed.


(** The constructor of [PriusIdx] reads the channel table back from the
    header; what is left is the inference of the page size. *)
Lemma open_header :
  Idx.open (concat written)
  = do pageSize <- inferPageSize (blen (concat written)) table;
    Ok {| mm := concat written; channels := table; pageSize := pageSize;
          stripes := (blen (concat written) / pageSize - 1) / sum_pps pps;
          sumPages := sum_pps pps;
          chanPrefixPages := Idx.prefixPages table 0 |}.
Proof.
  pose proof (blen_nonneg d0). pose proof (blen_nonneg d1).
  pose proof (blen_nonneg d2). pose proof (blen_nonneg d3).
  unfold Idx.open.
  assert (Hmagic : subarray (concat written) 0 4 = Idx.MAGIC).
  { rewrite written_split. reflexivity. }
  rewrite Hmagic, bool_decide_eq_true_2 by reflexivity. cbn [negb].
  assert (Hword : forall i w off,
            header_words v0 v1 v2 v3 (blen d0) (blen d1) (blen d2) (blen d3) !! i
            = Some w -> off = 4 * Z.of_nat i -> 0 <= w < 2 ^ 32 ->
            readU32 (concat written) off = Ok w).
  { intros i w off Hi Hoff Hw. rewrite written_split.
    rewrite (read_word _ _ i w off Hi Hoff). unfold u32.
    now rewrite Z.mod_small. }
  rewrite (Hword 1%nat 4 4 eq_refl eq_refl ltac:(lia)). cbn [rbind].
  change ((4 <=? 0) || (16 <? 4)) with false. cbv iota.
  change (Z.to_nat 4) with 4%nat. cbn [Idx.readChannels].
  rewrite (Hword 2%nat v0 8 eq_refl eq_refl ltac:(lia)).
  rewrite (Hword 3%nat (blen d0) (8 + 4) eq_refl eq_refl ltac:(lia)).
  rewrite (Hword 4%nat v1 (8 + 8) eq_refl eq_refl ltac:(lia)).
  rewrite (Hword 5%nat (blen d1) (8 + 8 + 4) eq_refl eq_refl ltac:(lia)).
  rewrite (Hword 6%nat v2 (8 + 8 + 8) eq_refl eq_refl ltac:(lia)).
  rewrite (Hword 7%nat (blen d2) (8 + 8 + 8 + 4) eq_refl eq_refl ltac:(lia)).
  rewrite (Hword 8%nat v3 (8 + 8 + 8 + 8) eq_refl eq_refl ltac:(lia)).
  rewrite (Hword 9%nat (blen d3) (8 + 8 + 8 + 8 + 4) eq_refl eq_refl ltac:(lia)).
  cbn [rbind]. fold table.
  rewrite sumPages_fold, Z.add_0_l. reflexivity.
Qed.

(** *** Opening the written file *)

Hypothesis H4096 : P = 0x1000.
Hypothesis Hne : 0 < blen d0 + blen d1 + blen d2 + blen d3.

Lemma pagesOf_pos (d : Buffer) : 0 < blen d -> (0 < pagesOf d)%nat.
Proof.
  intros Hd. unfold pagesOf.
  destruct (ceil_div_spec (blen d) P) as (Hn & Hlo & _); [lia|lia|]. nia.
Qed.

Lemma stripes_pos : 1 <= stripesOf.
Proof.
  pose proof stripes_cover as (H0 & C0 & C1 & C2 & C3).
  pose proof (blen_nonneg d0). pose proof (blen_nonneg d1).
  pose proof (blen_nonneg d2). pose proof (blen_nonneg d3).
  assert (Hd : 0 < blen d0 \/ 0 < blen d1 \/ 0 < blen d2 \/ 0 < blen d3) by lia.
  destruct Hd as [Hd|[Hd|[Hd|Hd]]]; apply pagesOf_pos in Hd; nia.
Qed.

Lemma table_fits : channels_fit stripesOf 0x1000 table = true.
Proof.
  apply channels_fit_spec. rewrite <- H4096.
  pose proof stripes_cover as (H0 & C0 & C1 & C2 & C3).
  assert (Hd : forall d, blen d <= Z.of_nat (pagesOf d) * P).
  { intros d. unfold pagesOf.
    destruct (ceil_div_spec (blen d) P) as (Hn & Hlo & _);
      [lia|apply blen_nonneg|]. lia. }
  pose proof (Hd d0). pose proof (Hd d1). pose proof (Hd d2). pose proof (Hd d3).
  unfold table. repeat constructor; cbn [sizeBytes pagesPerStripe]; nia.
Qed.

Lemma table_viable :
  viableb (blen (concat written)) (sum_pps (map pagesPerStripe table)) table
          0x1000 = true.
Proof.
  pose proof stripes_pos as Hst. pose proof sum_pps_pos as Hsum.
  pose proof totalPages_spec as Htot.
  unfold viableb. rewrite written_blen, H4096.
  change (map pagesPerStripe table) with pps.
  rewrite Z.mod_mul, Z.div_mul by lia. rewrite Htot.
  replace (1 + stripesOf * sum_pps pps - 1) with (stripesOf * sum_pps pps) by lia.
  rewrite Z.mod_mul, Z.div_mul by lia.
  rewrite table_fits.
  destruct (Z.ltb_spec (1 + stripesOf * sum_pps pps) 2) as [|_]; [nia|].
  reflexivity.
Qed.

(** The constructor accepts the file and finds the layout the writer
    used. *)
Lemma open_written :
  exists idx, Idx.open (concat written) = Ok idx
    /\ channels idx = table /\ pageSize idx = 0x1000
    /\ stripes idx = stripesOf /\ paged idx sz written.
Proof.
  rewrite open_header.
  rewrite (inferPageSize_4096 _ table); [|apply sum_pps_pos|apply table_viable].
  cbn [rbind]. eexists. split; [reflexivity|].
  cbn [channels pageSize stripes].
  split; [reflexivity|]. split; [reflexivity|]. split.
  - pose proof stripes_pos. pose proof sum_pps_pos as Hsum.
    rewrite written_blen, H4096, Z.div_mul, totalPages_spec by lia.
    replace (1 + stripesOf * sum_pps pps - 1) with (stripesOf * sum_pps pps) by lia.
    apply Z.div_mul. lia.
  - split; cbn [mm pageSize sumPages chanPrefixPages channels].
    + reflexivity.
    + now rewrite H4096.
    + apply written_sizes.
    + reflexivity.
    + reflexivity.
Qed.

Lemma readChannel_written idx (c : nat) (v : Z) (d : Buffer) :
  paged idx sz written -> channels idx = table ->
  [d0; d1; d2; d3] !! c = Some d -> pps !! c = Some v ->
  Idx.readChannel idx (Z.of_nat c) = Ok d.
Proof.
  intros Hp Hch Hd Hc.
  assert (Hv : 0 < v).
  { destruct c as [|[|[|[|c]]]]; try discriminate; injection Hc as <-; lia. }
  apply (readChannel_chunks idx sz written c
           {| pagesPerStripe := v; sizeBytes := blen d |} d Hp).
  - lia.
  - rewrite Hch. apply pps_nonneg.
  - rewrite Hch.
    destruct c as [|[|[|[|c]]]]; try discriminate;
      injection Hc as <-; injection Hd as <-; reflexivity.
  - exact Hv.
  - reflexivity.
  - intros j Hj. rewrite Hch. change (map pagesPerStripe table) with pps.
    apply (written_page c v d j Hd Hc Hj).
Qed.

End Written.

(** X14. An index written by [writeIdx] with its default page size reads
    back: for positive pages-per-stripe and channel sizes that fit 32 bits,
    and at least one byte of channel data, the constructor of [PriusIdx]
    accepts the file, infers the page size 0x1000 and the channel table the
    writer used, and [readChannel] returns the four channels byte for byte. *)
Theorem writeIdx_openArchive (dtData stringData metaData fatData : Buffer)
    (v0 v1 v2 v3 : Z) (datFile : option Buffer) :
  0 < v0 < 2 ^ 32 -> 0 < v1 < 2 ^ 32 -> 0 < v2 < 2 ^ 32 -> 0 < v3 < 2 ^ 32 ->
  blen dtData < 2 ^ 32 -> blen stringData < 2 ^ 32 ->
  blen metaData < 2 ^ 32 -> blen fatData < 2 ^ 32 ->
  0 < blen dtData + blen stringData + blen metaData + blen fatData ->
  exists file idx,
    writeIdx dtData stringData metaData fatData PAGE_SIZE [v0; v1; v2; v3]
    = Ok file
    /\ Idx.openArchive file datFile
       = Ok (idx, {| dt := dtData; strings := stringData; meta := metaData;
                     fat := fatData; dat := datFile |})
    /\ pageSize idx = PAGE_SIZE
    /\ channels idx
       = [ {| pagesPerStripe := v0; sizeBytes := blen dtData |};
           {| pagesPerStripe := v1; sizeBytes := blen stringData |};
           {| pagesPerStripe := v2; sizeBytes := blen metaData |};
           {| pagesPerStripe := v3; sizeBytes := blen fatData |} ]
    /\ blen file = PAGE_SIZE * (1 + stripes idx * (v0 + v1 + v2 + v3)).
Proof.
  intros Hv0 Hv1 Hv2 Hv3 Hs0 Hs1 Hs2 Hs3 Hne.
  assert (H4096 : Z.of_nat 4096 = 0x1000) by reflexivity.
  assert (HP : 40 <= Z.of_nat 4096) by (rewrite H4096; lia).
  destruct (open_written dtData stringData metaData fatData v0 v1 v2 v3 4096
              HP Hv0 Hv1 Hv2 Hv3 Hs0 Hs1 Hs2 Hs3 H4096 Hne)
    as (idx & Hopen & Hch & Hps & Hst & Hpaged).
  exists (concat (written dtData stringData metaData fatData v0 v1 v2 v3 4096)), idx.
  split; [|split; [|split; [|split]]].
  - unfold PAGE_SIZE. rewrite <- H4096.
    apply writeIdx_written; assumption.
  - unfold Idx.openArchive. rewrite Hopen. cbn [rbind].
    assert (Hread : forall (c : nat) (v : Z) (d : Buffer),
              [dtData; stringData; metaData; fatData] !! c = Some d ->
              [v0; v1; v2; v3] !! c = Some v ->
              Idx.readChannel idx (Z.of_nat c) = Ok d).
    { intros c v d Hd Hc.
      eapply (readChannel_written dtData stringData metaData fatData
                v0 v1 v2 v3 4096); eassumption. }
    pose proof (Hread 0%nat v0 dtData eq_refl eq_refl) as R0.
    pose proof (Hread 1%nat v1 stringData eq_refl eq_refl) as R1.
    pose proof (Hread 2%nat v2 metaData eq_refl eq_refl) as R2.
    pose proof (Hread 3%nat v3 fatData eq_refl eq_refl) as R3.
    change (Z.of_nat 0) with 0 in R0. change (Z.of_nat 1) with 1 in R1.
    change (Z.of_nat 2) with 2 in R2. change (Z.of_nat 3) with 3 in R3.
    rewrite R0. cbn [rbind]. rewrite R1. cbn [rbind]. rewrite R2. cbn [rbind].
    rewrite R3. reflexivity.
  - exact Hps.
  - exact Hch.
  - rewrite written_blen by assumption.
    rewrite totalPages_spec by assumption. rewrite Hst, H4096.
    unfold PAGE_SIZE, sum_pps. cbn [fold_right]. lia.
Qed.

Lemma writeIdx_openArchive_witness :
  exists file idx,
    writeIdx [x01] [] [] [] PAGE_SIZE DEFAULT_PPS = Ok file
    /\ Idx.openArchive file None
       = Ok (idx, {| dt := [x01]; strings := []; meta := []; fat := [];
                     dat := None |})
    /\ pageSize idx = PAGE_SIZE
    /\ channels idx
       = [ {| pagesPerStripe := 4; sizeBytes := blen [x01] |};
           {| pagesPerStripe := 8; sizeBytes := blen [] |};
           {| pagesPerStripe := 1; sizeBytes := blen [] |};
           {| pagesPerStripe := 4; sizeBytes := blen [] |} ]
    /\ blen file = PAGE_SIZE * (1 + stripes idx * (4 + 8 + 1 + 4)).
Proof.
  apply (writeIdx_openArchive [x01] [] [] [] 4 8 1 4 None);
    unfold blen; cbn [length]; lia.
Defined.

Lemma stripesOf_empty (v0 v1 v2 v3 : Z) (sz : nat) :
  0 < Z.of_nat sz -> 0 < v0 -> 0 < v1 -> 0 < v2 -> 0 < v3 ->
  stripesOf [] [] [] [] v0 v1 v2 v3 sz = 0.
Proof.
  intros HP Hv0 Hv1 Hv2 Hv3. unfold stripesOf.
  cbn [map stripes_loop]. change (blen []) with 0.
  rewrite (Z.div_small (0 + Z.of_nat sz - 1)) by lia.
  rewrite !Z.div_small by lia. reflexivity.
Qed.



End IdxRoundTrip.

(** ** Channel offsets and file offsets of an opened index *)

Module ChannelFacts.
Import IndexFacts StringFacts PageFacts IdxWriter WriterFacts HeaderFacts
  RepackFacts LayoutFacts Layout IdxReadFacts.

(** The file offset of byte [o] of channel [c], for pages of [P] bytes. *)
Definition fileOff (P : Z) (pps : list Z) (c : nat) (o : Z) : Z :=
  P * (1 + page_of pps c (o / P)) + o mod P.

Lemma fileOff_range (P : Z) (pps : list Z) (c : nat) (v st o : Z) :
  Forall (fun v => 0 <= v) pps -> pps !! c = Some v -> 0 < v -> 0 < P ->
  0 <= o < st * v * P ->
  P <= fileOff P pps c o < P * (1 + st * sum_pps pps).
Proof.
  intros Hall Hc Hv HP Ho. unfold fileOff.
  assert (Hpg : 0 <= o / P < st * v).
  { split; [apply Z.div_pos; lia|]. apply Z.div_lt_upper_bound; nia. }
  pose proof (page_of_range pps c v (o / P) st Hall Hc Hv Hpg).
  pose proof (Z.mod_pos_bound o P HP). nia.
Qed.

Lemma fileOff_inj (P : Z) (pps : list Z) (c c' : nat) (v v' o o' : Z) :
  Forall (fun v => 0 <= v) pps -> pps !! c = Some v -> pps !! c' = Some v' ->
  0 < v -> 0 < v' -> 0 < P -> 0 <= o -> 0 <= o' ->
  fileOff P pps c o = fileOff P pps c' o' -> c = c' /\ o = o'.
Proof.
  intros Hall Hc Hc' Hv Hv' HP Ho Ho' E. unfold fileOff in E.
  pose proof (Z.mod_pos_bound o P HP). pose proof (Z.mod_pos_bound o' P HP).
  assert (Hpg : page_of pps c (o / P) = page_of pps c' (o' / P)) by nia.
  destruct (page_of_inj pps c c' v v' (o / P) (o' / P) Hall Hc Hc' Hv Hv'
              ltac:(apply Z.div_pos; lia) ltac:(apply Z.div_pos; lia) Hpg)
    as [-> Hq].
  split; [reflexivity|].
  rewrite (Z.div_mod o P), (Z.div_mod o' P) by lia. nia.
Qed.

(** Inside a page the file offsets follow the channel offsets. *)
Lemma fileOff_run (P : Z) (pps : list Z) (c : nat) (off i : Z) :
  0 < P -> 0 <= off -> 0 <= i -> off mod P + i < P ->
  fileOff P pps c (off + i) = fileOff P pps c off + i.
Proof.
  intros HP Hoff Hi Hfit. unfold fileOff.
  pose proof (Z.mod_pos_bound off P HP).
  assert (Hq : (off + i) / P = off / P).
  { symmetry. apply (Z.div_unique (off + i) P (off / P) (off mod P + i)); [lia|].
    rewrite (Z.div_mod off P) at 1 by lia. lia. }
  assert (Hr : (off + i) mod P = off mod P + i).
  { symmetry. apply (Z.mod_unique (off + i) P (off / P) (off mod P + i)); [lia|].
    rewrite (Z.div_mod off P) at 1 by lia. lia. }
  rewrite Hq, Hr. lia.
Qed.

(** What the constructor of [PriusIdx] has checked when it returns. *)
Record opened (file : Buffer) (idx : PriusIdx) : Prop := {
  opened_mm : mm idx = file;
  opened_size : In (pageSize idx) candidates;
  opened_sum : sumPages idx = sum_pps (map pagesPerStripe (channels idx));
  opened_sum_pos : 0 < sumPages idx;
  opened_prefix : chanPrefixPages idx = Idx.prefixPages (channels idx) 0;
  opened_stripes : 1 <= stripes idx;
  opened_len : blen file = pageSize idx * (1 + stripes idx * sumPages idx);
  opened_channels :
    Forall (fun ch => 0 <= pagesPerStripe ch /\
                      0 <= sizeBytes ch
                        <= stripes idx * pagesPerStripe ch * pageSize idx)
           (channels idx)
}.

Lemma inferPageSize_inv (fileSize : Z) (chs : list IdxChannel) (p : Z) :
  inferPageSize fileSize chs = Ok p ->
  0 < sum_pps (map pagesPerStripe chs) /\ In p candidates /\
  viableb fileSize (sum_pps (map pagesPerStripe chs)) chs p = true.
Proof.
  unfold inferPageSize. rewrite fold_left_add_acc, Z.add_0_l.
  fold (sum_pps (map pagesPerStripe chs)).
  set (sum := sum_pps (map pagesPerStripe chs)).
  destruct (Z.leb_spec sum 0) as [|Hpos]; [discriminate|].
  rewrite candidate_loop, app_nil_l.
  set (viable := List.filter (viableb fileSize sum chs) candidates).
  assert (Hv : forall q, In q viable ->
                         In q candidates /\ viableb fileSize sum chs q = true).
  { intros q Hq. apply filter_In in Hq. exact Hq. }
  destruct viable as [|x xs] eqn:Ev; [discriminate|]. cbn [length Nat.eqb].
  destruct (existsb (Z.eqb 4096) (x :: xs)) eqn:Ex.
  - intros [= <-]. apply existsb_exists in Ex as (y & Hy & Ey).
    apply Z.eqb_eq in Ey. subst y. split; [exact Hpos|]. now apply Hv.
  - intros [= <-]. split; [exact Hpos|]. apply Hv.
    apply (proj1 (min_list_least (x :: xs) ltac:(discriminate))).
Qed.

Lemma readChannels_range (file : Buffer) (count : nat) : forall off chs,
  Idx.readChannels file count off = Ok chs ->
  Forall (fun ch => 0 <= pagesPerStripe ch /\ 0 <= sizeBytes ch) chs.
Proof.
  induction count as [|count IH]; intros off chs; cbn [Idx.readChannels].
  - intros [= <-]. constructor.
  - destruct (readU32 file off) as [v| |] eqn:Ev; try discriminate.
    destruct (readU32 file (off + 4)) as [s| |] eqn:Es; try discriminate.
    cbn [rbind].
    destruct (Idx.readChannels file count (off + 8)) as [rest| |] eqn:Er;
      try discriminate.
    cbn [rbind]. intros [= <-]. constructor.
    + cbn [pagesPerStripe sizeBytes].
      apply readU32_range in Ev, Es. lia.
    + now apply (IH (off + 8)).
Qed.

Lemma open_opened (file : Buffer) (idx : PriusIdx) :
  Idx.open file = Ok idx -> opened file idx.
Proof.
  unfold Idx.open.
  destruct (negb _); [discriminate|].
  destruct (readU32 file 4) as [count| |]; try discriminate. cbn [rbind].
  destruct (_ || _); [discriminate|].
  destruct (Idx.readChannels file (Z.to_nat count) 8) as [chs| |] eqn:Ech;
    try discriminate.
  cbn [rbind].
  destruct (inferPageSize (blen file) chs) as [p| |] eqn:Ep; try discriminate.
  cbn [rbind]. intros [= <-].
  apply inferPageSize_inv in Ep as (Hsum & Hp & Hv).
  apply readChannels_range in Ech.
  unfold viableb in Hv.
  apply andb_true_iff in Hv as [Hv Hfit]. apply andb_true_iff in Hv as [Hv Hmod2].
  apply andb_true_iff in Hv as [Hmod Htot].
  apply Z.eqb_eq in Hmod, Hmod2. apply negb_true_iff, Z.ltb_ge in Htot.
  apply channels_fit_spec in Hfit.
  assert (HP : 0 < p).
  { unfold candidates in Hp. cbn in Hp. lia. }
  set (sum := sum_pps (map pagesPerStripe chs)) in *.
  set (total := blen file / p) in *.
  assert (Hfile : blen file = p * total).
  { unfold total. pose proof (Z.div_mod (blen file) p). lia. }
  assert (Hdata : total - 1 = sum * ((total - 1) / sum)).
  { pose proof (Z.div_mod (total - 1) sum). lia. }
  split; cbn [mm pageSize sumPages chanPrefixPages stripes channels].
  - reflexivity.
  - exact Hp.
  - now rewrite sumPages_fold, Z.add_0_l.
  - now rewrite sumPages_fold, Z.add_0_l.
  - reflexivity.
  - rewrite sumPages_fold, Z.add_0_l. fold sum. nia.
  - rewrite sumPages_fold, Z.add_0_l. fold sum. nia.
  - rewrite sumPages_fold, Z.add_0_l. fold sum.
    apply List.Forall_forall. intros ch Hch.
    pose proof (proj1 (List.Forall_forall _ _) Ech ch Hch) as [H1 H2].
    pose proof (proj1 (List.Forall_forall _ _) Hfit ch Hch) as H3.
    cbv beta in H3. lia.
Qed.

Lemma opened_page_pos file idx : opened file idx -> 0 < pageSize idx.
Proof.
  intros [_ Hp _ _ _ _ _ _]. unfold candidates in Hp. cbn in Hp. lia.
Qed.

Lemma opened_pps_nonneg file idx :
  opened file idx ->
  Forall (fun v => 0 <= v) (map pagesPerStripe (channels idx)).
Proof.
  intros Ho. apply List.Forall_forall. intros v Hv.
  apply in_map_iff in Hv as (ch & <- & Hch).
  apply (proj1 (List.Forall_forall _ _) (opened_channels _ _ Ho) ch Hch).
Qed.

Lemma lookup_pps (chs : list IdxChannel) (c : nat) (ch : IdxChannel) :
  chs !! c = Some ch -> map pagesPerStripe chs !! c = Some (pagesPerStripe ch).
Proof.
  intros Hc. change (map pagesPerStripe chs) with (pagesPerStripe <$> chs).
  now rewrite list_lookup_fmap, Hc.
Qed.

(** [channelOffsetToFileOffset] in closed form. *)
Lemma channelOffset_fileOff file idx (c : nat) (ch : IdxChannel) (o : Z) :
  opened file idx -> channels idx !! c = Some ch -> pagesPerStripe ch <> 0 ->
  Idx.channelOffsetToFileOffset idx (Z.of_nat c) o
  = Ok (fileOff (pageSize idx) (map pagesPerStripe (channels idx)) c o).
Proof.
  intros Ho Hc Hv.
  unfold Idx.channelOffsetToFileOffset, Idx.physOffsetForChannelPage.
  rewrite !at_index_nat, Hc, (opened_prefix _ _ Ho), prefixPages_chanPrefix.
  pose proof (lookup_pps _ _ _ Hc) as Hl.
  rewrite (chanPrefix_lookup _ c _ 0 Hl).
  destruct (Z.eqb_spec (pagesPerStripe ch) 0) as [|_]; [contradiction|].
  cbn [rbind]. rewrite (opened_sum _ _ Ho).
  unfold fileOff, page_of. rewrite (nth_lookup_Some _ _ 0 _ Hl). f_equal. lia.
Qed.

Lemma physOffset_closed file idx (c : nat) (ch : IdxChannel) (pg : Z) :
  opened file idx -> channels idx !! c = Some ch -> pagesPerStripe ch <> 0 ->
  Idx.physOffsetForChannelPage idx (Z.of_nat c) pg
  = Ok (pageSize idx
        * (1 + page_of (map pagesPerStripe (channels idx)) c pg)).
Proof.
  intros Ho Hc Hv. unfold Idx.physOffsetForChannelPage.
  rewrite !at_index_nat, Hc, (opened_prefix _ _ Ho), prefixPages_chanPrefix.
  pose proof (lookup_pps _ _ _ Hc) as Hl.
  rewrite (chanPrefix_lookup _ c _ 0 Hl).
  destruct (Z.eqb_spec (pagesPerStripe ch) 0) as [|_]; [contradiction|].
  rewrite (opened_sum _ _ Ho).
  unfold page_of. rewrite (nth_lookup_Some _ _ 0 _ Hl). f_equal. lia.
Qed.

(** A channel offset inside the pages of its channel has a file offset
    behind the header page and inside the file. *)
Lemma channel_offset_ok file idx (c : nat) (ch : IdxChannel) (o : Z) :
  opened file idx -> channels idx !! c = Some ch ->
  0 <= o < stripes idx * pagesPerStripe ch * pageSize idx ->
  0 < pagesPerStripe ch /\
  Idx.channelOffsetToFileOffset idx (Z.of_nat c) o
  = Ok (fileOff (pageSize idx) (map pagesPerStripe (channels idx)) c o) /\
  pageSize idx
  <= fileOff (pageSize idx) (map pagesPerStripe (channels idx)) c o
  < blen file.
Proof.
  intros Ho Hc Hr.
  pose proof (opened_page_pos _ _ Ho) as HP.
  pose proof (opened_stripes _ _ Ho) as Hst.
  assert (Hch : 0 <= pagesPerStripe ch).
  { apply (proj1 (Forall_lookup _ _) (opened_channels _ _ Ho) c ch Hc). }
  assert (Hv : 0 < pagesPerStripe ch) by nia.
  split; [exact Hv|]. split.
  - apply (channelOffset_fileOff file idx c ch); [assumption|assumption|lia].
  - rewrite (opened_len _ _ Ho), (opened_sum _ _ Ho).
    apply (fileOff_range _ _ c (pagesPerStripe ch));
      [apply (opened_pps_nonneg file); assumption
      |now apply lookup_pps|assumption|assumption|assumption].
Qed.

(** *** Buffers, byte by byte *)

Lemma lookup_splice {A} (dst src : list A) (a p : nat) :
  (a + length src <= length dst)%nat ->
  (take a dst ++ src ++ drop (a + length src) dst) !! p
  = if decide (a <= p < a + length src)%nat then src !! (p - a)%nat
    else dst !! p.
Proof.
  intros Hfit.
  assert (Hla : length (take a dst) = a) by (rewrite length_take; lia).
  destruct (decide (a <= p < a + length src)%nat) as [Hin|Hout].
  - rewrite lookup_app_r by lia. rewrite Hla. apply lookup_app_l. lia.
  - destruct (Nat.lt_ge_cases p a).
    + rewrite lookup_app_l by lia. now apply lookup_take_lt.
    + rewrite lookup_app_r by lia. rewrite lookup_app_r by lia.
      rewrite lookup_drop, Hla. f_equal. lia.
Qed.

Lemma length_splice {A} (dst src : list A) (a : nat) :
  (a + length src <= length dst)%nat ->
  length (take a dst ++ src ++ drop (a + length src) dst) = length dst.
Proof.
  intros Hfit. rewrite !length_app, length_take, length_drop. lia.
Qed.

Lemma pwrite_splice (file data : Buffer) (pos : Z) :
  0 <= pos -> pos + blen data <= blen file ->
  pwrite file data pos
  = take (Z.to_nat pos) file ++ data
    ++ drop (Z.to_nat pos + length data) file.
Proof.
  intros Hp Hfit. unfold pwrite, blen in *.
  destruct (Nat.eqb_spec (length data) 0) as [E|_].
  - destruct data; [|discriminate]. cbn [app length].
    now rewrite Nat.add_0_r, take_drop.
  - replace (Z.to_nat pos - length file)%nat with 0%nat by lia. reflexivity.
Qed.

Lemma lookup_subarray (buf : Buffer) (a b i : Z) :
  0 <= a -> 0 <= i < b - a ->
  subarray buf a b !! Z.to_nat i = buf !! Z.to_nat (a + i).
Proof.
  intros Ha Hi. unfold subarray.
  rewrite lookup_take_lt by lia. rewrite lookup_drop. f_equal. lia.
Qed.

Lemma blen_subarray (buf : Buffer) (a b : Z) :
  0 <= a <= b -> b <= blen buf -> blen (subarray buf a b) = b - a.
Proof.
  intros Ha Hb. unfold subarray, blen in *.
  rewrite length_take, length_drop. lia.
Qed.

(** X16. The striped layout keeps the channels apart: in an index the
    constructor accepted, every offset inside the pages of a channel has a
    file offset behind the header page and inside the file, and two
    different (channel, offset) pairs never share a file offset. *)
Theorem channel_offsets_apart (file : Buffer) (idx : PriusIdx) (c c' : nat)
    (ch ch' : IdxChannel) (o o' : Z) :
  Idx.open file = Ok idx ->
  channels idx !! c = Some ch -> channels idx !! c' = Some ch' ->
  0 <= o < stripes idx * pagesPerStripe ch * pageSize idx ->
  0 <= o' < stripes idx * pagesPerStripe ch' * pageSize idx ->
  exists p p',
    Idx.channelOffsetToFileOffset idx (Z.of_nat c) o = Ok p /\
    Idx.channelOffsetToFileOffset idx (Z.of_nat c') o' = Ok p' /\
    pageSize idx <= p < blen file /\
    (p = p' -> c = c' /\ o = o').
Proof.
  intros Hopen Hc Hc' Ho Ho'. apply open_opened in Hopen.
  destruct (channel_offset_ok file idx c ch o Hopen Hc Ho) as (Hv & E & Hr).
  destruct (channel_offset_ok file idx c' ch' o' Hopen Hc' Ho') as (Hv' & E' & _).
  eexists _, _. split; [exact E|]. split; [exact E'|]. split; [exact Hr|].
  apply (fileOff_inj _ _ c c' (pagesPerStripe ch) (pagesPerStripe ch'));
    try lia.
  - apply (opened_pps_nonneg file); assumption.
  - now apply lookup_pps.
  - now apply lookup_pps.
  - apply (opened_page_pos file); assumption.
Qed.

(** *** Reading a channel *)

Lemma ceil_div_cap (size P cap : Z) :
  0 < P -> 0 <= size <= cap * P -> 0 <= ceil_div size P <= cap.
Proof.
  intros HP Hs. destruct (ceil_div_spec size P HP ltac:(lia)) as (H0 & Hlo & Hhi).
  split; [exact H0|]. nia.
Qed.

(** The loop of [readChannel], byte by byte. *)
Lemma readPages_bytes file idx (c : nat) (ch : IdxChannel) (count : nat) :
  opened file idx -> channels idx !! c = Some ch -> 0 < pagesPerStripe ch ->
  forall (k : nat) (out : Buffer),
    Z.of_nat k + Z.of_nat count <= stripes idx * pagesPerStripe ch ->
    (Z.of_nat k + Z.of_nat count) * pageSize idx <= blen out ->
    exists out',
      Idx.readPages idx (Z.of_nat c) count (Z.of_nat k) out = Ok out' /\
      blen out' = blen out /\
      (forall o, Z.of_nat k * pageSize idx <= o
                 < (Z.of_nat k + Z.of_nat count) * pageSize idx ->
         out' !! Z.to_nat o
         = file !! Z.to_nat (fileOff (pageSize idx)
                               (map pagesPerStripe (channels idx)) c o)) /\
      (forall o, 0 <= o < Z.of_nat k * pageSize idx ->
         out' !! Z.to_nat o = out !! Z.to_nat o).
Proof.
  intros Ho Hc Hv.
  pose proof (opened_page_pos _ _ Ho) as HP.
  set (P := pageSize idx) in *.
  set (pps := map pagesPerStripe (channels idx)).
  induction count as [|count IH]; intros k out Hcap Hlen.
  - exists out. cbn [Idx.readPages]. split; [reflexivity|].
    split; [reflexivity|]. split; [intros o Hr; lia|reflexivity].
  - cbn [Idx.readPages].
    rewrite (physOffset_closed file idx c ch _ Ho Hc) by lia. cbn [rbind].
    fold P pps.
    set (off := P * (1 + page_of pps c (Z.of_nat k))).
    assert (Hoff : forall i, 0 <= i < P ->
              fileOff P pps c (Z.of_nat k * P + i) = off + i).
    { intros i Hi. rewrite fileOff_run; try lia.
      - unfold fileOff, off. rewrite Z.div_mul, Z.mod_mul by lia. lia.
      - rewrite Z.mod_mul by lia. lia. }
    assert (Hin : P <= off /\ off + P <= blen file).
    { pose proof (channel_offset_ok file idx c ch (Z.of_nat k * P + (P - 1)) Ho Hc
                    ltac:(fold P; nia)) as (_ & _ & Hr).
      fold P pps in Hr. rewrite Hoff in Hr by lia.
      pose proof (channel_offset_ok file idx c ch (Z.of_nat k * P + 0) Ho Hc
                    ltac:(fold P; nia)) as (_ & _ & Hr0).
      fold P pps in Hr0. rewrite Hoff in Hr0 by lia. lia. }
    rewrite (opened_mm _ _ Ho).
    set (page := subarray file off (off + P)).
    assert (Hpage : blen page = P).
    { unfold page. rewrite blen_subarray; lia. }
    set (out1 := copy_into page out (Z.of_nat k * P)).
    assert (Hout1 : out1 = take (Z.to_nat (Z.of_nat k * P)) out ++ page
                      ++ drop (Z.to_nat (Z.of_nat k * P) + length page) out).
    { unfold out1. apply copy_into_fits; lia. }
    assert (Hfit : (Z.to_nat (Z.of_nat k * P) + length page <= length out)%nat).
    { unfold blen in *. lia. }
    destruct (IH (S k) out1) as (out' & Hrun & Hlen' & Hnew & Hold).
    + lia.
    + unfold blen. rewrite Hout1, length_splice by exact Hfit.
      unfold blen in Hlen. lia.
    + exists out'. replace (Z.of_nat k + 1) with (Z.of_nat (S k)) by lia.
      split; [exact Hrun|]. split.
      * rewrite Hlen'. unfold blen. rewrite Hout1, length_splice by exact Hfit.
        reflexivity.
      * split.
        -- intros o Hr.
           destruct (Z.lt_ge_cases o (Z.of_nat (S k) * P)) as [Hlt|Hge].
           ++ rewrite Hold by lia. rewrite Hout1, lookup_splice by exact Hfit.
              destruct (decide _) as [_|Hn]; [|unfold blen in Hpage; lia].
              replace (Z.to_nat o - Z.to_nat (Z.of_nat k * P))%nat
                with (Z.to_nat (o - Z.of_nat k * P)) by lia.
              unfold page. rewrite lookup_subarray by lia.
              rewrite <- Hoff by lia. do 3 f_equal. lia.
           ++ apply Hnew. lia.
        -- intros o Hr. rewrite Hold by lia.
           rewrite Hout1, lookup_splice by exact Hfit.
           destruct (decide _) as [Hn|_]; [lia|reflexivity].
Qed.

Lemma readChannel_opened file idx (c : nat) (ch : IdxChannel) :
  opened file idx -> channels idx !! c = Some ch ->
  exists out,
    Idx.readChannel idx (Z.of_nat c) = Ok out /\
    blen out = sizeBytes ch /\
    forall o, 0 <= o < sizeBytes ch ->
      out !! Z.to_nat o
      = file !! Z.to_nat (fileOff (pageSize idx)
                            (map pagesPerStripe (channels idx)) c o).
Proof.
  intros Ho Hc.
  pose proof (opened_page_pos _ _ Ho) as HP.
  pose proof (opened_stripes _ _ Ho) as Hst.
  pose proof (proj1 (Forall_lookup _ _) (opened_channels _ _ Ho) c ch Hc)
    as (Hv & Hs0 & Hs).
  unfold Idx.readChannel. rewrite at_index_nat, Hc.
  fold (ceil_div (sizeBytes ch) (pageSize idx)).
  destruct (ceil_div_spec (sizeBytes ch) (pageSize idx) HP Hs0)
    as (Hn0 & Hlo & Hhi).
  pose proof (ceil_div_cap (sizeBytes ch) (pageSize idx)
                (stripes idx * pagesPerStripe ch) HP ltac:(lia)) as Hcap.
  set (n := ceil_div (sizeBytes ch) (pageSize idx)) in *.
  assert (Halloc : blen (alloc (n * pageSize idx)) = n * pageSize idx).
  { unfold blen, alloc. rewrite length_replicate. nia. }
  destruct (Z.eq_dec (pagesPerStripe ch) 0) as [Hz|Hnz].
  - assert (Hsz : sizeBytes ch = 0) by nia.
    assert (Hn : n = 0) by nia.
    rewrite Hn. cbn [Z.to_nat Idx.readPages rbind]. eexists. split; [reflexivity|].
    rewrite Hsz. split; [reflexivity|]. intros o Hr. lia.
  - destruct (readPages_bytes file idx c ch (Z.to_nat n) Ho Hc ltac:(lia) 0%nat
                (alloc (n * pageSize idx)))
      as (out' & Hrun & Hlen & Hnew & _).
    + lia.
    + rewrite Halloc. lia.
    + change (Z.of_nat 0) with 0 in Hrun. rewrite Hrun. cbn [rbind].
      eexists. split; [reflexivity|]. split.
      * rewrite blen_subarray; lia.
      * intros o Hr.
        rewrite lookup_subarray by lia. rewrite Z.add_0_l. apply Hnew. lia.
Qed.

(** X17. In an index the constructor accepted, [readChannel] returns
    [sizeBytes] bytes, and byte [o] of what it returns is the byte of the
    file at [channelOffsetToFileOffset(channel, o)]. *)
Theorem readChannel_bytes (file : Buffer) (idx : PriusIdx) (c : nat)
    (ch : IdxChannel) :
  Idx.open file = Ok idx -> channels idx !! c = Some ch ->
  exists out,
    Idx.readChannel idx (Z.of_nat c) = Ok out /\
    blen out = sizeBytes ch /\
    forall o, 0 <= o < sizeBytes ch ->
      exists p,
        Idx.channelOffsetToFileOffset idx (Z.of_nat c) o = Ok p /\
        out !! Z.to_nat o = file !! Z.to_nat p.
Proof.
  intros Hopen Hc. apply open_opened in Hopen as Ho.
  destruct (readChannel_opened file idx c ch Ho Hc) as (out & Hread & Hlen & Hb).
  exists out. split; [exact Hread|]. split; [exact Hlen|].
  intros o Hr.
  pose proof (proj1 (Forall_lookup _ _) (opened_channels _ _ Ho) c ch Hc)
    as (_ & _ & Hs).
  destruct (channel_offset_ok file idx c ch o Ho Hc ltac:(lia)) as (_ & E & _).
  eexists. split; [exact E|]. now apply Hb.
Qed.

(** *** Writing into a channel *)

(** [file'] has the length of [file], and differs from it at most at the
    file offsets of the channel offsets of [data] from [cursor] on. *)
Definition frame (idx : PriusIdx) (c : nat) (data : Buffer)
    (cursor off : Z) (file file' : Buffer) : Prop :=
  blen file' = blen file /\
  (forall p : nat,
     (forall i, cursor <= i < blen data ->
        Z.of_nat p <> fileOff (pageSize idx)
                        (map pagesPerStripe (channels idx)) c
                        (off + (i - cursor))) ->
     file' !! p = file !! p).

(** Moreover the bytes of [data] from [cursor] on sit at these offsets. *)
Definition landed (idx : PriusIdx) (c : nat) (data : Buffer)
    (cursor off : Z) (file file' : Buffer) : Prop :=
  frame idx c data cursor off file file' /\
  (forall i, cursor <= i < blen data ->
     file' !! Z.to_nat (fileOff (pageSize idx)
                          (map pagesPerStripe (channels idx)) c
                          (off + (i - cursor)))
     = data !! Z.to_nat i).

(** How a run of the loop may end. *)
Definition loop_outcome (fault : option (nat * write_fault))
    (idx : PriusIdx) (c : nat) (data : Buffer) (cursor off : Z)
    (file : Buffer) (r : result unit * IdxFd) : Prop :=
  match r with
  | (Ok _, fd') => landed idx c data cursor off file (content fd')
  | (Throw e, fd') =>
      fault <> None /\ (e = ShortIdxWrite \/ e = IoFailure) /\
      frame idx c data cursor off file (content fd')
  | (OutOfFuel, _) => False
  end.

Lemma frame_refl idx c data cursor off file :
  frame idx c data cursor off file file.
Proof. split; [reflexivity|]. intros p _. reflexivity. Qed.

Lemma write_loop_bytes file0 idx (c : nat) (ch : IdxChannel) (data : Buffer)
    (fault : option (nat * write_fault)) (fuel : nat) :
  opened file0 idx -> channels idx !! c = Some ch -> 0 < pagesPerStripe ch ->
  forall (cursor off : Z) (fd : IdxFd),
    0 <= cursor <= blen data ->
    (Z.to_nat (blen data - cursor) < fuel)%nat ->
    0 <= off ->
    off + (blen data - cursor)
      <= stripes idx * pagesPerStripe ch * pageSize idx ->
    blen (content fd) = blen file0 ->
    loop_outcome fault idx c data cursor off (content fd)
      (writeIdxChannelBytes_loop fault fuel idx (Z.of_nat c) off cursor data fd).
Proof.
  intros Ho Hc Hv.
  pose proof (opened_page_pos _ _ Ho) as HP.
  pose proof (opened_pps_nonneg _ _ Ho) as Hall.
  pose proof (lookup_pps _ _ _ Hc) as Hl.
  induction fuel as [|fuel IH]; intros cursor off fd Hcur Hfuel Hoff Hcap Hlen;
    [lia|].
  cbn [writeIdxChannelBytes_loop].
  destruct (Z.ltb_spec cursor (blen data)) as [Hlt|Hge]; cbn [negb].
  - unfold landed, frame in *.
    set (P := pageSize idx) in *.
    set (pps := map pagesPerStripe (channels idx)) in *.
    pose proof (Z.mod_pos_bound off P HP) as Hmod.
    set (tk := Z.min (P - off mod P) (blen data - cursor)).
    assert (Htk : 0 < tk /\ tk <= P - off mod P /\ tk <= blen data - cursor)
      by (unfold tk; lia).
    destruct (channel_offset_ok file0 idx c ch off Ho Hc ltac:(fold P; nia))
      as (_ & E & Hr0).
    rewrite E. fold P pps in Hr0 |- *.
    assert (Hrun : forall j, 0 <= j < tk ->
              fileOff P pps c (off + j) = fileOff P pps c off + j).
    { intros j Hj. apply fileOff_run; lia. }
    destruct (channel_offset_ok file0 idx c ch (off + (tk - 1)) Ho Hc
                ltac:(fold P; nia)) as (_ & _ & Hr1).
    fold P pps in Hr1. rewrite Hrun in Hr1 by lia.
    set (pos := fileOff P pps c off) in *.
    (* a write of the first [w] bytes of this turn *)
    assert (Hpart : forall w, 0 <= w <= tk ->
              let piece := subarray data cursor (cursor + w) in
              let file1 := pwrite (content fd) piece pos in
              blen file1 = blen (content fd) /\
              (forall p : nat, ~ (pos <= Z.of_nat p < pos + w) ->
                 file1 !! p = content fd !! p) /\
              (forall j, 0 <= j < w ->
                 file1 !! Z.to_nat (pos + j) = data !! Z.to_nat (cursor + j))).
    { intros w Hw piece file1.
      assert (Hpiece : blen piece = w).
      { unfold piece. rewrite blen_subarray; lia. }
      assert (Hfit : (Z.to_nat pos + length piece <= length (content fd))%nat).
      { unfold blen in *. lia. }
      assert (Hw1 : file1 = take (Z.to_nat pos) (content fd) ++ piece
                            ++ drop (Z.to_nat pos + length piece) (content fd)).
      { unfold file1. apply pwrite_splice; lia. }
      split; [|split].
      - unfold blen. rewrite Hw1, length_splice by exact Hfit. reflexivity.
      - intros p Hp. rewrite Hw1, lookup_splice by exact Hfit.
        destruct (decide _) as [Hin|_]; [|reflexivity].
        unfold blen in Hpiece. lia.
      - intros j Hj. rewrite Hw1, lookup_splice by exact Hfit.
        destruct (decide _) as [_|Hn]; [|unfold blen in Hpiece; lia].
        replace (Z.to_nat (pos + j) - Z.to_nat pos)%nat with (Z.to_nat j) by lia.
        unfold piece. now rewrite lookup_subarray by lia. }
    (* positions outside the range of the whole call are outside this turn *)
    assert (Hout : forall p : nat,
              (forall i, cursor <= i < blen data ->
                 Z.of_nat p <> fileOff P pps c (off + (i - cursor))) ->
              forall w, 0 <= w <= tk -> ~ (pos <= Z.of_nat p < pos + w)).
    { intros p Hp w Hw Hin. apply (Hp (cursor + (Z.of_nat p - pos))); [lia|].
      replace (cursor + (Z.of_nat p - pos) - cursor) with (Z.of_nat p - pos)
        by lia.
      rewrite Hrun by lia. lia. }
    destruct (Hpart tk ltac:(lia)) as (Hlen1 & Hold1 & Hnew1).
    set (fd1 := {| content := pwrite (content fd)
                                (subarray data cursor (cursor + tk)) pos;
                   calls := S (calls fd) |}).
    assert (Hcont : loop_outcome fault idx c data cursor off (content fd)
              (writeIdxChannelBytes_loop fault fuel idx (Z.of_nat c) (off + tk)
                 (cursor + tk) data fd1)).
    { specialize (IH (cursor + tk) (off + tk) fd1 ltac:(lia) ltac:(lia)
                     ltac:(lia) ltac:(lia) ltac:(cbn [fd1 content]; lia)).
      assert (Hframe : forall file',
                frame idx c data (cursor + tk) (off + tk) (content fd1) file' ->
                frame idx c data cursor off (content fd) file').
      { intros file' (Hl' & Hf'). split; [cbn [fd1 content] in Hl'; lia|].
        fold P pps in Hf' |- *. intros p Hp. rewrite Hf'.
        - cbn [fd1 content]. apply Hold1. apply (Hout p Hp tk). lia.
        - intros i' Hi'.
          replace (off + tk + (i' - (cursor + tk))) with (off + (i' - cursor))
            by lia.
          apply Hp. lia. }
      destruct (writeIdxChannelBytes_loop fault fuel idx (Z.of_nat c) (off + tk)
                  (cursor + tk) data fd1) as [[u|e|] fd']; cbn [loop_outcome] in *.
      - destruct IH as (Hfr & Hnew). split; [now apply Hframe|].
        fold P pps in Hnew |- *. intros i Hi.
        destruct (Z.lt_ge_cases i (cursor + tk)) as [Hin|Hlater].
        + destruct Hfr as (_ & Hf'). fold P pps in Hf'. rewrite Hf'.
          * rewrite Hrun by lia. cbn [fd1 content].
            rewrite (Hnew1 (i - cursor)) by lia. f_equal. lia.
          * intros i' Hi' Heq. rewrite Z2Nat.id in Heq by (rewrite Hrun; lia).
            apply (fileOff_inj P pps c c (pagesPerStripe ch)
                     (pagesPerStripe ch)) in Heq; try assumption; lia.
        + replace (off + (i - cursor)) with (off + tk + (i - (cursor + tk)))
            by lia.
          apply Hnew. lia.
      - destruct IH as (Hf & He & Hfr). split; [exact Hf|]. split; [exact He|].
        now apply Hframe.
      - exact IH. }
    unfold writeSync.
    destruct fault as [[k f]|].
    + destruct (k =? calls fd)%nat.
      * destruct f as [w|].
        -- destruct (Z.eqb_spec (Z.max 0 (Z.min w tk)) tk) as [Ew|Hw']; cbn [negb].
           ++ rewrite Ew. exact Hcont.
           ++ cbn [loop_outcome content]. split; [discriminate|].
              split; [now left|].
              destruct (Hpart (Z.max 0 (Z.min w tk)) ltac:(lia))
                as (Hl2 & Ho2 & _).
              split; [exact Hl2|]. fold P pps. intros p Hp. apply Ho2.
              apply Hout; [exact Hp|lia].
        -- cbn [loop_outcome content]. split; [discriminate|].
           split; [now right|]. apply frame_refl.
      * rewrite Z.eqb_refl. cbn [negb]. exact Hcont.
    + rewrite Z.eqb_refl. cbn [negb]. exact Hcont.
  - cbn [loop_outcome]. split; [apply frame_refl|]. intros i Hi. lia.
Qed.

Lemma writeIdxChannelBytes_outcome file0 idx (c : nat) (ch : IdxChannel)
    (fault : option (nat * write_fault)) (off : Z) (data : Buffer)
    (fd : IdxFd) :
  opened file0 idx -> channels idx !! c = Some ch ->
  0 <= off ->
  off + blen data <= stripes idx * pagesPerStripe ch * pageSize idx ->
  blen (content fd) = blen file0 ->
  loop_outcome fault idx c data 0 off (content fd)
    (writeIdxChannelBytes fault idx (Z.of_nat c) off data fd).
Proof.
  intros Ho Hc Hoff Hcap Hlen.
  pose proof (opened_page_pos _ _ Ho) as HP.
  pose proof (opened_stripes _ _ Ho) as Hst.
  pose proof (proj1 (Forall_lookup _ _) (opened_channels _ _ Ho) c ch Hc)
    as (Hv & _).
  unfold writeIdxChannelBytes.
  destruct (Z.eq_dec (blen data) 0) as [Hempty|Hdata].
  - assert (data = []) as -> by (destruct data; [reflexivity|discriminate]).
    cbn [length writeIdxChannelBytes_loop]. change (blen []) with 0.
    cbn [Z.ltb Z.compare negb loop_outcome content].
    split; [apply frame_refl|]. intros i Hi. change (blen []) with 0 in Hi. lia.
  - pose proof (blen_nonneg data).
    assert (Hpos : 0 < pagesPerStripe ch) by nia.
    apply (write_loop_bytes file0 idx c ch data fault (S (length data)) Ho Hc
             Hpos 0 off fd).
    + lia.
    + unfold blen. lia.
    + exact Hoff.
    + lia.
    + exact Hlen.
Qed.

Lemma frame_offsets file idx (c : nat) (ch : IdxChannel) (off : Z)
    (data file' : Buffer) :
  opened file idx -> channels idx !! c = Some ch -> 0 <= off ->
  off + blen data <= stripes idx * pagesPerStripe ch * pageSize idx ->
  frame idx c data 0 off file file' ->
  blen file' = blen file /\
  (forall p : nat,
     (forall i, 0 <= i < blen data ->
        Idx.channelOffsetToFileOffset idx (Z.of_nat c) (off + i)
        <> Ok (Z.of_nat p)) ->
     file' !! p = file !! p).
Proof.
  intros Ho Hc Hoff Hcap (Hlen & Hold). split; [exact Hlen|].
  intros p Hp. apply Hold. intros i Hi Heq.
  destruct (channel_offset_ok file idx c ch (off + i) Ho Hc ltac:(lia))
    as (_ & E & _).
  apply (Hp i Hi). rewrite E, Heq. now rewrite Z.sub_0_r.
Qed.

Lemma landed_offsets file idx (c : nat) (ch : IdxChannel) (off : Z)
    (data file' : Buffer) :
  opened file idx -> channels idx !! c = Some ch -> 0 <= off ->
  off + blen data <= stripes idx * pagesPerStripe ch * pageSize idx ->
  landed idx c data 0 off file file' ->
  blen file' = blen file /\
  (forall i, 0 <= i < blen data ->
     exists p,
       Idx.channelOffsetToFileOffset idx (Z.of_nat c) (off + i) = Ok p /\
       file' !! Z.to_nat p = data !! Z.to_nat i) /\
  (forall p : nat,
     (forall i, 0 <= i < blen data ->
        Idx.channelOffsetToFileOffset idx (Z.of_nat c) (off + i)
        <> Ok (Z.of_nat p)) ->
     file' !! p = file !! p).
Proof.
  intros Ho Hc Hoff Hcap (Hfr & Hnew).
  destruct (frame_offsets file idx c ch off data file' Ho Hc Hoff Hcap Hfr)
    as (Hlen & Hold).
  split; [exact Hlen|]. split; [|exact Hold].
  intros i Hi.
  destruct (channel_offset_ok file idx c ch (off + i) Ho Hc ltac:(lia))
    as (_ & E & _).
  eexists. split; [exact E|].
  specialize (Hnew i Hi). rewrite Z.sub_0_r in Hnew. exact Hnew.
Qed.

(** X18. [writeIdxChannelBytes] on an index the constructor accepted, for
    a range inside the pages of the channel and with no write going wrong:
    it returns, the file keeps its length, every byte of the data lands at
    the file offset of its channel offset, and every other byte of the file
    is left as it was. *)
Theorem writeIdxChannelBytes_lands (file : Buffer) (idx : PriusIdx) (c : nat)
    (ch : IdxChannel) (off : Z) (data : Buffer) (n : nat) :
  Idx.open file = Ok idx -> channels idx !! c = Some ch ->
  0 <= off ->
  off + blen data <= stripes idx * pagesPerStripe ch * pageSize idx ->
  exists fd',
    writeIdxChannelBytes None idx (Z.of_nat c) off data
      {| content := file; calls := n |} = (Ok tt, fd') /\
    blen (content fd') = blen file /\
    (forall i, 0 <= i < blen data ->
       exists p,
         Idx.channelOffsetToFileOffset idx (Z.of_nat c) (off + i) = Ok p /\
         content fd' !! Z.to_nat p = data !! Z.to_nat i) /\
    (forall p : nat,
       (forall i, 0 <= i < blen data ->
          Idx.channelOffsetToFileOffset idx (Z.of_nat c) (off + i)
          <> Ok (Z.of_nat p)) ->
       content fd' !! p = file !! p).
Proof.
  intros Hopen Hc Hoff Hcap. apply open_opened in Hopen as Ho.
  pose proof (writeIdxChannelBytes_outcome file idx c ch None off data
                {| content := file; calls := n |} Ho Hc Hoff Hcap eq_refl) as Hout.
  cbn [content] in Hout.
  destruct (writeIdxChannelBytes None idx (Z.of_nat c) off data
              {| content := file; calls := n |}) as [[[]|e|] fd'];
    cbn [loop_outcome] in Hout.
  - exists fd'. split; [reflexivity|].
    apply (landed_offsets file idx c ch off data (content fd') Ho Hc Hoff Hcap Hout).
  - destruct Hout as [Hf _]. congruence.
  - destruct Hout.
Qed.

(** X19. Whatever a [writeSync] call does, [writeIdxChannelBytes] never
    returns after a short write: on the same index and range it ends after
    at most one write per byte, and either it returns with all the data in
    place, or it throws, the short-write error or the error of the failed
    call; either way the file keeps its length and no byte outside the
    range is touched. *)
Theorem writeIdxChannelBytes_all_or_throw (file : Buffer) (idx : PriusIdx)
    (c : nat) (ch : IdxChannel) (fault : option (nat * write_fault))
    (off : Z) (data : Buffer) (n : nat) :
  Idx.open file = Ok idx -> channels idx !! c = Some ch ->
  0 <= off ->
  off + blen data <= stripes idx * pagesPerStripe ch * pageSize idx ->
  let untouched (file' : Buffer) :=
    blen file' = blen file /\
    forall p : nat,
      (forall i, 0 <= i < blen data ->
         Idx.channelOffsetToFileOffset idx (Z.of_nat c) (off + i)
         <> Ok (Z.of_nat p)) ->
      file' !! p = file !! p in
  match writeIdxChannelBytes fault idx (Z.of_nat c) off data
          {| content := file; calls := n |} with
  | (Ok _, fd') =>
      untouched (content fd') /\
      forall i, 0 <= i < blen data ->
        exists p,
          Idx.channelOffsetToFileOffset idx (Z.of_nat c) (off + i) = Ok p /\
          content fd' !! Z.to_nat p = data !! Z.to_nat i
  | (Throw e, fd') =>
      (e = ShortIdxWrite \/ e = IoFailure) /\ untouched (content fd')
  | (OutOfFuel, _) => False
  end.
Proof.
  intros Hopen Hc Hoff Hcap untouched. apply open_opened in Hopen as Ho.
  pose proof (writeIdxChannelBytes_outcome file idx c ch fault off data
                {| content := file; calls := n |} Ho Hc Hoff Hcap eq_refl) as Hout.
  cbn [content] in Hout.
  destruct (writeIdxChannelBytes fault idx (Z.of_nat c) off data
              {| content := file; calls := n |}) as [[u|e|] fd'];
    cbn [loop_outcome] in Hout.
  - destruct (landed_offsets file idx c ch off data (content fd') Ho Hc Hoff
                Hcap Hout) as (Hlen & Hnew & Hold).
    split; [split; assumption|exact Hnew].
  - destruct Hout as (_ & He & Hfr). split; [exact He|].
    apply (frame_offsets file idx c ch off data (content fd') Ho Hc Hoff Hcap Hfr).
  - exact Hout.
Qed.

(** *** Opening the file again after a channel write *)

Lemma readU32_ext (buf buf' : Buffer) (off : Z) :
  blen buf' = blen buf ->
  (forall i : nat, (i < 4)%nat ->
     buf' !! (Z.to_nat off + i)%nat = buf !! (Z.to_nat off + i)%nat) ->
  readU32 buf' off = readU32 buf off.
Proof.
  intros Hlen Hb. unfold readU32. rewrite Hlen.
  destruct ((off <? 0) || (blen buf <? off + 4)) eqn:Et; [reflexivity|].
  apply orb_false_iff in Et as [E1 E2]. apply Z.ltb_ge in E1, E2.
  assert (Hd : forall i : nat, (i < 4)%nat ->
            drop (Z.to_nat off) buf' !! i = drop (Z.to_nat off) buf !! i).
  { intros i Hi. rewrite !lookup_drop. now apply Hb. }
  assert (Hl : (4 <= length (drop (Z.to_nat off) buf))%nat).
  { rewrite length_drop. unfold blen in E2. lia. }
  assert (Hl' : (4 <= length (drop (Z.to_nat off) buf'))%nat).
  { rewrite length_drop. unfold blen in Hlen, E2. lia. }
  destruct (drop (Z.to_nat off) buf) as [|b0 [|b1 [|b2 [|b3 r]]]];
    cbn [length] in Hl; try lia.
  destruct (drop (Z.to_nat off) buf') as [|a0 [|a1 [|a2 [|a3 r']]]];
    cbn [length] in Hl'; try lia.
  pose proof (Hd 0%nat ltac:(lia)) as H0. pose proof (Hd 1%nat ltac:(lia)) as H1.
  pose proof (Hd 2%nat ltac:(lia)) as H2. pose proof (Hd 3%nat ltac:(lia)) as H3.
  cbn in H0, H1, H2, H3. congruence.
Qed.

Lemma readChannels_ext (file file' : Buffer) (count : nat) : forall off : Z,
  0 <= off -> blen file' = blen file ->
  (forall p : nat, (Z.of_nat p < off + 8 * Z.of_nat count) ->
     file' !! p = file !! p) ->
  Idx.readChannels file' count off = Idx.readChannels file count off.
Proof.
  induction count as [|count IH]; intros off Hoff Hlen Hb; [reflexivity|].
  cbn [Idx.readChannels].
  rewrite (readU32_ext file file' off Hlen) by (intros i Hi; apply Hb; lia).
  rewrite (readU32_ext file file' (off + 4) Hlen)
    by (intros i Hi; apply Hb; lia).
  rewrite (IH (off + 8)); [reflexivity|lia|exact Hlen|].
  intros p Hp. apply Hb. lia.
Qed.

(** The same index with other file bytes. *)
Definition with_mm (idx : PriusIdx) (file : Buffer) : PriusIdx :=
  {| mm := file; channels := channels idx; pageSize := pageSize idx;
     stripes := stripes idx; sumPages := sumPages idx;
     chanPrefixPages := chanPrefixPages idx |}.

(** The constructor looks at the length of the file and at the channel
    table, which ends before byte 136. *)
Lemma open_ext (file file' : Buffer) (idx : PriusIdx) :
  blen file' = blen file ->
  (forall p : nat, (p < 136)%nat -> file' !! p = file !! p) ->
  Idx.open file = Ok idx -> Idx.open file' = Ok (with_mm idx file').
Proof.
  intros Hlen Hb. unfold Idx.open.
  assert (Hm : subarray file' 0 4 = subarray file 0 4).
  { unfold subarray. change (Z.to_nat 0) with 0%nat. rewrite !drop_0.
    apply list_eq. intros i. rewrite !lookup_take.
    destruct (decide (i < Z.to_nat (4 - 0))%nat) as [Hi|]; [|reflexivity].
    apply Hb. lia. }
  rewrite Hm. destruct (negb _); [discriminate|].
  rewrite (readU32_ext file file' 4 Hlen) by (intros i Hi; apply Hb; lia).
  destruct (readU32 file 4) as [count| |]; try discriminate. cbn [rbind].
  destruct (Z.leb_spec count 0) as [|Hc0]; [discriminate|].
  destruct (Z.ltb_spec 16 count) as [|Hc16]; [discriminate|]. cbn [orb].
  rewrite (readChannels_ext file file' (Z.to_nat count) 8 ltac:(lia) Hlen)
    by (intros p Hp; apply Hb; lia).
  destruct (Idx.readChannels file (Z.to_nat count) 8) as [chs| |];
    try discriminate.
  cbn [rbind]. rewrite Hlen.
  destruct (inferPageSize (blen file) chs) as [p| |]; try discriminate.
  cbn [rbind]. intros [= <-]. reflexivity.
Qed.

Lemma opened_with_mm (file file' : Buffer) (idx : PriusIdx) :
  blen file' = blen file -> opened file idx -> opened file' (with_mm idx file').
Proof.
  intros Hlen [H1 H2 H3 H4 H5 H6 H7 H8].
  split; cbn [with_mm mm pageSize sumPages chanPrefixPages stripes channels];
    try assumption; [reflexivity|congruence].
Qed.

Lemma opened_page_min file idx : opened file idx -> 512 <= pageSize idx.
Proof.
  intros [_ Hp _ _ _ _ _ _]. unfold candidates in Hp. cbn in Hp. lia.
Qed.

(** X20. A channel write that returns leaves an index that opens as
    before: the constructor finds the same channel table, page size and
    stripes in the written file, every other channel reads back unchanged,
    and the written channel reads back with the data in place of the bytes
    from [channelOffset] on. *)
Theorem writeIdxChannelBytes_then_open (file : Buffer) (idx : PriusIdx)
    (c : nat) (ch : IdxChannel) (fault : option (nat * write_fault))
    (off : Z) (data : Buffer) (n : nat) (fd' : IdxFd) :
  Idx.open file = Ok idx -> channels idx !! c = Some ch ->
  0 <= off ->
  off + blen data <= stripes idx * pagesPerStripe ch * pageSize idx ->
  writeIdxChannelBytes fault idx (Z.of_nat c) off data
    {| content := file; calls := n |} = (Ok tt, fd') ->
  exists idx',
    Idx.open (content fd') = Ok idx' /\
    channels idx' = channels idx /\ pageSize idx' = pageSize idx /\
    stripes idx' = stripes idx /\
    forall (c' : nat) (ch' : IdxChannel),
      channels idx !! c' = Some ch' ->
      exists old new,
        Idx.readChannel idx (Z.of_nat c') = Ok old /\
        Idx.readChannel idx' (Z.of_nat c') = Ok new /\
        blen new = blen old /\
        forall o, 0 <= o < sizeBytes ch' ->
          new !! Z.to_nat o
          = if decide (c' = c /\ off <= o < off + blen data)
            then data !! Z.to_nat (o - off)
            else old !! Z.to_nat o.
Proof.
  intros Hopen Hc Hoff Hcap Hrun. apply open_opened in Hopen as Ho.
  pose proof (writeIdxChannelBytes_outcome file idx c ch fault off data
                {| content := file; calls := n |} Ho Hc Hoff Hcap eq_refl) as Hout.
  cbn [content] in Hout.
  rewrite Hrun in Hout. cbn [loop_outcome] in Hout.
  destruct Hout as ((Hlen & Hold) & Hnew).
  pose proof (opened_page_pos _ _ Ho) as HP.
  pose proof (opened_page_min _ _ Ho) as HP512.
  pose proof (opened_stripes _ _ Ho) as Hst.
  pose proof (opened_pps_nonneg _ _ Ho) as Hall.
  set (P := pageSize idx) in *.
  set (pps := map pagesPerStripe (channels idx)) in *.
  assert (Hhit : forall i, 0 <= i < blen data ->
            0 < pagesPerStripe ch /\ P <= fileOff P pps c (off + (i - 0))).
  { intros i Hi.
    destruct (channel_offset_ok file idx c ch (off + (i - 0)) Ho Hc
                ltac:(fold P; lia)) as (Hv & _ & Hr).
    fold P pps in Hr. split; [exact Hv|lia]. }
  exists (with_mm idx (content fd')).
  split; [|split; [reflexivity|split; [reflexivity|split; [reflexivity|]]]].
  - apply (open_ext file); [exact Hlen| |exact Hopen].
    intros p Hp. apply Hold. intros i Hi. pose proof (Hhit i Hi). lia.
  - intros c' ch' Hc'.
    pose proof (opened_with_mm file (content fd') idx Hlen Ho) as Ho'.
    destruct (readChannel_opened file idx c' ch' Ho Hc')
      as (old & Hread & Hlo & Hbo).
    destruct (readChannel_opened (content fd') (with_mm idx (content fd')) c' ch'
                Ho' Hc') as (new & Hread' & Hln & Hbn).
    cbn [with_mm pageSize channels] in Hbn. fold P pps in Hbo, Hbn.
    exists old, new. split; [exact Hread|]. split; [exact Hread'|].
    split; [congruence|].
    intros o Hr. rewrite Hbn by exact Hr.
    pose proof (proj1 (Forall_lookup _ _) (opened_channels _ _ Ho) c' ch' Hc')
      as (Hv' & _ & Hs').
    fold P in Hs'.
    destruct (decide (c' = c /\ off <= o < off + blen data)) as [[-> Hin]|Hno].
    + specialize (Hnew (o - off) ltac:(lia)).
      replace (off + (o - off - 0)) with o in Hnew by lia. exact Hnew.
    + rewrite Hbo by exact Hr. apply Hold. intros i Hi Heq.
      destruct (Hhit i Hi) as [Hv _].
      rewrite Z2Nat.id in Heq
        by (destruct (channel_offset_ok file idx c' ch' o Ho Hc'
                        ltac:(fold P; lia)) as (_ & _ & Hr'); fold P pps in Hr'; lia).
      apply (fileOff_inj P pps c' c (pagesPerStripe ch') (pagesPerStripe ch))
        in Heq; try assumption; try lia;
        try (apply lookup_pps; assumption); nia.
Qed.

(** *** A small index: two channels, one stripe, pages of 512 bytes *)

Definition small_header : Buffer :=
  Idx.MAGIC ++ packU32 2 ++ packU32 1 ++ packU32 3 ++ packU32 1 ++ packU32 2
  ++ alloc 488.

Definition small_file : Buffer :=
  small_header ++ ([x61; x62; x63] ++ alloc 509) ++ ([x64; x65] ++ alloc 510).

Definition small_patched : Buffer :=
  small_header ++ ([x61; x62; x63] ++ alloc 509) ++ ([x64; x7a] ++ alloc 510).

Definition small_channels : list IdxChannel :=
  [ {| pagesPerStripe := 1; sizeBytes := 3 |};
    {| pagesPerStripe := 1; sizeBytes := 2 |} ].

Definition small_idx : PriusIdx :=
  {| mm := small_file; channels := small_channels; pageSize := 512;
     stripes := 1; sumPages := 2; chanPrefixPages := [0; 1] |}.

Lemma channel_offsets_apart_witness :
  exists p p',
    Idx.channelOffsetToFileOffset small_idx (Z.of_nat 0) 2 = Ok p /\
    Idx.channelOffsetToFileOffset small_idx (Z.of_nat 1) 1 = Ok p' /\
    pageSize small_idx <= p < blen small_file /\
    (p = p' -> 0%nat = 1%nat /\ 2 = 1).
Proof.
  apply (channel_offsets_apart small_file small_idx 0 1
           {| pagesPerStripe := 1; sizeBytes := 3 |}
           {| pagesPerStripe := 1; sizeBytes := 2 |} 2 1).
  - vm_compute. reflexivity.
  - reflexivity.
  - reflexivity.
  - unfold small_idx, blen. cbn [stripes pagesPerStripe pageSize length]. lia.
  - unfold small_idx, blen. cbn [stripes pagesPerStripe pageSize length]. lia.
Defined.

Lemma readChannel_bytes_witness :
  exists out,
    Idx.readChannel small_idx (Z.of_nat 1) = Ok out /\
    blen out = sizeBytes {| pagesPerStripe := 1; sizeBytes := 2 |} /\
    forall o, 0 <= o < sizeBytes {| pagesPerStripe := 1; sizeBytes := 2 |} ->
      exists p,
        Idx.channelOffsetToFileOffset small_idx (Z.of_nat 1) o = Ok p /\
        out !! Z.to_nat o = small_file !! Z.to_nat p.
Proof.
  apply (readChannel_bytes small_file small_idx 1
           {| pagesPerStripe := 1; sizeBytes := 2 |}).
  - vm_compute. reflexivity.
  - reflexivity.
Defined.

Lemma writeIdxChannelBytes_lands_witness :
  exists fd',
    writeIdxChannelBytes None small_idx (Z.of_nat 1) 1 [x7a]
      {| content := small_file; calls := 0 |} = (Ok tt, fd') /\
    blen (content fd') = blen small_file /\
    (forall i, 0 <= i < blen [x7a] ->
       exists p,
         Idx.channelOffsetToFileOffset small_idx (Z.of_nat 1) (1 + i) = Ok p /\
         content fd' !! Z.to_nat p = [x7a] !! Z.to_nat i) /\
    (forall p : nat,
       (forall i, 0 <= i < blen [x7a] ->
          Idx.channelOffsetToFileOffset small_idx (Z.of_nat 1) (1 + i)
          <> Ok (Z.of_nat p)) ->
       content fd' !! p = small_file !! p).
Proof.
  apply (writeIdxChannelBytes_lands small_file small_idx 1
           {| pagesPerStripe := 1; sizeBytes := 2 |} 1 [x7a] 0).
  - vm_compute. reflexivity.
  - reflexivity.
  - lia.
  - unfold small_idx, blen. cbn [stripes pagesPerStripe pageSize length]. lia.
Defined.

Lemma writeIdxChannelBytes_all_or_throw_witness :
  let untouched (file' : Buffer) :=
    blen file' = blen small_file /\
    forall p : nat,
      (forall i, 0 <= i < blen [x7a] ->
         Idx.channelOffsetToFileOffset small_idx (Z.of_nat 1) (1 + i)
         <> Ok (Z.of_nat p)) ->
      file' !! p = small_file !! p in
  match writeIdxChannelBytes (Some (0%nat, Short 0)) small_idx (Z.of_nat 1) 1
          [x7a] {| content := small_file; calls := 0 |} with
  | (Ok _, fd') =>
      untouched (content fd') /\
      forall i, 0 <= i < blen [x7a] ->
        exists p,
          Idx.channelOffsetToFileOffset small_idx (Z.of_nat 1) (1 + i) = Ok p /\
          content fd' !! Z.to_nat p = [x7a] !! Z.to_nat i
  | (Throw e, fd') =>
      (e = ShortIdxWrite \/ e = IoFailure) /\ untouched (content fd')
  | (OutOfFuel, _) => False
  end.
Proof.
  apply (writeIdxChannelBytes_all_or_throw small_file small_idx 1
           {| pagesPerStripe := 1; sizeBytes := 2 |} (Some (0%nat, Short 0))
           1 [x7a] 0).
  - vm_compute. reflexivity.
  - reflexivity.
  - lia.
  - unfold small_idx, blen. cbn [stripes pagesPerStripe pageSize length]. lia.
Defined.

Lemma writeIdxChannelBytes_then_open_witness :
  exists idx',
    Idx.open (content {| content := small_patched; calls := 1 |}) = Ok idx' /\
    channels idx' = channels small_idx /\ pageSize idx' = pageSize small_idx /\
    stripes idx' = stripes small_idx /\
    forall (c' : nat) (ch' : IdxChannel),
      channels small_idx !! c' = Some ch' ->
      exists old new,
        Idx.readChannel small_idx (Z.of_nat c') = Ok old /\
        Idx.readChannel idx' (Z.of_nat c') = Ok new /\
        blen new = blen old /\
        forall o, 0 <= o < sizeBytes ch' ->
          new !! Z.to_nat o
          = if decide (c' = 1%nat /\ 1 <= o < 1 + blen [x7a])
            then [x7a] !! Z.to_nat (o - 1)
            else old !! Z.to_nat o.
Proof.
  apply (writeIdxChannelBytes_then_open small_file small_idx 1
           {| pagesPerStripe := 1; sizeBytes := 2 |} None 1 [x7a] 0
           {| content := small_patched; calls := 1 |}).
  - vm_compute. reflexivity.
  - reflexivity.
  - lia.
  - unfold small_idx, blen. cbn [stripes pagesPerStripe pageSize length]. lia.
  - vm_compute. reflexivity.
Defined.

End ChannelFacts.

(** ** The index file under the writes of a patch and of its rollback *)

Module RollbackFacts.
Import IndexFacts StringFacts PageFacts IdxWriter WriterFacts HeaderFacts
  RepackFacts LayoutFacts Layout IdxReadFacts ChannelFacts MetaFacts Reader.
Import Patch.

(** The channel table is where the constructor read it. *)
Lemma readChannels_lookup (file : Buffer) (count : nat) :
  forall (off : Z) (chs : list IdxChannel) (c : nat) (ch : IdxChannel),
    Idx.readChannels file count off = Ok chs -> chs !! c = Some ch ->
    readU32 file (off + 8 * Z.of_nat c) = Ok (pagesPerStripe ch) /\
    readU32 file (off + 8 * Z.of_nat c + 4) = Ok (sizeBytes ch).
Proof.
  induction count as [|count IH]; intros off chs c ch; cbn [Idx.readChannels].
  - intros [= <-] Hc. discriminate.
  - destruct (readU32 file off) as [v| |] eqn:Ev; try discriminate.
    destruct (readU32 file (off + 4)) as [s| |] eqn:Es; try discriminate.
    cbn [rbind].
    destruct (Idx.readChannels file count (off + 8)) as [rest| |] eqn:Er;
      try discriminate.
    cbn [rbind]. intros [= <-] Hc. destruct c as [|c].
    + injection Hc as <-. cbn [pagesPerStripe sizeBytes].
      rewrite Z.mul_0_r, Z.add_0_r. split; assumption.
    + cbn in Hc. destruct (IH (off + 8) rest c ch Er Hc) as [H1 H2].
      replace (off + 8 * Z.of_nat (S c)) with (off + 8 + 8 * Z.of_nat c) by lia.
      split; assumption.
Qed.

Lemma open_table (file : Buffer) (idx : PriusIdx) (c : nat) (ch : IdxChannel) :
  Idx.open file = Ok idx -> channels idx !! c = Some ch ->
  readU32 file (8 + 8 * Z.of_nat c + 4) = Ok (sizeBytes ch).
Proof.
  unfold Idx.open. destruct (negb _); [discriminate|].
  destruct (readU32 file 4) as [count| |]; try discriminate. cbn [rbind].
  destruct (_ || _); [discriminate|].
  destruct (Idx.readChannels file (Z.to_nat count) 8) as [chs| |] eqn:Ech;
    try discriminate.
  cbn [rbind].
  destruct (inferPageSize (blen file) chs) as [p| |]; try discriminate.
  cbn [rbind]. intros [= <-]. cbn [channels]. intros Hc.
  apply (readChannels_lookup file _ 8 chs c ch Ech Hc).
Qed.

Lemma openArchive_inv (file : Buffer) (datFile : option Buffer)
    (idx : PriusIdx) (arc : PriusArchive) :
  Idx.openArchive file datFile = Ok (idx, arc) ->
  Idx.open file = Ok idx /\
  Idx.readChannel idx 0 = Ok (dt arc) /\
  Idx.readChannel idx 1 = Ok (strings arc) /\
  Idx.readChannel idx 2 = Ok (meta arc) /\
  Idx.readChannel idx 3 = Ok (fat arc) /\
  dat arc = datFile.
Proof.
  unfold Idx.openArchive.
  destruct (Idx.open file) as [idx0| |]; try discriminate. cbn [rbind].
  destruct (Idx.readChannel idx0 0) as [b0| |] eqn:E0; try discriminate.
  cbn [rbind].
  destruct (Idx.readChannel idx0 1) as [b1| |] eqn:E1; try discriminate.
  cbn [rbind].
  destruct (Idx.readChannel idx0 2) as [b2| |] eqn:E2; try discriminate.
  cbn [rbind].
  destruct (Idx.readChannel idx0 3) as [b3| |] eqn:E3; try discriminate.
  cbn [rbind].
  intros [= <- <-]. cbn [dt strings meta fat dat]. repeat split; assumption.
Qed.

(** A channel that [readChannel] could read is in the table. *)
Lemma readChannel_channel (idx : PriusIdx) (c : nat) (out : Buffer) :
  Idx.readChannel idx (Z.of_nat c) = Ok out ->
  exists ch, channels idx !! c = Some ch.
Proof.
  unfold Idx.readChannel. rewrite at_index_nat.
  destruct (channels idx !! c) as [ch|]; [eauto|discriminate].
Qed.

Section Regions.
Variables (f0 : Buffer) (idx : PriusIdx) (fatCh metaCh : IdxChannel).
Hypothesis Hopen : Idx.open f0 = Ok idx.
Hypothesis HfatCh : channels idx !! 3%nat = Some fatCh.
Hypothesis HmetaCh : channels idx !! 2%nat = Some metaCh.

Local Abbreviation FO := (fileOff (pageSize idx) (map pagesPerStripe (channels idx))).
Local Abbreviation fatCap := (stripes idx * pagesPerStripe fatCh * pageSize idx).
Local Abbreviation metaCap := (stripes idx * pagesPerStripe metaCh * pageSize idx).

(** The bytes a patch may change: the FAT channel from [fatOff] on, the
    header word of the FAT size, and the meta slots of the patches. *)
Variables (fatOff fatLen : Z).
Hypothesis Hfat0 : 0 <= fatOff.
Hypothesis Hfat : fatOff + fatLen <= fatCap.

Definition inFatTail (p : nat) : Prop :=
  exists i, 0 <= i < fatLen /\ Z.of_nat p = FO 3%nat (fatOff + i).

Definition inHeaderWord (p : nat) : Prop := (36 <= p < 40)%nat.

Definition inMetaSlots (ms : list Z) (p : nat) : Prop :=
  exists m i, In m ms /\ 0 <= i < 16 /\ Z.of_nat p = FO 2%nat (m * 16 + i).

Definition slot_ok (m : Z) : Prop := 0 <= m /\ m * 16 + 16 <= metaCap.

Definition touched (ms : list Z) (f f' : Buffer) : Prop :=
  blen f' = blen f /\
  forall p, ~ inFatTail p -> ~ inHeaderWord p -> ~ inMetaSlots ms p ->
    f' !! p = f !! p.

Lemma touched_refl ms f : touched ms f f.
Proof. split; [reflexivity|]. intros; reflexivity. Qed.

Lemma touched_trans ms f g h :
  touched ms f g -> touched ms g h -> touched ms f h.
Proof.
  intros [L1 H1] [L2 H2]. split; [congruence|].
  intros p A B C. rewrite H2, H1 by assumption. reflexivity.
Qed.

Lemma frame_fat_touched ms (data f f' : Buffer) :
  blen data = fatLen -> frame idx 3 data 0 fatOff f f' -> touched ms f f'.
Proof.
  intros Hd [Hl Hf]. split; [exact Hl|]. intros p Hfat' _ _. apply Hf.
  intros i Hi Heq. apply Hfat'. exists i. split; [lia|].
  rewrite Heq. f_equal. lia.
Qed.

Lemma frame_meta_touched ms (m : Z) (data f f' : Buffer) :
  In m ms -> blen data = 16 -> frame idx 2 data 0 (m * 16) f f' ->
  touched ms f f'.
Proof.
  intros Hm Hd [Hl Hf]. split; [exact Hl|]. intros p _ _ Hslots. apply Hf.
  intros i Hi Heq. apply Hslots. exists m, i. split; [exact Hm|].
  split; [lia|]. rewrite Heq. f_equal. lia.
Qed.

Lemma f0_long : 1024 <= blen f0.
Proof.
  apply open_opened in Hopen as Ho.
  pose proof (opened_page_min _ _ Ho). pose proof (opened_stripes _ _ Ho).
  pose proof (opened_sum_pos _ _ Ho). rewrite (opened_len _ _ Ho). nia.
Qed.

(** The [writeSync] of the header word, whatever becomes of it. *)
Lemma header_write (fault : option (nat * write_fault)) (fd : IdxFd) (v : Z) :
  blen (content fd) = blen f0 ->
  let r := writeSync fault fd (packU32 v) 0 4 fatSizeHeaderOffset in
  blen (content (snd r)) = blen f0 /\
  (forall p, ~ inHeaderWord p -> content (snd r) !! p = content fd !! p) /\
  (fault = None ->
     exists w, fst r = Ok w /\
     forall i : nat, (i < 4)%nat ->
       content (snd r) !! (36 + i)%nat = packU32 v !! i).
Proof.
  intros Hlen. pose proof f0_long as Hlong.
  assert (Hpart : forall w, 0 <= w <= 4 ->
            let piece := subarray (packU32 v) 0 (0 + w) in
            let f := pwrite (content fd) piece fatSizeHeaderOffset in
            blen f = blen f0 /\
            (forall p, ~ inHeaderWord p -> f !! p = content fd !! p) /\
            (w = 4 -> forall i : nat, (i < 4)%nat ->
               f !! (36 + i)%nat = packU32 v !! i)).
  { intros w Hw piece f.
    assert (Hpiece : blen piece = w).
    { unfold piece. rewrite blen_subarray; unfold blen;
        rewrite ?length_packU32; lia. }
    assert (Hf : f = take 36 (content fd) ++ piece
                     ++ drop (36 + length piece) (content fd)).
    { unfold f. rewrite pwrite_splice; unfold fatSizeHeaderOffset, fatChannel;
        [reflexivity|lia|lia]. }
    assert (Hfit : (36 + length piece <= length (content fd))%nat).
    { unfold blen in *. lia. }
    split; [|split].
    - unfold blen. rewrite Hf, length_splice by exact Hfit.
      unfold blen in Hlen. exact Hlen.
    - intros p Hp. rewrite Hf, lookup_splice by exact Hfit.
      destruct (decide _) as [Hin|_]; [|reflexivity].
      unfold inHeaderWord in Hp. unfold blen in Hpiece. lia.
    - intros -> i Hi. rewrite Hf, lookup_splice by exact Hfit.
      destruct (decide _) as [_|Hn]; [|unfold blen in Hpiece; lia].
      replace (36 + i - 36)%nat with i by lia.
      unfold piece, subarray. change (Z.to_nat 0) with 0%nat.
      rewrite drop_0. apply lookup_take_lt. lia. }
  unfold writeSync. cbv zeta.
  destruct fault as [[k f]|].
  - destruct (k =? calls fd)%nat.
    + destruct f as [w|]; cbn [fst snd content].
      * destruct (Hpart (Z.max 0 (Z.min w 4)) ltac:(lia)) as (H1 & H2 & _).
        split; [exact H1|]. split; [exact H2|]. discriminate.
      * split; [exact Hlen|]. split; [reflexivity|]. discriminate.
    + cbn [fst snd content]. destruct (Hpart 4 ltac:(lia)) as (H1 & H2 & _).
      split; [exact H1|]. split; [exact H2|]. discriminate.
  - cbn [fst snd content]. destruct (Hpart 4 ltac:(lia)) as (H1 & H2 & H3).
    split; [exact H1|]. split; [exact H2|]. intros _. eexists.
    split; [reflexivity|]. now apply H3.
Qed.

Lemma opened0 : opened f0 idx.
Proof. now apply open_opened. Qed.

(** Phase 3 writes the meta slots of its patches only. *)
Lemma meta_writes_touched (fault : option (nat * write_fault)) (ms : list Z)
    (prepared : list PreparedPatch) :
  forall fd : IdxFd,
    Forall (fun p => In (metaIdx (patch p)) ms /\ slot_ok (metaIdx (patch p)) /\
                     length (newMetaBytes p) = 16%nat) prepared ->
    blen (content fd) = blen f0 ->
    touched ms (content fd) (content (snd (meta_writes fault idx prepared fd))) /\
    fst (meta_writes fault idx prepared fd) <> OutOfFuel.
Proof.
  induction prepared as [|p prepared IH]; intros fd Hall Hlen;
    cbn [meta_writes].
  - cbn [fst snd]. split; [apply touched_refl|discriminate].
  - apply Forall_cons in Hall as [(Hin & (Hm0 & Hcap) & Hl16) Hall].
    change metaChannel with (Z.of_nat 2).
    pose proof (writeIdxChannelBytes_outcome f0 idx 2 metaCh fault
                  (metaIdx (patch p) * META_SIZE) (newMetaBytes p) fd opened0
                  HmetaCh ltac:(unfold META_SIZE; lia)
                  ltac:(unfold META_SIZE, blen; lia) Hlen) as Hout.
    destruct (writeIdxChannelBytes fault idx (Z.of_nat 2)
                (metaIdx (patch p) * META_SIZE) (newMetaBytes p) fd)
      as [[u|e|] fd1]; cbn [loop_outcome] in Hout.
    + destruct Hout as (Hfr & _).
      assert (Ht : touched ms (content fd) (content fd1)).
      { apply (frame_meta_touched ms (metaIdx (patch p)) (newMetaBytes p));
          [exact Hin|unfold blen; lia|exact Hfr]. }
      destruct (IH fd1 Hall) as [Ht' Hne]; [destruct Ht; congruence|].
      split; [|exact Hne]. exact (touched_trans _ _ _ _ Ht Ht').
    + destruct Hout as (_ & _ & Hfr). cbn [fst snd]. split; [|discriminate].
      apply (frame_meta_touched ms (metaIdx (patch p)) (newMetaBytes p));
        [exact Hin|unfold blen; lia|exact Hfr].
    + destruct Hout.
Qed.

(** Whatever goes wrong in the writes of phase 3 to the index file, they
    stay inside the three regions. *)
Lemma updateIdx_touched (fault : option (nat * write_fault)) (plan : Plan)
    (fd : IdxFd) :
  idxLayout plan = idx -> originalFatSize plan = fatOff ->
  blen (newFatEntries plan) = fatLen ->
  Forall (fun p => slot_ok (metaIdx (patch p)) /\
                   length (newMetaBytes p) = 16%nat) (prepared plan) ->
  blen (content fd) = blen f0 ->
  touched (map (fun p => metaIdx (patch p)) (prepared plan)) (content fd)
    (content (snd (updateIdx fault plan fd))) /\
  fst (updateIdx fault plan fd) <> OutOfFuel.
Proof.
  intros Hidx Hoff Hflen Hall Hlen. unfold updateIdx. rewrite Hidx, Hoff.
  set (ms := map (fun p => metaIdx (patch p)) (prepared plan)).
  change fatChannel with (Z.of_nat 3).
  pose proof (writeIdxChannelBytes_outcome f0 idx 3 fatCh fault fatOff
                (newFatEntries plan) fd opened0 HfatCh Hfat0
                ltac:(rewrite Hflen; exact Hfat) Hlen) as Hout.
  destruct (writeIdxChannelBytes fault idx (Z.of_nat 3) fatOff
              (newFatEntries plan) fd) as [[u|e|] fd1];
    cbn [loop_outcome] in Hout.
  - destruct Hout as (Hfr & _).
    assert (Ht1 : touched ms (content fd) (content fd1)).
    { apply (frame_fat_touched ms (newFatEntries plan)); assumption. }
    assert (Hlen1 : blen (content fd1) = blen f0)
      by (destruct Ht1; congruence).
    destruct (header_write fault fd1 (newFatSize plan) Hlen1)
      as (Hlen2 & Hold2 & _).
    destruct (writeSync fault fd1 (packU32 (newFatSize plan)) 0 4
                fatSizeHeaderOffset) as [[w|e|] fd2] eqn:Ew;
      cbn [fst snd] in Hlen2, Hold2 |- *.
    + assert (Ht2 : touched ms (content fd1) (content fd2)).
      { split; [congruence|]. intros p _ Hh _. now apply Hold2. }
      destruct (meta_writes_touched fault ms (prepared plan) fd2)
        as [Ht3 Hne]; [|exact Hlen2|].
      * apply List.Forall_forall. intros p Hp.
        destruct (proj1 (List.Forall_forall _ _) Hall p Hp) as [Hs Hl].
        split; [|split; assumption].
        unfold ms. apply in_map_iff. exists p. split; [reflexivity|exact Hp].
      * split; [|exact Hne].
        exact (touched_trans _ _ _ _ Ht1 (touched_trans _ _ _ _ Ht2 Ht3)).
    + split; [|discriminate].
      apply (touched_trans _ _ _ _ Ht1). split; [congruence|].
      intros p _ Hh _. now apply Hold2.
    + exfalso. revert Ew. unfold writeSync.
      destruct fault as [[k f]|]; [|discriminate].
      destruct (k =? calls fd1)%nat; [destruct f|]; discriminate.
  - destruct Hout as (_ & _ & Hfr). cbn [fst snd]. split; [|discriminate].
    apply (frame_fat_touched ms (newFatEntries plan)); assumption.
  - destruct Hout.
Qed.

(** *** The rollback *)

(** The bytes of the file at a meta slot. *)
Definition slot_bytes (m : Z) (bytes : Buffer) : Prop :=
  length bytes = 16%nat /\
  forall i, 0 <= i < 16 ->
    bytes !! Z.to_nat i = f0 !! Z.to_nat (FO 2%nat (m * 16 + i)).

Lemma slot_dec (m : Z) (p : nat) :
  (exists i, 0 <= i < 16 /\ Z.of_nat p = FO 2%nat (m * 16 + i))
  \/ (forall i, 0 <= i < 16 -> Z.of_nat p <> FO 2%nat (m * 16 + i)).
Proof.
  assert (Hd : forall n : nat,
            (exists i, 0 <= i < Z.of_nat n /\
                       Z.of_nat p = FO 2%nat (m * 16 + i))
            \/ (forall i, 0 <= i < Z.of_nat n ->
                  Z.of_nat p <> FO 2%nat (m * 16 + i))).
  { induction n as [|n IHn]; [right; intros i Hi; lia|].
    destruct IHn as [(i & Hi & E)|Hno].
    - left. exists i. split; [lia|exact E].
    - destruct (Z.eq_dec (Z.of_nat p) (FO 2%nat (m * 16 + Z.of_nat n)))
        as [E|Hne].
      + left. exists (Z.of_nat n). split; [lia|exact E].
      + right. intros i Hi.
        destruct (Z.eq_dec i (Z.of_nat n)) as [->|]; [exact Hne|].
        apply Hno. lia. }
  exact (Hd 16%nat).
Qed.

Lemma slots_dec (ms : list Z) (p : nat) :
  inMetaSlots ms p \/ ~ inMetaSlots ms p.
Proof.
  induction ms as [|m ms IH].
  - right. intros (m & i & [] & _).
  - destruct IH as [(m' & i & Hm' & Hi & E)|Hno].
    + left. exists m', i. split; [now right|]. split; assumption.
    + destruct (slot_dec m p) as [(i & Hi & E)|Hnone].
      * left. exists m, i. split; [now left|]. split; assumption.
      * right. intros (m' & i & [<-|Hm'] & Hi & E).
        -- now apply (Hnone i).
        -- apply Hno. exists m', i. split; [exact Hm'|]. split; assumption.
Qed.

Lemma restore_loop_ok (records : list (Z * Buffer)) :
  forall fd : IdxFd,
    Forall (fun r => slot_ok (fst r) /\ slot_bytes (fst r) (snd r)) records ->
    blen (content fd) = blen f0 ->
    exists fd',
      restore_loop idx metaChannel records fd = (Ok tt, fd') /\
      blen (content fd') = blen f0 /\
      forall p,
        (inMetaSlots (map fst records) p -> content fd' !! p = f0 !! p) /\
        (~ inMetaSlots (map fst records) p ->
           content fd' !! p = content fd !! p).
Proof.
  induction records as [|[m bytes] records IH]; intros fd Hall Hlen;
    cbn [restore_loop].
  - exists fd. split; [reflexivity|]. split; [exact Hlen|]. intros p.
    split; [intros (m & i & [] & _)|reflexivity].
  - apply Forall_cons in Hall as [((Hm0 & Hcap) & (Hl16 & Hbytes)) Hall].
    cbn [fst snd] in Hm0, Hcap, Hl16, Hbytes.
    change metaChannel with (Z.of_nat 2).
    pose proof (writeIdxChannelBytes_outcome f0 idx 2 metaCh None
                  (m * META_SIZE) bytes fd opened0 HmetaCh
                  ltac:(unfold META_SIZE; lia)
                  ltac:(unfold META_SIZE, blen; lia) Hlen) as Hout.
    destruct (writeIdxChannelBytes None idx (Z.of_nat 2) (m * META_SIZE) bytes fd)
      as [[[]|e|] fd1]; cbn [loop_outcome] in Hout.
    + destruct Hout as ((Hlen1 & Hold1) & Hnew1).
      destruct (IH fd1 Hall ltac:(congruence)) as (fd' & Hrun & Hlen' & Hres).
      exists fd'. split; [exact Hrun|]. split; [exact Hlen'|].
      unfold META_SIZE in Hold1, Hnew1.
      assert (Hslot : forall p i, 0 <= i < 16 ->
                Z.of_nat p = FO 2%nat (m * 16 + i) ->
                content fd1 !! p = f0 !! p).
      { intros p i Hi Hp.
        specialize (Hnew1 i ltac:(unfold blen; lia)).
        rewrite Z.sub_0_r, <- Hp, Nat2Z.id in Hnew1. rewrite Hnew1.
        rewrite (Hbytes i Hi), <- Hp, Nat2Z.id. reflexivity. }
      assert (Hother : forall p,
                (forall i, 0 <= i < 16 -> Z.of_nat p <> FO 2%nat (m * 16 + i)) ->
                content fd1 !! p = content fd !! p).
      { intros p Hp. apply Hold1. intros i Hi.
        rewrite Z.sub_0_r. apply Hp. unfold blen in Hi. lia. }
      intros p. destruct (Hres p) as [Hin Hout'].
      split.
      * intros (m' & i & Hm' & Hi & Hp).
        destruct (slots_dec (map fst records) p) as [Hrest|Hnrest].
        -- now apply Hin.
        -- rewrite Hout' by exact Hnrest.
           destruct Hm' as [<-|Hm']; [now apply (Hslot p i)|].
           exfalso. apply Hnrest. exists m', i. split; [exact Hm'|].
           split; assumption.
      * intros Hno. rewrite Hout'.
        -- apply Hother. intros i Hi Hp. apply Hno. exists m, i.
           split; [now left|]. split; assumption.
        -- intros (m' & i & Hm' & Hi & Hp). apply Hno. exists m', i.
           split; [now right|]. split; assumption.
    + destruct Hout as (Hf & _). congruence.
    + destruct Hout.
Qed.

Hypothesis Hoff : fatOff = sizeBytes fatCh.

(** The header word of the FAT size, as the constructor read it. *)
Lemma header_word_f0 (i : nat) :
  (i < 4)%nat -> packU32 fatOff !! i = f0 !! (36 + i)%nat.
Proof.
  intros Hi. pose proof (open_table f0 idx 3 fatCh Hopen HfatCh) as Hr.
  change (8 + 8 * Z.of_nat 3 + 4) with 36 in Hr. rewrite <- Hoff in Hr.
  rewrite (packU32_readU32 f0 36 fatOff Hr).
  pose proof (lookup_subarray f0 36 (36 + 4) (Z.of_nat i) ltac:(lia) ltac:(lia))
    as Hl.
  rewrite Nat2Z.id in Hl. rewrite Hl. f_equal. lia.
Qed.

(** [rollbackPatch] on a file that the patch has touched: the data file is
    cut, and the index file is again the old one outside the FAT tail. *)
Lemma rollbackPatch_restores (records : list (Z * Buffer)) (n : Z) (d1 : Disk) :
  touched (map fst records) f0 (idxFile d1) ->
  Forall (fun r => slot_ok (fst r) /\ slot_bytes (fst r) (snd r)) records ->
  exists f2,
    rollbackPatch idx n fatOff records metaChannel fatChannel d1
    = (Ok tt, {| idxFile := f2; datFile := ftruncate (datFile d1) n |}) /\
    blen f2 = blen f0 /\
    forall p, ~ inFatTail p -> f2 !! p = f0 !! p.
Proof.
  intros [Hlen1 Ht] Hall. unfold rollbackPatch.
  destruct (restore_loop_ok records {| content := idxFile d1; calls := 0 |} Hall
              Hlen1) as (fd' & Hrun & Hlen' & Hres).
  rewrite Hrun.
  change (8 + fatChannel * 8 + 4) with fatSizeHeaderOffset.
  destruct (header_write None fd' fatOff Hlen') as (Hlen2 & Hold2 & Hnew2).
  destruct (Hnew2 eq_refl) as (w & Ew & Hbytes).
  destruct (writeSync None fd' (packU32 fatOff) 0 4 fatSizeHeaderOffset)
    as [r fd2]. cbn [fst snd] in *. subst r.
  exists (content fd2). split; [reflexivity|]. split; [exact Hlen2|].
  intros p Hp.
  destruct (decide (36 <= p < 40)%nat) as [Hh|Hh].
  - replace p with (36 + (p - 36))%nat by lia.
    rewrite Hbytes by lia. apply header_word_f0. lia.
  - rewrite Hold2 by exact Hh. destruct (Hres p) as [Hin Hout].
    destruct (slots_dec (map fst records) p) as [Hs|Hs]; [now apply Hin|].
    rewrite Hout by exact Hs. cbn [content]. now apply Ht.
Qed.

(** A file that is the old one outside the FAT tail opens to the same
    archive. *)
Lemma fat_tail_behind (p : nat) : inFatTail p -> (512 <= p)%nat.
Proof.
  intros (i & Hi & Hp).
  destruct (channel_offset_ok f0 idx 3 fatCh (fatOff + i) opened0 HfatCh
              ltac:(lia)) as (_ & _ & Hr).
  pose proof (opened_page_min _ _ opened0). lia.
Qed.

Lemma readChannel_same (f2 : Buffer) (c : nat) (ch : IdxChannel) :
  blen f2 = blen f0 -> (forall p, ~ inFatTail p -> f2 !! p = f0 !! p) ->
  channels idx !! c = Some ch ->
  Idx.readChannel (with_mm idx f2) (Z.of_nat c) = Idx.readChannel idx (Z.of_nat c).
Proof.
  intros Hlen Hsame Hc.
  pose proof (opened_with_mm f0 f2 idx Hlen opened0) as Ho2.
  destruct (readChannel_opened f0 idx c ch opened0 Hc) as (out & Er & Hl & Hb).
  destruct (readChannel_opened f2 (with_mm idx f2) c ch Ho2 Hc)
    as (out' & Er' & Hl' & Hb').
  cbn [with_mm pageSize channels] in Hb'.
  rewrite Er, Er'. f_equal. apply list_eq. intros j.
  destruct (Nat.lt_ge_cases j (length out)) as [Hj|Hj].
  - pose proof (Hb (Z.of_nat j) ltac:(unfold blen in Hl; lia)) as E.
    pose proof (Hb' (Z.of_nat j) ltac:(unfold blen in Hl; lia)) as E'.
    rewrite Nat2Z.id in E, E'. rewrite E, E'. apply Hsame.
    intros (i & Hi & Hp).
    pose proof (proj1 (Forall_lookup _ _) (opened_channels _ _ opened0) c ch Hc)
      as (_ & _ & Hsz).
    destruct (channel_offset_ok f0 idx c ch (Z.of_nat j) opened0 Hc
                ltac:(unfold blen in Hl; lia)) as (Hv & _ & Hr).
    destruct (channel_offset_ok f0 idx 3 fatCh (fatOff + i) opened0 HfatCh
                ltac:(lia)) as (Hv3 & _ & _).
    pose proof (opened_page_pos _ _ opened0) as HP.
    rewrite Z2Nat.id in Hp by lia.
    assert (Hinj : c = 3%nat /\ Z.of_nat j = fatOff + i).
    { apply (fileOff_inj (pageSize idx) (map pagesPerStripe (channels idx)) c 3
               (pagesPerStripe ch) (pagesPerStripe fatCh));
        try lia; try (apply lookup_pps; assumption); try exact Hp.
      apply (opened_pps_nonneg f0), opened0. }
    destruct Hinj as [-> Hj'].
    rewrite HfatCh in Hc. injection Hc as <-. unfold blen in Hl. lia.
  - rewrite !lookup_ge_None_2; [reflexivity|lia|].
    unfold blen in Hl, Hl'. lia.
Qed.

Lemma openArchive_same (f2 : Buffer) (datFile : option Buffer)
    (arc : PriusArchive) :
  blen f2 = blen f0 -> (forall p, ~ inFatTail p -> f2 !! p = f0 !! p) ->
  Idx.openArchive f0 datFile = Ok (idx, arc) ->
  Idx.openArchive f2 datFile = Ok (with_mm idx f2, arc).
Proof.
  intros Hlen Hsame Harc.
  apply openArchive_inv in Harc as (_ & E0 & E1 & E2 & E3 & Ed).
  unfold Idx.openArchive.
  rewrite (open_ext f0 f2 idx Hlen) by
    (try exact Hopen; intros p Hp; apply Hsame; intros Hin;
     apply fat_tail_behind in Hin; lia).
  cbn [rbind].
  destruct (readChannel_channel idx 0 _ E0) as (c0 & Hc0).
  destruct (readChannel_channel idx 1 _ E1) as (c1 & Hc1).
  destruct (readChannel_channel idx 2 _ E2) as (c2 & Hc2).
  destruct (readChannel_channel idx 3 _ E3) as (c3 & Hc3).
  pose proof (readChannel_same f2 0 c0 Hlen Hsame Hc0) as S0.
  pose proof (readChannel_same f2 1 c1 Hlen Hsame Hc1) as S1.
  pose proof (readChannel_same f2 2 c2 Hlen Hsame Hc2) as S2.
  pose proof (readChannel_same f2 3 c3 Hlen Hsame Hc3) as S3.
  change (Z.of_nat 0) with 0 in S0. change (Z.of_nat 1) with 1 in S1.
  change (Z.of_nat 2) with 2 in S2. change (Z.of_nat 3) with 3 in S3.
  rewrite S0, E0. cbn [rbind]. rewrite S1, E1. cbn [rbind].
  rewrite S2, E2. cbn [rbind]. rewrite S3, E3. cbn [rbind].
  destruct arc as [a0 a1 a2 a3 a4]. cbn [dt strings meta fat dat] in *.
  now subst a4.
Qed.

End Regions.
End RollbackFacts.

(** ** The patch pipeline *)

Module PatchFacts.
Import IndexFacts StringFacts PageFacts IdxWriter WriterFacts HeaderFacts
  RepackFacts LayoutFacts Layout IdxReadFacts ChannelFacts MetaFacts Reader
  RollbackFacts.
Import Patch.

Section Env.
Variable toLowerCase : Buffer -> Buffer.
Variable deflate : Buffer -> Z -> Buffer.
Variable inflate : Buffer -> option Buffer.
Variable sha1 : Buffer -> Buffer.
Variable readFileSync : Buffer -> result Buffer.
Variable statSize : Buffer -> result Z.

Local Abbreviation prepare :=
  (Patch.prepare toLowerCase deflate sha1 readFileSync statSize).
Local Abbreviation commit := (Patch.commit inflate sha1).
Local Abbreviation patchFiles :=
  (Patch.patchFiles toLowerCase deflate inflate sha1 readFileSync statSize).

(** *** What a run reports *)

Lemma prepare_stats d fileMap level dryRun stats :
  prepare d fileMap level dryRun = Ok (inl stats) ->
  rolledBack stats = None /\ patched stats = 0.
Proof.
  unfold Patch.prepare.
  destruct (Idx.openArchive _ _) as [[idx arc]| |]; try discriminate.
  cbn [rbind fst snd].
  destruct (resolve_loop _ _ _ _ _ _ _) as [[[patches nf] dd]| |];
    try discriminate.
  cbn [rbind].
  destruct (length patches =? 0)%nat; [intros [= <-]; split; reflexivity|].
  destruct dryRun.
  - destruct (stat_loop _ _) as [u| |]; try discriminate. cbn [rbind].
    intros [= <-]. split; reflexivity.
  - destruct (negb _); [discriminate|]. destruct (negb _); [discriminate|].
    destruct (at_index _ fatChannel) as [fatCh|]; [|discriminate].
    destruct (negb _); [discriminate|].
    destruct (Compress.compressFilesBatch _ _ _ _ _ _) as [compressed| |];
      try discriminate.
    cbn [rbind].
    destruct (prepare_loop _ _ _ _ _ _) as [[[bc words] prep]| |];
      try discriminate.
    cbn [rbind].
    destruct (_ >? _); [discriminate|].
    destruct (at_index _ metaChannel) as [metaCh|]; [|discriminate].
    destruct (existsb _ _); discriminate.
Qed.

Lemma commit_stats faults plan d stats d1 flags :
  commit faults plan d = (Ok stats, d1, flags) ->
  rolledBack stats = Some false /\ flags = (true, true).
Proof.
  unfold Patch.commit.
  destruct (negb _); [discriminate|].
  match goal with
  | |- context [fst ?a] => destruct a as [[app| |] fd]
  end; cbn [fst snd]; try discriminate.
  destruct (datSyncFails faults); [discriminate|].
  destruct (idxOpenFails faults); [discriminate|].
  destruct (updateIdx _ _ _) as [[u| |] fd2]; cbn [fst snd]; try discriminate.
  destruct (idxSyncFails faults); [discriminate|].
  destruct (Idx.openArchive _ _) as [verify| |]; try discriminate.
  destruct (verify_loop _ _ _ _ _) as [errs| |]; try discriminate.
  destruct (errs >? 0); [discriminate|].
  intros [= <- <- <-]. split; reflexivity.
Qed.

(** X21. A run of [patchFiles] that rolled back never returns: whenever
    the statistics come back, the variable [rolledBack] is still false and
    the field [rolledBack] of the statistics is false or absent; the
    statement [rolledBack = true] is followed only by [throw]. *)
Theorem patchFiles_never_reports_rollback (faults : Faults) (d : Disk)
    (fileMap : list (Buffer * Buffer)) (level : Z) (dryRun : bool) :
  match patchFiles faults d fileMap level dryRun with
  | (Ok stats, _, rb) => rb = false /\ rolledBack stats <> Some true
  | (Throw _, _, _) => True
  | (OutOfFuel, _, rb) => rb = false
  end.
Proof.
  unfold Patch.patchFiles.
  destruct (prepare d fileMap level dryRun) as [[stats|plan]| |] eqn:Ep;
    [| |exact I|reflexivity].
  - apply prepare_stats in Ep as [-> _]. split; [reflexivity|discriminate].
  - destruct (commit faults plan d) as [[[stats|e|] d1] [da iu]] eqn:Ec.
    + apply commit_stats in Ec as [-> _]. split; [reflexivity|discriminate].
    + destruct (da || iu); [|exact I].
      destruct (rollbackPatch _ _ _ _ _ _ _) as [[u|e'|] d2];
        [exact I|exact I|reflexivity].
    + reflexivity.
Qed.

(** X22. A dry run writes nothing: however it ends, both files are as
    they were, and nothing is rolled back. *)
Theorem dry_run_writes_nothing (faults : Faults) (d : Disk)
    (fileMap : list (Buffer * Buffer)) (level : Z) :
  snd (fst (patchFiles faults d fileMap level true)) = d /\
  snd (patchFiles faults d fileMap level true) = false.
Proof.
  unfold Patch.patchFiles.
  destruct (prepare d fileMap level true) as [[stats|plan]| |] eqn:Ep;
    try (split; reflexivity).
  exfalso. revert Ep. unfold Patch.prepare.
  destruct (Idx.openArchive _ _) as [[idx arc]| |]; try discriminate.
  cbn [rbind fst snd].
  destruct (resolve_loop _ _ _ _ _ _ _) as [[[patches nf] dd]| |];
    try discriminate.
  cbn [rbind].
  destruct (length patches =? 0)%nat; [discriminate|].
  destruct (stat_loop _ _) as [u| |]; discriminate.
Qed.

(** *** What phases 1 and 2 establish *)

(** A patch of phase 1: its meta index is one of the archive, with the
    record read there. *)
Definition patch_ok (arc : PriusArchive) (p : PatchInput) : Prop :=
  0 <= metaIdx p /\ metaRecord arc (metaIdx p) = Ok (oldMeta p).

Lemma resolve_loop_ok (arc : PriusArchive) (entries : list (Buffer * Buffer)) :
  forall seen patches nf dd patches' nf' dd',
    Forall (patch_ok arc) patches ->
    resolve_loop toLowerCase arc entries seen patches nf dd
    = Ok (patches', nf', dd') ->
    Forall (patch_ok arc) patches'.
Proof.
  induction entries as [|[req loc] entries IH];
    intros seen patches nf dd patches' nf' dd' Hok; cbn [resolve_loop].
  - intros [= <- <- <-]. exact Hok.
  - destruct (resolveMetaForPath _ _ _) as [[resolved metaIdx]| |];
      try discriminate.
    cbn [rbind fst snd].
    destruct (Z.ltb_spec metaIdx 0) as [Hneg|Hpos]; [now apply IH|].
    destruct (bool_decide _); [now apply IH|].
    destruct (metaRecord arc metaIdx) as [m| |] eqn:Em; try discriminate.
    cbn [rbind]. apply IH. apply Forall_app. split; [exact Hok|].
    constructor; [|constructor]. split; [exact Hpos|exact Em].
Qed.

(** A prepared patch: the patch it extends and the records of phase 2. *)
Definition prepared_ok (p : PreparedPatch) : Prop :=
  oldMetaBytes p
  = packMetaRecord (flags (oldMeta (patch p))) (size (oldMeta (patch p)))
      (startBlock (oldMeta (patch p))) (extra (oldMeta (patch p))) /\
  length (newMetaBytes p) = 16%nat /\
  wrappedSize p = blen (wrapped (comp p)) /\
  blocksNeeded p = (blen (wrapped (comp p)) + 511) / 512.

Lemma prepare_loop_ok (patches : list PatchInput)
    (compressed : list CompressedFile) :
  forall i bc words prep bc' words' prep',
    prepare_loop patches compressed i bc words prep = Ok (bc', words', prep') ->
    map patch prep' = map patch prep ++ patches /\
    (Forall prepared_ok prep -> Forall prepared_ok prep') /\
    bc' - bc = Z.of_nat (length words') - Z.of_nat (length words).
Proof.
  induction patches as [|p patches IH];
    intros i bc words prep bc' words' prep'; cbn [prepare_loop].
  - intros [= <- <- <-]. rewrite app_nil_r. split; [reflexivity|].
    split; [tauto|lia].
  - destruct (compressed !! i) as [r|]; [|discriminate].
    rewrite fat_loop_spec. intros Hrun.
    apply IH in Hrun as (Hmap & Hok & Hlen).
    rewrite map_app in Hmap. cbn [map patch] in Hmap.
    rewrite <- app_assoc in Hmap. cbn [app] in Hmap.
    split; [exact Hmap|]. split.
    + intros Hprep. apply Hok. apply Forall_app. split; [exact Hprep|].
      constructor; [|constructor]. unfold prepared_ok.
      cbn [oldMetaBytes newMetaBytes patch comp wrappedSize blocksNeeded].
      split; [reflexivity|]. split; [apply length_packMetaRecord|].
      split; [reflexivity|]. unfold DAT_BLOCK_SIZE. f_equal. lia.
    + rewrite length_app, length_map, length_seq in Hlen.
      pose proof (blen_nonneg (wrapped r)).
      assert (0 <= (blen (wrapped r) + DAT_BLOCK_SIZE - 1) / DAT_BLOCK_SIZE)
        by (apply Z.div_pos; unfold DAT_BLOCK_SIZE; lia).
      lia.
Qed.

Lemma blen_fatData (words : list Z) :
  blen (Repack.fatData_loop words 0 (alloc (Z.of_nat (length words) * 4)))
  = 4 * Z.of_nat (length words).
Proof.
  unfold alloc.
  replace (Z.to_nat (Z.of_nat (length words) * 4)) with (4 * length words)%nat
    by lia.
  pose proof (fatData_loop_spec words 0%nat [] eq_refl) as Hspec.
  cbn [app] in Hspec. change (Z.of_nat 0) with 0 in Hspec. rewrite Hspec.
  unfold blen. rewrite (length_concat_fixed 4).
  - rewrite length_map. lia.
  - apply List.Forall_forall. intros b Hb.
    apply in_map_iff in Hb as (w & <- & _). apply length_packU32.
Qed.

(** The plan of a run that goes on to phase 3. *)
Record plan_ok (d : Disk) (plan : Plan) (idx : PriusIdx) (arc : PriusArchive)
    (fatCh metaCh : IdxChannel) : Prop := {
  plan_open : Idx.openArchive (idxFile d) (Some (datFile d)) = Ok (idx, arc);
  plan_layout : idxLayout plan = idx;
  plan_dat : originalDatSize plan = blen (datFile d);
  plan_fatCh : channels idx !! 3%nat = Some fatCh;
  plan_fat : originalFatSize plan = sizeBytes fatCh;
  plan_fat_cap :
    originalFatSize plan + blen (newFatEntries plan)
    <= stripes idx * pagesPerStripe fatCh * pageSize idx;
  plan_metaCh : channels idx !! 2%nat = Some metaCh;
  plan_meta_cap :
    Forall (fun p => metaIdx (patch p) * 16 + 16
                     <= stripes idx * pagesPerStripe metaCh * pageSize idx)
           (prepared plan);
  plan_patches : Forall (patch_ok arc) (map patch (prepared plan));
  plan_prepared : Forall prepared_ok (prepared plan)
}.

Lemma at_index_lookup {A} (l : list A) (c : nat) (x : A) :
  at_index l (Z.of_nat c) = Some x -> l !! c = Some x.
Proof. now rewrite at_index_nat. Qed.

Lemma prepare_plan d fileMap level dryRun plan :
  prepare d fileMap level dryRun = Ok (inr plan) ->
  exists idx arc fatCh metaCh, plan_ok d plan idx arc fatCh metaCh.
Proof.
  unfold Patch.prepare.
  destruct (Idx.openArchive _ _) as [[idx arc]| |] eqn:Eopen; try discriminate.
  cbn [rbind fst snd].
  destruct (resolve_loop _ _ _ _ _ _ _) as [[[patches nf] dd]| |] eqn:Eres;
    try discriminate.
  cbn [rbind].
  destruct (length patches =? 0)%nat; [discriminate|].
  destruct dryRun.
  { destruct (stat_loop _ _) as [u| |]; discriminate. }
  destruct (negb _); [discriminate|].
  destruct (Z.eqb_spec (fatEntryCount arc) (blen (datFile d) / DAT_BLOCK_SIZE))
    as [Ecnt|]; [|discriminate].
  cbn [negb].
  destruct (at_index _ fatChannel) as [fatCh|] eqn:Efat; [|discriminate].
  destruct (Z.eqb_spec (sizeBytes fatCh) (fatEntryCount arc * 4)) as [Esz|];
    [|discriminate].
  cbn [negb].
  destruct (Compress.compressFilesBatch _ _ _ _ _ _) as [compressed| |];
    try discriminate.
  cbn [rbind].
  destruct (prepare_loop _ _ _ _ _ _) as [[[bc words] prep]| |] eqn:Eloop;
    try discriminate.
  cbn [rbind].
  destruct (Z.gtb_spec ((blen (datFile d) / DAT_BLOCK_SIZE
                         + (bc - blen (datFile d) / DAT_BLOCK_SIZE)) * 4)
              (stripes idx * pagesPerStripe fatCh * pageSize idx))
    as [|Hcap]; [discriminate|].
  destruct (at_index _ metaChannel) as [metaCh|] eqn:Emeta; [|discriminate].
  destruct (existsb _ prep) eqn:Eex; [discriminate|].
  intros [= <-]. exists idx, arc, fatCh, metaCh.
  apply prepare_loop_ok in Eloop as (Hmap & Hok & Hlen).
  cbn [map app length] in Hmap, Hlen.
  apply (resolve_loop_ok arc fileMap ∅ [] 0 0 patches nf dd) in Eres;
    [|constructor].
  split; cbn [idxLayout originalDatSize originalFatSize prepared newFatEntries
              newFatSize].
  - exact Eopen.
  - reflexivity.
  - reflexivity.
  - now apply (at_index_lookup _ 3).
  - reflexivity.
  - rewrite blen_fatData.
    lia.
  - now apply (at_index_lookup _ 2).
  - apply List.Forall_forall. intros p Hp.
    assert (Hf : (metaIdx (patch p) * META_SIZE + META_SIZE
                  >? stripes idx * pagesPerStripe metaCh * pageSize idx) = false).
    { destruct (_ >? _) eqn:E; [|reflexivity].
      assert (existsb (fun p => metaIdx (patch p) * META_SIZE + META_SIZE
                 >? stripes idx * pagesPerStripe metaCh * pageSize idx) prep = true)
        as Ht by (apply existsb_exists; exists p; split; assumption).
      congruence. }
    rewrite Z.gtb_ltb in Hf. apply Z.ltb_ge in Hf. unfold META_SIZE in Hf. lia.
  - rewrite Hmap. exact Eres.
  - apply Hok. constructor.
Qed.

(** *** The data file in phase 3 *)

Lemma pwrite_keeps_prefix (orig tail data : Buffer) (pos : Z) :
  blen orig <= pos ->
  exists tail', pwrite (orig ++ tail) data pos = orig ++ tail'.
Proof.
  intros Hpos. unfold pwrite, blen in *.
  destruct (length data =? 0)%nat; [eauto|].
  rewrite take_app.
  rewrite (take_ge orig) by lia. rewrite <- !app_assoc. eauto.
Qed.

Lemma writevSync_prefix (fault : option (nat * Z)) (orig : Buffer) (fd : DatFd)
    (buffers : list Buffer) (pos : Z) :
  blen orig <= pos -> (exists tail, datBytes fd = orig ++ tail) ->
  exists tail', datBytes (snd (writevSync fault fd buffers pos)) = orig ++ tail'.
Proof.
  intros Hpos (tail & Ht). unfold writevSync.
  destruct fault as [[n k]|]; [destruct (n =? writevCalls fd)%nat|];
    cbn [snd datBytes]; rewrite Ht; now apply pwrite_keeps_prefix.
Qed.

Lemma flushWrites_prefix (fault : option (nat * Z)) (orig : Buffer)
    (a : Appender) (fd : DatFd) :
  blen orig <= writePos a -> 0 <= pendingBytes a ->
  (exists tail, datBytes fd = orig ++ tail) ->
  (exists tail', datBytes (snd (flushWrites fault a fd)) = orig ++ tail') /\
  match fst (flushWrites fault a fd) with
  | Ok a' => blen orig <= writePos a' /\ 0 <= pendingBytes a'
  | Throw _ => True
  | OutOfFuel => False
  end.
Proof.
  intros Hpos Hpb Ht. unfold flushWrites.
  destruct (length (pendingWrites a) =? 0)%nat; [cbn [fst snd]; tauto|].
  pose proof (writevSync_prefix fault orig fd (pendingWrites a) (writePos a)
                Hpos Ht) as Hw.
  destruct (writevSync fault fd (pendingWrites a) (writePos a))
    as [[u|e|] fd'] eqn:Ew; cbn [fst snd] in *.
  - split; [exact Hw|]. cbn [writePos pendingBytes]. lia.
  - split; [exact Hw|exact I].
  - exfalso. revert Ew. unfold writevSync.
    destruct fault as [[n k]|]; [destruct (n =? writevCalls fd)%nat|];
      discriminate.
Qed.

Lemma append_loop_prefix (fault : option (nat * Z)) (orig : Buffer)
    (prepared : list PreparedPatch) :
  forall (a : Appender) (fd : DatFd),
    blen orig <= writePos a -> 0 <= pendingBytes a ->
    (exists tail, datBytes fd = orig ++ tail) ->
    (exists tail', datBytes (snd (append_loop fault prepared a fd))
                   = orig ++ tail') /\
    match fst (append_loop fault prepared a fd) with
    | Ok a' => blen orig <= writePos a' /\ 0 <= pendingBytes a'
    | Throw _ => True
    | OutOfFuel => False
    end.
Proof.
  induction prepared as [|p prepared IH]; intros a fd Hpos Hpb Ht;
    cbn [append_loop].
  - cbn [fst snd]. tauto.
  - set (a1 := enqueueWrite a (wrapped (comp p))).
    set (a2 := if _ >? 0 then enqueueWrite a1 _ else a1).
    assert (H2 : blen orig <= writePos a2 /\ 0 <= pendingBytes a2).
    { unfold a2, a1. destruct (_ >? 0);
        cbn [enqueueWrite writePos pendingBytes];
        pose proof (blen_nonneg (wrapped (comp p)));
        match goal with
        | |- context [blen (subarray ?b ?x ?y)] =>
            pose proof (blen_nonneg (subarray b x y))
        | _ => idtac
        end; lia. }
    destruct H2 as [Hpos2 Hpb2].
    destruct (pendingBytes a2 >=? writeThreshold).
    + destruct (flushWrites_prefix fault orig a2 fd Hpos2 Hpb2 Ht)
        as [Htail Hres].
      destruct (flushWrites fault a2 fd) as [[a'|e|] fd']; cbn [fst snd] in *.
      * destruct Hres. now apply IH.
      * split; [exact Htail|exact I].
      * destruct Hres.
    + now apply IH.
Qed.

Lemma ftruncate_prefix (orig tail : Buffer) :
  ftruncate (orig ++ tail) (blen orig) = orig.
Proof.
  unfold ftruncate, blen. rewrite Nat2Z.id, take_app_length.
  replace (length orig - length (orig ++ tail))%nat with 0%nat
    by (rewrite length_app; lia).
  apply app_nil_r.
Qed.

(** *** The possible ends of phases 3 and 4 *)

Section Committed.
Variables (d : Disk) (plan : Plan) (idx : PriusIdx) (arc : PriusArchive)
  (fatCh metaCh : IdxChannel).
Hypothesis Hplan : plan_ok d plan idx arc fatCh metaCh.

Local Abbreviation slots := (map (fun p => metaIdx (patch p)) (prepared plan)).
Local Abbreviation changed :=
  (touched idx (originalFatSize plan) (blen (newFatEntries plan)) slots).

Lemma plan_opened : Idx.open (idxFile d) = Ok idx.
Proof.
  now destruct (openArchive_inv _ _ _ _ (plan_open _ _ _ _ _ _ Hplan)).
Qed.

Lemma plan_fat0 : 0 <= originalFatSize plan.
Proof.
  rewrite (plan_fat _ _ _ _ _ _ Hplan).
  pose proof (open_opened _ _ plan_opened) as Ho.
  apply (proj1 (Forall_lookup _ _) (opened_channels _ _ Ho) 3%nat fatCh
           (plan_fatCh _ _ _ _ _ _ Hplan)).
Qed.

Lemma plan_slots :
  Forall (fun p => slot_ok idx metaCh (metaIdx (patch p)) /\
                   length (newMetaBytes p) = 16%nat) (prepared plan).
Proof.
  apply List.Forall_forall. intros p Hp.
  pose proof (proj1 (List.Forall_forall _ _) (plan_meta_cap _ _ _ _ _ _ Hplan)
                p Hp) as Hcap.
  pose proof (proj1 (List.Forall_forall _ _) (plan_prepared _ _ _ _ _ _ Hplan)
                p Hp) as (_ & Hl & _).
  pose proof (proj1 (List.Forall_forall _ _) (plan_patches _ _ _ _ _ _ Hplan)
                (patch p) ltac:(apply in_map; exact Hp)) as (H0 & _).
  split; [split; assumption|exact Hl].
Qed.

(** When the body of the second [try] ends, the data file is the old one
    with something appended, and the index file is the old one but for
    the FAT tail, the header word and the meta slots; it is untouched as
    long as [datAppended] is false. *)
Lemma commit_state (faults : Faults) (r : result PatchStats) (d1 : Disk)
    (datAppended idxUpdated : bool) :
  commit faults plan d = (r, d1, (datAppended, idxUpdated)) ->
  (exists tail, datFile d1 = datFile d ++ tail) /\
  changed (idxFile d) (idxFile d1) /\
  (datAppended = false -> idxUpdated = false /\ idxFile d1 = idxFile d).
Proof.
  unfold Patch.commit.
  destruct (negb _).
  { intros [= <- <- <- <-]. split; [exists []; now rewrite app_nil_r|].
    split; [apply touched_refl|tauto]. }
  set (a0 := {| writePos := blen (datFile d); pendingWrites := [];
                pendingBytes := 0 |}).
  set (fd0 := {| datBytes := datFile d; writevCalls := 0 |}).
  pose proof (append_loop_prefix (datWriteFails faults) (datFile d)
                (prepared plan) a0 fd0 ltac:(cbn; lia) ltac:(cbn; lia)
                ltac:(exists []; cbn; now rewrite app_nil_r)) as [Htail Hres].
  set (looped := append_loop (datWriteFails faults) (prepared plan) a0 fd0) in *.
  assert (Happ : exists tail,
            datBytes (snd match looped with
                          | (Ok a, fd) => flushWrites (datWriteFails faults) a fd
                          | (Throw e, fd) => (Throw e, fd)
                          | (OutOfFuel, fd) => (OutOfFuel, fd)
                          end) = datFile d ++ tail).
  { destruct looped as [[a|e|] fd]; cbn [fst snd] in *; try exact Htail.
    destruct Hres as [Hp Hb].
    apply (flushWrites_prefix (datWriteFails faults) (datFile d) a fd Hp Hb Htail). }
  match goal with
  | |- context [fst ?x] => set (appended := x) in *
  end.
  destruct (fst appended) as [a| |].
  2:{ intros [= <- <- <- <-]. cbn [datFile idxFile].
      split; [exact Happ|]. split; [apply touched_refl|tauto]. }
  2:{ intros [= <- <- <- <-]. cbn [datFile idxFile].
      split; [exact Happ|]. split; [apply touched_refl|tauto]. }
  destruct (datSyncFails faults).
  { intros [= <- <- <- <-]. cbn [datFile idxFile].
    split; [exact Happ|]. split; [apply touched_refl|tauto]. }
  destruct (idxOpenFails faults).
  { intros [= <- <- <- <-]. cbn [datFile idxFile].
    split; [exact Happ|]. split; [apply touched_refl|discriminate]. }
  cbn [idxFile datFile].
  pose proof (updateIdx_touched (idxFile d) idx fatCh metaCh plan_opened
                (plan_fatCh _ _ _ _ _ _ Hplan) (plan_metaCh _ _ _ _ _ _ Hplan)
                (originalFatSize plan) (blen (newFatEntries plan)) plan_fat0
                (plan_fat_cap _ _ _ _ _ _ Hplan) (idxWriteFault faults) plan
                {| content := idxFile d; calls := 0 |}
                (plan_layout _ _ _ _ _ _ Hplan) eq_refl eq_refl plan_slots
                eq_refl) as [Htouched Hfuel].
  cbn [content] in Htouched.
  set (updated := updateIdx (idxWriteFault faults) plan
                    {| content := idxFile d; calls := 0 |}) in *.
  assert (Hend : forall r' fl,
            (r', {| idxFile := content (snd updated);
                    datFile := datBytes (snd appended) |}, (true, fl))
            = (r, d1, (datAppended, idxUpdated)) ->
            (exists tail, datFile d1 = datFile d ++ tail) /\
            changed (idxFile d) (idxFile d1) /\
            (datAppended = false -> idxUpdated = false /\ idxFile d1 = idxFile d)).
  { intros r' fl [= <- <- <- <-]. cbn [datFile idxFile].
    split; [exact Happ|]. split; [exact Htouched|discriminate]. }
  destruct (fst updated) as [u| |]; [|apply Hend|apply Hend].
  destruct (idxSyncFails faults); [apply Hend|].
  destruct (Idx.openArchive _ _) as [verify| |]; [|apply Hend|apply Hend].
  destruct (verify_loop _ _ _ _ _) as [errs| |]; [|apply Hend|apply Hend].
  destruct (errs >? 0); apply Hend.
Qed.

Lemma packed_record (buf : Buffer) (off : Z) (m : MetaRecord) :
  0 <= off -> unpackMetaRecord buf off = Ok m ->
  packMetaRecord (flags m) (size m) (startBlock m) (extra m)
  = subarray buf off (off + 16).
Proof.
  intros Hoff. unfold unpackMetaRecord.
  destruct (readU32 buf off) as [f| |] eqn:Ef; try discriminate.
  destruct (readU32 buf (off + 4)) as [s| |] eqn:Es; try discriminate.
  destruct (readU32 buf (off + 8)) as [b| |] eqn:Eb; try discriminate.
  destruct (readU32 buf (off + 12)) as [e| |] eqn:Ee; try discriminate.
  cbn [rbind]. intros [= <-]. cbn [flags size startBlock extra].
  unfold packMetaRecord.
  rewrite !u32_small by (eapply readU32_range; eassumption).
  rewrite (packU32_readU32 _ _ _ Ef), (packU32_readU32 _ _ _ Es),
    (packU32_readU32 _ _ _ Eb), (packU32_readU32 _ _ _ Ee).
  rewrite (subarray_split buf off (off + 4) (off + 16)) by lia.
  rewrite (subarray_split buf (off + 4) (off + 8) (off + 16)) by lia.
  rewrite (subarray_split buf (off + 8) (off + 12) (off + 16)) by lia.
  replace (off + 4 + 4) with (off + 8) by lia.
  replace (off + 8 + 4) with (off + 12) by lia.
  replace (off + 12 + 4) with (off + 16) by lia.
  reflexivity.
Qed.

(** The old meta bytes a patch keeps are the bytes of its slot in the
    index file. *)
Lemma old_bytes (p : PreparedPatch) :
  In p (prepared plan) ->
  slot_bytes (idxFile d) idx (metaIdx (patch p)) (oldMetaBytes p).
Proof.
  intros Hp.
  pose proof (proj1 (List.Forall_forall _ _) (plan_prepared _ _ _ _ _ _ Hplan)
                p Hp) as (Hold & _).
  pose proof (proj1 (List.Forall_forall _ _) (plan_patches _ _ _ _ _ _ Hplan)
                (patch p) ltac:(apply in_map; exact Hp)) as (Hm0 & Hrec).
  destruct (openArchive_inv _ _ _ _ (plan_open _ _ _ _ _ _ Hplan))
    as (Hopen & _ & _ & E2 & _).
  pose proof (open_opened _ _ Hopen) as Ho.
  destruct (readChannel_opened (idxFile d) idx 2 metaCh Ho
              (plan_metaCh _ _ _ _ _ _ Hplan)) as (out & Er & Hlen & Hbytes).
  change (Z.of_nat 2) with 2 in Er. rewrite E2 in Er. injection Er as <-.
  revert Hrec. unfold metaRecord, META_SIZE.
  destruct (Z.ltb_spec (metaIdx (patch p) * 16) 0) as [|_]; [discriminate|].
  destruct (Z.ltb_spec (blen (meta arc)) (metaIdx (patch p) * 16 + 16))
    as [|Hin]; [discriminate|].
  cbn [orb]. intros Hun.
  apply packed_record in Hun; [|lia]. rewrite <- Hold in Hun.
  split.
  - rewrite Hold. apply length_packMetaRecord.
  - intros i Hi. rewrite Hun, lookup_subarray by lia. apply Hbytes. lia.
Qed.

(** The rollback after a failed phase 3 or 4. *)
Lemma rollback_after_commit (faults : Faults) (r : result PatchStats)
    (d1 : Disk) (datAppended idxUpdated : bool) :
  commit faults plan d = (r, d1, (datAppended, idxUpdated)) ->
  exists f2,
    rollbackPatch (idxLayout plan) (originalDatSize plan) (originalFatSize plan)
      (map (fun p => (metaIdx (patch p), oldMetaBytes p)) (prepared plan))
      metaChannel fatChannel d1
    = (Ok tt, {| idxFile := f2; datFile := datFile d |}) /\
    blen f2 = blen (idxFile d) /\
    Idx.openArchive f2 (Some (datFile d)) = Ok (with_mm idx f2, arc).
Proof.
  intros Hc. destruct (commit_state faults r d1 _ _ Hc) as ((tail & Hdat) & Ht & _).
  set (records := map (fun p => (metaIdx (patch p), oldMetaBytes p))
                      (prepared plan)).
  assert (Hms : map fst records = slots).
  { unfold records. rewrite map_map. reflexivity. }
  assert (Hrec : Forall (fun r => slot_ok idx metaCh (fst r) /\
                                  slot_bytes (idxFile d) idx (fst r) (snd r))
                        records).
  { apply List.Forall_forall. intros [m bytes] Hin.
    apply in_map_iff in Hin as (p & [= <- <-] & Hp). cbn [fst snd].
    split; [|now apply old_bytes].
    apply (proj1 (List.Forall_forall _ _) plan_slots p Hp). }
  destruct (rollbackPatch_restores (idxFile d) idx fatCh metaCh plan_opened
              (plan_fatCh _ _ _ _ _ _ Hplan) (plan_metaCh _ _ _ _ _ _ Hplan)
              (originalFatSize plan) (blen (newFatEntries plan))
              (plan_fat _ _ _ _ _ _ Hplan)
              records (originalDatSize plan) d1)
    as (f2 & Hrb & Hlen & Hsame).
  - rewrite Hms. exact Ht.
  - exact Hrec.
  - exists f2.
    rewrite (plan_layout _ _ _ _ _ _ Hplan), Hrb, Hdat,
      (plan_dat _ _ _ _ _ _ Hplan), ftruncate_prefix.
    split; [reflexivity|]. split; [exact Hlen|].
    apply (openArchive_same (idxFile d) idx fatCh plan_opened
             (plan_fatCh _ _ _ _ _ _ Hplan) (originalFatSize plan)
             (blen (newFatEntries plan)) plan_fat0
             (plan_fat_cap _ _ _ _ _ _ Hplan) (plan_fat _ _ _ _ _ _ Hplan)
             f2 (Some (datFile d)) arc Hlen Hsame
             (plan_open _ _ _ _ _ _ Hplan)).
Qed.

End Committed.


(** X23. The preflight of a real run with at least one target: when the
    data file is not a whole number of 512-byte blocks, or has not one
    block per FAT entry, or the FAT size of the header is not four bytes
    per entry, [patchFiles] throws the error of the first check that
    fails, an InconsistentArchive error, and both files are as they were.
    A dry run of the same call does not come to these checks: it returns
    the number of targets. *)
Theorem preflight_rejects (faults : Faults) (d : Disk)
    (fileMap : list (Buffer * Buffer)) (level : Z) (idx : PriusIdx)
    (arc : PriusArchive) (patches : list PatchInput) (nf dd : Z)
    (fatCh : IdxChannel) :
  Idx.openArchive (idxFile d) (Some (datFile d)) = Ok (idx, arc) ->
  resolve_loop toLowerCase arc fileMap ∅ [] 0 0 = Ok (patches, nf, dd) ->
  patches <> [] ->
  channels idx !! 3%nat = Some fatCh ->
  blen (datFile d) mod 512 <> 0
  \/ fatEntryCount arc <> blen (datFile d) / 512
  \/ sizeBytes fatCh <> fatEntryCount arc * 4 ->
  (exists e,
     patchFiles faults d fileMap level false = (Throw e, d, false) /\
     kind_of e = InconsistentArchive /\
     e = (if negb (blen (datFile d) mod 512 =? 0) then DatNotAligned
          else if negb (fatEntryCount arc =? blen (datFile d) / 512)
               then DatFatMismatch else IdxFatSizeMismatch)) /\
  (stat_loop statSize patches = Ok tt ->
   patchFiles faults d fileMap level true
   = (Ok {| patched := 0; notFound := nf; deduped := dd; errors := 0;
            wouldPatch := Some (Z.of_nat (length patches));
            rolledBack := None |}, d, false)).
Proof.
  intros Hopen Hres Hne Hfat Hbad.
  assert (Hlen : (length patches =? 0)%nat = false).
  { destruct patches; [contradiction|reflexivity]. }
  split.
  - unfold Patch.patchFiles, Patch.prepare.
    rewrite Hopen. cbn [rbind fst snd]. rewrite Hres. cbn [rbind].
    rewrite Hlen. unfold DAT_BLOCK_SIZE.
    destruct (Z.eqb_spec (blen (datFile d) mod 512) 0) as [Ea|Ha]; cbn [negb].
    + destruct (Z.eqb_spec (fatEntryCount arc) (blen (datFile d) / 512))
        as [Eb|Hb]; cbn [negb].
      * change fatChannel with (Z.of_nat 3). rewrite at_index_nat, Hfat.
        destruct (Z.eqb_spec (sizeBytes fatCh) (fatEntryCount arc * 4))
          as [Ec|Hc]; cbn [negb].
        -- exfalso. tauto.
        -- eexists. split; [reflexivity|]. split; reflexivity.
      * eexists. split; [reflexivity|]. split; reflexivity.
    + eexists. split; [reflexivity|]. split; reflexivity.
  - intros Hstat. unfold Patch.patchFiles, Patch.prepare.
    rewrite Hopen. cbn [rbind fst snd]. rewrite Hres. cbn [rbind].
    rewrite Hlen, Hstat. reflexivity.
Qed.

End Env.

(** *** A small archive: one file, pages of 512 bytes *)

Definition page512 (b : Buffer) : Buffer := b ++ alloc (512 - blen b).

Definition tiny_channels : Buffer * Buffer :=
  match Repack.buildIndexChannels true [{| arcPath := [x61]; isFile := true |}] with
  | Ok p => p
  | _ => ([], [])
  end.

(** The stored file: the wrapper of "hi", for a [deflate] that stores. *)
Definition tiny_wrapped : Buffer :=
  Codec.buildFileWrapper (fun b _ => b) [x68; x69] 6.

Definition tiny_meta : Buffer := packMetaRecord 1 (blen tiny_wrapped) 1 0.
Definition tiny_fat : Buffer := packU32 0 ++ packU32 0xffffffff.
Definition tiny_dat : Buffer := alloc 512 ++ page512 tiny_wrapped.

Definition tiny_header : Buffer :=
  Idx.MAGIC ++ packU32 4
  ++ packU32 1 ++ packU32 (blen (fst tiny_channels))
  ++ packU32 1 ++ packU32 (blen (snd tiny_channels))
  ++ packU32 1 ++ packU32 (blen tiny_meta)
  ++ packU32 1 ++ packU32 (blen tiny_fat).

Definition tiny_idx : Buffer :=
  page512 tiny_header ++ page512 (fst tiny_channels)
  ++ page512 (snd tiny_channels) ++ page512 tiny_meta ++ page512 tiny_fat.

Definition tiny_disk : Disk := {| idxFile := tiny_idx; datFile := tiny_dat |}.

(** The index file after a patch of one block and its rollback: the FAT
    page keeps the entry of the new block. *)
Definition tiny_idx_rolled_back : Buffer :=
  page512 tiny_header ++ page512 (fst tiny_channels)
  ++ page512 (snd tiny_channels) ++ page512 tiny_meta
  ++ page512 (tiny_fat ++ packU32 0xffffffff).

Definition tiny_layout (file : Buffer) : PriusIdx :=
  {| mm := file;
     channels := [ {| pagesPerStripe := 1; sizeBytes := 40 |};
                   {| pagesPerStripe := 1; sizeBytes := 128 |};
                   {| pagesPerStripe := 1; sizeBytes := 16 |};
                   {| pagesPerStripe := 1; sizeBytes := 8 |} ];
     pageSize := 512; stripes := 1; sumPages := 4;
     chanPrefixPages := [0; 1; 2; 3] |}.

Definition tiny_archive (datFile : Buffer) : PriusArchive :=
  {| dt := fst tiny_channels; strings := snd tiny_channels; meta := tiny_meta;
     fat := tiny_fat; dat := Some datFile |}.

Definition tiny_patch : PatchInput :=
  {| requestedPath := [x61]; archivePath := [x61]; localPath := [x6c];
     metaIdx := 0;
     oldMeta := {| flags := 1; size := 34; startBlock := 1; extra := 0 |} |}.

Definition sync_fails : Faults :=
  {| datWriteFails := None; datSyncFails := false; idxOpenFails := false;
     idxWriteFault := None; idxSyncFails := true |}.

Lemma preflight_rejects_witness :
  (exists e,
     Patch.patchFiles (fun b => b) (fun b _ => b) Some (fun b => b)
       (fun _ => Ok [x79; x6f]) (fun _ => Ok 2) noFaults
       {| idxFile := tiny_idx; datFile := tiny_dat ++ [x00] |}
       [([x61], [x6c])] 6 false
     = (Throw e, {| idxFile := tiny_idx; datFile := tiny_dat ++ [x00] |}, false) /\
     kind_of e = InconsistentArchive /\
     e = (if negb (blen (tiny_dat ++ [x00]) mod 512 =? 0) then DatNotAligned
          else if negb (fatEntryCount (tiny_archive (tiny_dat ++ [x00]))
                        =? blen (tiny_dat ++ [x00]) / 512)
               then DatFatMismatch else IdxFatSizeMismatch)) /\
  (stat_loop (fun _ => Ok 2) [tiny_patch] = Ok tt ->
   Patch.patchFiles (fun b => b) (fun b _ => b) Some (fun b => b)
     (fun _ => Ok [x79; x6f]) (fun _ => Ok 2) noFaults
     {| idxFile := tiny_idx; datFile := tiny_dat ++ [x00] |}
     [([x61], [x6c])] 6 true
   = (Ok {| patched := 0; notFound := 0; deduped := 0; errors := 0;
            wouldPatch := Some (Z.of_nat (length [tiny_patch]));
            rolledBack := None |},
      {| idxFile := tiny_idx; datFile := tiny_dat ++ [x00] |}, false)).
Proof.
  apply (preflight_rejects (fun b => b) (fun b _ => b) Some (fun b => b)
           (fun _ => Ok [x79; x6f]) (fun _ => Ok 2) noFaults
           {| idxFile := tiny_idx; datFile := tiny_dat ++ [x00] |}
           [([x61], [x6c])] 6 (tiny_layout tiny_idx)
           (tiny_archive (tiny_dat ++ [x00])) [tiny_patch] 0 0
           {| pagesPerStripe := 1; sizeBytes := 8 |}).
  - vm_compute. reflexivity.
  - vm_compute. reflexivity.
  - discriminate.
  - reflexivity.
  - left. vm_compute. discriminate.
Defined.


End PatchFacts.

(** ** The plan of a patch and the data file it leaves *)

Module PlanFacts.
Import IndexFacts StringFacts PageFacts IdxWriter WriterFacts HeaderFacts
  RepackFacts LayoutFacts Layout IdxReadFacts ChannelFacts MetaFacts Reader
  RollbackFacts DatFacts PatchFacts.
Import Patch.

(** *** Phase 2 as a list *)

(** The prepared patches that phase 2 builds from the patches, their
    compression results and the first free block. *)
Fixpoint plan_list (patches : list PatchInput) (comps : list CompressedFile)
    (bc : Z) : list PreparedPatch :=
  match patches, comps with
  | p :: ps, c :: cs =>
      {| patch := p; comp := c; wrappedSize := blen (wrapped c);
         blocksNeeded := blocksOf c; newStartBlock := bc;
         oldMetaBytes :=
           packMetaRecord (flags (oldMeta p)) (size (oldMeta p))
             (startBlock (oldMeta p)) (extra (oldMeta p));
         newMetaBytes :=
           packMetaRecord (js_or (flags (oldMeta p)) 1) (blen (wrapped c)) bc
             (extra (oldMeta p)) |}
      :: plan_list ps cs (bc + blocksOf c)
  | _, _ => []
  end.

(** The FAT words of a list of prepared patches. *)
Definition words_of (l : list PreparedPatch) : list Z :=
  concat (map (fun p => chain (newStartBlock p) (blocksNeeded p)) l).

(** The blocks they add to the data file. *)
Definition image_of (l : list PreparedPatch) : Buffer :=
  concat (map (fun p => blockBytes (comp p)) l).

Definition blocks_of (l : list PreparedPatch) : Z :=
  blocks_total (map comp l).

Lemma blocks_of_nonneg l : 0 <= blocks_of l.
Proof.
  unfold blocks_of, blocks_total.
  induction l as [|p l IH]; cbn [map fold_right]; [lia|].
  pose proof (blocksOf_nonneg (comp p)). lia.
Qed.

Lemma prepare_loop_list (patches : list PatchInput)
    (compressed : list CompressedFile) :
  forall i bc words prep bc' words' prep',
    prepare_loop patches compressed i bc words prep = Ok (bc', words', prep') ->
    prep' = prep ++ plan_list patches (drop i compressed) bc /\
    words' = words ++ words_of (plan_list patches (drop i compressed) bc) /\
    length (plan_list patches (drop i compressed) bc) = length patches.
Proof.
  induction patches as [|p patches IH];
    intros i bc words prep bc' words' prep'; cbn [prepare_loop].
  - intros [= <- <- <-]. cbn [plan_list].
    unfold words_of. cbn [map concat]. rewrite !app_nil_r. repeat split.
  - destruct (compressed !! i) as [r|] eqn:Ei; [|discriminate].
    rewrite fat_loop_spec. intros Hrun.
    apply IH in Hrun as (Hprep & Hwords & Hlen).
    rewrite (drop_S _ _ _ Ei). cbn [plan_list].
    fold (blocksOf r) in Hprep, Hwords, Hlen.
    pose proof (blocksOf_nonneg r) as Hbn.
    rewrite Z2Nat.id in Hprep, Hwords, Hlen by exact Hbn.
    split; [|split].
    + rewrite Hprep, <- app_assoc. reflexivity.
    + rewrite Hwords, <- app_assoc. reflexivity.
    + cbn [length]. now rewrite Hlen.
Qed.

(** Where a prepared patch starts, and what it carries. *)
Lemma plan_list_at (pre : list PreparedPatch) :
  forall patches comps bc p post,
    plan_list patches comps bc = pre ++ p :: post ->
    newStartBlock p = bc + blocks_of pre /\
    blocksNeeded p = blocksOf (comp p) /\
    newMetaBytes p
    = packMetaRecord (js_or (flags (oldMeta (patch p))) 1)
        (blen (wrapped (comp p))) (newStartBlock p) (extra (oldMeta (patch p))) /\
    Forall (fun q => blocksNeeded q = blocksOf (comp q)) pre.
Proof.
  induction pre as [|q pre IH]; intros patches comps bc p post.
  - destruct patches as [|p0 ps]; [discriminate|].
    destruct comps as [|c cs]; [discriminate|].
    cbn [plan_list app]. intros [= <- _].
    cbn [newStartBlock blocksNeeded comp newMetaBytes patch].
    unfold blocks_of. cbn. repeat split; [lia|constructor].
  - destruct patches as [|p0 ps]; [discriminate|].
    destruct comps as [|c cs]; [discriminate|].
    cbn [plan_list app]. intros [= <- Hrest].
    destruct (IH ps cs _ p post Hrest) as (Hs & Hb & Hm & Hall).
    split; [|split; [exact Hb|split; [exact Hm|]]].
    + rewrite Hs. unfold blocks_of, blocks_total.
      cbn [map comp fold_right]. lia.
    + constructor; [reflexivity|exact Hall].
Qed.

Lemma plan_list_blocks patches comps bc :
  Forall (fun q => blocksNeeded q = blocksOf (comp q)) (plan_list patches comps bc).
Proof.
  revert comps bc. induction patches as [|p ps IH]; intros comps bc;
    [constructor|].
  destruct comps as [|c cs]; [constructor|].
  cbn [plan_list]. constructor; [reflexivity|apply IH].
Qed.

Lemma length_words_of (l : list PreparedPatch) :
  Forall (fun q => blocksNeeded q = blocksOf (comp q)) l ->
  Z.of_nat (length (words_of l)) = blocks_of l.
Proof.
  unfold words_of, blocks_of, blocks_total.
  induction 1 as [|q l Hq Hall IH]; [reflexivity|].
  cbn [map concat fold_right]. rewrite length_app, length_chain, Hq.
  pose proof (blocksOf_nonneg (comp q)). lia.
Qed.

Lemma blen_image_of (l : list PreparedPatch) :
  blen (image_of l) = 512 * blocks_of l.
Proof.
  unfold image_of, blocks_of, blocks_total.
  induction l as [|q l IH]; [reflexivity|].
  cbn [map concat fold_right]. rewrite CodecFacts.blen_app, blen_blockBytes, IH.
  unfold DAT_BLOCK_SIZE. lia.
Qed.

(** *** The data file after phase 3 *)

Lemma pwrite_end (file data : Buffer) :
  pwrite file data (blen file) = file ++ data.
Proof.
  unfold pwrite, blen.
  destruct (Nat.eqb_spec (length data) 0) as [E|_].
  - destruct data; [|discriminate]. now rewrite app_nil_r.
  - rewrite Nat2Z.id, take_ge, drop_ge by lia.
    replace (length file - length file)%nat with 0%nat by lia.
    cbn [replicate app]. now rewrite app_nil_r.
Qed.

Lemma flushWrites_none (a : Appender) (fd : DatFd) :
  writePos a = blen (datBytes fd) ->
  pendingBytes a = blen (concat (pendingWrites a)) ->
  exists a' fd',
    flushWrites None a fd = (Ok a', fd') /\
    datBytes fd' = datBytes fd ++ concat (pendingWrites a) /\
    pendingWrites a' = [] /\ pendingBytes a' = 0 /\
    writePos a' = blen (datBytes fd').
Proof.
  intros Hpos Hpb. unfold flushWrites.
  destruct (Nat.eqb_spec (length (pendingWrites a)) 0) as [E|_].
  - exists a, fd. destruct (pendingWrites a); [|discriminate].
    cbn [concat] in *. rewrite app_nil_r. repeat split; assumption.
  - unfold writevSync. eexists _, _. split; [reflexivity|].
    cbn [datBytes pendingWrites pendingBytes writePos].
    rewrite Hpos, pwrite_end. repeat split.
    rewrite CodecFacts.blen_app. lia.
Qed.

Lemma pad_bytes (r : CompressedFile) :
  let padSize := blocksOf r * DAT_BLOCK_SIZE - blen (wrapped r) in
  concat (if padSize >? 0
          then [wrapped r; subarray (alloc DAT_BLOCK_SIZE) 0 padSize]
          else [wrapped r])
  = blockBytes r.
Proof.
  cbv zeta. pose proof (blocksOf_covers r) as Hc. unfold blockBytes.
  set (pad := blocksOf r * DAT_BLOCK_SIZE - blen (wrapped r)) in *.
  destruct (Z.gtb_spec pad 0) as [Hp|Hp]; cbn [concat].
  - rewrite app_nil_r. f_equal. unfold subarray, alloc, DAT_BLOCK_SIZE in *.
    change (Z.to_nat 0) with 0%nat. rewrite drop_0, Z.sub_0_r.
    rewrite take_replicate. f_equal. lia.
  - rewrite app_nil_r. replace (Z.to_nat pad) with 0%nat by lia.
    cbn [replicate]. now rewrite app_nil_r.
Qed.

Lemma append_loop_none (prepared : list PreparedPatch) :
  forall (a : Appender) (fd : DatFd),
    Forall (fun q => blocksNeeded q = blocksOf (comp q)) prepared ->
    writePos a = blen (datBytes fd) ->
    pendingBytes a = blen (concat (pendingWrites a)) ->
    exists a' fd',
      append_loop None prepared a fd = (Ok a', fd') /\
      datBytes fd' ++ concat (pendingWrites a')
      = datBytes fd ++ concat (pendingWrites a) ++ image_of prepared /\
      writePos a' = blen (datBytes fd') /\
      pendingBytes a' = blen (concat (pendingWrites a')).
Proof.
  induction prepared as [|p prepared IH]; intros a fd Hall Hpos Hpb;
    cbn [append_loop].
  - exists a, fd. unfold image_of. cbn [map concat]. rewrite app_nil_r.
    repeat split; assumption.
  - apply Forall_cons in Hall as [Hbn Hall].
    set (a1 := enqueueWrite a (wrapped (comp p))).
    set (padSize := blocksNeeded p * DAT_BLOCK_SIZE - blen (wrapped (comp p))).
    set (a2 := if padSize >? 0
               then enqueueWrite a1 (subarray (alloc DAT_BLOCK_SIZE) 0 padSize)
               else a1).
    assert (H2 : writePos a2 = blen (datBytes fd) /\
                 concat (pendingWrites a2)
                 = concat (pendingWrites a) ++ blockBytes (comp p) /\
                 pendingBytes a2 = blen (concat (pendingWrites a2))).
    { pose proof (pad_bytes (comp p)) as Hpad. cbv zeta in Hpad.
      rewrite <- Hbn in Hpad. fold padSize in Hpad.
      unfold a2, a1. destruct (padSize >? 0);
        cbn [enqueueWrite writePos pendingWrites pendingBytes];
        rewrite ?concat_app, <- ?app_assoc; cbn [concat] in Hpad |- *;
        rewrite ?app_nil_r in *; rewrite ?CodecFacts.blen_app;
        (split; [exact Hpos|split; [now rewrite <- Hpad|]]);
        rewrite ?CodecFacts.blen_app; lia. }
    destruct H2 as (Hpos2 & Hcat2 & Hpb2).
    destruct (pendingBytes a2 >=? writeThreshold).
    + destruct (flushWrites_none a2 fd Hpos2 Hpb2)
        as (a3 & fd3 & Hfl & Hdat3 & Hpw3 & Hpb3 & Hpos3).
      rewrite Hfl.
      destruct (IH a3 fd3 Hall Hpos3) as (a' & fd' & Hrun & Hres & Hp' & Hb').
      { rewrite Hpw3, Hpb3. reflexivity. }
      exists a', fd'. split; [exact Hrun|]. split; [|split; assumption].
      rewrite Hres, Hdat3, Hpw3, Hcat2. cbn [concat app].
      unfold image_of. cbn [map concat]. now rewrite <- !app_assoc.
    + destruct (IH a2 fd Hall Hpos2 Hpb2) as (a' & fd' & Hrun & Hres & Hp' & Hb').
      exists a', fd'. split; [exact Hrun|]. split; [|split; assumption].
      rewrite Hres, Hcat2. unfold image_of. cbn [map concat].
      now rewrite <- !app_assoc.
Qed.

End PlanFacts.

(** ** Reading an archive whose FAT and data file have grown *)

Module GrowFacts.
Import PageFacts LayoutFacts Layout ReadFacts Reader ChannelFacts.

Lemma readU32_app_l (buf ext : Buffer) (off v : Z) :
  readU32 buf off = Ok v -> readU32 (buf ++ ext) off = Ok v.
Proof.
  unfold readU32. rewrite CodecFacts.blen_app.
  destruct ((off <? 0) || (blen buf <? off + 4)) eqn:Et; [discriminate|].
  apply orb_false_iff in Et as [E1 E2]. apply Z.ltb_ge in E1, E2.
  assert (Et' : (off <? 0) || (blen buf + blen ext <? off + 4) = false).
  { apply orb_false_iff. split; apply Z.ltb_ge; unfold blen in *; lia. }
  rewrite Et'. rewrite drop_app_le by (unfold blen in E2; lia).
  destruct (drop (Z.to_nat off) buf) as [|b0 [|b1 [|b2 [|b3 r]]]];
    try discriminate.
  cbn [app]. exact (fun H => H).
Qed.

Lemma readU32_app_r (pre rest : Buffer) (k : Z) :
  0 <= k -> readU32 (pre ++ rest) (blen pre + k) = readU32 rest k.
Proof.
  intros Hk. unfold readU32. rewrite CodecFacts.blen_app.
  replace (blen pre + k <? 0) with (k <? 0)
    by (unfold blen; destruct (Z.ltb_spec k 0), (Z.ltb_spec (Z.of_nat (length pre) + k) 0); lia).
  replace (blen pre + blen rest <? blen pre + k + 4) with (blen rest <? k + 4)
    by (destruct (Z.ltb_spec (blen rest) (k + 4)),
                 (Z.ltb_spec (blen pre + blen rest) (blen pre + k + 4)); lia).
  replace (Z.to_nat (blen pre + k)) with (length pre + Z.to_nat k)%nat
    by (unfold blen; lia).
  now rewrite drop_app_add.
Qed.

Lemma fatNext_app_l (fat ext : Buffer) (b v : Z) :
  fatNext fat b = Ok v -> fatNext (fat ++ ext) b = Ok v.
Proof.
  unfold fatNext. rewrite CodecFacts.blen_app.
  destruct ((b * 4 <? 0) || (blen fat <? b * 4 + 4)) eqn:Et; [discriminate|].
  apply orb_false_iff in Et as [E1 E2]. apply Z.ltb_ge in E1, E2.
  assert (Et' : (b * 4 <? 0) || (blen fat + blen ext <? b * 4 + 4) = false).
  { apply orb_false_iff. split; apply Z.ltb_ge; unfold blen in *; lia. }
  rewrite Et'. apply readU32_app_l.
Qed.

Lemma pread_app (file ext : Buffer) (pos len : Z) :
  blen (pread file pos len) = len ->
  pread (file ++ ext) pos len = pread file pos len.
Proof.
  unfold pread, blen. rewrite length_take, length_drop. intros Hlen.
  destruct (Nat.le_gt_cases (Z.to_nat pos) (length file)) as [Hle|Hgt].
  - rewrite drop_app_le by exact Hle.
    rewrite take_app_le by (rewrite length_drop; lia). reflexivity.
  - assert (Z.to_nat len = 0)%nat as -> by lia. reflexivity.
Qed.

(** A chain that could be read is read in the same way after bytes were
    appended to the FAT and to the data file. *)
Lemma readBlocks_grow (datFile datExt fat fatExt : Buffer) (iters : nat) :
  forall (remaining block outOff : Z) (out : Buffer) (log : list Z)
         (v : Z * Buffer),
    fst (readBlocks datFile fat iters remaining block outOff out log) = Ok v ->
    fst (readBlocks (datFile ++ datExt) (fat ++ fatExt) iters remaining block
           outOff out log) = Ok v.
Proof.
  induction iters as [|iters IH]; intros remaining block outOff out log v;
    cbn [readBlocks]; [exact (fun H => H)|].
  set (tk := if remaining >=? 0x200 then 0x200 else remaining).
  destruct (Z.eqb_spec (blen (pread datFile (block * 0x200) tk)) tk)
    as [Hgot|Hgot]; cbn [negb]; [|discriminate].
  rewrite (pread_app _ _ _ _ Hgot).
  rewrite (proj2 (Z.eqb_eq _ _) Hgot). cbn [negb].
  destruct (remaining - tk <=? 0); [exact (fun H => H)|].
  destruct (fatNext fat block) as [nxt| |] eqn:En; try discriminate.
  rewrite (fatNext_app_l _ _ _ _ En).
  destruct (nxt =? 0xffffffff); [discriminate|]. apply IH.
Qed.

Lemma readRawMetaBytes_grow (arc arc' : PriusArchive) (datFile datExt fatExt : Buffer)
    (m : MetaRecord) (out : Buffer) :
  dat arc = Some datFile -> dat arc' = Some (datFile ++ datExt) ->
  fat arc' = fat arc ++ fatExt ->
  readRawMetaBytes arc m = Ok out -> readRawMetaBytes arc' m = Ok out.
Proof.
  intros Hd Hd' Hf. unfold readRawMetaBytes, readRawMetaBytes_logged.
  rewrite Hd, Hd', Hf.
  destruct (size m =? 0); [exact (fun H => H)|].
  destruct (startBlock m =? 0xffffffff); [exact (fun H => H)|].
  destruct (readBlocks datFile (fat arc) _ _ _ _ _ _) as [[[rem o]| |] log]
    eqn:Er; cbn [fst]; try discriminate.
  pose proof (readBlocks_grow datFile datExt (fat arc) fatExt
                (Z.to_nat ((size m + 0x1ff) / 0x200)) (size m) (startBlock m) 0
                (alloc (size m)) [] (rem, o)) as Hg.
  rewrite Er in Hg. specialize (Hg eq_refl).
  destruct (readBlocks (datFile ++ datExt) _ _ _ _ _ _ _) as [r' log'].
  cbn [fst] in Hg. subst r'.
  destruct (negb (rem =? 0)); cbn [fst]; [discriminate|exact (fun H => H)].
Qed.

(** *** The page size after a channel has grown *)

Definition same_pages (chs chs' : list IdxChannel) : Prop :=
  Forall2 (fun ch ch' => pagesPerStripe ch' = pagesPerStripe ch /\
                         sizeBytes ch <= sizeBytes ch') chs chs'.

Lemma same_pages_map chs chs' :
  same_pages chs chs' -> map pagesPerStripe chs' = map pagesPerStripe chs.
Proof.
  induction 1 as [|ch ch' chs chs' [Hp _] _ IH]; [reflexivity|].
  cbn [map]. now rewrite Hp, IH.
Qed.

Lemma channels_fit_shrink st p chs chs' :
  same_pages chs chs' ->
  channels_fit st p chs' = true -> channels_fit st p chs = true.
Proof.
  rewrite !channels_fit_spec.
  induction 1 as [|ch ch' chs chs' [Hp Hs] _ IH]; [constructor|].
  intros H. inversion H as [|? ? H1 H2]; subst.
  constructor; [rewrite <- Hp; lia|now apply IH].
Qed.

Lemma viableb_shrink fileSize sum chs chs' q :
  same_pages chs chs' ->
  viableb fileSize sum chs' q = true -> viableb fileSize sum chs q = true.
Proof.
  intros Hs. unfold viableb. rewrite !andb_true_iff.
  intros (H1 & H2). split; [exact H1|]. eapply channels_fit_shrink; eassumption.
Qed.

(** The inferred page size stays when channels grow within the pages they
    have under it. *)
Lemma inferPageSize_stable (fileSize : Z) (chs chs' : list IdxChannel) (p : Z) :
  same_pages chs chs' ->
  inferPageSize fileSize chs = Ok p ->
  viableb fileSize (sum_pps (map pagesPerStripe chs)) chs' p = true ->
  inferPageSize fileSize chs' = Ok p.
Proof.
  intros Hs Hinf Hv'. pose proof (same_pages_map _ _ Hs) as Hmap.
  pose proof (inferPageSize_inv _ _ _ Hinf) as (Hsum & Hcand & Hv).
  revert Hinf. unfold inferPageSize. rewrite Hmap.
  rewrite fold_left_add_acc, Z.add_0_l.
  fold (sum_pps (map pagesPerStripe chs)).
  set (sum := sum_pps (map pagesPerStripe chs)) in *.
  destruct (Z.leb_spec sum 0) as [|_]; [lia|].
  rewrite !candidate_loop, !app_nil_l.
  set (V := List.filter (viableb fileSize sum chs) candidates).
  set (V' := List.filter (viableb fileSize sum chs') candidates).
  assert (Hsub : forall q, In q V' -> In q V).
  { intros q Hq. apply filter_In in Hq as [Hq1 Hq2]. apply filter_In.
    split; [exact Hq1|]. eapply viableb_shrink; eassumption. }
  assert (Hp' : In p V') by (apply filter_In; split; assumption).
  destruct V as [|x xs] eqn:EV; [discriminate|].
  destruct V' as [|y ys] eqn:EV'; [destruct Hp'|].
  cbn [length Nat.eqb].
  destruct (existsb (Z.eqb 4096) (x :: xs)) eqn:Ex.
  - intros [= <-].
    assert (Ey : existsb (Z.eqb 4096) (y :: ys) = true).
    { apply existsb_exists. exists 4096. split; [exact Hp'|apply Z.eqb_refl]. }
    now rewrite Ey.
  - intros [= Hmin].
    assert (Ey : existsb (Z.eqb 4096) (y :: ys) = false).
    { destruct (existsb (Z.eqb 4096) (y :: ys)) eqn:E; [|reflexivity].
      apply existsb_exists in E as (q & Hq & Eq).
      assert (existsb (Z.eqb 4096) (x :: xs) = true); [|congruence].
      apply existsb_exists. exists q. split; [now apply Hsub|exact Eq]. }
    rewrite Ey. f_equal.
    destruct (min_list_least (x :: xs) ltac:(discriminate)) as (_ & Hleast).
    destruct (min_list_least (y :: ys) ltac:(discriminate)) as (Hin' & Hleast').
    pose proof (Hleast _ (Hsub _ Hin')). pose proof (Hleast' _ Hp').
    change (min_list (x :: xs) = p) in Hmin. lia.
Qed.

(** *** The channel table, word by word *)

Lemma readChannels_build (file : Buffer) (count : nat) :
  forall (off : Z) (chs : list IdxChannel),
    length chs = count ->
    (forall (c : nat) (ch : IdxChannel), chs !! c = Some ch ->
       readU32 file (off + 8 * Z.of_nat c) = Ok (pagesPerStripe ch) /\
       readU32 file (off + 8 * Z.of_nat c + 4) = Ok (sizeBytes ch)) ->
    Idx.readChannels file count off = Ok chs.
Proof.
  induction count as [|count IH]; intros off chs Hlen Hw.
  - destruct chs; [reflexivity|discriminate].
  - destruct chs as [|ch chs]; [discriminate|]. cbn [Idx.readChannels].
    destruct (Hw 0%nat ch eq_refl) as [H1 H2].
    rewrite Z.mul_0_r, Z.add_0_r in H1, H2. rewrite H1, H2. cbn [rbind].
    rewrite (IH (off + 8) chs).
    + cbn [rbind]. now destruct ch.
    + cbn [length] in Hlen. lia.
    + intros c ch' Hc. destruct (Hw (S c) ch' Hc) as [G1 G2].
      replace (off + 8 + 8 * Z.of_nat c) with (off + 8 * Z.of_nat (S c)) by lia.
      split; assumption.
Qed.

Lemma readChannels_length (file : Buffer) (count : nat) :
  forall (off : Z) (chs : list IdxChannel),
    Idx.readChannels file count off = Ok chs -> length chs = count.
Proof.
  induction count as [|count IH]; intros off chs; cbn [Idx.readChannels].
  - now intros [= <-].
  - destruct (readU32 file off) as [v| |]; try discriminate.
    destruct (readU32 file (off + 4)) as [s| |]; try discriminate.
    cbn [rbind].
    destruct (Idx.readChannels file count (off + 8)) as [rest| |] eqn:Er;
      try discriminate.
    cbn [rbind]. intros [= <-]. cbn [length]. f_equal. eapply IH, Er.
Qed.

End GrowFacts.

(** ** The index file after the writes of phase 3 *)

Module UpdateFacts.
Import IndexFacts StringFacts PageFacts IdxWriter WriterFacts HeaderFacts
  RepackFacts LayoutFacts Layout IdxReadFacts ChannelFacts MetaFacts Reader
  RollbackFacts GrowFacts.
Import Patch.

(** A channel write without fault returns, with its data in place. *)
Lemma write_lands file0 idx (c : nat) (ch : IdxChannel) (off : Z)
    (data : Buffer) (fd : IdxFd) :
  opened file0 idx -> channels idx !! c = Some ch ->
  0 <= off ->
  off + blen data <= stripes idx * pagesPerStripe ch * pageSize idx ->
  blen (content fd) = blen file0 ->
  exists fd',
    writeIdxChannelBytes None idx (Z.of_nat c) off data fd = (Ok tt, fd') /\
    landed idx c data 0 off (content fd) (content fd').
Proof.
  intros Ho Hc Hoff Hcap Hlen.
  pose proof (writeIdxChannelBytes_outcome file0 idx c ch None off data fd
                Ho Hc Hoff Hcap Hlen) as Hout.
  destruct (writeIdxChannelBytes None idx (Z.of_nat c) off data fd)
    as [[[]| |] fd']; cbn [loop_outcome] in Hout.
  - exists fd'. split; [reflexivity|exact Hout].
  - now destruct Hout as [Hf _].
  - destruct Hout.
Qed.

(** Four bytes that [packU32] wrote are read back as the word. *)
Lemma readU32_bytes (buf : Buffer) (off v : Z) :
  0 <= off -> off + 4 <= blen buf ->
  (forall i : nat, (i < 4)%nat ->
     buf !! (Z.to_nat off + i)%nat = packU32 v !! i) ->
  readU32 buf off = Ok (u32 v).
Proof.
  intros H0 Hin Hb.
  set (buf' := take (Z.to_nat off) buf ++ packU32 v
               ++ drop (Z.to_nat off + length (packU32 v)) buf).
  assert (Hfit : (Z.to_nat off + length (packU32 v) <= length buf)%nat).
  { rewrite length_packU32. unfold blen in Hin. lia. }
  assert (Hlen : blen buf' = blen buf).
  { unfold blen, buf'. now rewrite length_splice. }
  rewrite (readU32_ext buf' buf off).
  - pose proof (readU32_packU32 (take (Z.to_nat off) buf)
                  (drop (Z.to_nat off + length (packU32 v)) buf) v) as R.
    replace (blen (take (Z.to_nat off) buf)) with off in R; [exact R|].
    unfold blen. rewrite length_take. unfold blen in Hin. lia.
  - now symmetry.
  - intros i Hi. unfold buf'. rewrite lookup_splice by exact Hfit.
    rewrite length_packU32.
    destruct (decide _) as [_|Hn]; [|lia].
    rewrite Hb by exact Hi. f_equal. lia.
Qed.

(** Sixteen bytes that [packMetaRecord] wrote are read back as the record. *)
Lemma unpack_bytes (buf : Buffer) (off f s b e : Z) :
  0 <= off -> off + 16 <= blen buf ->
  (forall i : nat, (i < 16)%nat ->
     buf !! (Z.to_nat off + i)%nat = packMetaRecord f s b e !! i) ->
  unpackMetaRecord buf off
  = Ok {| flags := u32 f; size := u32 s; startBlock := u32 b; extra := u32 e |}.
Proof.
  intros H0 Hin Hb. unfold unpackMetaRecord.
  assert (Hw : forall (k : nat) (x : Z), (k < 4)%nat ->
            (forall i : nat, (i < 4)%nat ->
               packMetaRecord f s b e !! (4 * k + i)%nat = packU32 (u32 x) !! i) ->
            readU32 buf (off + 4 * Z.of_nat k) = Ok (u32 x)).
  { intros k x Hk Hx. rewrite <- (u32_idem x).
    apply readU32_bytes; [lia|lia|].
    intros i Hi. rewrite <- Hx by exact Hi. rewrite <- Hb by lia.
    f_equal. lia. }
  assert (W0 : readU32 buf (off + 4 * Z.of_nat 0) = Ok (u32 f)).
  { apply Hw; [lia|]. intros i Hi. unfold packMetaRecord.
    rewrite lookup_app_l; rewrite ?length_packU32; try lia. f_equal. }
  assert (W1 : readU32 buf (off + 4 * Z.of_nat 1) = Ok (u32 s)).
  { apply Hw; [lia|]. intros i Hi. unfold packMetaRecord.
    rewrite lookup_app_r, lookup_app_l; rewrite ?length_packU32; try lia.
    f_equal. lia. }
  assert (W2 : readU32 buf (off + 4 * Z.of_nat 2) = Ok (u32 b)).
  { apply Hw; [lia|]. intros i Hi. unfold packMetaRecord.
    rewrite lookup_app_r, lookup_app_r, lookup_app_l;
      rewrite ?length_packU32; try lia.
    f_equal. lia. }
  assert (W3 : readU32 buf (off + 4 * Z.of_nat 3) = Ok (u32 e)).
  { apply Hw; [lia|]. intros i Hi. unfold packMetaRecord.
    rewrite !lookup_app_r; rewrite ?length_packU32; try lia.
    f_equal. lia. }
  replace (off + 4 * Z.of_nat 0) with off in W0 by lia.
  replace (off + 4 * Z.of_nat 1) with (off + 4) in W1 by lia.
  replace (off + 4 * Z.of_nat 2) with (off + 8) in W2 by lia.
  replace (off + 4 * Z.of_nat 3) with (off + 12) in W3 by lia.
  rewrite W0, W1, W2, W3. reflexivity.
Qed.

(** What the constructor looked at. *)
Lemma open_inv (file : Buffer) (idx : PriusIdx) :
  Idx.open file = Ok idx ->
  exists count,
    subarray file 0 4 = Idx.MAGIC /\ readU32 file 4 = Ok count /\
    0 < count <= 16 /\
    Idx.readChannels file (Z.to_nat count) 8 = Ok (channels idx) /\
    inferPageSize (blen file) (channels idx) = Ok (pageSize idx) /\
    idx = {| mm := file; channels := channels idx; pageSize := pageSize idx;
             stripes := (blen file / pageSize idx - 1)
                        / sum_pps (map pagesPerStripe (channels idx));
             sumPages := sum_pps (map pagesPerStripe (channels idx));
             chanPrefixPages := Idx.prefixPages (channels idx) 0 |}.
Proof.
  unfold Idx.open.
  destruct (bool_decide (subarray file 0 4 = Idx.MAGIC)) eqn:Em;
    cbn [negb]; [|discriminate].
  apply bool_decide_eq_true in Em.
  destruct (readU32 file 4) as [count| |] eqn:Ec; try discriminate.
  cbn [rbind].
  destruct (Z.leb_spec count 0) as [|Hc0]; [discriminate|].
  destruct (Z.ltb_spec 16 count) as [|Hc16]; [discriminate|]. cbn [orb].
  destruct (Idx.readChannels file (Z.to_nat count) 8) as [chs| |] eqn:Ech;
    try discriminate.
  cbn [rbind].
  destruct (inferPageSize (blen file) chs) as [p| |] eqn:Ep; try discriminate.
  cbn [rbind]. intros [= <-]. cbn [channels pageSize].
  exists count. rewrite sumPages_fold, Z.add_0_l.
  repeat split; try assumption; try reflexivity; lia.
Qed.

Lemma open_intro (file : Buffer) (count : Z) (chs : list IdxChannel) (p : Z) :
  subarray file 0 4 = Idx.MAGIC -> readU32 file 4 = Ok count ->
  0 < count <= 16 ->
  Idx.readChannels file (Z.to_nat count) 8 = Ok chs ->
  inferPageSize (blen file) chs = Ok p ->
  Idx.open file
  = Ok {| mm := file; channels := chs; pageSize := p;
          stripes := (blen file / p - 1) / sum_pps (map pagesPerStripe chs);
          sumPages := sum_pps (map pagesPerStripe chs);
          chanPrefixPages := Idx.prefixPages chs 0 |}.
Proof.
  intros Hm Hc Hr Hch Hp. unfold Idx.open.
  rewrite Hm, Hc, bool_decide_eq_true_2 by reflexivity. cbn [negb rbind].
  destruct (Z.leb_spec count 0) as [|_]; [lia|].
  destruct (Z.ltb_spec 16 count) as [|_]; [lia|]. cbn [orb].
  rewrite Hch. cbn [rbind]. rewrite Hp. cbn [rbind].
  now rewrite sumPages_fold, Z.add_0_l.
Qed.

Lemma prefixPages_pages (chs chs' : list IdxChannel) :
  same_pages chs chs' ->
  forall a, Idx.prefixPages chs' a = Idx.prefixPages chs a.
Proof.
  induction 1 as [|ch ch' chs chs' [Hp _] _ IH]; intros a; [reflexivity|].
  cbn [Idx.prefixPages]. now rewrite Hp, IH.
Qed.

Lemma same_pages_insert (chs : list IdxChannel) (c : nat) (ch ch' : IdxChannel) :
  chs !! c = Some ch -> pagesPerStripe ch' = pagesPerStripe ch ->
  sizeBytes ch <= sizeBytes ch' ->
  same_pages chs (<[c := ch']> chs).
Proof.
  intros Hc Hp Hs. unfold same_pages.
  rewrite <- (list_insert_id chs c ch Hc) at 1.
  apply Forall2_insert; [|split; assumption].
  apply Forall_Forall2_diag, List.Forall_forall. intros x _. split; lia.
Qed.

(** Two buffers of one length with the same bytes. *)
Lemma buffer_eq (a b : Buffer) :
  blen a = blen b ->
  (forall o, 0 <= o < blen a -> a !! Z.to_nat o = b !! Z.to_nat o) ->
  a = b.
Proof.
  intros Hl Hb. apply list_eq. intros j.
  destruct (Nat.lt_ge_cases j (length a)) as [Hj|Hj].
  - specialize (Hb (Z.of_nat j) ltac:(unfold blen; lia)).
    now rewrite Nat2Z.id in Hb.
  - rewrite !lookup_ge_None_2; [reflexivity| |exact Hj].
    unfold blen in Hl. lia.
Qed.

Section Updated.
Variables (f0 : Buffer) (idx : PriusIdx) (fatCh metaCh : IdxChannel).
Hypothesis Hopen : Idx.open f0 = Ok idx.
Hypothesis HfatCh : channels idx !! 3%nat = Some fatCh.
Hypothesis HmetaCh : channels idx !! 2%nat = Some metaCh.

Local Abbreviation P := (pageSize idx).
Local Abbreviation pps := (map pagesPerStripe (channels idx)).
Local Abbreviation FO := (fileOff (pageSize idx) (map pagesPerStripe (channels idx))).
Local Abbreviation fatCap := (stripes idx * pagesPerStripe fatCh * pageSize idx).
Local Abbreviation metaCap := (stripes idx * pagesPerStripe metaCh * pageSize idx).

Variables (fatOff : Z) (entries : Buffer) (newSize : Z).
Hypothesis Hfat0 : 0 <= fatOff.
Hypothesis Hfat : fatOff + blen entries <= fatCap.

Local Abbreviation slotsOf :=
  (fun prepared : list PreparedPatch => map (fun p => metaIdx (patch p)) prepared).

(** What the index file holds after the three kinds of writes. *)
Record updated (prepared : list PreparedPatch) (f' : Buffer) : Prop := {
  upd_len : blen f' = blen f0;
  upd_head : forall i : nat, (i < 4)%nat ->
    f' !! (36 + i)%nat = packU32 newSize !! i;
  upd_fat : forall i, 0 <= i < blen entries ->
    f' !! Z.to_nat (FO 3%nat (fatOff + i)) = entries !! Z.to_nat i;
  upd_meta : forall p, In p prepared -> forall i, 0 <= i < 16 ->
    f' !! Z.to_nat (FO 2%nat (metaIdx (patch p) * 16 + i))
    = newMetaBytes p !! Z.to_nat i;
  upd_rest : forall q : nat,
    ~ inFatTail idx fatOff (blen entries) q -> ~ inHeaderWord q ->
    ~ inMetaSlots idx (slotsOf prepared) q -> f' !! q = f0 !! q
}.

Lemma opened_f0 : opened f0 idx.
Proof. now apply open_opened. Qed.

Lemma page_min : 512 <= P.
Proof. exact (opened_page_min _ _ opened_f0). Qed.

(** File offsets of channel bytes are behind the header page. *)
Lemma FO_range (c : nat) (ch : IdxChannel) (o : Z) :
  channels idx !! c = Some ch ->
  0 <= o < stripes idx * pagesPerStripe ch * P ->
  0 < pagesPerStripe ch /\ P <= FO c o < blen f0.
Proof.
  intros Hc Hr.
  destruct (channel_offset_ok f0 idx c ch o opened_f0 Hc Hr) as (Hv & _ & Hb).
  split; assumption.
Qed.

Lemma FO_inj (c c' : nat) (ch ch' : IdxChannel) (o o' : Z) :
  channels idx !! c = Some ch -> channels idx !! c' = Some ch' ->
  0 <= o < stripes idx * pagesPerStripe ch * P ->
  0 <= o' < stripes idx * pagesPerStripe ch' * P ->
  FO c o = FO c' o' -> c = c' /\ o = o'.
Proof.
  intros Hc Hc' Hr Hr' Heq.
  destruct (FO_range c ch o Hc Hr) as [Hv _].
  destruct (FO_range c' ch' o' Hc' Hr') as [Hv' _].
  pose proof page_min.
  apply (fileOff_inj P pps c c' (pagesPerStripe ch) (pagesPerStripe ch'));
    try assumption; try lia.
  - exact (opened_pps_nonneg _ _ opened_f0).
  - now apply lookup_pps.
  - now apply lookup_pps.
Qed.

(** The loop over the meta records, without fault and for patches of
    pairwise different entries. *)
Lemma meta_writes_land (prepared : list PreparedPatch) :
  forall fd : IdxFd,
    Forall (fun p => slot_ok idx metaCh (metaIdx (patch p)) /\
                     length (newMetaBytes p) = 16%nat) prepared ->
    List.NoDup (slotsOf prepared) ->
    blen (content fd) = blen f0 ->
    exists fd',
      meta_writes None idx prepared fd = (Ok tt, fd') /\
      blen (content fd') = blen f0 /\
      (forall p, In p prepared -> forall i, 0 <= i < 16 ->
         content fd' !! Z.to_nat (FO 2%nat (metaIdx (patch p) * 16 + i))
         = newMetaBytes p !! Z.to_nat i) /\
      (forall q : nat, ~ inMetaSlots idx (slotsOf prepared) q ->
         content fd' !! q = content fd !! q).
Proof.
  induction prepared as [|p prepared IH]; intros fd Hall Hnd Hlen;
    cbn [meta_writes].
  - exists fd. split; [reflexivity|]. split; [exact Hlen|].
    split; [intros p []|reflexivity].
  - apply Forall_cons in Hall as [[[Hm0 Hmcap] Hbytes] Hall].
    cbn [map] in Hnd. apply List.NoDup_cons_iff in Hnd as [Hfresh Hnd].
    assert (Hb16 : blen (newMetaBytes p) = 16) by (unfold blen; lia).
    destruct (write_lands f0 idx 2 metaCh (metaIdx (patch p) * META_SIZE)
                (newMetaBytes p) fd opened_f0 HmetaCh
                ltac:(unfold META_SIZE; lia)
                ltac:(unfold META_SIZE; lia) Hlen)
      as (fd1 & Hw & (Hl1 & Hframe) & Hland).
    unfold metaChannel. change 2 with (Z.of_nat 2). rewrite Hw.
    destruct (IH fd1 Hall Hnd ltac:(congruence))
      as (fd' & Hrun & Hl' & Hslots & Hrest).
    exists fd'. split; [exact Hrun|]. split; [exact Hl'|]. split.
    + intros q [<-|Hq] i Hi.
      * rewrite Hrest.
        -- specialize (Hland i ltac:(lia)).
           replace (metaIdx (patch p) * META_SIZE + (i - 0))
             with (metaIdx (patch p) * 16 + i) in Hland
             by (unfold META_SIZE; lia).
           exact Hland.
        -- intros (m & j & Hm & Hj & Heq). apply Hfresh.
           destruct (FO_range 2 metaCh (metaIdx (patch p) * 16 + i) HmetaCh
                       ltac:(lia)) as [_ Hr].
           rewrite Z2Nat.id in Heq by (pose proof page_min; lia).
           apply in_map_iff in Hm as (q & Eq & Hq).
           assert (Hq' : slot_ok idx metaCh (metaIdx (patch q))).
           { apply (proj1 (List.Forall_forall _ _) Hall q Hq). }
           destruct Hq' as [Hq0 Hqcap]. subst m.
           apply (FO_inj 2 2 metaCh metaCh) in Heq as [_ Heq];
             try assumption; try lia.
           assert (metaIdx (patch p) = metaIdx (patch q)) as -> by lia.
           apply in_map_iff. now exists q.
      * apply Hslots; assumption.
    + intros q Hq. rewrite Hrest.
      * apply Hframe. intros i Hi Heq. apply Hq.
        exists (metaIdx (patch p)), i. split; [now left|].
        split; [lia|]. rewrite Heq. f_equal. unfold META_SIZE. lia.
      * intros (m & j & Hm & Hj & Heq). apply Hq.
        exists m, j. split; [now right|]. split; assumption.
Qed.

(** The writes of phase 3 to the index file, without fault. *)
Lemma updateIdx_lands (plan : Plan) :
  idxLayout plan = idx -> originalFatSize plan = fatOff ->
  newFatEntries plan = entries -> Patch.newFatSize plan = newSize ->
  Forall (fun p => slot_ok idx metaCh (metaIdx (patch p)) /\
                   length (newMetaBytes p) = 16%nat) (prepared plan) ->
  List.NoDup (slotsOf (prepared plan)) ->
  exists fd',
    updateIdx None plan {| content := f0; calls := 0 |} = (Ok tt, fd') /\
    updated (prepared plan) (content fd').
Proof.
  intros Hl Hoff Hent Hsize Hall Hnd. unfold updateIdx.
  rewrite Hl, Hoff, Hent, Hsize.
  destruct (write_lands f0 idx 3 fatCh fatOff entries
              {| content := f0; calls := 0 |} opened_f0 HfatCh Hfat0 Hfat eq_refl)
    as (fd1 & Hw & (Hl1 & Hframe1) & Hland1).
  cbn [content] in Hl1, Hframe1, Hland1.
  unfold fatChannel. change 3 with (Z.of_nat 3). rewrite Hw.
  destruct (header_write f0 idx Hopen None fd1 newSize Hl1)
    as (Hl2 & Hframe2 & Hhead).
  destruct (Hhead eq_refl) as (w & Hw2 & Hword).
  destruct (writeSync None fd1 (packU32 newSize) 0 4 fatSizeHeaderOffset)
    as [r2 fd2] eqn:E2.
  cbn [fst snd] in Hl2, Hframe2, Hw2, Hword. subst r2.
  destruct (meta_writes_land (prepared plan) fd2 Hall Hnd Hl2)
    as (fd' & Hrun & Hl' & Hslots & Hrest).
  exists fd'. split; [exact Hrun|].
  pose proof page_min as HP.
  assert (Hhead_free : forall q : nat, inHeaderWord q ->
            ~ inMetaSlots idx (slotsOf (prepared plan)) q).
  { intros q Hq (m & j & Hm & Hj & Heq).
    apply in_map_iff in Hm as (p & <- & Hp).
    destruct (proj1 (List.Forall_forall _ _) Hall p Hp) as [[Hp0 Hpcap] _].
    destruct (FO_range 2 metaCh (metaIdx (patch p) * 16 + j) HmetaCh
                ltac:(lia)) as [_ Hr].
    unfold inHeaderWord in Hq. lia. }
  assert (Hfat_free : forall i, 0 <= i < blen entries ->
            ~ inMetaSlots idx (slotsOf (prepared plan))
                (Z.to_nat (FO 3%nat (fatOff + i))) /\
            ~ inHeaderWord (Z.to_nat (FO 3%nat (fatOff + i)))).
  { intros i Hi.
    destruct (FO_range 3 fatCh (fatOff + i) HfatCh ltac:(lia)) as [_ Hr].
    split.
    - intros (m & j & Hm & Hj & Heq).
      apply in_map_iff in Hm as (p & <- & Hp).
      destruct (proj1 (List.Forall_forall _ _) Hall p Hp) as [[Hp0 Hpcap] _].
      rewrite Z2Nat.id in Heq by lia.
      apply (FO_inj 3 2 fatCh metaCh) in Heq as [Heq _];
        try assumption; try lia.
    - unfold inHeaderWord. lia. }
  split.
  - exact Hl'.
  - intros i Hi. rewrite Hrest by (apply Hhead_free; unfold inHeaderWord; lia).
    now apply Hword.
  - intros i Hi. destruct (Hfat_free i Hi) as [Hnm Hnh].
    rewrite Hrest by exact Hnm. rewrite Hframe2 by exact Hnh.
    specialize (Hland1 i ltac:(lia)).
    replace (fatOff + (i - 0)) with (fatOff + i) in Hland1 by lia.
    exact Hland1.
  - exact Hslots.
  - intros q Hqf Hqh Hqm. rewrite Hrest by exact Hqm.
    rewrite Hframe2 by exact Hqh. apply Hframe1.
    intros i Hi Heq. apply Hqf. exists i. split; [lia|].
    rewrite Heq. f_equal. lia.
Qed.

(** *** Opening the updated file *)

Hypothesis Hsize0 : fatOff = sizeBytes fatCh.
Hypothesis HnewSize : newSize = fatOff + blen entries.
Hypothesis Hnew32 : newSize < 2 ^ 32.

Definition grownCh : IdxChannel :=
  {| pagesPerStripe := pagesPerStripe fatCh; sizeBytes := newSize |}.

(** The index as the constructor finds it in the updated file: the FAT
    channel has its new size, everything else is as before. *)
Definition grown (f' : Buffer) : PriusIdx :=
  {| mm := f'; channels := <[3%nat := grownCh]> (channels idx);
     pageSize := pageSize idx; stripes := stripes idx;
     sumPages := sumPages idx; chanPrefixPages := chanPrefixPages idx |}.

Lemma grown_pages : same_pages (channels idx) (<[3%nat := grownCh]> (channels idx)).
Proof.
  apply (same_pages_insert _ _ fatCh); [exact HfatCh|reflexivity|].
  cbn [grownCh sizeBytes]. unfold blen in *. lia.
Qed.

Lemma grown_pps :
  map pagesPerStripe (<[3%nat := grownCh]> (channels idx)) = pps.
Proof. apply same_pages_map, grown_pages. Qed.

Section Reopen.
Variables (prepared : list PreparedPatch) (f' : Buffer).
Hypothesis Hslots :
  Forall (fun p => slot_ok idx metaCh (metaIdx (patch p)) /\
                   length (newMetaBytes p) = 16%nat) prepared.
Hypothesis Hupd : updated prepared f'.

(** The header page is as it was, but for the word of the FAT size. *)
Lemma header_kept (q : nat) :
  (q < 512)%nat -> ~ inHeaderWord q -> f' !! q = f0 !! q.
Proof.
  intros Hq Hh. pose proof page_min as HP. apply (upd_rest _ _ Hupd).
  - intros Hin.
    pose proof (fat_tail_behind f0 idx fatCh Hopen HfatCh fatOff (blen entries)
                  Hfat0 Hfat q Hin). lia.
  - exact Hh.
  - intros (m & j & Hm & Hj & Heq).
    apply in_map_iff in Hm as (p & <- & Hp).
    destruct (proj1 (List.Forall_forall _ _) Hslots p Hp) as [[Hp0 Hpcap] _].
    destruct (FO_range 2 metaCh (metaIdx (patch p) * 16 + j) HmetaCh
                ltac:(lia)) as [_ Hr].
    lia.
Qed.

Lemma word_kept (off : Z) :
  0 <= off -> off + 4 <= 512 -> off + 4 <= 36 \/ 40 <= off ->
  readU32 f' off = readU32 f0 off.
Proof.
  intros H0 H1 H2. apply readU32_ext; [exact (upd_len _ _ Hupd)|].
  intros i Hi. apply header_kept; [lia|]. unfold inHeaderWord. lia.
Qed.

Lemma open_updated : Idx.open f' = Ok (grown f').
Proof.
  destruct (open_inv f0 idx Hopen)
    as (count & Hm & Hc & Hr & Hch & Hp & Hidx).
  pose proof (upd_len _ _ Hupd) as Hlen.
  pose proof opened_f0 as Hopened.
  pose proof (readChannels_length _ _ _ _ Hch) as Hcount.
  pose proof (lookup_lt_Some _ _ _ HfatCh) as H3.
  assert (E : grown f'
            = {| mm := f'; channels := <[3%nat := grownCh]> (channels idx);
                 pageSize := pageSize idx;
                 stripes := (blen f' / pageSize idx - 1)
                            / sum_pps (map pagesPerStripe
                                         (<[3%nat := grownCh]> (channels idx)));
                 sumPages := sum_pps (map pagesPerStripe
                                        (<[3%nat := grownCh]> (channels idx)));
                 chanPrefixPages :=
                   Idx.prefixPages (<[3%nat := grownCh]> (channels idx)) 0 |}).
  { pose proof (f_equal stripes Hidx) as Hst.
    pose proof (f_equal sumPages Hidx) as Hsum.
    pose proof (f_equal chanPrefixPages Hidx) as Hpre.
    cbn [stripes sumPages chanPrefixPages] in Hst, Hsum, Hpre.
    unfold grown. rewrite grown_pps, (prefixPages_pages _ _ grown_pages), Hlen.
    now rewrite <- Hst, <- Hsum, <- Hpre. }
  rewrite E. apply (open_intro f' count).
  - rewrite <- Hm. unfold subarray. change (Z.to_nat 0) with 0%nat.
    rewrite !drop_0. apply list_eq. intros i. rewrite !lookup_take.
    destruct (decide (i < Z.to_nat (4 - 0))%nat) as [Hi|]; [|reflexivity].
    apply header_kept; [lia|]. unfold inHeaderWord. lia.
  - rewrite word_kept by lia. exact Hc.
  - exact Hr.
  - apply readChannels_build; [now rewrite length_insert|].
    intros c ch Hcl.
    assert (Hc16 : (c < Z.to_nat count)%nat).
    { apply lookup_lt_Some in Hcl. rewrite length_insert in Hcl. lia. }
    destruct (decide (c = 3%nat)) as [->|Hne].
    + rewrite list_lookup_insert_eq in Hcl by exact H3. injection Hcl as <-.
      cbn [grownCh pagesPerStripe sizeBytes].
      destruct (readChannels_lookup _ _ _ _ _ _ Hch HfatCh) as [Hw _].
      split.
      * rewrite word_kept by lia. exact Hw.
      * rewrite <- (u32_small newSize) by (unfold blen in *; lia).
        apply readU32_bytes; [lia| |].
        -- rewrite Hlen. pose proof (f0_long f0 idx Hopen). lia.
        -- intros i Hi. change (Z.to_nat (8 + 8 * Z.of_nat 3 + 4)) with 36%nat.
           now apply (upd_head _ _ Hupd).
    + rewrite list_lookup_insert_ne in Hcl by congruence.
      destruct (readChannels_lookup _ _ _ _ _ _ Hch Hcl) as [Hw1 Hw2].
      split; (rewrite word_kept; [assumption|lia|lia|lia]).
  - rewrite Hlen. eapply inferPageSize_stable; [exact grown_pages|exact Hp|].
    apply inferPageSize_inv in Hp as (_ & _ & Hv).
    unfold viableb in Hv |- *.
    apply andb_true_iff in Hv as [Hv Hfit]. rewrite Hv. cbn [andb].
    apply channels_fit_spec. apply channels_fit_spec in Hfit.
    apply Forall_lookup. intros c ch Hcl.
    destruct (decide (c = 3%nat)) as [->|Hne].
    + rewrite list_lookup_insert_eq in Hcl by exact H3. injection Hcl as <-.
      cbn [grownCh pagesPerStripe sizeBytes].
      pose proof (f_equal stripes Hidx) as Hst. cbn [stripes] in Hst.
      rewrite <- Hst. lia.
    + rewrite list_lookup_insert_ne in Hcl by congruence.
      exact (proj1 (Forall_lookup _ _) Hfit c ch Hcl).
Qed.

Lemma opened_grown : opened f' (grown f').
Proof. apply open_opened, open_updated. Qed.

(** A channel of the updated file, byte by byte. *)
Lemma readChannel_grown (c : nat) (ch : IdxChannel) :
  <[3%nat := grownCh]> (channels idx) !! c = Some ch ->
  exists out,
    Idx.readChannel (grown f') (Z.of_nat c) = Ok out /\
    blen out = sizeBytes ch /\
    forall o, 0 <= o < sizeBytes ch ->
      out !! Z.to_nat o = f' !! Z.to_nat (FO c o).
Proof.
  intros Hc.
  destruct (readChannel_opened f' (grown f') c ch opened_grown Hc)
    as (out & Er & Hl & Hb).
  exists out. split; [exact Er|]. split; [exact Hl|].
  intros o Hr. rewrite (Hb o Hr). cbn [grown pageSize channels].
  now rewrite grown_pps.
Qed.

(** The channels that phase 3 does not write read as before. *)
Lemma readChannel_kept (c : nat) (ch : IdxChannel) (old : Buffer) :
  channels idx !! c = Some ch -> c <> 2%nat -> c <> 3%nat ->
  Idx.readChannel idx (Z.of_nat c) = Ok old ->
  Idx.readChannel (grown f') (Z.of_nat c) = Ok old.
Proof.
  intros Hc H2 H3 Hold.
  destruct (readChannel_opened f0 idx c ch opened_f0 Hc) as (out & Er & Hl & Hb).
  rewrite Er in Hold. injection Hold as <-.
  destruct (readChannel_grown c ch) as (out' & Er' & Hl' & Hb').
  { now rewrite list_lookup_insert_ne by congruence. }
  rewrite Er'. f_equal. apply buffer_eq; [congruence|].
  intros o Hr. rewrite Hl' in Hr. rewrite Hb', Hb by exact Hr.
  pose proof (proj1 (Forall_lookup _ _) (opened_channels _ _ opened_f0) c ch Hc)
    as (_ & _ & Hsz).
  destruct (FO_range c ch o Hc ltac:(lia)) as [_ Hfo].
  pose proof page_min as HP.
  apply (upd_rest _ _ Hupd).
  - intros (i & Hi & Heq). rewrite Z2Nat.id in Heq by lia.
    apply (FO_inj c 3 ch fatCh) in Heq as [Heq _]; try assumption; lia.
  - unfold inHeaderWord. lia.
  - intros (m & j & Hm & Hj & Heq). rewrite Z2Nat.id in Heq by lia.
    apply in_map_iff in Hm as (p & <- & Hp).
    destruct (proj1 (List.Forall_forall _ _) Hslots p Hp) as [[Hp0 Hpcap] _].
    apply (FO_inj c 2 ch metaCh) in Heq as [Heq _]; try assumption; lia.
Qed.

(** The FAT channel is the old one with the new entries behind it. *)
Lemma readChannel_fat (old : Buffer) :
  Idx.readChannel idx 3 = Ok old ->
  Idx.readChannel (grown f') 3 = Ok (old ++ entries).
Proof.
  intros Hold. change 3 with (Z.of_nat 3) in *.
  destruct (readChannel_opened f0 idx 3 fatCh opened_f0 HfatCh) as (out & Er & Hl & Hb).
  rewrite Er in Hold. injection Hold as <-.
  pose proof (lookup_lt_Some _ _ _ HfatCh) as H3.
  destruct (readChannel_grown 3 grownCh) as (out' & Er' & Hl' & Hb').
  { now rewrite list_lookup_insert_eq. }
  cbn [grownCh sizeBytes] in Hl', Hb'.
  rewrite Er'. f_equal. apply buffer_eq.
  { rewrite CodecFacts.blen_app. lia. }
  intros o Hr. rewrite Hl' in Hr. rewrite Hb' by exact Hr.
  pose proof page_min as HP.
  destruct (Z.lt_ge_cases o fatOff) as [Hlo|Hhi].
  - rewrite lookup_app_l by (unfold blen in Hl; lia).
    rewrite Hb by lia.
    destruct (FO_range 3 fatCh o HfatCh ltac:(unfold blen in *; lia))
      as [_ Hfo].
    apply (upd_rest _ _ Hupd).
    + intros (i & Hi & Heq). rewrite Z2Nat.id in Heq by lia.
      apply (FO_inj 3 3 fatCh fatCh) in Heq as [_ Heq]; try assumption;
        unfold blen in *; lia.
    + unfold inHeaderWord. lia.
    + intros (m & j & Hm & Hj & Heq). rewrite Z2Nat.id in Heq by lia.
      apply in_map_iff in Hm as (p & <- & Hp).
      destruct (proj1 (List.Forall_forall _ _) Hslots p Hp) as [[Hp0 Hpcap] _].
      apply (FO_inj 3 2 fatCh metaCh) in Heq as [Heq _]; try assumption;
        unfold blen in *; lia.
  - rewrite lookup_app_r by (unfold blen in Hl; lia).
    replace o with (fatOff + (o - fatOff)) at 1 by lia.
    rewrite (upd_fat _ _ Hupd) by lia. f_equal. unfold blen in Hl. lia.
Qed.

(** The meta channel keeps its length and every record that was not
    patched; the records of the patches are the new ones. *)
Lemma readChannel_meta (old : Buffer) :
  Idx.readChannel idx 2 = Ok old ->
  exists new,
    Idx.readChannel (grown f') 2 = Ok new /\ blen new = blen old /\
    (forall p, In p prepared -> metaIdx (patch p) * 16 + 16 <= blen old ->
       forall i, 0 <= i < 16 ->
         new !! Z.to_nat (metaIdx (patch p) * 16 + i)
         = newMetaBytes p !! Z.to_nat i) /\
    (forall o, 0 <= o < blen old ->
       (forall p, In p prepared ->
          ~ metaIdx (patch p) * 16 <= o < metaIdx (patch p) * 16 + 16) ->
       new !! Z.to_nat o = old !! Z.to_nat o).
Proof.
  intros Hold. change 2 with (Z.of_nat 2) in *.
  destruct (readChannel_opened f0 idx 2 metaCh opened_f0 HmetaCh)
    as (out & Er & Hl & Hb).
  rewrite Er in Hold. injection Hold as <-.
  destruct (readChannel_grown 2 metaCh) as (new & Er' & Hl' & Hb').
  { now rewrite list_lookup_insert_ne by congruence. }
  exists new. split; [exact Er'|]. split; [congruence|].
  pose proof page_min as HP.
  pose proof (proj1 (Forall_lookup _ _) (opened_channels _ _ opened_f0) 2%nat metaCh
                HmetaCh) as (_ & _ & Hsz).
  split.
  - intros p Hp Hin i Hi.
    destruct (proj1 (List.Forall_forall _ _) Hslots p Hp) as [[Hp0 Hpcap] _].
    rewrite Hb' by lia. now apply (upd_meta _ _ Hupd).
  - intros o Hr Hfree. rewrite Hb', Hb by lia.
    destruct (FO_range 2 metaCh o HmetaCh ltac:(lia)) as [_ Hfo].
    apply (upd_rest _ _ Hupd).
    + intros (i & Hi & Heq). rewrite Z2Nat.id in Heq by lia.
      apply (FO_inj 2 3 metaCh fatCh) in Heq as [Heq _]; try assumption; lia.
    + unfold inHeaderWord. lia.
    + intros (m & j & Hm & Hj & Heq). rewrite Z2Nat.id in Heq by lia.
      apply in_map_iff in Hm as (p & <- & Hp).
      destruct (proj1 (List.Forall_forall _ _) Hslots p Hp) as [[Hp0 Hpcap] _].
      apply (FO_inj 2 2 metaCh metaCh) in Heq as [_ Heq]; try assumption;
        try lia.
      apply (Hfree p Hp). lia.
Qed.

(** The archive as it opens from the updated index file. *)
Lemma openArchive_updated (datOld dat' : option Buffer) (arc : PriusArchive) :
  Idx.openArchive f0 datOld = Ok (idx, arc) ->
  exists new,
    Idx.openArchive f' dat'
    = Ok (grown f', {| dt := dt arc; strings := strings arc; meta := new;
                       fat := fat arc ++ entries; dat := dat' |}) /\
    blen new = blen (meta arc) /\
    (forall p, In p prepared -> metaIdx (patch p) * 16 + 16 <= blen (meta arc) ->
       forall i, 0 <= i < 16 ->
         new !! Z.to_nat (metaIdx (patch p) * 16 + i)
         = newMetaBytes p !! Z.to_nat i) /\
    (forall o, 0 <= o < blen (meta arc) ->
       (forall p, In p prepared ->
          ~ metaIdx (patch p) * 16 <= o < metaIdx (patch p) * 16 + 16) ->
       new !! Z.to_nat o = meta arc !! Z.to_nat o).
Proof.
  intros Harc.
  apply openArchive_inv in Harc as (_ & E0 & E1 & E2 & E3 & _).
  destruct (readChannel_meta _ E2) as (new & En & Hl & Hnew & Hkept).
  exists new. split; [|split; [exact Hl|split; assumption]].
  unfold Idx.openArchive. rewrite open_updated. cbn [rbind].
  change 0 with (Z.of_nat 0) in E0 |- *. change 1 with (Z.of_nat 1) in E1 |- *.
  destruct (readChannel_channel _ _ _ E0) as (ch0 & Hc0).
  destruct (readChannel_channel _ _ _ E1) as (ch1 & Hc1).
  rewrite (readChannel_kept 0 ch0 _ Hc0 ltac:(lia) ltac:(lia) E0). cbn [rbind].
  rewrite (readChannel_kept 1 ch1 _ Hc1 ltac:(lia) ltac:(lia) E1). cbn [rbind].
  rewrite En. cbn [rbind]. rewrite (readChannel_fat _ E3). reflexivity.
Qed.

End Reopen.
End Updated.
End UpdateFacts.

(** ** A patch that goes through *)

Module PatchReadFacts.
Import IndexFacts StringFacts PageFacts IdxWriter WriterFacts HeaderFacts
  RepackFacts LayoutFacts Layout IdxReadFacts ChannelFacts MetaFacts Reader
  RollbackFacts DatFacts PatchFacts PlanFacts GrowFacts UpdateFacts.
Import Patch.

(** The FAT words a list of entries is written as. *)
Definition fatBytes (words : list Z) : Buffer :=
  concat (map (fun e => packU32 (u32 e)) words).

Lemma words_of_app (l1 l2 : list PreparedPatch) :
  words_of (l1 ++ l2) = words_of l1 ++ words_of l2.
Proof. unfold words_of. now rewrite map_app, concat_app. Qed.

Lemma image_of_app (l1 l2 : list PreparedPatch) :
  image_of (l1 ++ l2) = image_of l1 ++ image_of l2.
Proof. unfold image_of. now rewrite map_app, concat_app. Qed.

Lemma blocks_of_app (l1 l2 : list PreparedPatch) :
  blocks_of (l1 ++ l2) = blocks_of l1 + blocks_of l2.
Proof.
  unfold blocks_of, blocks_total. induction l1 as [|p l1 IH]; [reflexivity|].
  cbn [app map fold_right]. rewrite IH. lia.
Qed.

Lemma blocks_of_cons (p : PreparedPatch) (l : list PreparedPatch) :
  blocks_of (p :: l) = blocksOf (comp p) + blocks_of l.
Proof. reflexivity. Qed.

Lemma fatNext_app_r (pre rest : Buffer) (B k : Z) :
  blen pre = 4 * B -> 0 <= k ->
  fatNext (pre ++ rest) (B + k) = fatNext rest k.
Proof.
  intros Hpre Hk. unfold fatNext. rewrite CodecFacts.blen_app.
  pose proof (blen_nonneg pre).
  replace ((B + k) * 4) with (blen pre + k * 4) by lia.
  rewrite readU32_app_r by lia.
  destruct (Z.ltb_spec (blen pre + k * 4) 0), (Z.ltb_spec (k * 4) 0); try lia.
  destruct (Z.ltb_spec (blen pre + blen rest) (blen pre + k * 4 + 4)),
           (Z.ltb_spec (blen rest) (k * 4 + 4)); try lia; reflexivity.
Qed.

(** The entry of a patch leads through the new FAT entries to its wrapped
    bytes in the appended blocks. *)
Lemma read_patched (arc' : PriusArchive) (fatOld datOld : Buffer) (B : Z)
    (pre post : list PreparedPatch) (p : PreparedPatch) (f e : Z) :
  fat arc' = fatOld ++ fatBytes (words_of (pre ++ p :: post)) ->
  dat arc' = Some (datOld ++ image_of (pre ++ p :: post)) ->
  blen fatOld = 4 * B -> blen datOld = 512 * B -> 0 <= B ->
  Forall (fun q => blocksNeeded q = blocksOf (comp q)) pre ->
  blocksNeeded p = blocksOf (comp p) ->
  newStartBlock p = B + blocks_of pre ->
  B + blocks_of pre + blocksOf (comp p) < 2 ^ 32 - 1 ->
  readRawMetaBytes arc'
    {| flags := f; size := blen (wrapped (comp p));
       startBlock := newStartBlock p; extra := e |}
  = Ok (wrapped (comp p)).
Proof.
  intros Hfat Hdat HfatOld HdatOld HB Hpre Hbn Hstart H32.
  set (r := comp p) in *. set (s := newStartBlock p) in *.
  pose proof (blocks_of_nonneg pre) as Hpre0.
  pose proof (blocksOf_nonneg r) as Hbn0.
  pose proof (blocksOf_covers r) as Hcov.
  pose proof (blen_nonneg (wrapped r)) as Hw0.
  unfold readRawMetaBytes, readRawMetaBytes_logged. cbn [size startBlock].
  destruct (Z.eqb_spec (blen (wrapped r)) 0) as [E0|Hne].
  { cbn [fst]. destruct (wrapped r); [reflexivity|].
    unfold blen in E0. cbn in E0. lia. }
  assert (Hbn1 : 1 <= blocksOf r) by (unfold DAT_BLOCK_SIZE in Hcov; lia).
  destruct (Z.eqb_spec s 0xffffffff) as [E|_]; [lia|].
  rewrite Hdat, Hfat.
  pose proof (readBlocks_run (datOld ++ image_of (pre ++ p :: post))
                (fatOld ++ fatBytes (words_of (pre ++ p :: post)))
                (Z.to_nat ((blen (wrapped r) + 0x1ff) / 0x200))
                (blen (wrapped r)) s [] []) as Hrun.
  change (blen []) with 0 in Hrun. cbn [app] in Hrun.
  assert (Eb : (blen (wrapped r) + 0x1ff) / 0x200 = blocksOf r)
    by (unfold blocksOf, DAT_BLOCK_SIZE; f_equal; lia).
  rewrite Eb in *.
  assert (Himg : datOld ++ image_of (pre ++ p :: post)
                 = (datOld ++ image_of pre) ++ wrapped r
                   ++ (replicate (Z.to_nat (blocksOf r * DAT_BLOCK_SIZE
                                            - blen (wrapped r))) x00
                       ++ image_of post)).
  { rewrite image_of_app. unfold image_of at 2. cbn [map concat].
    fold (image_of post). fold r. unfold blockBytes.
    now rewrite <- !app_assoc. }
  assert (Hlen : blen (datOld ++ image_of pre) = s * 0x200).
  { rewrite CodecFacts.blen_app, blen_image_of, HdatOld, Hstart. lia. }
  destruct (readBlocks _ _ _ _ _ _ _ _) as [res log].
  cbn [fst] in Hrun. rewrite Hrun.
  - change (negb (0 =? 0)) with false. cbv iota. cbn [fst].
    rewrite Himg, <- Hlen. now rewrite subarray_at.
  - lia.
  - lia.
  - lia.
  - intros b Hb. rewrite Z2Nat.id in Hb by lia. split; [|lia].
    replace (s + b) with (B + (blocks_of pre + b)) by lia.
    rewrite (fatNext_app_r _ _ B) by lia.
    rewrite <- (Z2Nat.id (blocks_of pre + b)) by lia.
    apply fatNext_built; [|lia].
    rewrite words_of_app.
    rewrite lookup_app_r
      by (pose proof (length_words_of pre Hpre); lia).
    unfold words_of at 2. cbn [map concat]. rewrite lookup_app_l.
    + rewrite Hbn. fold s r.
      replace (Z.to_nat (blocks_of pre + b) - length (words_of pre))%nat
        with (Z.to_nat b) by (pose proof (length_words_of pre Hpre); lia).
      rewrite chain_lookup by lia. rewrite Z2Nat.id by lia.
      destruct (Z.ltb_spec b (blocksOf r - 1)); [|lia].
      f_equal. lia.
    + rewrite length_chain, Hbn. fold r.
      pose proof (length_words_of pre Hpre). lia.
  - rewrite Himg, CodecFacts.blen_app, Hlen, !CodecFacts.blen_app.
    unfold blen. lia.
Qed.

(** A record whose sixteen bytes were not touched reads as before. *)
Lemma metaRecord_ext (arc arc' : PriusArchive) (i : Z) :
  blen (meta arc') = blen (meta arc) ->
  (forall o, i * 16 <= o < i * 16 + 16 -> 0 <= o < blen (meta arc) ->
     meta arc' !! Z.to_nat o = meta arc !! Z.to_nat o) ->
  metaRecord arc' i = metaRecord arc i.
Proof.
  intros Hlen Hb. unfold metaRecord, META_SIZE. rewrite Hlen.
  destruct ((i * 16 <? 0) || (blen (meta arc) <? i * 16 + 16)) eqn:Et;
    [reflexivity|].
  apply orb_false_iff in Et as [E1 E2]. apply Z.ltb_ge in E1, E2.
  unfold unpackMetaRecord.
  assert (Hw : forall k, 0 <= k <= 12 ->
            readU32 (meta arc') (i * 16 + k) = readU32 (meta arc) (i * 16 + k)).
  { intros k Hk. apply readU32_ext; [exact Hlen|].
    intros j Hj.
    replace (Z.to_nat (i * 16 + k) + j)%nat
      with (Z.to_nat (i * 16 + k + Z.of_nat j)) by lia.
    apply Hb; lia. }
  pose proof (Hw 0 ltac:(lia)) as W0. rewrite Z.add_0_r in W0.
  now rewrite W0, (Hw 4), (Hw 8), (Hw 12) by lia.
Qed.

(** The record of a patch after the update. *)
Lemma metaRecord_new (arc' : PriusArchive) (m : Z) (bytes : Buffer)
    (f s b e : Z) :
  0 <= m -> m * 16 + 16 <= blen (meta arc') ->
  bytes = packMetaRecord f s b e ->
  (forall i, 0 <= i < 16 ->
     meta arc' !! Z.to_nat (m * 16 + i) = bytes !! Z.to_nat i) ->
  metaRecord arc' m
  = Ok {| flags := u32 f; size := u32 s; startBlock := u32 b; extra := u32 e |}.
Proof.
  intros Hm Hin -> Hb. unfold metaRecord, META_SIZE.
  destruct (Z.ltb_spec (m * 16) 0); [lia|].
  destruct (Z.ltb_spec (blen (meta arc')) (m * 16 + 16)); [lia|]. cbn [orb].
  apply unpack_bytes; [lia|lia|].
  intros i Hi. specialize (Hb (Z.of_nat i) ltac:(lia)).
  rewrite Nat2Z.id in Hb. rewrite <- Hb. f_equal. lia.
Qed.

(** The decoder gives back what [buildFileWrapper] wrapped. *)
Lemma decode_wrapped (deflate : Buffer -> Z -> Buffer)
    (inflate : Buffer -> option Buffer) (raw : Buffer) (level : Z) :
  inflate (deflate raw level) = Some raw -> blen raw < 2 ^ 32 ->
  Codec.decodeFilePayload inflate (Codec.buildFileWrapper deflate raw level)
  = Ok raw.
Proof.
  intros Hz Hsz.
  assert (Hu : u32 (blen raw) = blen raw)
    by (apply u32_small; unfold blen in *; lia).
  assert (Hw : Codec.buildFileWrapper deflate raw level
               = CodecFacts.wrapper_header (blen raw) ++ deflate raw level).
  { unfold Codec.buildFileWrapper, CodecFacts.wrapper_header. rewrite Hu.
    now rewrite <- !app_assoc. }
  assert (H0 : readU32 (Codec.buildFileWrapper deflate raw level) 0 = Ok 1).
  { rewrite Hw. unfold CodecFacts.wrapper_header. rewrite <- !app_assoc.
    apply readU32_packU32_0. }
  assert (H4 : readU32 (Codec.buildFileWrapper deflate raw level) 4
               = Ok (blen raw)).
  { rewrite Hw. unfold CodecFacts.wrapper_header. rewrite <- !app_assoc.
    rewrite <- Hu at 2.
    exact (readU32_packU32 (packU32 1) _ (blen raw)). }
  unfold Codec.decodeFilePayload. rewrite H0, H4. cbn [rbind].
  assert (Hlen : (blen (Codec.buildFileWrapper deflate raw level)
                  <? FILE_WRAPPER_HEADER_SIZE) = false).
  { apply Z.ltb_ge. rewrite Hw, CodecFacts.blen_app. unfold blen at 1.
    rewrite CodecFacts.length_wrapper_header.
    unfold FILE_WRAPPER_HEADER_SIZE, blen. lia. }
  rewrite Hlen. cbn [Z.eqb Pos.eqb].
  rewrite Hw.
  change (Z.to_nat FILE_WRAPPER_HEADER_SIZE)
    with (length (CodecFacts.wrapper_header (blen raw))).
  rewrite drop_app_length, Hz.
  rewrite Z.eqb_refl. cbn [negb andb].
  now rewrite andb_false_r.
Qed.

Lemma NoDup_snoc {A} (l : list A) (x : A) :
  List.NoDup l -> ~ In x l -> List.NoDup (l ++ [x]).
Proof.
  induction 1 as [|y l Hy Hnd IH]; intros Hx; cbn [app].
  - constructor; [intros []|constructor].
  - constructor.
    + rewrite in_app_iff. intros [H|[H|[]]]; [contradiction|].
      apply Hx. now left.
    + apply IH. intros H. apply Hx. now right.
Qed.

Section Env.
Variable toLowerCase : Buffer -> Buffer.
Variable deflate : Buffer -> Z -> Buffer.
Variable inflate : Buffer -> option Buffer.
Variable sha1 : Buffer -> Buffer.
Variable readFileSync : Buffer -> result Buffer.
Variable statSize : Buffer -> result Z.

Local Abbreviation prepare :=
  (Patch.prepare toLowerCase deflate sha1 readFileSync statSize).
Local Abbreviation commit := (Patch.commit inflate sha1).
Local Abbreviation patchFiles :=
  (Patch.patchFiles toLowerCase deflate inflate sha1 readFileSync statSize).

(** *** Phase 1: the patches *)

(** Phase 1 takes no entry of the archive twice, takes its patches from
    the file map, and counts every entry of the file map once. *)
Lemma resolve_loop_patches (arc : PriusArchive) (fileMap : list (Buffer * Buffer))
    (entries : list (Buffer * Buffer)) :
  forall seen patches nf dd patches' nf' dd',
    List.NoDup (map metaIdx patches) ->
    (forall p, In p patches -> metaIdx p ∈ seen) ->
    (forall p, In p patches -> In (requestedPath p, localPath p) fileMap) ->
    (forall e, In e entries -> In e fileMap) ->
    resolve_loop toLowerCase arc entries seen patches nf dd
    = Ok (patches', nf', dd') ->
    List.NoDup (map metaIdx patches') /\
    (forall p, In p patches' -> In (requestedPath p, localPath p) fileMap) /\
    Z.of_nat (length patches') + nf' + dd'
    = Z.of_nat (length patches) + nf + dd + Z.of_nat (length entries).
Proof.
  induction entries as [|[req loc] entries IH];
    intros seen patches nf dd patches' nf' dd' Hnd Hseen Hfrom Hsub;
    cbn [resolve_loop].
  - intros [= <- <- <-]. cbn [length]. repeat split; try assumption. lia.
  - destruct (resolveMetaForPath toLowerCase arc req) as [[ap mi]| |];
      try discriminate.
    cbn [rbind fst snd].
    assert (Hsub' : forall e, In e entries -> In e fileMap)
      by (intros e He; apply Hsub; now right).
    destruct (mi <? 0).
    { intros Hrun.
      destruct (IH _ _ _ _ _ _ _ Hnd Hseen Hfrom Hsub' Hrun) as (H1 & H2 & H3).
      repeat split; try assumption. cbn [length]. lia. }
    destruct (bool_decide (mi ∈ seen)) eqn:Eseen.
    { intros Hrun.
      destruct (IH _ _ _ _ _ _ _ Hnd Hseen Hfrom Hsub' Hrun) as (H1 & H2 & H3).
      repeat split; try assumption. cbn [length]. lia. }
    apply bool_decide_eq_false in Eseen.
    destruct (metaRecord arc mi) as [old| |]; try discriminate.
    cbn [rbind]. intros Hrun.
    apply IH in Hrun as (H1 & H2 & H3); try assumption.
    + repeat split; try assumption. rewrite length_app in H3.
      cbn [length] in H3 |- *. lia.
    + rewrite map_app. cbn [map metaIdx]. apply NoDup_snoc; [exact Hnd|].
      intros Hin. apply in_map_iff in Hin as (q & Eq & Hq).
      apply Eseen. rewrite <- Eq. now apply Hseen.
    + intros p Hp. apply in_app_iff in Hp as [Hp|[<-|[]]].
      * apply elem_of_union_r. now apply Hseen.
      * cbn [metaIdx]. apply elem_of_union_l, elem_of_singleton. reflexivity.
    + intros p Hp. apply in_app_iff in Hp as [Hp|[<-|[]]].
      * now apply Hfrom.
      * cbn [requestedPath localPath]. apply Hsub. now left.
Qed.

(** *** Phase 2: the compression results *)

(** A compression result of the file at [path]. *)
Definition compressed_from (level : Z) (path : Buffer) (c : CompressedFile)
    : Prop :=
  exists raw,
    readFileSync path = Ok raw /\
    wrapped c = Codec.buildFileWrapper deflate raw level /\
    rawSize c = blen raw /\ rawSha1 c = sha1 raw.

Lemma batch_loop_from (level : Z) (paths : list Buffer) :
  forall i out res,
    Compress.batch_loop deflate sha1 readFileSync paths i level true out
    = Ok res ->
    exists news, res = out ++ news /\ Forall2 (compressed_from level) paths news.
Proof.
  induction paths as [|path paths IH]; intros i out res;
    cbn [Compress.batch_loop].
  - intros [= <-]. exists []. rewrite app_nil_r. split; [reflexivity|constructor].
  - unfold Compress.compressSingle.
    destruct (readFileSync path) as [raw| |] eqn:Er; try discriminate.
    cbn [rbind wrapped rawSize rawSha1]. intros Hrun.
    apply IH in Hrun as (news & -> & Hall).
    eexists (_ :: news). rewrite <- app_assoc. split; [reflexivity|].
    constructor; [|exact Hall].
    exists raw. cbn [wrapped rawSize rawSha1]. repeat split. exact Er.
Qed.

Lemma compressFilesBatch_from (level : Z) (paths : list Buffer)
    (res : list CompressedFile) :
  Compress.compressFilesBatch deflate sha1 readFileSync paths level true
  = Ok res ->
  Forall2 (compressed_from level) paths res.
Proof.
  unfold Compress.compressFilesBatch. destruct paths as [|path paths].
  - cbn. intros [= <-]. constructor.
  - cbn [length Nat.eqb]. intros Hrun.
    apply batch_loop_from in Hrun as (news & -> & Hall). exact Hall.
Qed.

Lemma plan_list_from (level : Z) (patches : list PatchInput) :
  forall comps bc,
    Forall2 (compressed_from level) (map localPath patches) comps ->
    Forall (fun p => compressed_from level (localPath (patch p)) (comp p))
           (plan_list patches comps bc) /\
    map patch (plan_list patches comps bc) = patches.
Proof.
  induction patches as [|p patches IH]; intros comps bc Hall.
  - split; [constructor|reflexivity].
  - cbn [map] in Hall.
    apply Forall2_cons_inv_l in Hall as (c & cs & Hc & Hall & ->).
    cbn [plan_list]. destruct (IH cs (bc + blocksOf c) Hall) as [H1 H2].
    split; [constructor; [exact Hc|exact H1]|].
    cbn [map patch]. now rewrite H2.
Qed.

(** *** What phases 1 and 2 leave to phase 3 *)

Record planned (d : Disk) (fileMap : list (Buffer * Buffer)) (level : Z)
    (plan : Plan) (idx : PriusIdx) (arc : PriusArchive)
    (fatCh metaCh : IdxChannel) : Prop := {
  pl_ok : plan_ok d plan idx arc fatCh metaCh;
  pl_aligned : blen (datFile d) = 512 * fatEntryCount arc;
  pl_fat : blen (fat arc) = 4 * fatEntryCount arc;
  pl_size : sizeBytes fatCh = 4 * fatEntryCount arc;
  pl_nodup : List.NoDup (map (fun p => metaIdx (patch p)) (prepared plan));
  pl_fileMap : forall p, In p (prepared plan) ->
    In (requestedPath (patch p), localPath (patch p)) fileMap;
  pl_count :
    Z.of_nat (length (prepared plan)) + notFoundCount plan + dedupedCount plan
    = Z.of_nat (length fileMap);
  pl_from : Forall (fun p => compressed_from level (localPath (patch p)) (comp p))
                   (prepared plan);
  pl_list : exists patches comps,
    prepared plan = plan_list patches comps (fatEntryCount arc);
  pl_entries : newFatEntries plan = fatBytes (words_of (prepared plan));
  pl_newSize : newFatSize plan
               = 4 * (fatEntryCount arc + blocks_of (prepared plan))
}.

Lemma prepare_planned d fileMap level dryRun plan :
  prepare d fileMap level dryRun = Ok (inr plan) ->
  exists idx arc fatCh metaCh, planned d fileMap level plan idx arc fatCh metaCh.
Proof.
  intros Hprep.
  destruct (prepare_plan _ _ _ _ _ _ _ _ _ _ Hprep)
    as (idx & arc & fatCh & metaCh & Hok).
  exists idx, arc, fatCh, metaCh.
  pose proof (plan_open _ _ _ _ _ _ Hok) as Eopen.
  pose proof (plan_fatCh _ _ _ _ _ _ Hok) as HfatCh.
  revert Hprep. unfold Patch.prepare. rewrite Eopen. cbn [rbind fst snd].
  destruct (resolve_loop _ _ _ _ _ _ _) as [[[patches nf] dd]| |] eqn:Eres;
    try discriminate.
  cbn [rbind].
  destruct (length patches =? 0)%nat; [discriminate|].
  destruct dryRun.
  { destruct (stat_loop _ _) as [u| |]; discriminate. }
  destruct (Z.eqb_spec (blen (datFile d) mod DAT_BLOCK_SIZE) 0) as [Emod|];
    [|discriminate].
  cbn [negb].
  destruct (Z.eqb_spec (fatEntryCount arc) (blen (datFile d) / DAT_BLOCK_SIZE))
    as [Ecnt|]; [|discriminate].
  cbn [negb].
  unfold fatChannel at 1. change 3 with (Z.of_nat 3) at 1.
  rewrite at_index_nat, HfatCh.
  destruct (Z.eqb_spec (sizeBytes fatCh) (fatEntryCount arc * 4)) as [Esz|];
    [|discriminate].
  cbn [negb].
  destruct (Compress.compressFilesBatch _ _ _ _ _ _) as [compressed| |] eqn:Ecomp;
    try discriminate.
  cbn [rbind].
  destruct (prepare_loop _ _ _ _ _ _) as [[[bc words] prep]| |] eqn:Eloop;
    try discriminate.
  cbn [rbind].
  unfold fatChannel at 1. change 3 with (Z.of_nat 3) at 1.
  rewrite at_index_nat, HfatCh.
  destruct (_ >? _); [discriminate|].
  destruct (at_index _ metaChannel) as [metaCh'|]; [|discriminate].
  destruct (existsb _ prep); [discriminate|].
  intros [= <-].
  cbn [idxLayout originalDatSize originalFatSize prepared newFatEntries
       newFatSize notFoundCount dedupedCount] in *.
  pose proof (prepare_loop_ok _ _ _ _ _ _ _ _ _ Eloop) as (_ & _ & Hbc).
  apply prepare_loop_list in Eloop as (Hprep & Hwords & Hlen).
  cbn [app drop length] in Hprep, Hwords, Hlen, Hbc. subst prep words.
  rewrite drop_0 in *.
  rewrite <- Ecnt in *.
  apply compressFilesBatch_from in Ecomp.
  destruct (plan_list_from level patches compressed (fatEntryCount arc) Ecomp)
    as [Hfrom Hpatches].
  destruct (resolve_loop_patches arc fileMap fileMap ∅ [] 0 0 patches nf dd)
    as (Hnd & Hmap & Hcount); try exact Eres.
  { constructor. }
  { intros p []. }
  { intros p []. }
  { intros e He. exact He. }
  assert (Hdat : blen (datFile d) = 512 * fatEntryCount arc).
  { rewrite Ecnt. unfold DAT_BLOCK_SIZE in *.
    pose proof (Z.div_mod (blen (datFile d)) 512). lia. }
  pose proof (plan_list_blocks patches compressed (fatEntryCount arc)) as Hblocks.
  split; cbn [idxLayout originalDatSize originalFatSize prepared newFatEntries
              newFatSize notFoundCount dedupedCount].
  - exact Hok.
  - exact Hdat.
  - pose proof (openArchive_inv _ _ _ _ Eopen) as (Ho & _ & _ & _ & E3 & _).
    change 3 with (Z.of_nat 3) in E3.
    destruct (readChannel_opened _ _ 3 fatCh (open_opened _ _ Ho) HfatCh)
      as (out & Er & Hl & _).
    rewrite Er in E3. injection E3 as <-. lia.
  - lia.
  - rewrite <- (map_map patch metaIdx), Hpatches. exact Hnd.
  - intros p Hp. apply Hmap. rewrite <- Hpatches. now apply in_map.
  - rewrite Hlen. cbn [length] in Hcount. lia.
  - exact Hfrom.
  - eauto.
  - unfold fatBytes, alloc.
    replace (Z.to_nat (Z.of_nat (length (words_of (plan_list patches compressed
                                                     (fatEntryCount arc)))) * 4))
      with (4 * length (words_of (plan_list patches compressed
                                    (fatEntryCount arc))))%nat by lia.
    pose proof (fatData_loop_spec
                  (words_of (plan_list patches compressed (fatEntryCount arc)))
                  0%nat [] eq_refl) as Hspec.
    cbn [app] in Hspec. change (Z.of_nat 0) with 0 in Hspec. exact Hspec.
  - rewrite <- (length_words_of _ Hblocks). cbn [length] in Hbc. lia.
Qed.

(** *** Phases 3 and 4 without fault *)

Lemma append_all (prepared : list PreparedPatch) (datOld : Buffer) :
  Forall (fun q => blocksNeeded q = blocksOf (comp q)) prepared ->
  exists a fd,
    match append_loop None prepared
            {| writePos := blen datOld; pendingWrites := []; pendingBytes := 0 |}
            {| datBytes := datOld; writevCalls := 0 |} with
    | (Ok a, fd) => flushWrites None a fd
    | (Throw e, fd) => (Throw e, fd)
    | (OutOfFuel, fd) => (OutOfFuel, fd)
    end = (Ok a, fd) /\
    datBytes fd = datOld ++ image_of prepared.
Proof.
  intros Hall.
  destruct (append_loop_none prepared
              {| writePos := blen datOld; pendingWrites := []; pendingBytes := 0 |}
              {| datBytes := datOld; writevCalls := 0 |} Hall eq_refl eq_refl)
    as (a' & fd' & Hrun & Hres & Hp & Hb).
  rewrite Hrun.
  destruct (flushWrites_none a' fd' Hp Hb) as (a'' & fd'' & Hfl & Hdat & _).
  exists a'', fd''. split; [exact Hfl|]. rewrite Hdat, Hres. reflexivity.
Qed.

Lemma verify_loop_ok (arc' : PriusArchive) (prepared : list PreparedPatch) :
  forall errors,
    Forall (fun p => exists raw,
              Extract.readFileBytes inflate arc' (metaIdx (patch p)) = Ok raw /\
              rawSize (comp p) = blen raw /\ rawSha1 (comp p) = sha1 raw)
           prepared ->
    verify_loop inflate sha1 arc' prepared errors = Ok errors.
Proof.
  induction prepared as [|p prepared IH]; intros errors Hall; [reflexivity|].
  apply Forall_cons in Hall as [(raw & Hread & Hsize & Hsha) Hall].
  cbn [verify_loop]. rewrite Hread, Hsize, Hsha, Z.eqb_refl.
  rewrite bool_decide_eq_true_2 by reflexivity. cbn [negb orb].
  now apply IH.
Qed.

Lemma metaRecord_range (arc : PriusArchive) (m : Z) (r : MetaRecord) :
  metaRecord arc m = Ok r -> 0 <= m * 16 /\ m * 16 + 16 <= blen (meta arc).
Proof.
  unfold metaRecord, META_SIZE.
  destruct (Z.ltb_spec (m * 16) 0); [discriminate|].
  destruct (Z.ltb_spec (blen (meta arc)) (m * 16 + 16)); [discriminate|].
  intros _. lia.
Qed.

Section Committed.
Variables (d : Disk) (fileMap : list (Buffer * Buffer)) (level : Z)
  (plan : Plan) (idx : PriusIdx) (arc : PriusArchive)
  (fatCh metaCh : IdxChannel).
Hypothesis Hpl : planned d fileMap level plan idx arc fatCh metaCh.
Hypothesis Hz : forall raw, inflate (deflate raw level) = Some raw.
Hypothesis H32 : newFatSize plan < 2 ^ 32.
Hypothesis Hsizes :
  Forall (fun p => rawSize (comp p) < 2 ^ 32 /\ wrappedSize p < 2 ^ 32)
         (prepared plan).

Local Abbreviation slots := (map (fun p => metaIdx (patch p)) (prepared plan)).
Local Abbreviation cnt := (fatEntryCount arc).
Local Abbreviation dat' := (datFile d ++ image_of (prepared plan)).

Lemma plan_blocks :
  Forall (fun q => blocksNeeded q = blocksOf (comp q)) (prepared plan).
Proof.
  destruct (pl_list _ _ _ _ _ _ _ _ Hpl) as (patches & comps & ->).
  apply plan_list_blocks.
Qed.

Lemma cnt_nonneg : 0 <= cnt.
Proof. unfold fatEntryCount. apply Z.div_pos; [apply blen_nonneg|lia]. Qed.

Lemma blen_entries : blen (newFatEntries plan) = 4 * blocks_of (prepared plan).
Proof.
  rewrite (pl_entries _ _ _ _ _ _ _ _ Hpl). unfold fatBytes.
  rewrite blen_fat_built, (length_words_of _ plan_blocks). reflexivity.
Qed.

(** The archive after the run: the old trie and strings, the meta channel
    [new], the FAT with the new entries and the data file with the new
    blocks. *)
Definition patchedArchive (new : Buffer) : PriusArchive :=
  {| dt := dt arc; strings := strings arc; meta := new;
     fat := fat arc ++ newFatEntries plan; dat := Some dat' |}.

Section Reads.
Variable new : Buffer.
Hypothesis Hlen : blen new = blen (meta arc).
Hypothesis Hnew :
  forall p, In p (prepared plan) ->
    metaIdx (patch p) * 16 + 16 <= blen (meta arc) ->
    forall i, 0 <= i < 16 ->
      new !! Z.to_nat (metaIdx (patch p) * 16 + i)
      = newMetaBytes p !! Z.to_nat i.
Hypothesis Hkept :
  forall o, 0 <= o < blen (meta arc) ->
    (forall p, In p (prepared plan) ->
       ~ metaIdx (patch p) * 16 <= o < metaIdx (patch p) * 16 + 16) ->
    new !! Z.to_nat o = meta arc !! Z.to_nat o.

(** Every patched entry reads back as the local file. *)
Lemma patched_reads (p : PreparedPatch) :
  In p (prepared plan) ->
  exists raw,
    readFileSync (localPath (patch p)) = Ok raw /\
    Extract.readFileBytes inflate (patchedArchive new) (metaIdx (patch p))
    = Ok raw /\
    rawSize (comp p) = blen raw /\ rawSha1 (comp p) = sha1 raw.
Proof.
  intros Hp.
  pose proof (pl_ok _ _ _ _ _ _ _ _ Hpl) as Hok.
  destruct (proj1 (List.Forall_forall _ _) (pl_from _ _ _ _ _ _ _ _ Hpl) p Hp)
    as (raw & Hraw & Hwrapped & Hrs & Hsha).
  destruct (proj1 (List.Forall_forall _ _) Hsizes p Hp) as [Hr32 Hw32].
  destruct (proj1 (List.Forall_forall _ _) (plan_prepared _ _ _ _ _ _ Hok) p Hp)
    as (_ & _ & Hws & _).
  assert (Hpok : patch_ok arc (patch p)).
  { apply (proj1 (List.Forall_forall _ _) (plan_patches _ _ _ _ _ _ Hok)).
    now apply in_map. }
  destruct Hpok as [Hm0 Hold].
  destruct (metaRecord_range _ _ _ Hold) as [_ Hmr].
  destruct (in_split _ _ Hp) as (pre & post & Hsplit).
  destruct (pl_list _ _ _ _ _ _ _ _ Hpl) as (patches & comps & Hlist).
  rewrite Hsplit in Hlist. symmetry in Hlist.
  destruct (plan_list_at pre patches comps cnt p post Hlist)
    as (Hstart & Hbn & Hbytes & Hpre).
  pose proof cnt_nonneg as Hc0.
  pose proof (blocks_of_nonneg pre) as Hpre0.
  pose proof (blocks_of_nonneg post) as Hpost0.
  pose proof (blocksOf_nonneg (comp p)) as Hbn0.
  assert (Htotal : cnt + blocks_of pre + blocksOf (comp p) < 2 ^ 30).
  { pose proof (pl_newSize _ _ _ _ _ _ _ _ Hpl) as Hns.
    rewrite Hsplit, blocks_of_app, blocks_of_cons in Hns. lia. }
  exists raw. split; [exact Hraw|]. split; [|split; assumption].
  unfold Extract.readFileBytes.
  rewrite (metaRecord_new (patchedArchive new) (metaIdx (patch p))
             (newMetaBytes p) _ _ _ _ Hm0
             ltac:(cbn [patchedArchive meta]; lia) Hbytes)
    by (cbn [patchedArchive meta]; now apply Hnew).
  cbn [rbind].
  rewrite (u32_small (blen (wrapped (comp p))))
    by (pose proof (blen_nonneg (wrapped (comp p))); lia).
  rewrite (u32_small (newStartBlock p)) by lia.
  rewrite (read_patched (patchedArchive new) (fat arc) (datFile d) cnt
             pre post p); try assumption.
  - cbn [rbind]. rewrite Hwrapped. apply decode_wrapped; [apply Hz|lia].
  - cbn [patchedArchive fat].
    now rewrite (pl_entries _ _ _ _ _ _ _ _ Hpl), Hsplit.
  - cbn [patchedArchive dat]. now rewrite Hsplit.
  - exact (pl_fat _ _ _ _ _ _ _ _ Hpl).
  - exact (pl_aligned _ _ _ _ _ _ _ _ Hpl).
  - lia.
Qed.

(** Every other entry that could be read reads as before. *)
Lemma unpatched_reads (i : Z) (out : Buffer) :
  ~ In i slots ->
  Extract.readFileBytes inflate arc i = Ok out ->
  Extract.readFileBytes inflate (patchedArchive new) i = Ok out.
Proof.
  intros Hfree. unfold Extract.readFileBytes.
  rewrite (metaRecord_ext arc (patchedArchive new) i).
  - destruct (metaRecord arc i) as [m| |]; try discriminate. cbn [rbind].
    destruct (readRawMetaBytes arc m) as [raw| |] eqn:Eraw; try discriminate.
    cbn [rbind].
    pose proof (pl_ok _ _ _ _ _ _ _ _ Hpl) as Hok.
    pose proof (plan_open _ _ _ _ _ _ Hok) as Eopen.
    apply openArchive_inv in Eopen as (_ & _ & _ & _ & _ & Edat).
    rewrite (readRawMetaBytes_grow arc (patchedArchive new) (datFile d)
               (image_of (prepared plan)) (newFatEntries plan) m raw Edat
               eq_refl eq_refl Eraw).
    exact (fun H => H).
  - exact Hlen.
  - intros o Ho Hr. cbn [patchedArchive meta]. apply Hkept; [exact Hr|].
    intros p Hp Hin. apply Hfree. apply in_map_iff. exists p.
    split; [lia|exact Hp].
Qed.

End Reads.

(** A run without fault goes through. *)
Lemma commit_goes_through :
  exists f' new,
    commit noFaults plan d
    = (Ok {| patched := Z.of_nat (length (prepared plan));
             notFound := notFoundCount plan; deduped := dedupedCount plan;
             errors := 0; wouldPatch := None; rolledBack := Some false |},
       {| idxFile := f'; datFile := dat' |}, (true, true)) /\
    blen f' = blen (idxFile d) /\
    Idx.openArchive f' (Some dat')
    = Ok (grown idx fatCh (newFatSize plan) f', patchedArchive new) /\
    blen new = blen (meta arc) /\
    (forall p, In p (prepared plan) ->
       exists raw,
         readFileSync (localPath (patch p)) = Ok raw /\
         Extract.readFileBytes inflate (patchedArchive new) (metaIdx (patch p))
         = Ok raw) /\
    (forall i out, ~ In i slots ->
       Extract.readFileBytes inflate arc i = Ok out ->
       Extract.readFileBytes inflate (patchedArchive new) i = Ok out).
Proof.
  pose proof (pl_ok _ _ _ _ _ _ _ _ Hpl) as Hok.
  pose proof (plan_opened _ _ _ _ _ _ Hok) as Hopen.
  pose proof (plan_fatCh _ _ _ _ _ _ Hok) as HfatCh.
  pose proof (plan_metaCh _ _ _ _ _ _ Hok) as HmetaCh.
  pose proof (plan_fat0 _ _ _ _ _ _ Hok) as Hfat0.
  pose proof (plan_fat_cap _ _ _ _ _ _ Hok) as Hfat.
  pose proof (plan_fat _ _ _ _ _ _ Hok) as Hsize0.
  pose proof (plan_slots _ _ _ _ _ _ Hok) as Hslots.
  pose proof (plan_layout _ _ _ _ _ _ Hok) as Hlayout.
  assert (HnewSize : newFatSize plan
                     = originalFatSize plan + blen (newFatEntries plan)).
  { rewrite blen_entries, (pl_newSize _ _ _ _ _ _ _ _ Hpl), Hsize0,
      (pl_size _ _ _ _ _ _ _ _ Hpl). lia. }
  destruct (updateIdx_lands (idxFile d) idx fatCh metaCh Hopen HfatCh HmetaCh
              (originalFatSize plan) (newFatEntries plan) (newFatSize plan)
              Hfat0 Hfat plan Hlayout eq_refl eq_refl eq_refl Hslots
              (pl_nodup _ _ _ _ _ _ _ _ Hpl))
    as (fd' & Hupdate & Hupd).
  destruct (openArchive_updated (idxFile d) idx fatCh metaCh Hopen HfatCh
              HmetaCh (originalFatSize plan) (newFatEntries plan)
              (newFatSize plan) Hfat0 Hfat Hsize0 HnewSize H32
              (prepared plan) (content fd') Hslots Hupd
              (Some (datFile d)) (Some dat') arc
              (plan_open _ _ _ _ _ _ Hok))
    as (new & Harc' & Hlen & Hnew & Hkept).
  fold (patchedArchive new) in Harc'.
  exists (content fd'), new.
  assert (Hverify : verify_loop inflate sha1 (patchedArchive new)
                      (prepared plan) 0 = Ok 0).
  { apply verify_loop_ok. apply List.Forall_forall. intros p Hp.
    destruct (patched_reads new Hlen Hnew p Hp) as (raw & _ & H1 & H2 & H3).
    exists raw. repeat split; assumption. }
  split; [|split; [exact (upd_len _ _ _ _ _ _ _ Hupd)|split; [exact Harc'|
           split; [exact Hlen|split]]]].
  - unfold Patch.commit.
    rewrite (plan_dat _ _ _ _ _ _ Hok), Z.eqb_refl. cbn [negb].
    cbn [noFaults datWriteFails datSyncFails idxOpenFails idxWriteFault
         idxSyncFails].
    destruct (append_all (prepared plan) (datFile d) plan_blocks)
      as (a & fd & Happ & Hdat).
    rewrite Happ. cbn [fst snd idxFile datFile]. rewrite Hupdate.
    cbn [fst snd idxFile datFile]. rewrite Hdat, Harc'. cbn [fst snd].
    rewrite Hverify. reflexivity.
  - intros p Hp.
    destruct (patched_reads new Hlen Hnew p Hp) as (raw & H0 & H1 & _).
    exists raw. split; assumption.
  - intros i out. now apply unpatched_reads.
Qed.

End Committed.

(** X25. A real run of [patchFiles] that meets no fault of the file system
    goes through, and the archive it leaves reads as it should. Let phases
    1 and 2 end with a plan whose new FAT size fits its 32-bit header word
    and whose files and wrapped files are below 4 GiB, and let [inflate]
    undo [deflate]. Then [patchFiles] returns statistics with no error,
    [patched] the number of prepared patches and
    [patched + notFound + deduped] the number of entries of the file map;
    nothing is rolled back. The index file keeps its length and its page
    size; the data file is the old one with whole blocks appended and has
    again 512 bytes per FAT entry; the trie and the strings are unchanged,
    the meta channel keeps its length and the FAT is the old one with
    entries appended. Every patched entry comes from the file map and
    reads back, through [readFileBytes] on the new archive, as the bytes
    of its local file; every other entry that could be read before reads
    the same bytes. *)
Theorem patchFiles_reads_back (d : Disk) (fileMap : list (Buffer * Buffer))
    (level : Z) (plan : Plan) :
  (forall raw, inflate (deflate raw level) = Some raw) ->
  prepare d fileMap level false = Ok (inr plan) ->
  newFatSize plan < 2 ^ 32 ->
  Forall (fun p => rawSize (comp p) < 2 ^ 32 /\ wrappedSize p < 2 ^ 32)
         (prepared plan) ->
  exists stats d' idx arc idx' arc',
    patchFiles noFaults d fileMap level false = (Ok stats, d', false) /\
    patched stats = Z.of_nat (length (prepared plan)) /\
    errors stats = 0 /\
    patched stats + notFound stats + deduped stats
    = Z.of_nat (length fileMap) /\
    Idx.openArchive (idxFile d) (Some (datFile d)) = Ok (idx, arc) /\
    Idx.openArchive (idxFile d') (Some (datFile d')) = Ok (idx', arc') /\
    blen (idxFile d') = blen (idxFile d) /\
    pageSize idx' = pageSize idx /\
    (exists blocks, datFile d' = datFile d ++ blocks) /\
    blen (datFile d') = 512 * fatEntryCount arc' /\
    dt arc' = dt arc /\ strings arc' = strings arc /\
    blen (meta arc') = blen (meta arc) /\
    (exists entries, fat arc' = fat arc ++ entries) /\
    (forall p, In p (prepared plan) ->
       In (requestedPath (patch p), localPath (patch p)) fileMap /\
       exists raw,
         readFileSync (localPath (patch p)) = Ok raw /\
         Extract.readFileBytes inflate arc' (metaIdx (patch p)) = Ok raw) /\
    (forall i out,
       ~ In i (map (fun p => metaIdx (patch p)) (prepared plan)) ->
       Extract.readFileBytes inflate arc i = Ok out ->
       Extract.readFileBytes inflate arc' i = Ok out).
Proof.
  intros Hz Hprep H32 Hsizes.
  destruct (prepare_planned _ _ _ _ _ Hprep)
    as (idx & arc & fatCh & metaCh & Hpl).
  destruct (commit_goes_through d fileMap level plan idx arc fatCh metaCh
              Hpl Hz H32 Hsizes)
    as (f' & new & Hcommit & Hlen & Harc' & Hmeta & Hpatched & Hrest).
  pose proof (pl_ok _ _ _ _ _ _ _ _ Hpl) as Hok.
  eexists _, {| idxFile := f'; datFile := datFile d ++ image_of (prepared plan) |},
    idx, arc, _, (patchedArchive d plan arc new).
  split; [unfold Patch.patchFiles; rewrite Hprep, Hcommit; reflexivity|].
  split; [reflexivity|]. split; [reflexivity|].
  split; [cbn [patched notFound deduped]; exact (pl_count _ _ _ _ _ _ _ _ Hpl)|].
  split; [exact (plan_open _ _ _ _ _ _ Hok)|].
  split; [exact Harc'|]. split; [exact Hlen|]. split; [reflexivity|].
  split; [cbn [datFile]; eauto|].
  split.
  { cbn [datFile]. unfold fatEntryCount. cbn [patchedArchive fat].
    rewrite !CodecFacts.blen_app, blen_image_of,
      (blen_entries d fileMap level plan idx arc fatCh metaCh Hpl),
      (pl_aligned _ _ _ _ _ _ _ _ Hpl), (pl_fat _ _ _ _ _ _ _ _ Hpl).
    replace (4 * fatEntryCount arc + 4 * blocks_of (prepared plan))
      with ((fatEntryCount arc + blocks_of (prepared plan)) * 4) by lia.
    rewrite Z.div_mul by lia. lia. }
  split; [reflexivity|]. split; [reflexivity|]. split; [exact Hmeta|].
  split; [cbn [patchedArchive fat]; eauto|].
  split; [|exact Hrest].
  intros p Hp. split; [exact (pl_fileMap _ _ _ _ _ _ _ _ Hpl p Hp)|].
  now apply Hpatched.
Qed.

End Env.

(** *** The small archive of one file, patched *)

(** What phases 1 and 2 plan for the file "a" and a local file "yo". *)
Definition tiny_plan : Plan :=
  {| idxLayout := tiny_layout tiny_idx;
     originalDatSize := 1024; originalFatSize := 8;
     prepared :=
       [ {| patch := tiny_patch;
            comp := {| index := 0;
                       wrapped := Codec.buildFileWrapper (fun b _ => b)
                                    [x79; x6f] 6;
                       rawSize := 2; rawSha1 := [x79; x6f] |};
            wrappedSize := 34; blocksNeeded := 1; newStartBlock := 2;
            oldMetaBytes := packMetaRecord 1 34 1 0;
            newMetaBytes := packMetaRecord 1 34 2 0 |} ];
     newFatEntries := packU32 0xffffffff; newFatSize := 12;
     notFoundCount := 0; dedupedCount := 0 |}.

Lemma patchFiles_reads_back_witness :
  exists stats d' idx arc idx' arc',
    Patch.patchFiles (fun b => b) (fun b _ => b) Some (fun b => b)
      (fun _ => Ok [x79; x6f]) (fun _ => Ok 2) noFaults tiny_disk
      [([x61], [x6c])] 6 false = (Ok stats, d', false) /\
    patched stats = Z.of_nat (length (prepared tiny_plan)) /\
    errors stats = 0 /\
    patched stats + notFound stats + deduped stats
    = Z.of_nat (length [([x61], [x6c])]) /\
    Idx.openArchive (idxFile tiny_disk) (Some (datFile tiny_disk))
    = Ok (idx, arc) /\
    Idx.openArchive (idxFile d') (Some (datFile d')) = Ok (idx', arc') /\
    blen (idxFile d') = blen (idxFile tiny_disk) /\
    pageSize idx' = pageSize idx /\
    (exists blocks, datFile d' = datFile tiny_disk ++ blocks) /\
    blen (datFile d') = 512 * fatEntryCount arc' /\
    dt arc' = dt arc /\ strings arc' = strings arc /\
    blen (meta arc') = blen (meta arc) /\
    (exists entries, fat arc' = fat arc ++ entries) /\
    (forall p, In p (prepared tiny_plan) ->
       In (requestedPath (patch p), localPath (patch p)) [([x61], [x6c])] /\
       exists raw,
         (fun _ : Buffer => Ok [x79; x6f]) (localPath (patch p)) = Ok raw /\
         Extract.readFileBytes Some arc' (metaIdx (patch p)) = Ok raw) /\
    (forall i out,
       ~ In i (map (fun p => metaIdx (patch p)) (prepared tiny_plan)) ->
       Extract.readFileBytes Some arc i = Ok out ->
       Extract.readFileBytes Some arc' i = Ok out).
Proof.
  apply (patchFiles_reads_back (fun b => b) (fun b _ => b) Some (fun b => b)
           (fun _ => Ok [x79; x6f]) (fun _ => Ok 2) tiny_disk
           [([x61], [x6c])] 6 tiny_plan).
  - intros raw. reflexivity.
  - vm_compute. reflexivity.
  - vm_compute. reflexivity.
  - repeat constructor; vm_compute; reflexivity.
Defined.

End PatchReadFacts.

(** ** Repack as a whole: the index it builds *)

Module PackIndexFacts.
Import Reader Trie Repack StringFacts TrieFacts IndexFacts BuildFacts.

(** *** Phase 1 on any list of candidates *)

Lemma phase1_fold_fst (b : bool) (sources : list Pack.Source) :
  forall st l,
    fst (fold_left (Pack.phase1_step b) sources (st, l))
    = fold_left (phase1_step b) (map Pack.cand sources) st.
Proof.
  induction sources as [|s sources IH]; intros st l; [reflexivity|].
  cbn [fold_left map].
  assert (E : Pack.phase1_step b (st, l) s
              = (phase1_step b st (Pack.cand s),
                 snd (Pack.phase1_step b (st, l) s))).
  { unfold Pack.phase1_step.
    destruct (decide _); [reflexivity|]. now destruct (_ && _). }
  rewrite E. apply IH.
Qed.

Lemma phase1_fst (b : bool) (sources : list Pack.Source) :
  fst (Pack.phase1 b sources) = phase1 b (map Pack.cand sources).
Proof. apply phase1_fold_fst. Qed.

(** The kept path [k] with the local path [lp] comes from a source. *)
Definition from_source (sources : list Pack.Source) (k lp : Buffer) : Prop :=
  exists s, In s sources /\ arcPath (Pack.cand s) = k /\ Pack.localPath s = lp.

Lemma from_source_more (done : list Pack.Source) (s : Pack.Source)
    (ks ls : list Buffer) :
  Forall2 (from_source done) ks ls -> Forall2 (from_source (done ++ [s])) ks ls.
Proof.
  intros H. eapply Forall2_impl; [exact H|]. intros k lp (s' & Hin & Hk & Hl).
  exists s'. split; [apply in_app_iff; now left|]. split; assumption.
Qed.

(** [validLocalPaths] holds, in the order of the keys, the local path of
    every source that phase 1 keeps. *)
Lemma phase1_step_locals (b : bool) (done : list Pack.Source) (st : Phase1)
    (l : list Buffer) (s : Pack.Source) :
  Forall2 (from_source done) (keys st) l ->
  Forall2 (from_source (done ++ [s]))
    (keys (fst (Pack.phase1_step b (st, l) s)))
    (snd (Pack.phase1_step b (st, l) s)).
Proof.
  intros Hall. unfold Pack.phase1_step, phase1_step.
  destruct (decide _); cbn [fst snd keys]; [now apply from_source_more|].
  destruct (_ && _); cbn [fst snd keys]; [now apply from_source_more|].
  destruct (StringTable.add _ _ _) as [strIdx stb']. cbn [fst snd keys].
  apply Forall2_app; [now apply from_source_more|].
  constructor; [|constructor].
  exists s. split; [apply in_app_iff; right; now left|]. split; reflexivity.
Qed.

Lemma phase1_fold_locals (b : bool) (rest : list Pack.Source) :
  forall done st l,
    Forall2 (from_source done) (keys st) l ->
    Forall2 (from_source (done ++ rest))
      (keys (fst (fold_left (Pack.phase1_step b) rest (st, l))))
      (snd (fold_left (Pack.phase1_step b) rest (st, l))).
Proof.
  induction rest as [|s rest IH]; intros done st l Hall.
  - cbn. now rewrite app_nil_r.
  - cbn [fold_left].
    replace (done ++ s :: rest) with ((done ++ [s]) ++ rest)
      by (rewrite <- app_assoc; reflexivity).
    pose proof (phase1_step_locals b done st l s Hall) as Hstep.
    destruct (Pack.phase1_step b (st, l) s) as [st' l'].
    now apply IH.
Qed.

Lemma phase1_locals (b : bool) (sources : list Pack.Source) :
  Forall2 (from_source sources)
    (keys (fst (Pack.phase1 b sources))) (snd (Pack.phase1 b sources)).
Proof.
  apply (phase1_fold_locals b sources [] phase1_init []). constructor.
Qed.

(** The invariant of phase 1 that the index rests on holds whatever is
    skipped or counted as a duplicate. *)
Lemma phase1_step_ok_any (b : bool) (st : Phase1) (c : Candidate) :
  phase1_ok st -> arcPath c <> [] -> phase1_ok (phase1_step b st c).
Proof.
  intros Hok Hne. pose proof Hok as [Hseen Htab Hrec0 Hcount Hlen Hstored Hmetas Hvalid].
  unfold phase1_step.
  destruct (decide (arcPath c ∈ seenPaths st)) as [Hin|Hout].
  { split; cbn [stb keys stringIndices metaIndices validPaths seenPaths];
      assumption. }
  destruct (negb b && negb (isFile c)).
  { split; cbn [stb keys stringIndices metaIndices validPaths seenPaths];
      assumption. }
  assert (Hfresh : ~ In (arcPath c) (keys st)) by (intros H; now apply Hout, Hseen).
  pose proof (phase1_step_ok st c Hok Hfresh Hne) as [H _].
  unfold phase1_step in H.
  destruct (decide (arcPath c ∈ seenPaths st)); [contradiction|].
  exact H.
Qed.

Lemma phase1_fold_ok_any (b : bool) (cands : list Candidate) :
  forall st,
    phase1_ok st -> Forall (fun c => arcPath c <> []) cands ->
    phase1_ok (fold_left (phase1_step b) cands st).
Proof.
  induction cands as [|c cands IH]; intros st Hok Hne; [exact Hok|].
  apply Forall_cons in Hne as [Hc Hne]. cbn [fold_left].
  apply IH; [now apply phase1_step_ok_any|exact Hne].
Qed.

Lemma phase1_inv_all (b : bool) (cands : list Candidate) :
  phase1_inv cands (phase1 b cands).
Proof.
  assert (Hinit : phase1_inv [] phase1_init).
  { split.
    - intros k. cbn. split; [set_solver|tauto].
    - constructor.
    - reflexivity.
    - reflexivity.
    - reflexivity.
    - reflexivity.
    - cbn. tauto.
    - cbn. lia.
    - cbn. lia. }
  exact (phase1_fold_inv b cands [] phase1_init Hinit).
Qed.

(** *** Phases 1 and 2: the index of the kept paths *)

Lemma index_any (b : bool) (cands : list Candidate) :
  Forall (fun k => k <> [] /\ ~ In x00 k) (map arcPath cands) ->
  blen (concat (keys (phase1 b cands))) < 2 ^ 27 ->
  exists t,
    buildFromKeys Trie.new (keys (phase1 b cands))
      (stringIndices (phase1 b cands)) (metaIndices (phase1 b cands)) = Ok t /\
    Trie.build t = Ok (concat (map node_bytes (nodes t))) /\
    length (nodes t) = S (length (keys (phase1 b cands))) /\
    (length (records (stb (phase1 b cands)))
     <= 1 + length (concat (keys (phase1 b cands))))%nat /\
    forall metaData fatData datFile,
      index_of {| dt := concat (map node_bytes (nodes t));
                  strings := StringTable.build (stb (phase1 b cands));
                  meta := metaData; fat := fatData; dat := datFile |}
               (nodes t) (keys (phase1 b cands)).
Proof.
  intros Hkeys Hsize. set (p1 := phase1 b cands) in *.
  pose proof (phase1_inv_all b cands) as [_ Hnd _ _ _ _ Hfrom _ _].
  fold p1 in Hnd, Hfrom.
  assert (Hne : Forall (fun c => arcPath c <> []) cands).
  { apply List.Forall_forall. intros c Hc.
    apply (proj1 (List.Forall_forall _ _) Hkeys (arcPath c)). now apply in_map. }
  pose proof (phase1_fold_ok_any b cands phase1_init phase1_init_ok Hne)
    as [Hseen Htab Hrec0 Hcount Hlen Hstored Hmetas Hvalid].
  fold (phase1 b cands) in Hseen, Htab, Hrec0, Hcount, Hlen, Hstored, Hmetas,
    Hvalid.
  fold p1 in Hseen, Htab, Hrec0, Hcount, Hlen, Hstored, Hmetas, Hvalid.
  assert (Hkeys' : Forall (fun k => k <> [] /\ ~ In x00 k) (keys p1)).
  { apply List.Forall_forall. intros k Hk.
    apply (proj1 (List.Forall_forall _ _) Hkeys k). now apply Hfrom. }
  destruct (buildFromKeys_distinct (keys p1) (stringIndices p1) Hnd Hkeys'
              Hsize Hlen)
    as (t & Hbuild & Hok & Hnames & Hms & Hfits).
  exists t. rewrite Hmetas. split; [exact Hbuild|].
  split; [unfold Trie.build; apply (build_loop_fits _ _ Hfits)|].
  split.
  { rewrite <- (length_map metaIndex), Hms. cbn [length].
    now rewrite length_map, length_seq. }
  split; [exact Hcount|].
  intros metaData fatData datFile. split; cbn [dt strings]; try assumption.
  - reflexivity.
  - exists (stringIndices p1), (records (stb p1)).
    split; [reflexivity|]. split; [exact Hnames|].
    split; [exact (proj1 Htab)|]. split; [|split; [exact Hrec0|]].
    + unfold blen in Hsize. lia.
    + split; [exact Hlen|exact Hstored].
Qed.

End PackIndexFacts.

(** ** Repack as a whole: the schedule and the stream of results *)

Module PackStreamFacts.
Import Repack RepackFacts.

(** *** The size schedule *)

Lemma insertSized_perm (x : Buffer * Z * Z) (l : list (Buffer * Z * Z)) :
  Permutation (Pack.insertSized x l) (x :: l).
Proof.
  induction l as [|y l IH]; cbn [Pack.insertSized]; [reflexivity|].
  destruct (Pack.comesFirst x y); [reflexivity|].
  rewrite IH. apply perm_swap.
Qed.

Lemma sortSized_perm (l : list (Buffer * Z * Z)) :
  Permutation (Pack.sortSized l) l.
Proof.
  induction l as [|x l IH]; [reflexivity|].
  cbn [Pack.sortSized fold_right]. fold (Pack.sortSized l).
  rewrite insertSized_perm. now constructor.
Qed.

Section Sized.
Variable fileSize : Buffer -> Z.

Local Abbreviation sized :=
  (fun paths : list Buffer =>
     imap (fun i p => (p, Z.of_nat i, fileSize p)) paths).

Lemma sized_paths (paths : list Buffer) :
  map (fun x => fst (fst x)) (sized paths) = paths.
Proof.
  apply list_eq. intros i.
  rewrite list_lookup_fmap, list_lookup_imap.
  now destruct (paths !! i).
Qed.

Lemma sized_indices (paths : list Buffer) :
  map (fun x => snd (fst x)) (sized paths)
  = map Z.of_nat (seq 0 (length paths)).
Proof.
  apply list_eq. intros i.
  rewrite !list_lookup_fmap, list_lookup_imap.
  destruct (paths !! i) as [p|] eqn:Ep; cbn.
  - rewrite lookup_seq_lt by (eapply lookup_lt_Some; exact Ep). reflexivity.
  - rewrite lookup_seq_ge by (apply lookup_ge_None; exact Ep). reflexivity.
Qed.

Lemma sized_entries (paths : list Buffer) :
  Forall (fun x => 0 <= snd (fst x) /\
                   paths !! Z.to_nat (snd (fst x)) = Some (fst (fst x)))
         (sized paths).
Proof.
  apply Forall_lookup. intros i x Hx.
  rewrite list_lookup_imap in Hx.
  destruct (paths !! i) as [p|] eqn:Ep; [|discriminate].
  injection Hx as <-. cbn [fst snd]. rewrite Nat2Z.id. split; [lia|exact Ep].
Qed.

(** The schedule is a permutation of the tasks, and each scheduled path
    is the path of its original index. *)
Lemma schedule_facts (paths : list Buffer) :
  let sp := fst (Pack.schedule fileSize paths) in
  let so := snd (Pack.schedule fileSize paths) in
  Permutation so (map Z.of_nat (seq 0 (length paths))) /\
  Permutation sp paths /\
  length sp = length paths /\
  forall (j : nat) (p : Buffer),
    sp !! j = Some p ->
    exists i, so !! j = Some i /\ 0 <= i /\ paths !! Z.to_nat i = Some p.
Proof.
  cbv zeta. unfold Pack.schedule. cbn [fst snd].
  pose proof (sortSized_perm (sized paths)) as Hperm.
  split; [|split; [|split]].
  - rewrite <- sized_indices. now apply Permutation_map.
  - rewrite <- (sized_paths paths) at 2. now apply Permutation_map.
  - rewrite length_map, (Permutation_length Hperm). apply length_imap.
  - intros j p Hj. rewrite list_lookup_fmap in Hj.
    destruct (Pack.sortSized (sized paths) !! j) as [x|] eqn:Ex;
      [|discriminate].
    injection Hj as <-. exists (snd (fst x)).
    rewrite list_lookup_fmap, Ex. split; [reflexivity|].
    assert (Hin : In x (sized paths)).
    { eapply Permutation_in; [exact Hperm|].
      apply list_elem_of_In. eapply list_elem_of_lookup_2, Ex. }
    exact (proj1 (List.Forall_forall _ _) (sized_entries paths) x Hin).
Qed.

End Sized.

(** *** The stream of compression results *)

Section Env.
Variable deflate : Buffer -> Z -> Buffer.
Variable sha1 : Buffer -> Buffer.
Variable readFileSync : Buffer -> result Buffer.
Variable fileSize : Buffer -> Z.

(** The bytes of a readable local file. *)
Definition contents (lp : Buffer) : Buffer :=
  match readFileSync lp with
  | Ok raw => raw
  | _ => []
  end.

Definition readable (lp : Buffer) : Prop := exists raw, readFileSync lp = Ok raw.

(** The result of task [j] for the file [lp]. *)
Definition compressed (level : Z) (j : nat) (lp : Buffer) : CompressedFile :=
  {| index := Z.of_nat j;
     wrapped := Codec.buildFileWrapper deflate (contents lp) level;
     rawSize := blen (contents lp); rawSha1 := [] |}.

Lemma stream_loop_all (level : Z) (paths : list Buffer) (order : list nat) :
  Forall readable paths ->
  Forall (fun j => (j < length paths)%nat) order ->
  Pack.stream_loop deflate sha1 readFileSync paths level order
  = (map (fun j => compressed level j (default [] (paths !! j))) order, None).
Proof.
  intros Hread. induction 1 as [|j order Hj _ IH]; [reflexivity|].
  cbn [Pack.stream_loop map].
  destruct (paths !! j) as [lp|] eqn:Ep; [|apply lookup_ge_None in Ep; lia].
  assert (Hlp : readable lp).
  { apply (proj1 (List.Forall_forall _ _) Hread).
    apply list_elem_of_In. eapply list_elem_of_lookup_2, Ep. }
  destruct Hlp as (raw & Hraw).
  unfold Compress.compressSingle. rewrite Hraw. cbn [rbind].
  rewrite IH. cbn [wrapped rawSize rawSha1].
  change (default [] (Some lp)) with lp.
  unfold compressed, contents. now rewrite Hraw.
Qed.

Lemma indices_of_order (n : nat) (order : list nat) :
  Permutation order (seq 0 n) ->
  Forall (fun j => (j < n)%nat) order.
Proof.
  intros Hperm. apply List.Forall_forall. intros j Hj.
  apply (Permutation_in _ Hperm), in_seq in Hj. lia.
Qed.

(** What the loop of phase 3 is fed with, with or without the size
    schedule: one result per kept file, each under the original index of
    its file. *)
Lemma stream_results (level : Z) (sizeSchedule : bool) (paths : list Buffer)
    (order : list nat) :
  Forall readable paths ->
  Permutation order (seq 0 (length paths)) ->
  let scheduled :=
    if sizeSchedule && (1 <? length paths)%nat
    then (fst (Pack.schedule fileSize paths),
          Some (snd (Pack.schedule fileSize paths)))
    else (paths, None) in
  exists results,
    Pack.compressFilesStream deflate sha1 readFileSync (fst scheduled) level
      order = (results, None) /\
    Permutation (map index results) (map Z.of_nat (seq 0 (length paths))) /\
    (forall perm, snd scheduled = Some perm ->
       Permutation perm (map Z.of_nat (seq 0 (length paths)))) /\
    (forall r i, In r results -> originalIndex (snd scheduled) r = Some i ->
       0 <= i /\
       exists lp, paths !! Z.to_nat i = Some lp /\ r = compressed level (Z.to_nat (index r)) lp) /\
    Permutation (map blocksOf results)
                (map (fun lp => blocksOf (compressed level 0 lp)) paths).
Proof.
  intros Hread Hperm scheduled.
  set (sp := fst scheduled). set (so := snd scheduled).
  assert (Hsched :
    Permutation sp paths /\ length sp = length paths /\
    (forall perm, so = Some perm ->
       Permutation perm (map Z.of_nat (seq 0 (length paths)))) /\
    (forall (j : nat) (p : Buffer), sp !! j = Some p ->
       exists i, 0 <= i /\ paths !! Z.to_nat i = Some p /\
         match so with
         | Some perm => perm !! j = Some i
         | None => i = Z.of_nat j
         end)).
  { subst sp so scheduled.
    destruct (sizeSchedule && (1 <? length paths)%nat); cbn [fst snd].
    - destruct (schedule_facts fileSize paths) as (H1 & H2 & H3 & H4).
      split; [exact H2|]. split; [exact H3|]. split.
      + now intros perm [= <-].
      + intros j p Hj. destruct (H4 j p Hj) as (i & Hi & Hi0 & Hp).
        exists i. split; [exact Hi0|]. split; [exact Hp|exact Hi].
    - split; [reflexivity|]. split; [reflexivity|]. split; [discriminate|].
      intros j p Hj. exists (Z.of_nat j). rewrite Nat2Z.id.
      split; [lia|]. split; [exact Hj|reflexivity]. }
  destruct Hsched as (Hsp & Hlen & Hso & Hat).
  assert (Hread' : Forall readable sp).
  { apply List.Forall_forall. intros p Hp.
    apply (proj1 (List.Forall_forall _ _) Hread).
    eapply Permutation_in; [exact Hsp|exact Hp]. }
  pose proof (indices_of_order _ _ Hperm) as Hidx. rewrite <- Hlen in Hidx.
  exists (map (fun j => compressed level j (default [] (sp !! j))) order).
  split; [|split; [|split; [|split]]].
  - unfold Pack.compressFilesStream.
    destruct (Nat.eqb_spec (length sp) 0) as [E0|_].
    + rewrite Hlen in E0. rewrite E0 in Hperm. cbn in Hperm.
      apply Permutation_nil_r in Hperm. now subst order.
    + now apply stream_loop_all.
  - rewrite map_map. cbn [compressed index].
    rewrite <- (map_map (fun j => j) Z.of_nat), map_id.
    now apply Permutation_map.
  - exact Hso.
  - intros r i Hr Hi. apply in_map_iff in Hr as (j & <- & Hj).
    cbn [compressed index] in *. rewrite Nat2Z.id.
    pose proof (proj1 (List.Forall_forall _ _) Hidx j Hj) as Hjl.
    cbv beta in Hjl.
    destruct (sp !! j) as [p|] eqn:Ep; [|apply lookup_ge_None in Ep; lia].
    destruct (Hat j p Ep) as (i' & Hi0 & Hp & Hso').
    assert (i = i') as ->.
    { unfold originalIndex, compressed in Hi. cbn [index] in Hi. fold so in Hi.
      destruct so as [perm|].
      - destruct (Z.ltb_spec (Z.of_nat j) 0); [lia|].
        rewrite Nat2Z.id in Hi. congruence.
      - congruence. }
    split; [exact Hi0|]. exists p. split; [exact Hp|reflexivity].
  - rewrite map_map.
    transitivity (map (fun j => blocksOf (compressed level 0 (default [] (sp !! j))))
                      (seq 0 (length sp))).
    { rewrite Hlen. now apply Permutation_map. }
    assert (E : map (fun j => blocksOf (compressed level 0 (default [] (sp !! j))))
                    (seq 0 (length sp))
                = map (fun lp => blocksOf (compressed level 0 lp)) sp).
    { apply list_eq. intros j. rewrite !list_lookup_fmap.
      destruct (sp !! j) as [p|] eqn:Ep.
      - rewrite lookup_seq_lt by (eapply lookup_lt_Some; exact Ep).
        cbn. now rewrite Ep.
      - rewrite lookup_seq_ge by (apply lookup_ge_None; exact Ep). reflexivity. }
    rewrite E. now apply Permutation_map.
Qed.

End Env.
End PackStreamFacts.

(** ** Repack as a whole: the two files, read back *)

Module PackFileFacts.
Import Reader Repack StringFacts RepackFacts MetaFacts DatReadFacts DatFacts
  PageFacts IdxWriter WriterFacts HeaderFacts IdxReadFacts IdxRoundTrip.

(** The index file [writeIdx] leaves with its default layout opens to the
    four channels it was given. *)
Lemma written_archive (dtData stringData metaData fatData : Buffer)
    (datFile : option Buffer) :
  blen dtData < 2 ^ 32 -> blen stringData < 2 ^ 32 ->
  blen metaData < 2 ^ 32 -> blen fatData < 2 ^ 32 ->
  0 < blen dtData + blen stringData + blen metaData + blen fatData ->
  exists file idx,
    writeIdx dtData stringData metaData fatData PAGE_SIZE DEFAULT_PPS = Ok file /\
    Idx.openArchive file datFile
    = Ok (idx, {| dt := dtData; strings := stringData; meta := metaData;
                  fat := fatData; dat := datFile |}).
Proof.
  intros Hs0 Hs1 Hs2 Hs3 Hne.
  assert (Hv0 : 0 < 4 < 2 ^ 32) by lia. assert (Hv1 : 0 < 8 < 2 ^ 32) by lia.
  assert (Hv2 : 0 < 1 < 2 ^ 32) by lia.
  assert (H4096 : Z.of_nat 4096 = 0x1000) by reflexivity.
  assert (HP : 40 <= Z.of_nat 4096) by (rewrite H4096; lia).
  destruct (open_written dtData stringData metaData fatData 4 8 1 4 4096
              HP Hv0 Hv1 Hv2 Hv0 Hs0 Hs1 Hs2 Hs3 H4096 Hne)
    as (idx & Hopen & Hch & Hps & Hst & Hpaged).
  exists (concat (written dtData stringData metaData fatData 4 8 1 4 4096)), idx.
  split.
  - unfold PAGE_SIZE, DEFAULT_PPS. rewrite <- H4096.
    apply writeIdx_written; assumption.
  - unfold Idx.openArchive. rewrite Hopen. cbn [rbind].
    assert (Hread : forall (c : nat) (v : Z) (d : Buffer),
              [dtData; stringData; metaData; fatData] !! c = Some d ->
              [4; 8; 1; 4] !! c = Some v ->
              Idx.readChannel idx (Z.of_nat c) = Ok d).
    { intros c v d Hd Hc.
      eapply (readChannel_written dtData stringData metaData fatData
                4 8 1 4 4096); eassumption. }
    pose proof (Hread 0%nat 4 dtData eq_refl eq_refl) as R0.
    pose proof (Hread 1%nat 8 stringData eq_refl eq_refl) as R1.
    pose proof (Hread 2%nat 1 metaData eq_refl eq_refl) as R2.
    pose proof (Hread 3%nat 4 fatData eq_refl eq_refl) as R3.
    change (Z.of_nat 0) with 0 in R0. change (Z.of_nat 1) with 1 in R1.
    change (Z.of_nat 2) with 2 in R2. change (Z.of_nat 3) with 3 in R3.
    rewrite R0. cbn [rbind]. rewrite R1. cbn [rbind]. rewrite R2. cbn [rbind].
    rewrite R3. reflexivity.
Qed.

(** The meta records and the chains of phases 3 and 4 lead every index to
    the wrapped bytes of the result that carries it. *)
Lemma results_read_back (n : nat) (scheduledToOriginal : option (list Z))
    (results : list CompressedFile) (arc : PriusArchive) :
  Permutation (map index results) (map Z.of_nat (seq 0 n)) ->
  (forall perm, scheduledToOriginal = Some perm ->
     Permutation perm (map Z.of_nat (seq 0 n))) ->
  Forall (fun r => blen (wrapped r) < 2 ^ 32) results ->
  1 + blocks_total results < 2 ^ 32 ->
  let st := phase3 n scheduledToOriginal results in
  meta arc = buildMetaData n st -> fat arc = buildFatData st ->
  dat arc = Some (datOut st) ->
  blen (datOut st) = DAT_BLOCK_SIZE * (1 + blocks_total results) /\
  blen (fat arc) = 4 * (1 + blocks_total results) /\
  blen (meta arc) = 16 * Z.of_nat n /\
  forall i, 0 <= i < Z.of_nat n ->
    exists r m,
      In r results /\ originalIndex scheduledToOriginal r = Some i /\
      metaRecord arc i = Ok m /\
      readRawMetaBytes arc m = Ok (wrapped r).
Proof.
  intros Hidx Hsched Hsizes Htotal st Hmeta Hfat0 Hdat.
  destruct (originalIndex_facts n scheduledToOriginal results Hidx Hsched)
    as (Hplace & Hnd & Hall).
  pose proof (phase3_ok_results n scheduledToOriginal results Hplace Hnd)
    as [Hblock Hcount Hfat00 Hstarts Hszs Hfiles].
  destruct (phase3_dat_results n scheduledToOriginal results Hplace Hnd)
    as (Himg & Hpos).
  fold st in Hblock, Hcount, Hfat00, Hstarts, Hszs, Hfiles, Himg, Hpos.
  assert (Hfat : fat arc = concat (map (fun e => packU32 (u32 e)) (fatEntries st))).
  { rewrite Hfat0. apply buildFatData_spec. }
  split; [|split; [|split]].
  - rewrite Himg, blen_image. reflexivity.
  - rewrite Hfat, blen_fat_built, Hcount. reflexivity.
  - rewrite Hmeta, buildMetaData_spec. unfold blen.
    rewrite (IndexFacts.length_concat_fixed 16).
    + rewrite length_map, length_seq. lia.
    + apply List.Forall_forall. intros c Hc.
      apply in_map_iff in Hc as (x & <- & _). apply length_packMetaRecord.
  - intros i Hi. destruct (Hall i Hi) as (r & Hr & Hor).
    destruct (Hfiles r i Hr Hor (proj1 Hi)) as (s & Hs & Hw & H1 & Hle & Hch).
    destruct (Hpos r i Hr Hor (proj1 Hi)) as (s' & pre & post & Hs' & Him & Hpre).
    rewrite Hs in Hs'. injection Hs' as <-.
    pose proof (blen_nonneg (wrapped r)) as Hw0.
    pose proof (proj1 (List.Forall_forall _ results) Hsizes r Hr) as Hw1.
    cbv beta in Hw1. pose proof (blocksOf_nonneg r) as Hbn.
    pose proof (blocksOf_covers r) as Hcov.
    assert (Ew : elem (wrappedSizes st) (Z.to_nat i) = blen (wrapped r))
      by (unfold elem; now rewrite Hw).
    assert (Es : elem (startBlocks st) (Z.to_nat i) = s)
      by (unfold elem; now rewrite Hs).
    exists r, {| flags := 1; size := blen (wrapped r); startBlock := s; extra := 0 |}.
    split; [exact Hr|]. split; [exact Hor|]. split.
    + rewrite <- (Z2Nat.id i) at 1 by lia.
      rewrite (metaRecord_built arc (wrappedSizes st) (startBlocks st) n
                 (Z.to_nat i)).
      * now rewrite Ew, Es.
      * rewrite Hmeta. apply buildMetaData_spec.
      * lia.
      * rewrite Ew. lia.
      * rewrite Es. lia.
    + unfold readRawMetaBytes, readRawMetaBytes_logged. cbn [size startBlock].
      destruct (Z.eqb_spec (blen (wrapped r)) 0) as [E0|Hne].
      { cbn [fst]. destruct (wrapped r); [reflexivity|].
        unfold blen in E0. cbn in E0. lia. }
      assert (Hbn1 : 1 <= blocksOf r) by (unfold DAT_BLOCK_SIZE in Hcov; lia).
      destruct (Z.eqb_spec s 0xffffffff) as [E|_]; [lia|].
      rewrite Hdat, Hfat.
      pose proof (readBlocks_run (datOut st)
                    (concat (map (fun e => packU32 (u32 e)) (fatEntries st)))
                    (Z.to_nat ((blen (wrapped r) + 0x1ff) / 0x200))
                    (blen (wrapped r)) s [] []) as Hrun.
      change (blen []) with 0 in Hrun. cbn [app] in Hrun.
      assert (Eb : (blen (wrapped r) + 0x1ff) / 0x200 = blocksOf r)
        by (unfold blocksOf, DAT_BLOCK_SIZE; f_equal; lia).
      rewrite Eb in *.
      destruct (readBlocks _ _ _ _ _ _ _ _) as [res log].
      cbn [fst] in Hrun. rewrite Hrun.
      * change (negb (0 =? 0)) with false. cbv iota. cbn [fst].
        rewrite Himg, Him.
        replace (s * 0x200) with (blen pre)
          by (rewrite Hpre; unfold DAT_BLOCK_SIZE; lia).
        unfold blockBytes. rewrite <- app_assoc.
        now rewrite subarray_at.
      * lia.
      * lia.
      * lia.
      * intros b Hb. rewrite Z2Nat.id in Hb by lia.
        specialize (Hch b ltac:(lia)).
        destruct (Z.eqb_spec b (blocksOf r - 1)) as [Eq|_]; [lia|].
        split; [|lia].
        rewrite <- (Z2Nat.id (s + b)) at 1 by lia.
        apply fatNext_built; [exact Hch|lia].
      * rewrite Himg, Him, !CodecFacts.blen_app, Hpre. unfold blockBytes.
        rewrite CodecFacts.blen_app. unfold DAT_BLOCK_SIZE, blen. lia.
Qed.

End PackFileFacts.

(** ** Repack as a whole: phase 6 and the archive read back *)

Module PackFacts.
Import Reader Trie Repack JsFacts StringFacts TrieFacts IndexFacts BuildFacts
  RepackFacts PackIndexFacts PackStreamFacts PackFileFacts.

(** *** The entries of a built index *)

(** Node [i + 1] of a built index is the node of key [i]: it carries the
    meta index [i] and its name reads as the key. *)
Lemma node_of_key arc ns keys (i : nat) (k : Buffer) :
  index_of arc ns keys -> keys !! i = Some k ->
  exists n,
    dtNode arc (Z.of_nat i + 1) = Ok n /\ metaIndex n = Z.of_nat i /\
    stringBytes (strings arc) (js_and (nameRaw n) 0x7fffffff) = Ok k.
Proof.
  intros Hio Hk.
  destruct (findNodeBytes_inserted arc ns keys i k Hio Hk)
    as (_ & n & Hn & Hmeta).
  exists n. split; [exact Hn|]. split; [exact Hmeta|].
  destruct Hio as [Hdt Hok Hfits Hkeys Hms
                     (strs & recs & Hstr & Hnames & Hrecs & Hcount & Hrec0
                      & Hlen & Hstored)].
  pose proof Hok as (Hlenk & _).
  pose proof (lookup_lt_Some _ _ _ Hk) as Hi. cbn [length] in Hlenk.
  destruct (ns !! S i) as [n'|] eqn:En; [|apply lookup_ge_None in En; lia].
  assert (Hn' : dtNode arc (Z.of_nat (S i)) = Ok n')
    by (eapply dtNode_built; eassumption).
  replace (Z.of_nat (S i)) with (Z.of_nat i + 1) in Hn' by lia.
  rewrite Hn in Hn'. injection Hn' as <-.
  assert (Hname : map nameRaw ns !! S i = Some (nameRaw n))
    by (rewrite list_lookup_fmap, En; reflexivity).
  rewrite Hnames in Hname.
  change (map (fun s => u32 (js_or s 0x80000000)) strs !! i
          = Some (nameRaw n)) in Hname.
  rewrite list_lookup_fmap in Hname.
  destruct (strs !! i) as [s|] eqn:Es; [|discriminate].
  injection Hname as Hname.
  assert (Hkk : k <> [] /\ ~ In x00 k).
  { apply (proj1 (List.Forall_forall _ keys) Hkeys k).
    apply list_elem_of_In. eapply list_elem_of_lookup_2; eassumption. }
  pose proof (Hstored _ _ _ Es Hk) as Hst.
  pose proof (Stored_index_lt _ _ _ (proj1 Hkk) Hst) as Hs.
  rewrite Hstr, <- Hname, name_index_roundtrip by lia.
  exact (stringBytes_stored recs s k Hrecs Hcount Hst (proj1 Hkk) (proj2 Hkk)).
Qed.

Lemma dtNodeCount_index arc ns keys :
  index_of arc ns keys -> dtNodeCount arc = Z.of_nat (length keys) + 1.
Proof.
  intros [Hdt Hok _ _ _ _]. destruct Hok as (Hlen & _). cbn [length] in Hlen.
  unfold dtNodeCount, DT_NODE_SIZE. rewrite Hdt, blen_node_table.
  rewrite Z.mul_comm, Z.div_mul by lia. lia.
Qed.

(** An entry of [iterEntries] for key [i]. *)
Definition entry_of (keys : list Buffer) (i : nat) (e : Z * DtNode * Buffer)
    : Prop :=
  fst (fst e) = Z.of_nat i + 1 /\ metaIndex (snd (fst e)) = Z.of_nat i /\
  keys !! i = Some (snd e).

Lemma iterEntries_loop_index arc ns keys :
  index_of arc ns keys ->
  forall (count start : nat),
    (start + count = length keys)%nat ->
    exists entries,
      Pack.iterEntries_loop arc count (Z.of_nat start + 1) = (entries, Ok tt) /\
      length entries = count /\
      forall j e, entries !! j = Some e -> entry_of keys (start + j) e.
Proof.
  intros Hio. induction count as [|count IH]; intros start Hlen.
  - exists []. split; [reflexivity|]. split; [reflexivity|]. intros j e [=].
  - destruct (keys !! start) as [k|] eqn:Ek;
      [|apply lookup_ge_None in Ek; lia].
    destruct (node_of_key arc ns keys start k Hio Ek) as (n & Hn & Hm & Hs).
    destruct (IH (S start) ltac:(lia)) as (entries & Hrun & Hl & Hall).
    replace (Z.of_nat (S start) + 1) with (Z.of_nat start + 1 + 1) in Hrun by lia.
    cbn [Pack.iterEntries_loop]. rewrite Hn, Hs, Hrun.
    eexists (_ :: entries). split; [reflexivity|].
    split; [cbn [length]; now rewrite Hl|].
    intros [|j] e He.
    + injection He as <-. rewrite Nat.add_0_r. repeat split; assumption.
    + replace (start + S j)%nat with (S start + j)%nat by lia.
      now apply Hall.
Qed.

Lemma iterEntries_index arc ns keys :
  index_of arc ns keys ->
  exists entries,
    Pack.iterEntries arc = (entries, Ok tt) /\
    length entries = length keys /\
    forall j e, entries !! j = Some e -> entry_of keys j e.
Proof.
  intros Hio. unfold Pack.iterEntries.
  rewrite (dtNodeCount_index arc ns keys Hio).
  replace (Z.to_nat (Z.of_nat (length keys) + 1 - 1)) with (length keys) by lia.
  destruct (iterEntries_loop_index arc ns keys Hio (length keys) 0 eq_refl)
    as (entries & Hrun & Hl & Hall).
  exists entries. split; [exact Hrun|]. split; [exact Hl|exact Hall].
Qed.

(** *** The map from archive paths to local paths *)

Lemma localLookup_fold (ks ls : list Buffer) :
  forall (m : gmap Buffer Buffer) (k : Buffer),
    ~ In k ks ->
    fold_left (fun m kv => <[fst kv := snd kv]> m) (zip ks ls) m !! k = m !! k.
Proof.
  revert ls. induction ks as [|k0 ks IH]; intros ls m k Hk; [reflexivity|].
  destruct ls as [|l0 ls]; [reflexivity|]. cbn [zip zip_with fold_left fst snd].
  rewrite IH by (intros H; apply Hk; now right).
  apply lookup_insert_ne. intros ->. apply Hk. now left.
Qed.

Lemma localLookup_at (ks ls : list Buffer) :
  NoDup ks ->
  forall (m : gmap Buffer Buffer) (i : nat) (k lp : Buffer),
    ks !! i = Some k -> ls !! i = Some lp ->
    fold_left (fun m kv => <[fst kv := snd kv]> m) (zip ks ls) m !! k = Some lp.
Proof.
  intros Hnd. revert ls.
  induction Hnd as [|k0 ks Hk0 Hnd IH]; intros ls m i k lp Hk Hl;
    [discriminate|].
  destruct ls as [|l0 ls]; [destruct i; discriminate|].
  cbn [zip zip_with fold_left fst snd]. destruct i as [|i].
  - injection Hk as <-. injection Hl as <-.
    rewrite localLookup_fold by (intros H; apply Hk0; now apply list_elem_of_In).
    apply lookup_insert_eq.
  - eapply IH; eassumption.
Qed.

(** *** Sums over the results *)

Lemma blocks_total_sum (rs : list CompressedFile) :
  blocks_total rs = fold_right Z.add 0 (map blocksOf rs).
Proof.
  unfold blocks_total. induction rs as [|r rs IH]; [reflexivity|].
  cbn [map fold_right]. now rewrite IH.
Qed.

Lemma sum_perm (l l' : list Z) :
  Permutation l l' -> fold_right Z.add 0 l = fold_right Z.add 0 l'.
Proof. induction 1; cbn [fold_right]; lia. Qed.

Lemma blen_buildFileWrapper (deflate : Buffer -> Z -> Buffer) (raw : Buffer)
    (level : Z) :
  blen (Codec.buildFileWrapper deflate raw level)
  = 32 + blen (deflate raw level).
Proof.
  unfold Codec.buildFileWrapper.
  change (packU32 1 ++ packU32 (u32 (blen raw)) ++ packU64 FILETIME
          ++ packU64 FILETIME ++ packU64 FILETIME)
    with (CodecFacts.wrapper_header (u32 (blen raw))).
  rewrite CodecFacts.blen_app. unfold blen at 1.
  now rewrite CodecFacts.length_wrapper_header.
Qed.

(** The decoder gives back what [buildFileWrapper] wrapped. *)
Lemma decode_of_wrapper (deflate : Buffer -> Z -> Buffer)
    (inflate : Buffer -> option Buffer) (raw : Buffer) (level : Z) :
  inflate (deflate raw level) = Some raw -> blen raw < 2 ^ 32 ->
  Codec.decodeFilePayload inflate (Codec.buildFileWrapper deflate raw level)
  = Ok raw.
Proof.
  intros Hz Hsz.
  assert (Hu : u32 (blen raw) = blen raw)
    by (apply u32_small; unfold blen in *; lia).
  assert (Hw : Codec.buildFileWrapper deflate raw level
               = CodecFacts.wrapper_header (blen raw) ++ deflate raw level).
  { unfold Codec.buildFileWrapper, CodecFacts.wrapper_header. rewrite Hu.
    now rewrite <- !app_assoc. }
  assert (H0 : readU32 (Codec.buildFileWrapper deflate raw level) 0 = Ok 1).
  { rewrite Hw. unfold CodecFacts.wrapper_header. rewrite <- !app_assoc.
    apply readU32_packU32_0. }
  assert (H4 : readU32 (Codec.buildFileWrapper deflate raw level) 4
               = Ok (blen raw)).
  { rewrite Hw. unfold CodecFacts.wrapper_header. rewrite <- !app_assoc.
    rewrite <- Hu at 2.
    exact (readU32_packU32 (packU32 1) _ (blen raw)). }
  unfold Codec.decodeFilePayload. rewrite H0, H4. cbn [rbind].
  assert (Hlen : (blen (Codec.buildFileWrapper deflate raw level)
                  <? FILE_WRAPPER_HEADER_SIZE) = false).
  { apply Z.ltb_ge. rewrite blen_buildFileWrapper.
    unfold FILE_WRAPPER_HEADER_SIZE, blen. lia. }
  rewrite Hlen. cbn [Z.eqb Pos.eqb].
  rewrite Hw.
  change (Z.to_nat FILE_WRAPPER_HEADER_SIZE)
    with (length (CodecFacts.wrapper_header (blen raw))).
  rewrite drop_app_length, Hz.
  rewrite Z.eqb_refl. cbn [negb andb].
  now rewrite andb_false_r.
Qed.

Section Env.
Variable deflate : Buffer -> Z -> Buffer.
Variable inflate : Buffer -> option Buffer.
Variable sha1 : Buffer -> Buffer.
Variable readFileSync : Buffer -> result Buffer.
Variable fileSize : Buffer -> Z.
Variable isFileNow : Buffer -> bool.

Local Abbreviation repack :=
  (Pack.repack deflate inflate sha1 readFileSync fileSize isFileNow).
Local Abbreviation contents := (PackStreamFacts.contents readFileSync).
Local Abbreviation compressed :=
  (PackStreamFacts.compressed deflate readFileSync).

(** A local file that phase 3 can take: readable, and small enough for
    the size fields of its wrapper and of its meta record. *)
Definition packable (level : Z) (lp : Buffer) : Prop :=
  exists raw,
    readFileSync lp = Ok raw /\ blen raw < 2 ^ 32 /\
    blen (deflate raw level) < 2 ^ 32 - 32.

(** *** Phase 6 on the archive just written *)

Lemma verify_fold (arc : PriusArchive) (lookup : gmap Buffer Buffer)
    (entries : list (Z * DtNode * Buffer)) :
  (forall e, In e entries ->
     forall v x, Pack.verify_step inflate readFileSync isFileNow arc lookup
                   (v, x) e = (v + 1, x)) ->
  forall v x,
    fold_left (Pack.verify_step inflate readFileSync isFileNow arc lookup)
      entries (v, x)
    = (v + Z.of_nat (length entries), x).
Proof.
  induction entries as [|e entries IH]; intros Hall v x.
  - cbn. f_equal. lia.
  - cbn [fold_left length]. rewrite (Hall e (or_introl eq_refl)).
    rewrite IH by (intros e' He'; apply Hall; now right).
    f_equal. lia.
Qed.

Lemma verify_step_ok (arc : PriusArchive) (keys locals : list Buffer)
    (i : nat) (e : Z * DtNode * Buffer) (lp raw : Buffer) :
  NoDup keys -> entry_of keys i e -> locals !! i = Some lp ->
  metaCount arc = Z.of_nat (length keys) ->
  readFileSync lp = Ok raw ->
  Extract.readFileBytes inflate arc (Z.of_nat i) = Ok raw ->
  forall v x,
    Pack.verify_step inflate readFileSync isFileNow arc
      (Pack.localLookupOf keys locals) (v, x) e = (v + 1, x).
Proof.
  intros Hnd (He1 & He2 & He3) Hl Hcount Hraw Hread v x.
  destruct e as [[ni node] pathText]. cbn [fst snd] in He1, He2, He3.
  unfold Pack.verify_step. rewrite He2, Hcount.
  pose proof (lookup_lt_Some _ _ _ He3) as Hi.
  destruct (Z.ltb_spec (Z.of_nat i) 0); [lia|].
  destruct (Z.geb_spec (Z.of_nat i) (Z.of_nat (length keys))); [lia|].
  cbn [orb]. rewrite Hread.
  unfold Pack.localLookupOf.
  rewrite (localLookup_at keys locals Hnd ∅ i pathText lp He3 Hl).
  destruct (negb (blen lp =? 0) && isFileNow lp); [|reflexivity].
  rewrite Hraw. now rewrite bool_decide_eq_true_2.
Qed.

(** X26. What [repack] writes is an archive of its files. Let phase 1 keep
    the paths [keys] with the local files [locals], every path of the
    candidates be non-empty and free of NUL, the kept paths take fewer than
    2^25 bytes, every kept local file be readable and, like its wrapped
    form, below 4 GiB, the wrapped files fill fewer than 2^30 blocks, the
    results of the workers arrive in any order, and [inflate] undo
    [deflate]. Then [repack] returns; its statistics count every candidate
    once, as kept, skipped or duplicate; the data file has 512 bytes per
    FAT entry, as the patch pipeline requires; phase 6, when asked for,
    verifies every file without error; and the archive that opens from the
    two files holds one meta record per kept file, finds the path of file
    [i] at node [i + 1] with meta index [i], and [readFileBytes] returns
    the bytes of its local file. *)
Theorem repack_reads_back (sources : list Pack.Source)
    (sourceIsWalkedFiles : bool) (level : Z) (verify sizeSchedule : bool)
    (order : list nat) :
  let keys := keys (fst (Pack.phase1 sourceIsWalkedFiles sources)) in
  let locals := snd (Pack.phase1 sourceIsWalkedFiles sources) in
  sources <> [] ->
  Forall (fun s => arcPath (Pack.cand s) <> [] /\
                   ~ In x00 (arcPath (Pack.cand s))) sources ->
  blen (concat keys) < 2 ^ 25 ->
  Forall (packable level) locals ->
  1 + blocks_total (map (compressed level 0) locals) < 2 ^ 30 ->
  Permutation order (seq 0 (length locals)) ->
  (forall raw, inflate (deflate raw level) = Some raw) ->
  exists stats datFile idxFile idx arc,
    repack sources sourceIsWalkedFiles level verify sizeSchedule order
    = (Pack.Repacked stats, Some datFile, Some idxFile) /\
    Pack.Stats.files stats = Z.of_nat (length keys) /\
    Pack.Stats.files stats + Pack.Stats.skipped stats
      + Pack.Stats.deduped stats = Z.of_nat (length sources) /\
    Pack.Stats.datSize stats = blen datFile /\
    Pack.Stats.idxSize stats = blen idxFile /\
    (verify = true ->
       Pack.Stats.verified stats = Some (Z.of_nat (length keys)) /\
       Pack.Stats.verifyErrors stats = Some 0) /\
    Idx.openArchive idxFile (Some datFile) = Ok (idx, arc) /\
    metaCount arc = Z.of_nat (length keys) /\
    blen datFile = 512 * fatEntryCount arc /\
    forall (i : nat) (key lp : Buffer),
      keys !! i = Some key -> locals !! i = Some lp ->
      (exists s, In s sources /\ arcPath (Pack.cand s) = key /\
                 Pack.localPath s = lp) /\
      exists raw,
        readFileSync lp = Ok raw /\
        (~ In x2f key ->
           Extract.findMeta arc key = Ok (Z.of_nat i + 1, Z.of_nat i)) /\
        Extract.readFileBytes inflate arc (Z.of_nat i) = Ok raw.
Proof.
  cbv zeta. intros Hne Hpaths Hsize Hfiles Hblocks Hperm Hz.
  pose proof (phase1_fst sourceIsWalkedFiles sources) as Hfst.
  pose proof (phase1_locals sourceIsWalkedFiles sources) as Hlocals.
  destruct (Pack.phase1 sourceIsWalkedFiles sources) as [p1 locals] eqn:Ephase.
  cbn [fst snd] in *.
  set (cands := map Pack.cand sources) in *.
  pose proof (phase1_inv_all sourceIsWalkedFiles cands)
    as [_ Hnd Hcount3 _ _ Hvalid _ _ _].
  rewrite <- Hfst in Hnd, Hcount3, Hvalid.
  pose proof (Forall2_length _ _ _ Hlocals) as Hlen.
  assert (Hkeys : Forall (fun k => k <> [] /\ ~ In x00 k) (map arcPath cands)).
  { apply List.Forall_forall. intros k Hk.
    apply in_map_iff in Hk as (c & <- & Hc).
    apply in_map_iff in Hc as (s & <- & Hs).
    exact (proj1 (List.Forall_forall _ _) Hpaths s Hs). }
  assert (Htable : Forall (fun rc => length rc = 64%nat) (records (stb p1))).
  { assert (Hc : Forall (fun c => arcPath c <> []) cands).
    { apply List.Forall_forall. intros c Hc.
      apply (proj1 (List.Forall_forall _ _) Hkeys (arcPath c)).
      now apply in_map. }
    pose proof (phase1_fold_ok_any sourceIsWalkedFiles cands phase1_init
                  phase1_init_ok Hc) as [_ Htab _ _ _ _ _ _].
    fold (phase1 sourceIsWalkedFiles cands) in Htab. rewrite <- Hfst in Htab.
    exact (proj1 Htab). }
  destruct (index_any sourceIsWalkedFiles cands Hkeys)
    as (t & Hbuild & Hbuildt & Hnodes & Hrecs & Hindex).
  { rewrite <- Hfst. lia. }
  rewrite <- Hfst in Hbuild, Hnodes, Hrecs, Hindex.
  assert (Hread : Forall (PackStreamFacts.readable readFileSync) locals).
  { eapply Forall_impl; [exact Hfiles|].
    intros lp (raw & Hraw & _). now exists raw. }
  pose proof (stream_results deflate sha1 readFileSync fileSize level
                sizeSchedule locals order Hread Hperm) as Hstream.
  cbv zeta in Hstream.
  destruct (if sizeSchedule && (1 <? length locals)%nat
            then (fst (Pack.schedule fileSize locals),
                  Some (snd (Pack.schedule fileSize locals)))
            else (locals, None)) as [sp so] eqn:Esched.
  cbn [fst snd] in Hstream.
  destruct Hstream as (results & Hrun & Hidx & Hso & Hfrom & Hbl).
  set (n := length (keys p1)) in *.
  rewrite <- Hlen in Hidx, Hso. fold n in Hidx, Hso.
  destruct (originalIndex_facts n so results Hidx Hso) as (Hplace & _ & _).
  assert (Hcontents : forall lp, In lp locals ->
            exists raw, readFileSync lp = Ok raw /\ contents lp = raw /\
                        blen raw < 2 ^ 32 /\
                        blen (deflate raw level) < 2 ^ 32 - 32).
  { intros lp Hlp.
    destruct (proj1 (List.Forall_forall _ _) Hfiles lp Hlp)
      as (raw & Hraw & H1 & H2).
    exists raw. unfold PackStreamFacts.contents. rewrite Hraw.
    repeat split; assumption. }
  assert (Hsizes : Forall (fun r => blen (wrapped r) < 2 ^ 32) results).
  { apply List.Forall_forall. intros r Hr.
    destruct (Hplace r Hr) as (i & Hi & Hin).
    destruct (Hfrom r i Hr Hi) as (_ & lp & Hlp & ->).
    destruct (Hcontents lp) as (raw & _ & Hc & _ & Hw).
    { apply list_elem_of_In. eapply list_elem_of_lookup_2, Hlp. }
    cbn [PackStreamFacts.compressed wrapped]. rewrite Hc.
    rewrite blen_buildFileWrapper. lia. }
  assert (Htotal : blocks_total results
                   = blocks_total (map (compressed level 0) locals)).
  { rewrite !blocks_total_sum, map_map. now apply sum_perm. }
  set (st := phase3 n so results).
  set (dtData := concat (map node_bytes (nodes t))) in *.
  set (stringData := StringTable.build (stb p1)) in *.
  set (arc := {| dt := dtData; strings := stringData;
                 meta := buildMetaData n st; fat := buildFatData st;
                 dat := Some (datOut st) |}).
  destruct (results_read_back n so results arc Hidx Hso Hsizes
              ltac:(lia) eq_refl eq_refl eq_refl)
    as (Hdat & Hfat & Hmeta & Hback).
  fold st in Hdat, Hfat, Hmeta, Hback.
  pose proof (Hindex (buildMetaData n st) (buildFatData st) (Some (datOut st)))
    as Hio.
  fold arc in Hio.
  assert (Hn25 : Z.of_nat n < 2 ^ 25).
  { assert (Hk0 : Forall (fun k : Buffer => k <> []) (keys p1)).
    { destruct Hio as [_ _ _ Hk _ _].
      eapply Forall_impl; [exact Hk|]. now intros k [H _]. }
    pose proof (count_le_concat (keys p1) Hk0) as Hc.
    unfold n, blen in *. lia. }
  destruct (written_archive dtData stringData (buildMetaData n st)
              (buildFatData st) (Some (datOut st)))
    as (idxFile & idx & Hwrite & Hopen).
  { unfold dtData. rewrite blen_node_table, Hnodes. fold n. lia. }
  { unfold stringData, StringTable.build, blen.
    rewrite (length_concat_fixed 64).
    - unfold blen in Hsize. lia.
    - exact Htable. }
  { change (blen (meta arc) < 2 ^ 32). lia. }
  { change (blen (fat arc) < 2 ^ 32). lia. }
  { pose proof (blen_nonneg stringData).
    pose proof (blen_nonneg (buildMetaData n st)).
    pose proof (blen_nonneg (buildFatData st)).
    unfold dtData. rewrite blen_node_table, Hnodes. lia. }
  fold arc in Hopen.
  assert (Hper : forall (i : nat) (key lp : Buffer),
            keys p1 !! i = Some key -> locals !! i = Some lp ->
            exists raw,
              readFileSync lp = Ok raw /\
              (~ In x2f key ->
                 Extract.findMeta arc key = Ok (Z.of_nat i + 1, Z.of_nat i)) /\
              Extract.readFileBytes inflate arc (Z.of_nat i) = Ok raw).
  { intros i key lp Hk Hl.
    pose proof (lookup_lt_Some _ _ _ Hk) as Hi. fold n in Hi.
    destruct (Hcontents lp) as (raw & Hraw & Hc & Hr32 & Hw32).
    { apply list_elem_of_In. eapply list_elem_of_lookup_2, Hl. }
    exists raw. split; [exact Hraw|]. split.
    - intros Hslash. unfold Extract.findMeta.
      rewrite (findNode_slash_free arc key Hslash).
      destruct (findNodeBytes_inserted arc (nodes t) (keys p1) i key Hio Hk)
        as (Hfind & nd & Hnd' & Hmi).
      rewrite Hfind. cbn [rbind].
      destruct (Z.ltb_spec (Z.of_nat i + 1) 0); [lia|].
      rewrite Hnd'. cbn [rbind]. now rewrite Hmi.
    - destruct (Hback (Z.of_nat i) ltac:(lia)) as (r & m & Hr & Hor & Hm & Hrd).
      destruct (Hfrom r (Z.of_nat i) Hr Hor) as (_ & lp' & Hlp' & Er).
      rewrite Nat2Z.id, Hl in Hlp'. injection Hlp' as <-.
      unfold Extract.readFileBytes. rewrite Hm. cbn [rbind].
      rewrite Hrd. cbn [rbind]. rewrite Er.
      cbn [PackStreamFacts.compressed wrapped]. rewrite Hc.
      apply decode_of_wrapper; [apply Hz|exact Hr32]. }
  assert (Hmc : metaCount arc = Z.of_nat n).
  { unfold metaCount, META_SIZE. rewrite Hmeta, Z.mul_comm.
    apply Z.div_mul. lia. }
  assert (Hverify :
    Pack.verifyArchive inflate readFileSync isFileNow idxFile (datOut st)
      (validPaths p1) locals = Ok (Z.of_nat n, 0)).
  { unfold Pack.verifyArchive. rewrite Hopen. cbn [rbind snd].
    destruct (iterEntries_index arc (nodes t) (keys p1) Hio)
      as (entries & Hit & Hel & Hall).
    rewrite Hit, Hvalid. rewrite (verify_fold arc _ entries).
    - cbn [rbind]. rewrite Hel. reflexivity.
    - intros e He v x.
      apply list_elem_of_In, list_elem_of_lookup_1 in He as (j & Hj).
      pose proof (Hall j e Hj) as Hent. pose proof Hent as (_ & _ & Hkj).
      destruct (locals !! j) as [lp|] eqn:El.
      2:{ apply lookup_ge_None in El. apply lookup_lt_Some in Hkj. lia. }
      destruct (Hper j (snd e) lp Hkj El) as (raw & Hraw & _ & Hrd).
      eapply verify_step_ok; eassumption. }
  exists {| Pack.Stats.files := Z.of_nat n;
            Pack.Stats.skipped := skipped p1;
            Pack.Stats.deduped := deduped p1;
            Pack.Stats.rawSize := totalRawSize st;
            Pack.Stats.datSize := blen (datOut st);
            Pack.Stats.idxSize := blen idxFile;
            Pack.Stats.verified := if verify then Some (Z.of_nat n) else None;
            Pack.Stats.verifyErrors := if verify then Some 0 else None |},
    (datOut st), idxFile, idx, arc.
  cbn [Pack.Stats.files Pack.Stats.skipped Pack.Stats.deduped
       Pack.Stats.datSize Pack.Stats.idxSize Pack.Stats.verified
       Pack.Stats.verifyErrors].
  split.
  { unfold Pack.repack.
    assert (E0 : (length sources =? 0)%nat = false)
      by (destruct sources; [congruence|reflexivity]).
    rewrite E0, Ephase, Hbuild, Hbuildt, Esched, Hrun, Hvalid.
    fold n. fold st. fold stringData. rewrite Hwrite.
    rewrite Hvalid in Hverify.
    destruct verify; [rewrite Hverify|]; reflexivity. }
  split; [reflexivity|].
  split.
  { unfold cands in Hcount3. rewrite length_map in Hcount3. fold n in Hcount3.
    lia. }
  split; [reflexivity|]. split; [reflexivity|].
  split; [now intros ->|].
  split; [exact Hopen|]. split; [exact Hmc|].
  split.
  { unfold fatEntryCount. rewrite Hdat, Hfat.
    rewrite (Z.mul_comm 4), Z.div_mul by lia. reflexivity. }
  intros i key lp Hk Hl. split; [|now apply Hper].
  destruct (Forall2_lookup_lr _ _ _ _ _ _ Hlocals Hk Hl) as (s0 & Hs0).
  exists s0. exact Hs0.
Qed.

End Env.

(** *** Three candidates, two of them kept, compressed out of order *)

(** "a" from the local file "l", "b\c" from "m", and "a" once more. *)
Definition three_sources : list Pack.Source :=
  [ {| Pack.cand := {| arcPath := [x61]; isFile := true |};
       Pack.localPath := [x6c] |};
    {| Pack.cand := {| arcPath := [x62; x5c; x63]; isFile := true |};
       Pack.localPath := [x6d] |};
    {| Pack.cand := {| arcPath := [x61]; isFile := true |};
       Pack.localPath := [x6e] |} ].

(** The local file "l" holds "hi", every other one 600 bytes "z". *)
Definition three_read (p : Buffer) : result Buffer :=
  if bool_decide (p = [x6c]) then Ok [x68; x69] else Ok (replicate 600 x7a).

Definition three_size (p : Buffer) : Z :=
  if bool_decide (p = [x6c]) then 2 else 600.

Lemma repack_reads_back_witness :
  let keys := keys (fst (Pack.phase1 false three_sources)) in
  let locals := snd (Pack.phase1 false three_sources) in
  exists stats datFile idxFile idx arc,
    Pack.repack (fun b _ => b) Some (fun b => b) three_read three_size
      (fun _ => true) three_sources false 6 true true [1%nat; 0%nat]
    = (Pack.Repacked stats, Some datFile, Some idxFile) /\
    Pack.Stats.files stats = Z.of_nat (length keys) /\
    Pack.Stats.files stats + Pack.Stats.skipped stats
      + Pack.Stats.deduped stats = Z.of_nat (length three_sources) /\
    Pack.Stats.datSize stats = blen datFile /\
    Pack.Stats.idxSize stats = blen idxFile /\
    (true = true ->
       Pack.Stats.verified stats = Some (Z.of_nat (length keys)) /\
       Pack.Stats.verifyErrors stats = Some 0) /\
    Idx.openArchive idxFile (Some datFile) = Ok (idx, arc) /\
    metaCount arc = Z.of_nat (length keys) /\
    blen datFile = 512 * fatEntryCount arc /\
    forall (i : nat) (key lp : Buffer),
      keys !! i = Some key -> locals !! i = Some lp ->
      (exists s, In s three_sources /\ arcPath (Pack.cand s) = key /\
                 Pack.localPath s = lp) /\
      exists raw,
        three_read lp = Ok raw /\
        (~ In x2f key ->
           Extract.findMeta arc key = Ok (Z.of_nat i + 1, Z.of_nat i)) /\
        Extract.readFileBytes Some arc (Z.of_nat i) = Ok raw.
Proof.
  apply (repack_reads_back (fun b _ => b) Some (fun b => b) three_read
           three_size (fun _ => true) three_sources false 6 true true
           [1%nat; 0%nat]).
  - discriminate.
  - unfold three_sources.
    repeat (constructor;
            [split; [discriminate|cbn; intuition discriminate]|]).
    constructor.
  - vm_compute. reflexivity.
  - repeat (constructor;
            [eexists; split; [reflexivity|split; vm_compute; reflexivity]|]).
    constructor.
  - vm_compute. reflexivity.
  - vm_compute. apply perm_swap.
  - intros raw. reflexivity.
Defined.

End PackFacts.
(** ** Repack as a whole: a local file that cannot be read *)

Module PackFailFacts.
Import Reader Trie Repack StringFacts RepackFacts PackIndexFacts
  PackStreamFacts.

(** What has reached the data file stays there. *)
Lemma enqueueWrite_keeps (st : Phase3) (buf : Buffer) :
  exists more, datOut (enqueueWrite st buf) = datOut st ++ more.
Proof.
  unfold enqueueWrite. destruct (_ >=? _); cbn [datOut]; eauto.
  exists []. now rewrite app_nil_r.
Qed.

Lemma phase3_step_keeps (sched : option (list Z)) (st : Phase3)
    (r : CompressedFile) :
  exists more, datOut (phase3_step sched st r) = datOut st ++ more.
Proof.
  unfold phase3_step.
  match goal with
  | |- context [enqueueWrite ?s (wrapped r)] =>
      set (st0 := s); set (st1 := enqueueWrite st0 (wrapped r))
  end.
  destruct (enqueueWrite_keeps st0 (wrapped r)) as (m1 & H1).
  fold st1 in H1. change (datOut st0) with (datOut st) in H1.
  match goal with
  | |- context [if ?c then ?a else st1] => set (st2 := if c then a else st1)
  end.
  assert (H2 : exists more, datOut st2 = datOut st ++ more).
  { subst st2. destruct (0 <? _).
    - destruct (enqueueWrite_keeps st1
                  (subarray (alloc DAT_BLOCK_SIZE) 0
                     ((blen (wrapped r) + DAT_BLOCK_SIZE - 1) / DAT_BLOCK_SIZE
                        * DAT_BLOCK_SIZE - blen (wrapped r))))
        as (m2 & H2).
      exists (m1 ++ m2). now rewrite H2, H1, app_assoc.
    - eauto. }
  destruct (fat_loop _ _ _ _ _). cbn [datOut]. exact H2.
Qed.

Lemma phase3_fold_keeps (sched : option (list Z)) (results : list CompressedFile) :
  forall st,
    exists more,
      datOut (fold_left (phase3_step sched) results st) = datOut st ++ more.
Proof.
  induction results as [|r results IH]; intros st; cbn [fold_left].
  - exists []. now rewrite app_nil_r.
  - destruct (IH (phase3_step sched st r)) as (m2 & H2).
    destruct (phase3_step_keeps sched st r) as (m1 & H1).
    exists (m1 ++ m2). now rewrite H2, H1, app_assoc.
Qed.

Section Env.
Variable deflate : Buffer -> Z -> Buffer.
Variable inflate : Buffer -> option Buffer.
Variable sha1 : Buffer -> Buffer.
Variable readFileSync : Buffer -> result Buffer.
Variable fileSize : Buffer -> Z.
Variable isFileNow : Buffer -> bool.

Local Abbreviation repack :=
  (Pack.repack deflate inflate sha1 readFileSync fileSize isFileNow).

(** [readFileSync] throws on the file. *)
Definition unreadable (lp : Buffer) : Prop :=
  exists e, readFileSync lp = Throw e.

(** The stream ends with the exception of an unreadable file as soon as the
    task of one is done. *)
Lemma stream_loop_fails (level : Z) (paths : list Buffer) (order : list nat) :
  Forall (fun lp => readFileSync lp <> OutOfFuel) paths ->
  Forall (fun j => (j < length paths)%nat) order ->
  (exists j lp, In j order /\ paths !! j = Some lp /\ unreadable lp) ->
  exists results e lp,
    Pack.stream_loop deflate sha1 readFileSync paths level order
    = (results, Some e) /\
    In lp paths /\ readFileSync lp = Throw e.
Proof.
  intros Hfuel Hord. induction Hord as [|j order Hj _ IH].
  - intros (j & lp & [] & _).
  - intros (j' & lp' & Hin & Hlp' & Hun). cbn [Pack.stream_loop].
    destruct (paths !! j) as [lp|] eqn:Ep; [|apply lookup_ge_None in Ep; lia].
    assert (Hinp : In lp paths).
    { apply list_elem_of_In. eapply list_elem_of_lookup_2, Ep. }
    unfold Compress.compressSingle.
    destruct (readFileSync lp) as [raw|e|] eqn:Er; cbn [rbind].
    + destruct IH as (results & e & lp0 & Hrun & Hin0 & He).
      { destruct Hin as [<-|Hin].
        - rewrite Ep in Hlp'. injection Hlp' as <-.
          destruct Hun as (e & He). congruence.
        - eauto. }
      rewrite Hrun. eauto 8.
    + eauto 8.
    + exfalso. apply (proj1 (List.Forall_forall _ _) Hfuel lp Hinp Er).
Qed.


End Env.

(** *** Two files, the second one missing *)

(** "a" from the local file "l", "b" from "m". *)
Definition pair_sources : list Pack.Source :=
  [ {| Pack.cand := {| arcPath := [x61]; isFile := true |};
       Pack.localPath := [x6c] |};
    {| Pack.cand := {| arcPath := [x62]; isFile := true |};
       Pack.localPath := [x6d] |} ].

(** The local file "l" holds "hi"; there is no other file. *)
Definition pair_read (p : Buffer) : result Buffer :=
  if bool_decide (p = [x6c]) then Ok [x68; x69] else Throw IoFailure.


End PackFailFacts.

(** ** Listing an archive that repack has built *)

Module ListingFacts.
Import Reader Trie Repack StringTable JsFacts StringFacts TrieFacts IndexFacts
  BuildFacts PackIndexFacts PackFacts.

(** *** Every record of the string table belongs to a kept path *)

(** What [add] appends: nothing, or the whole chain of the text from the
    end of the table on. *)
Lemma add_appends (stb : StringTableBuilder) (text : Buffer) :
  text <> [] ->
  exists ext,
    records (snd (add stb text text)) = records stb ++ ext /\
    (ext = [] \/
     (fst (add stb text text) = Z.of_nat (length (records stb)) /\
      Z.of_nat (length ext) = slices text)).
Proof.
  intros Hne. unfold add.
  assert (E0 : (blen text =? 0) = false).
  { apply Z.eqb_neq. destruct text; [congruence|]. unfold blen. cbn. lia. }
  rewrite E0.
  destruct (cache stb !! text) as [cached|] eqn:Ec; cbn [fst snd records].
  - exists []. rewrite app_nil_r. split; [reflexivity|now left].
  - pose proof (slices_pos text Hne) as Hpos.
    pose proof (slice_loop_spec text (length text) 0 ltac:(lia)) as Hsl.
    rewrite Z.mul_0_r, Z.sub_0_r in Hsl.
    rewrite Hsl.
    2:{ unfold slices, blen.
        assert (0 < Z.of_nat (length text))
          by (destruct text; [congruence|cbn; lia]).
        apply Z.div_le_upper_bound; lia. }
    set (n := slices text) in *.
    set (firstIdx := Z.of_nat (length (records stb))).
    rewrite length_map, length_seqZ, (Z2Nat.id n) by lia.
    pose proof (emit_loop_spec firstIdx n (slice text) (Z.to_nat n) 0
                  (records stb)) as He.
    rewrite Z2Nat.id in He by lia. rewrite He.
    eexists. split; [reflexivity|]. right. split; [reflexivity|].
    rewrite length_map, length_seqZ. lia.
Qed.

(** Record [r] lies in the chain of the kept path [i]. *)
Definition covered (st : Phase1) : Prop :=
  forall r : nat, (1 <= r < length (records (stb st)))%nat ->
    exists (i : nat) (s : Z) (k : Buffer),
      stringIndices st !! i = Some s /\ keys st !! i = Some k /\
      s <= Z.of_nat r < s + slices k.

Lemma phase1_step_covered (b : bool) (st : Phase1) (c : Candidate) :
  phase1_ok st -> arcPath c <> [] -> covered st ->
  covered (phase1_step b st c).
Proof.
  intros Hok Hne Hcov. unfold phase1_step.
  destruct (decide (arcPath c ∈ seenPaths st)); [exact Hcov|].
  destruct (negb b && negb (isFile c)); [exact Hcov|].
  destruct (add_appends (stb st) (arcPath c) Hne) as (ext & Hrec & Hext).
  destruct (add (stb st) (arcPath c) (arcPath c)) as [strIdx stb'] eqn:Eadd.
  cbn [fst snd] in Hrec, Hext.
  intros r Hr. cbn [stb keys stringIndices records] in *.
  rewrite Hrec, length_app in Hr.
  destruct (Nat.lt_ge_cases r (length (records (stb st)))) as [Hold|Hnew].
  - destruct (Hcov r ltac:(lia)) as (i & s & k & Hs & Hk & Hin).
    exists i, s, k. split; [|split; [|exact Hin]].
    + now apply lookup_app_l_Some.
    + now apply lookup_app_l_Some.
  - destruct Hext as [->|[Hidx Hlen]]; [cbn [length] in Hr; lia|].
    exists (length (keys st)), strIdx, (arcPath c).
    split; [|split].
    + rewrite <- (p1_len st Hok). apply list_lookup_middle. reflexivity.
    + apply list_lookup_middle. reflexivity.
    + lia.
Qed.

Lemma phase1_fold_covered (b : bool) (cands : list Candidate) :
  forall st,
    phase1_ok st -> Forall (fun c => arcPath c <> []) cands -> covered st ->
    covered (fold_left (phase1_step b) cands st).
Proof.
  induction cands as [|c cands IH]; intros st Hok Hne Hcov; [exact Hcov|].
  apply Forall_cons in Hne as [Hc Hne]. cbn [fold_left].
  apply IH; [now apply phase1_step_ok_any|exact Hne|].
  now apply phase1_step_covered.
Qed.

Lemma phase1_covered (b : bool) (cands : list Candidate) :
  Forall (fun c => arcPath c <> []) cands -> covered (phase1 b cands).
Proof.
  intros Hne. apply phase1_fold_covered; [apply phase1_init_ok|exact Hne|].
  intros r Hr. cbn in Hr. lia.
Qed.

(** *** The three loops of getOrphanStrings *)

Lemma stringRecordHeader_inside (arc : PriusArchive) (i : Z) :
  0 <= i < stringRecordCount arc ->
  exists h, Listing.stringRecordHeader arc i = Ok h.
Proof.
  intros Hi. unfold Listing.stringRecordHeader, stringRecordCount in *.
  pose proof (Z.mul_div_le (blen (strings arc)) 0x40 ltac:(lia)) as Hle.
  destruct (Z.ltb_spec (i * 0x40) 0); [lia|].
  destruct (Z.ltb_spec (blen (strings arc)) (i * 0x40 + 4)); [nia|].
  cbn [orb].
  destruct (AccessFacts.readU32_inside (strings arc) (i * 0x40))
    as (h & Hh & _); [lia|lia|].
  now exists h.
Qed.

Lemma nextTargets_loop_spec (arc : PriusArchive) (count : nat) :
  forall (i : Z) (acc : gset Z),
    0 <= i -> i + Z.of_nat count <= stringRecordCount arc ->
    exists nt,
      Listing.nextTargets_loop arc count i acc = Ok nt /\
      forall (j h : Z),
        i <= j < i + Z.of_nat count ->
        Listing.stringRecordHeader arc j = Ok h ->
        0 < js_and h 0x7fffffff < stringRecordCount arc ->
        js_and h 0x7fffffff ∈ nt.
Proof.
  induction count as [|count IH]; intros i acc Hi Hc.
  - exists acc. split; [reflexivity|]. intros j h Hj. lia.
  - cbn [Listing.nextTargets_loop].
    destruct (stringRecordHeader_inside arc i ltac:(lia)) as (h0 & Hh0).
    rewrite Hh0. cbn [rbind].
    match goal with
    | |- context [Listing.nextTargets_loop arc count (i + 1) ?a] =>
        set (acc' := a)
    end.
    assert (Hmono : forall (n : nat) (k : Z) (a : gset Z) (nt : gset Z),
              Listing.nextTargets_loop arc n k a = Ok nt -> a ⊆ nt).
    { clear. induction n as [|n IHn]; intros k a nt H; cbn in H.
      - injection H as <-. set_solver.
      - destruct (Listing.stringRecordHeader arc k); cbn in H; try discriminate.
        apply IHn in H. destruct (_ && _) in H; set_solver. }
    destruct (IH (i + 1) acc' ltac:(lia) ltac:(lia)) as (nt & Hrun & Hall).
    exists nt. split; [exact Hrun|].
    intros j h Hj Hh Hn.
    destruct (Z.eq_dec j i) as [->|Hne].
    + rewrite Hh0 in Hh. injection Hh as <-.
      apply (Hmono _ _ _ _ Hrun). unfold acc'.
      destruct (Z.ltb_spec 0 (js_and h0 0x7fffffff)); [|lia].
      destruct (Z.ltb_spec (js_and h0 0x7fffffff) (stringRecordCount arc));
        [|lia].
      cbn [andb]. now apply elem_of_union_l, elem_of_singleton_2.
    + apply (Hall j h); [lia|exact Hh|exact Hn].
Qed.

Lemma dtStrings_loop_spec (arc : PriusArchive) (count : nat) :
  forall (i : Z) (acc : gset Z),
    (forall j, i <= j < i + Z.of_nat count -> exists n, dtNode arc j = Ok n) ->
    exists ds,
      Listing.dtStrings_loop arc count i acc = Ok ds /\
      forall (j : Z) (n : DtNode),
        i <= j < i + Z.of_nat count -> dtNode arc j = Ok n ->
        js_and (nameRaw n) 0x7fffffff ∈ ds.
Proof.
  induction count as [|count IH]; intros i acc Hnodes.
  - exists acc. split; [reflexivity|]. intros j n Hj. lia.
  - cbn [Listing.dtStrings_loop].
    destruct (Hnodes i ltac:(lia)) as (n0 & Hn0). rewrite Hn0. cbn [rbind].
    assert (Hmono : forall (m : nat) (k : Z) (a : gset Z) (ds : gset Z),
              Listing.dtStrings_loop arc m k a = Ok ds -> a ⊆ ds).
    { clear. induction m as [|m IHm]; intros k a ds H; cbn in H.
      - injection H as <-. set_solver.
      - destruct (dtNode arc k); cbn in H; try discriminate.
        apply IHm in H. set_solver. }
    destruct (IH (i + 1) ({[js_and (nameRaw n0) 0x7fffffff]} ∪ acc))
      as (ds & Hrun & Hall).
    { intros j Hj. apply Hnodes. lia. }
    exists ds. split; [exact Hrun|].
    intros j n Hj Hn.
    destruct (Z.eq_dec j i) as [->|Hne].
    + rewrite Hn0 in Hn. injection Hn as <-.
      apply (Hmono _ _ _ _ Hrun).
      now apply elem_of_union_l, elem_of_singleton_2.
    + apply (Hall j n); [lia|exact Hn].
Qed.

Lemma orphans_loop_skip (arc : PriusArchive) (nt ds : gset Z) (count : nat) :
  forall (i : Z) (acc : list (Z * Buffer)),
    (forall j, i <= j < i + Z.of_nat count -> j ∈ nt \/ j ∈ ds) ->
    Listing.orphans_loop arc count i nt ds acc = Ok acc.
Proof.
  induction count as [|count IH]; intros i acc Hall; [reflexivity|].
  cbn [Listing.orphans_loop].
  assert (E : bool_decide (i ∈ nt) || bool_decide (i ∈ ds) = true).
  { destruct (Hall i ltac:(lia)) as [H|H].
    - now rewrite (bool_decide_eq_true_2 _ H).
    - rewrite (bool_decide_eq_true_2 (i ∈ ds) H). apply orb_true_r. }
  rewrite E. apply IH. intros j Hj. apply Hall. lia.
Qed.

(** The header of a record of the table. *)
Lemma header_at (arc : PriusArchive) (recs : list Buffer) (r : nat)
    (nxt : Z) (chunk : Buffer) :
  strings arc = concat recs ->
  Forall (fun rc => length rc = 64%nat) recs ->
  recs !! r = Some (make_record nxt chunk) ->
  (length chunk <= 60)%nat -> 0 <= nxt < 2 ^ 31 ->
  Listing.stringRecordHeader arc (Z.of_nat r) = Ok (0x80000000 + nxt).
Proof.
  intros Hstr Hall Hr Hc Hn.
  destruct (chunk_at 64 recs Hall r _ Hr) as (pre & post & E & Hpre).
  pose proof (length_make_record nxt chunk Hc) as Hlen.
  unfold Listing.stringRecordHeader. rewrite Hstr, E.
  unfold blen. rewrite !length_app, Hlen, Hpre.
  destruct (Z.ltb_spec (Z.of_nat r * 0x40) 0); [lia|].
  destruct (Z.ltb_spec (Z.of_nat (64 * r + (64 + length post)))
              (Z.of_nat r * 0x40 + 4)); [lia|].
  cbn [orb].
  replace (Z.of_nat r * 0x40) with (blen pre + 0) by (unfold blen; lia).
  rewrite GrowFacts.readU32_app_r by lia.
  apply GrowFacts.readU32_app_l. now apply make_record_header.
Qed.

(** *** The index that phases 1 and 2 build *)

(** The trie of the kept paths and the name index of each of its nodes. *)
Lemma index_names (b : bool) (cands : list Candidate) :
  Forall (fun k => k <> [] /\ ~ In x00 k) (map arcPath cands) ->
  blen (concat (keys (phase1 b cands))) < 2 ^ 27 ->
  exists t,
    buildFromKeys Trie.new (keys (phase1 b cands))
      (stringIndices (phase1 b cands)) (metaIndices (phase1 b cands)) = Ok t /\
    Trie.build t = Ok (concat (map node_bytes (nodes t))) /\
    length (nodes t) = S (length (keys (phase1 b cands))) /\
    map nameRaw (nodes t)
    = 0x80000000 :: map (fun s => u32 (js_or s 0x80000000))
                        (stringIndices (phase1 b cands)) /\
    Forall (node_fits (2 ^ 32)) (nodes t).
Proof.
  intros Hkeys Hsize. set (p1 := phase1 b cands) in *.
  pose proof (phase1_inv_all b cands) as [_ Hnd _ Hlen Hmetas _ Hfrom _ _].
  fold p1 in Hnd, Hlen, Hmetas, Hfrom.
  assert (Hkeys' : Forall (fun k => k <> [] /\ ~ In x00 k) (keys p1)).
  { apply List.Forall_forall. intros k Hk.
    apply (proj1 (List.Forall_forall _ _) Hkeys k). now apply Hfrom. }
  destruct (buildFromKeys_distinct (keys p1) (stringIndices p1) Hnd Hkeys'
              Hsize Hlen)
    as (t & Hbuild & Hok & Hnames & Hms & Hfits).
  exists t. rewrite Hmetas. split; [exact Hbuild|].
  split; [unfold Trie.build; apply (build_loop_fits _ _ Hfits)|].
  split; [|split; [exact Hnames|exact Hfits]].
  rewrite <- (length_map metaIndex), Hms. cbn [length].
  now rewrite length_map, length_seq.
Qed.

(** X28. An index that [repack] builds has no orphan strings. Let every
    path of the candidates be non-empty and free of NUL and the kept paths
    take fewer than 2^27 bytes. In an archive whose trie and string
    channels are the ones that phases 1 and 2 build, whatever its other
    channels, [getOrphanStrings] returns the empty map: every string record
    but record 0 is the first record of the name of a trie node or the
    continuation that the header of the record before it names. *)
Theorem built_index_has_no_orphans (b : bool) (cands : list Candidate)
    (arc : PriusArchive) :
  Forall (fun k => k <> [] /\ ~ In x00 k) (map arcPath cands) ->
  blen (concat (keys (phase1 b cands))) < 2 ^ 27 ->
  buildIndexChannels b cands = Ok (dt arc, strings arc) ->
  Listing.getOrphanStrings arc = Ok [].
Proof.
  intros Hkeys Hsize Hch.
  destruct (index_names b cands Hkeys Hsize)
    as (t & Hbuild & Hbuildt & Hnodes & Hnames & Hfits).
  assert (Hne : Forall (fun c => arcPath c <> []) cands).
  { apply List.Forall_forall. intros c Hc.
    apply (proj1 (List.Forall_forall _ _) Hkeys (arcPath c)). now apply in_map. }
  pose proof (phase1_covered b cands Hne) as Hcov.
  pose proof (phase1_fold_ok_any b cands phase1_init phase1_init_ok Hne)
    as [_ Htab _ Hcount Hlen Hstored _ _].
  fold (phase1 b cands) in Htab, Hcount, Hlen, Hstored.
  set (p1 := phase1 b cands) in *.
  unfold buildIndexChannels in Hch. fold p1 in Hch.
  rewrite Hbuild in Hch. cbn [rbind] in Hch. rewrite Hbuildt in Hch.
  cbn [rbind] in Hch. injection Hch as Hdt Hstr.
  symmetry in Hdt, Hstr. unfold StringTable.build in Hstr.
  destruct Htab as (Hall & Hlen1 & _).
  set (recs := records (stb p1)) in *.
  assert (Hsrc : stringRecordCount arc = Z.of_nat (length recs)).
  { unfold stringRecordCount, blen.
    rewrite Hstr, (length_concat_records recs Hall).
    rewrite Nat2Z.inj_mul, Z.mul_comm. apply Z.div_mul. lia. }
  assert (Hdnc : dtNodeCount arc = Z.of_nat (length (nodes t))).
  { unfold dtNodeCount, DT_NODE_SIZE. rewrite Hdt, blen_node_table.
    rewrite Z.mul_comm. apply Z.div_mul. lia. }
  assert (Hbound : Z.of_nat (length recs) < 2 ^ 31).
  { unfold blen in Hsize. lia. }
  assert (Hnode : forall j : nat, (j < length (nodes t))%nat ->
            exists nd, nodes t !! j = Some nd /\
                       dtNode arc (Z.of_nat j) = Ok nd).
  { intros j Hj. destruct (lookup_lt_is_Some_2 (nodes t) j Hj) as (nd & Hnd).
    exists nd. split; [exact Hnd|]. now apply (dtNode_built arc (nodes t)). }
  unfold Listing.getOrphanStrings. rewrite Hsrc, Hdnc.
  destruct (nextTargets_loop_spec arc (Z.to_nat (Z.of_nat (length recs) - 1))
              1 ∅) as (nt & Hnt & Hnt_all); [lia|lia|].
  rewrite Hnt. cbn [rbind].
  destruct (dtStrings_loop_spec arc (Z.to_nat (Z.of_nat (length (nodes t))))
              0 ∅) as (ds & Hds & Hds_all).
  { intros j Hj. destruct (Hnode (Z.to_nat j) ltac:(lia)) as (nd & _ & Hnd).
    rewrite Z2Nat.id in Hnd by lia. now exists nd. }
  rewrite Hds. cbn [rbind].
  apply orphans_loop_skip. intros j Hj.
  destruct (Hcov (Z.to_nat j) ltac:(fold recs; lia)) as (i & s & k & Hs & Hk & Hin).
  rewrite Z2Nat.id in Hin by lia.
  destruct (Hstored i s k Hs Hk) as (Hs1 & Hchain). fold recs in Hchain.
  destruct (Z.eq_dec j s) as [->|Hjs].
  - right.
    pose proof (lookup_lt_Some _ _ _ Hk) as Hi.
    destruct (Hnode (S i) ltac:(lia)) as (nd & Hnd & Hread).
    assert (Hname : nameRaw nd = u32 (js_or s 0x80000000)).
    { assert (H : map nameRaw (nodes t) !! S i = Some (nameRaw nd))
        by (rewrite list_lookup_fmap, Hnd; reflexivity).
      rewrite Hnames in H.
      change (map (fun s => u32 (js_or s 0x80000000)) (stringIndices p1) !! i
              = Some (nameRaw nd)) in H.
      rewrite list_lookup_fmap, Hs in H. cbn in H. now injection H as <-. }
    pose proof (Hds_all (Z.of_nat (S i)) nd ltac:(lia) Hread) as Hmem.
    rewrite Hname, name_index_roundtrip in Hmem by lia. exact Hmem.
  - left.
    set (q := j - s - 1).
    assert (Hq : 0 <= q < slices k - 1) by (unfold q; lia).
    pose proof (Hchain q ltac:(lia)) as Hrec.
    destruct (Z.eqb_spec q (slices k - 1)) as [|_]; [lia|].
    pose proof (header_at arc recs (Z.to_nat (s + q)) (s + q + 1) (slice k q)
                  Hstr Hall Hrec (length_slice_le k q) ltac:(lia)) as Hh.
    rewrite Z2Nat.id in Hh by lia.
    pose proof (Hnt_all (s + q) _ ltac:(lia) Hh) as Hmem.
    rewrite and_low31 in Hmem.
    replace ((0x80000000 + (s + q + 1)) mod 2 ^ 31) with j in Hmem.
    + apply Hmem. lia.
    + change 0x80000000 with (1 * 2 ^ 31).
      rewrite Z.add_comm, Z.mod_add by lia.
      rewrite Z.mod_small by (unfold q; lia). unfold q. lia.
Qed.

(** *** The listing *)

Lemma metaRecord_cases (arc : PriusArchive) (i : Z) :
  0 <= i ->
  (i < metaCount arc -> exists m, metaRecord arc i = Ok m) /\
  (metaCount arc <= i -> metaRecord arc i = Throw MetaIndexOutOfRange).
Proof.
  intros Hi. unfold metaRecord, metaCount, unpackMetaRecord, META_SIZE.
  pose proof (AccessFacts.count_bound (blen (meta arc)) 16 i ltac:(lia)) as Hc.
  destruct (Z.ltb_spec (i * 16) 0) as [Hneg|Hpos]; [lia|]. cbn [orb].
  destruct (Z.ltb_spec (blen (meta arc)) (i * 16 + 16)) as [Hout|Hin].
  { split; [lia|reflexivity]. }
  split; [|lia]. intros _.
  destruct (AccessFacts.readU32_inside (meta arc) (i * 16))
    as (f & -> & _); [lia|lia|].
  destruct (AccessFacts.readU32_inside (meta arc) (i * 16 + 4))
    as (sz & -> & _); [lia|lia|].
  destruct (AccessFacts.readU32_inside (meta arc) (i * 16 + 8))
    as (sb & -> & _); [lia|lia|].
  destruct (AccessFacts.readU32_inside (meta arc) (i * 16 + 12))
    as (ex & -> & _); [lia|lia|].
  cbn [rbind]. eauto.
Qed.

(** Whether the path of meta index [i] is printed: it has a meta record,
    and with [onlyFiles] one of a size other than 0. *)
Definition shown (arc : PriusArchive) (onlyFiles : bool) (i : nat) : bool :=
  match metaRecord arc (Z.of_nat i) with
  | Ok m => negb (onlyFiles && (size m =? 0))
  | _ => false
  end.

(** The paths among [keys], kept from index [i] on, that are printed. *)
Fixpoint shown_keys (arc : PriusArchive) (onlyFiles : bool) (i : nat)
    (keys : list Buffer) : list Buffer :=
  match keys with
  | [] => []
  | k :: rest =>
      (if shown arc onlyFiles i then [k] else [])
      ++ shown_keys arc onlyFiles (S i) rest
  end.

Lemma shown_keys_all (arc : PriusArchive) (keys : list Buffer) :
  forall i : nat,
    Z.of_nat (i + length keys) <= metaCount arc ->
    shown_keys arc false i keys = keys.
Proof.
  induction keys as [|k keys IH]; intros i Hi; [reflexivity|].
  cbn [shown_keys length] in *. unfold shown at 1.
  destruct (proj1 (metaRecord_cases arc (Z.of_nat i) ltac:(lia)) ltac:(lia))
    as (m & ->).
  cbn [andb negb app]. f_equal. apply IH. lia.
Qed.

Lemma listDt_loop_index (arc : PriusArchive) (onlyFiles : bool)
    (keys : list Buffer) (entries : list (Z * DtNode * Buffer)) :
  forall (start : nat) (lines : list Buffer) (count : Z),
    length entries = length (drop start keys) ->
    (forall j e, entries !! j = Some e -> entry_of keys (start + j) e) ->
    Listing.listDt_loop arc onlyFiles entries lines count
    = (lines ++ shown_keys arc onlyFiles start (drop start keys),
       Ok (count + Z.of_nat (length (shown_keys arc onlyFiles start
                                       (drop start keys))))).
Proof.
  induction entries as [|e entries IH]; intros start lines count Hlen Hall.
  - destruct (drop start keys); [|discriminate]. cbn.
    now rewrite app_nil_r, Z.add_0_r.
  - destruct (Hall 0%nat e eq_refl) as (_ & Hmeta & Hkey).
    rewrite Nat.add_0_r in Hmeta, Hkey.
    rewrite (drop_S _ _ _ Hkey) in *. cbn [length] in Hlen.
    destruct e as [[ni node] path]. cbn [fst snd] in Hmeta, Hkey.
    cbn [Listing.listDt_loop shown_keys]. rewrite Hmeta.
    destruct (Z.ltb_spec (Z.of_nat start) 0); [lia|]. cbn [orb].
    pose proof (metaRecord_cases arc (Z.of_nat start) ltac:(lia))
      as [Hin Hout].
    assert (Hrest : forall j e', entries !! j = Some e' ->
              entry_of keys (S start + j) e').
    { intros j e' Hj. specialize (Hall (S j) e' Hj).
      now replace (start + S j)%nat with (S start + j)%nat in Hall by lia. }
    unfold shown at 1 2.
    destruct (Z.geb_spec (Z.of_nat start) (metaCount arc)) as [Hge|Hlt].
    + rewrite (Hout ltac:(lia)). cbn [app length].
      apply IH; [lia|exact Hrest].
    + destruct (Hin ltac:(lia)) as (m & ->).
      destruct (onlyFiles && (size m =? 0)); cbn [negb app length].
      * apply IH; [lia|exact Hrest].
      * rewrite (IH (S start) (lines ++ [path]) (count + 1) ltac:(lia) Hrest).
        rewrite <- app_assoc. cbn [app]. f_equal. f_equal. lia.
Qed.

(** X29. [cmdListDt] on an archive with an index that [repack] builds
    prints the kept paths. Let every path of the candidates be non-empty and
    free of NUL and the kept paths take fewer than 2^27 bytes, and let the
    archive open with the trie and string channels that phases 1 and 2
    build. Then [cmdListDt] returns; it prints, in the order in which phase
    1 kept them, the paths whose meta index has a record in the meta
    channel, with [onlyFiles] only those whose record has a size other than
    0, and reports their number as the total. Without [onlyFiles] and with
    a record for every kept path these are all kept paths. *)
Theorem cmdListDt_lists_kept (b : bool) (cands : list Candidate)
    (idxFile : Buffer) (datFile : option Buffer) (idx : PriusIdx)
    (arc : PriusArchive) (onlyFiles : bool) :
  let keys := keys (phase1 b cands) in
  let lines := shown_keys arc onlyFiles 0 keys in
  Forall (fun k => k <> [] /\ ~ In x00 k) (map arcPath cands) ->
  blen (concat keys) < 2 ^ 27 ->
  Idx.openArchive idxFile datFile = Ok (idx, arc) ->
  buildIndexChannels b cands = Ok (dt arc, strings arc) ->
  Listing.cmdListDt idxFile datFile onlyFiles
  = (lines, Ok (Z.of_nat (length lines))) /\
  (onlyFiles = false -> Z.of_nat (length keys) <= metaCount arc ->
   lines = keys).
Proof.
  intros keys lines Hkeys Hsize Hopen Hch. subst keys lines.
  destruct (index_any b cands Hkeys Hsize)
    as (t & Hbuild & Hbuildt & _ & _ & Hindex).
  unfold buildIndexChannels in Hch.
  rewrite Hbuild in Hch. cbn [rbind] in Hch. rewrite Hbuildt in Hch.
  cbn [rbind] in Hch. injection Hch as Hdt Hstr.
  pose proof (Hindex (meta arc) (fat arc) (dat arc)) as Hio.
  rewrite Hdt, Hstr in Hio.
  assert (Harc : {| dt := dt arc; strings := strings arc; meta := meta arc;
                    fat := fat arc; dat := dat arc |} = arc)
    by (destruct arc; reflexivity).
  rewrite Harc in Hio.
  destruct (iterEntries_index arc (nodes t) (keys (phase1 b cands)) Hio)
    as (entries & Hit & Hel & Hall).
  split.
  - unfold Listing.cmdListDt. rewrite Hopen. cbn [snd]. rewrite Hit.
    rewrite (listDt_loop_index arc onlyFiles (keys (phase1 b cands))
               entries 0 [] 0);
      [reflexivity|now rewrite drop_0|exact Hall].
  - intros -> Hcount. apply shown_keys_all. cbn [Nat.add]. exact Hcount.
Qed.

(** *** An index of two paths, the second one longer than a record *)

(** "a" and seventy times "b". *)
Definition listed_cands : list Candidate :=
  [ {| arcPath := [x61]; isFile := true |};
    {| arcPath := replicate 70 x62; isFile := true |} ].

(** The first meta record has the size 0. *)
Definition listed_meta : Buffer :=
  packMetaRecord 1 0 1 0 ++ packMetaRecord 1 34 1 0.

Definition listed_idx : Buffer :=
  match buildIndexChannels true listed_cands with
  | Ok (dtData, stringData) =>
      match IdxWriter.writeIdx dtData stringData listed_meta
              (packU32 0 ++ packU32 0xffffffff)
              IdxWriter.PAGE_SIZE IdxWriter.DEFAULT_PPS with
      | Ok file => file
      | _ => []
      end
  | _ => []
  end.

Definition listed_pidx : PriusIdx :=
  match Idx.openArchive listed_idx None with
  | Ok (idx, _) => idx
  | _ => {| mm := []; channels := []; pageSize := 0; stripes := 0;
            sumPages := 0; chanPrefixPages := [] |}
  end.

Definition listed_arc : PriusArchive :=
  match Idx.openArchive listed_idx None with
  | Ok (_, arc) => arc
  | _ => {| dt := []; strings := []; meta := []; fat := []; dat := None |}
  end.

Lemma built_index_has_no_orphans_witness :
  Listing.getOrphanStrings listed_arc = Ok [].
Proof.
  apply (built_index_has_no_orphans true listed_cands listed_arc).
  - unfold listed_cands.
    repeat (constructor;
            [split; [discriminate|vm_compute; intuition discriminate]|]).
    constructor.
  - vm_compute. reflexivity.
  - vm_compute. reflexivity.
Defined.

Lemma cmdListDt_lists_kept_witness :
  let keys := keys (phase1 true listed_cands) in
  let lines := shown_keys listed_arc true 0 keys in
  Listing.cmdListDt listed_idx None true
  = (lines, Ok (Z.of_nat (length lines))) /\
  (true = false -> Z.of_nat (length keys) <= metaCount listed_arc ->
   lines = keys).
Proof.
  apply (cmdListDt_lists_kept true listed_cands listed_idx None listed_pidx
           listed_arc true).
  - unfold listed_cands.
    repeat (constructor;
            [split; [discriminate|vm_compute; intuition discriminate]|]).
    constructor.
  - vm_compute. reflexivity.
  - unfold listed_pidx, listed_arc.
    assert (H : match Idx.openArchive listed_idx None with
                | Ok _ => true
                | _ => false
                end = true) by (vm_compute; reflexivity).
    destruct (Idx.openArchive listed_idx None) as [[i a]| |];
      [reflexivity|discriminate|discriminate].
  - vm_compute. reflexivity.
Defined.

End ListingFacts.
